(** * Ant-foraging simulation: pheromone field, agent step and spawn loop

    A shallow embedding of [src/main.ts] (and of the [PheromoneGrid] class of
    the earlier revision of the same file) together with the properties the
    design document states about them.

    Number model.  A JavaScript [number] is modelled by the rational it
    denotes ([Q]); [NaN] and the infinities are outside the model.  In the
    main definitions addition, multiplication and comparison are the exact
    ones; they carry the statements that do not depend on rounding (which
    cell is written, ranges, state transitions).  The statements that do
    depend on it (the decay of a cell over several ticks, sums of
    deposits, the spawn budget over several ticks) are made about the
    definitions of module [Rounded], where every rounding of the source is
    written out: to the nearest double for an arithmetic operation, to the
    nearest single for a store in a [Float32Array].  [Math.floor],
    [Math.min] and [Math.max] are the exact functions; [Math.PI] is the
    double the language fixes for it.  [Math.cos], [Math.sin] and [Math.hypot] are
    implementation-approximated in the language: they are taken as an
    interface ([MathImpl]) and every general statement holds for any
    implementation of it.  [Math.random] is an explicit stream of draws
    threaded through the code that consumes it. *)

From stdpp Require Import base list gmap.
From Stdlib Require Import ZArith QArith Qround Qabs Qpower Lia Lqa.

Local Open Scope Q_scope.

(** ** Numbers *)

Abbreviation number := Q.

Definition Qleb (a b : Q) : bool := Qle_bool a b.
Definition Qltb (a b : Q) : bool := negb (Qle_bool b a).

Notation "a <? b" := (Qltb a b) (at level 70, no associativity) : Q_scope.
Notation "a <=? b" := (Qleb a b) (at level 70, no associativity) : Q_scope.
Notation "a >? b" := (Qltb b a) (at level 70, no associativity, only parsing) : Q_scope.
Notation "a >=? b" := (Qleb b a) (at level 70, no associativity, only parsing) : Q_scope.

Definition Math_floor (x : number) : Z := Qfloor x.
Definition Math_min (a b : number) : number := if b <? a then b else a.
Definition Math_max (a b : number) : number := if a <? b then b else a.

(** [Math.PI] is the double 3.141592653589793 = 884279719003555 / 2^48. *)
Definition Math_PI : number := 884279719003555 # 281474976710656.

(** The implementation-approximated part of [Math]. *)
Class MathImpl := {
  Math_cos : number -> number;
  Math_sin : number -> number;
  Math_hypot : number -> number -> number
}.

(** One implementation, used to run the code on concrete inputs: the
    degree-8 Taylor polynomials of cosine and sine, and the square root
    rounded down to a multiple of 2^-53.  It is exact wherever it is used
    below: [cos 0 = 1], [sin 0 = 0], and [hypot] on differences whose sum of
    squares is the square of an integer. *)
Definition ref_cos (t : number) : number :=
  let t2 := t * t in
  1 - t2 / 2 + t2 * t2 / 24 - t2 * t2 * t2 / 720 + t2 * t2 * t2 * t2 / 40320.

Definition ref_sin (t : number) : number :=
  let t2 := t * t in
  t - t * t2 / 6 + t * t2 * t2 / 120 - t * t2 * t2 * t2 / 5040.

Definition ref_sqrt (q : number) : number :=
  Z.sqrt (Qfloor (q * inject_Z (2 ^ 106))) # (2 ^ 53).

Definition ref_hypot (a b : number) : number := ref_sqrt (a * a + b * b).

Definition refMath : MathImpl :=
  {| Math_cos := ref_cos; Math_sin := ref_sin; Math_hypot := ref_hypot |}.

(** ** Enumerations and parameters *)

Inductive PheromoneType := HOME | FOOD.

Inductive AgentState := FORAGING | RETURNING.

Definition isForaging (s : AgentState) : bool :=
  match s with FORAGING => true | RETURNING => false end.

Definition isReturning (s : AgentState) : bool :=
  match s with FORAGING => false | RETURNING => true end.

Record SimParams := {
  agentCount : Z;
  moveSpeed : number;
  evaporationRate : number;
  sensorAngle : number;
  sensorDist : number;
  turnSpeed : number;
  nestCount : Z;
  foodCount : Z;
  singlePheromoneMode : bool;
  uTurnChance : number;
  excitedSpeedMult : number;
  propagationChance : number;
  excitedDecayRate : number;
  usePheromoneGradient : bool;
  explorationResistance : number;
  excitedTurnSpeedMult : number;
  spawnRate : number;
  enableSortieRegulation : bool;
  enableGiveUp : bool
}.

(** The default parameters of [main.ts]. *)
Definition params0 : SimParams := {|
  agentCount := 500;
  moveSpeed := 1.5;
  evaporationRate := 0.985;
  sensorAngle := Math_PI / 4;
  sensorDist := 20;
  turnSpeed := 0.2;
  nestCount := 1;
  foodCount := 2;
  singlePheromoneMode := true;
  uTurnChance := 0.01;
  excitedSpeedMult := 2.0;
  propagationChance := 0.1;
  excitedDecayRate := 0.01;
  usePheromoneGradient := true;
  explorationResistance := 0.0;
  excitedTurnSpeedMult := 3.0;
  spawnRate := 5;
  enableSortieRegulation := false;
  enableGiveUp := false
|}.

(** ** Typed arrays

    A [Float32Array] is a list of cells.  A read outside the array is
    [undefined] in the language; [aget] answers [0] there, and the lemmas
    on well-formed grids show that no read of the code is outside.  A write
    outside the array is ignored, as the language does. *)

Abbreviation Float32Array := (list number).

Definition aget (a : Float32Array) (i : Z) : number :=
  if (i <? 0)%Z then 0 else default 0 (a !! Z.to_nat i).

Definition aset (a : Float32Array) (i : Z) (v : number) : Float32Array :=
  if (i <? 0)%Z then a else <[Z.to_nat i := v]> a.

Definition alength (a : Float32Array) : Z := Z.of_nat (length a).

(** ** PheromoneGrid (main.ts, lines 171-229) *)

Record PheromoneGrid := {
  width : Z;
  height : Z;
  homeGrid : Float32Array;
  foodGrid : Float32Array
}.

Definition set_homeGrid (g : PheromoneGrid) (a : Float32Array) : PheromoneGrid :=
  {| width := width g; height := height g; homeGrid := a; foodGrid := foodGrid g |}.

Definition set_foodGrid (g : PheromoneGrid) (a : Float32Array) : PheromoneGrid :=
  {| width := width g; height := height g; homeGrid := homeGrid g; foodGrid := a |}.

(** [new PheromoneGrid(w, h)]: both arrays have [w * h] zero cells. *)
Definition newGrid (w h : Z) : PheromoneGrid :=
  {| width := w; height := h;
     homeGrid := replicate (Z.to_nat (w * h)) 0;
     foodGrid := replicate (Z.to_nat (w * h)) 0 |}.

Definition cellIndex (g : PheromoneGrid) (x y : number) : Z :=
  (Math_floor y * width g + Math_floor x)%Z.

Definition effectiveType (p : SimParams) (type : PheromoneType) : PheromoneType :=
  if singlePheromoneMode p then HOME else type.

Definition deposit (p : SimParams) (x y : number) (type : PheromoneType)
    (amount : number) (g : PheromoneGrid) : PheromoneGrid :=
  let idx := cellIndex g x y in
  if (0 <=? idx)%Z && (idx <? alength (homeGrid g))%Z then
    match effectiveType p type with
    | HOME => set_homeGrid g (aset (homeGrid g) idx (Math_min 1 (aget (homeGrid g) idx + amount)))
    | FOOD => set_foodGrid g (aset (foodGrid g) idx (Math_min 1 (aget (foodGrid g) idx + amount)))
    end
  else g.

Definition getLevel (p : SimParams) (x y : number) (type : PheromoneType)
    (g : PheromoneGrid) : number :=
  if (x <? 0) || (x >=? inject_Z (width g)) || (y <? 0) || (y >=? inject_Z (height g))
  then -1
  else
    let idx := cellIndex g x y in
    match effectiveType p type with
    | HOME => aget (homeGrid g) idx
    | FOOD => aget (foodGrid g) idx
    end.

(** One iteration of the loop of [evaporate], at index [i]. *)
Definition evaporateAt (rate : number) (g : PheromoneGrid) (i : nat) : PheromoneGrid :=
  let i := Z.of_nat i in
  let g := set_homeGrid g (aset (homeGrid g) i (aget (homeGrid g) i * rate)) in
  let g := set_foodGrid g (aset (foodGrid g) i (aget (foodGrid g) i * rate)) in
  let g := if aget (homeGrid g) i <? 0.001 then set_homeGrid g (aset (homeGrid g) i 0) else g in
  let g := if aget (foodGrid g) i <? 0.001 then set_foodGrid g (aset (foodGrid g) i 0) else g in
  g.

Definition evaporate (rate : number) (g : PheromoneGrid) : PheromoneGrid :=
  foldl (evaporateAt rate) g (seq 0 (length (homeGrid g))).

Definition reset (g : PheromoneGrid) : PheromoneGrid :=
  {| width := width g; height := height g;
     homeGrid := replicate (length (homeGrid g)) 0;
     foodGrid := replicate (length (foodGrid g)) 0 |}.

(** ** PheromoneGrid of the earlier revision (lines 90-148 of that file)

    The class has the same four fields, so its states are the same
    records; its parameter record is the shorter one of that revision. *)

Module Earlier.

Record SimParams := {
agentCount : Z;
moveSpeed : number;
evaporationRate : number;
sensorAngle : number;
sensorDist : number;
turnSpeed : number;
nestCount : Z;
foodCount : Z;
singlePheromoneMode : bool
}.

Definition deposit (p : SimParams) (x y : number) (type : PheromoneType)
  (amount : number) (g : PheromoneGrid) : PheromoneGrid :=
let idx := (Math_floor y * width g + Math_floor x)%Z in
if (0 <=? idx)%Z && (idx <? alength (homeGrid g))%Z then
  let effectiveType := if singlePheromoneMode p then HOME else type in
  match effectiveType with
  | HOME => set_homeGrid g (aset (homeGrid g) idx (Math_min 1 (aget (homeGrid g) idx + amount)))
  | FOOD => set_foodGrid g (aset (foodGrid g) idx (Math_min 1 (aget (foodGrid g) idx + amount)))
  end
else g.

Definition getLevel (p : SimParams) (x y : number) (type : PheromoneType)
  (g : PheromoneGrid) : number :=
if (x <? 0) || (x >=? inject_Z (width g)) || (y <? 0) || (y >=? inject_Z (height g))
then -1
else
  let idx := (Math_floor y * width g + Math_floor x)%Z in
  let effectiveType := if singlePheromoneMode p then HOME else type in
  match effectiveType with
  | HOME => aget (homeGrid g) idx
  | FOOD => aget (foodGrid g) idx
  end.

Fixpoint evaporateFrom (rate : number) (n : nat) (i : Z) (g : PheromoneGrid) : PheromoneGrid :=
match n with
| O => g
| S n' =>
    let g := set_homeGrid g (aset (homeGrid g) i (aget (homeGrid g) i * rate)) in
    let g := set_foodGrid g (aset (foodGrid g) i (aget (foodGrid g) i * rate)) in
    let g := if aget (homeGrid g) i <? 0.001 then set_homeGrid g (aset (homeGrid g) i 0) else g in
    let g := if aget (foodGrid g) i <? 0.001 then set_foodGrid g (aset (foodGrid g) i 0) else g in
    evaporateFrom rate n' (i + 1)%Z g
end.

Definition evaporate (rate : number) (g : PheromoneGrid) : PheromoneGrid :=
evaporateFrom rate (length (homeGrid g)) 0%Z g.

Definition reset (g : PheromoneGrid) : PheromoneGrid :=
{| width := width g; height := height g;
   homeGrid := replicate (length (homeGrid g)) 0;
   foodGrid := replicate (length (foodGrid g)) 0 |}.

End Earlier.

(** ** Environment: nests, food sources, obstacles *)

Definition WIDTH : Z := 600.
Definition HEIGHT : Z := 600.

Module Nest.
Record t := mk { x : number; y : number; r : number; surgeTimer : Z }.
Definition set_surgeTimer (n : t) (v : Z) : t :=
  {| x := x n; y := y n; r := r n; surgeTimer := v |}.
End Nest.

Module FoodSource.
Record t := mk { x : number; y : number; r : number; surgeTimer : Z }.
End FoodSource.

Module Obstacle.
Record t := mk { x : number; y : number; w : number; h : number }.
End Obstacle.

(** ** Agents *)

Module Agent.
Record t := mk {
  x : number;
  y : number;
  angle : number;
  state : AgentState;
  pheromoneStrength : number;
  excitedLevel : Z;
  searchTime : Z;
  givingUp : bool
}.

Definition set_pos (a : t) (x' y' : number) : t :=
  mk x' y' (angle a) (state a) (pheromoneStrength a) (excitedLevel a) (searchTime a) (givingUp a).
Definition set_x (a : t) (x' : number) : t := set_pos a x' (y a).
Definition set_y (a : t) (y' : number) : t := set_pos a (x a) y'.
Definition set_angle (a : t) (v : number) : t :=
  mk (x a) (y a) v (state a) (pheromoneStrength a) (excitedLevel a) (searchTime a) (givingUp a).
Definition set_state (a : t) (v : AgentState) : t :=
  mk (x a) (y a) (angle a) v (pheromoneStrength a) (excitedLevel a) (searchTime a) (givingUp a).
Definition set_pheromoneStrength (a : t) (v : number) : t :=
  mk (x a) (y a) (angle a) (state a) v (excitedLevel a) (searchTime a) (givingUp a).
Definition set_excitedLevel (a : t) (v : Z) : t :=
  mk (x a) (y a) (angle a) (state a) (pheromoneStrength a) v (searchTime a) (givingUp a).
Definition set_searchTime (a : t) (v : Z) : t :=
  mk (x a) (y a) (angle a) (state a) (pheromoneStrength a) (excitedLevel a) v (givingUp a).
Definition set_givingUp (a : t) (v : bool) : t :=
  mk (x a) (y a) (angle a) (state a) (pheromoneStrength a) (excitedLevel a) (searchTime a) v.
End Agent.

(** ** The mutable world

    The module-level variables of [main.ts] that the simulation reads and
    writes.  [agents] is the store of agent objects: a reference to an
    agent is its index.  [rngPos] counts the calls of [Math.random] made so
    far; the call number [n] returns [draws n]. *)

Record World := {
  grid : PheromoneGrid;
  nests : list Nest.t;
  foodSources : list FoodSource.t;
  obstacles : list Obstacle.t;
  agents : list Agent.t;
  spawnAccumulator : number;
  draws : nat -> number;
  rngPos : nat
}.

Definition set_grid (w : World) (g : PheromoneGrid) : World :=
  {| grid := g; nests := nests w; foodSources := foodSources w; obstacles := obstacles w;
     agents := agents w; spawnAccumulator := spawnAccumulator w;
     draws := draws w; rngPos := rngPos w |}.

Definition set_nests (w : World) (ns : list Nest.t) : World :=
  {| grid := grid w; nests := ns; foodSources := foodSources w; obstacles := obstacles w;
     agents := agents w; spawnAccumulator := spawnAccumulator w;
     draws := draws w; rngPos := rngPos w |}.

Definition set_agents (w : World) (l : list Agent.t) : World :=
  {| grid := grid w; nests := nests w; foodSources := foodSources w; obstacles := obstacles w;
     agents := l; spawnAccumulator := spawnAccumulator w;
     draws := draws w; rngPos := rngPos w |}.

Definition set_spawnAccumulator (w : World) (v : number) : World :=
  {| grid := grid w; nests := nests w; foodSources := foodSources w; obstacles := obstacles w;
     agents := agents w; spawnAccumulator := v;
     draws := draws w; rngPos := rngPos w |}.

Definition set_rngPos (w : World) (n : nat) : World :=
  {| grid := grid w; nests := nests w; foodSources := foodSources w; obstacles := obstacles w;
     agents := agents w; spawnAccumulator := spawnAccumulator w;
     draws := draws w; rngPos := n |}.

(** ** A state monad with failure

    [None] is an uncaught [TypeError] (a property read on [undefined]). *)

Definition M (A : Type) : Type := World -> option (A * World).

#[global] Instance M_ret : MRet M := fun A a w => Some (a, w).

#[global] Instance M_bind : MBind M := fun A B k c w =>
  match c w with
  | Some (a, w') => k a w'
  | None => None
  end.

Definition throw {A} : M A := fun _ => None.

Definition gets {A} (f : World -> A) : M A := fun w => Some (f w, w).
Definition modify (f : World -> World) : M unit := fun w => Some (tt, f w).

(** [Math.random()] *)
Definition Math_random : M number :=
  fun w => Some (draws w (rngPos w), set_rngPos w (S (rngPos w))).

(** Dereferencing an agent or a nest; an absent one is [undefined]. *)
Definition getAgent (ref : nat) : M Agent.t :=
  fun w => match agents w !! ref with
           | Some a => Some (a, w)
           | None => None
           end.

Definition putAgent (ref : nat) (a : Agent.t) : M unit :=
  modify (fun w => set_agents w (<[ref := a]> (agents w))).

Definition getNest (ref : nat) : M Nest.t :=
  fun w => match nests w !! ref with
           | Some n => Some (n, w)
           | None => None
           end.

(** ** Agent methods (main.ts, lines 231-528) *)

Section AgentMethods.
Context {Mth : MathImpl}.
Variable p : SimParams.

(** [new Agent(x, y)] *)
Definition newAgent (x y : number) : M Agent.t :=
  r ← Math_random;
  mret (Agent.mk x y (r * Math_PI * 2) FORAGING 1 0 0 false).

Definition insideObstacle (a : Agent.t) (obs : Obstacle.t) : bool :=
  (Agent.x a >=? Obstacle.x obs) && (Agent.x a <=? Obstacle.x obs + Obstacle.w obs) &&
  (Agent.y a >=? Obstacle.y obs) && (Agent.y a <=? Obstacle.y obs + Obstacle.h obs).

Fixpoint handleObstaclesLoop (obss : list Obstacle.t) (prevX prevY : number)
    (a : Agent.t) : M Agent.t :=
  match obss with
  | [] => mret a
  | obs :: rest =>
      if insideObstacle a obs then
        r ← Math_random;
        mret (Agent.set_angle (Agent.set_pos a prevX prevY)
                (Agent.angle a + (Math_PI + (r - 0.5))))
      else handleObstaclesLoop rest prevX prevY a
  end.

Definition handleObstacles (prevX prevY : number) (a : Agent.t) : M Agent.t :=
  obss ← gets obstacles;
  handleObstaclesLoop obss prevX prevY a.

Definition handleBoundaries (g : PheromoneGrid) (a : Agent.t) : Agent.t :=
  let a := if Agent.x a <? 0
           then Agent.set_angle (Agent.set_x a 0) (Math_PI - Agent.angle a) else a in
  let a := if Agent.x a >=? inject_Z (width g)
           then Agent.set_angle (Agent.set_x a (inject_Z (width g) - 1)) (Math_PI - Agent.angle a)
           else a in
  let a := if Agent.y a <? 0
           then Agent.set_angle (Agent.set_y a 0) (- Agent.angle a) else a in
  let a := if Agent.y a >=? inject_Z (height g)
           then Agent.set_angle (Agent.set_y a (inject_Z (height g) - 1)) (- Agent.angle a)
           else a in
  a.

Definition getSensorPos (a : Agent.t) (ang : number) : number * number :=
  (Agent.x a + Math_cos ang * sensorDist p, Agent.y a + Math_sin ang * sensorDist p).

Definition senseAnyPheromone (a : Agent.t) : M Agent.t :=
  g ← gets grid;
  let sensorLeftAngle := Agent.angle a - sensorAngle p in
  let sensorRightAngle := Agent.angle a + sensorAngle p in
  let l := getSensorPos a sensorLeftAngle in
  let c := getSensorPos a (Agent.angle a) in
  let r := getSensorPos a sensorRightAngle in
  let getSum := fun x y : number => getLevel p x y HOME g + getLevel p x y FOOD g in
  let vLeft := getSum l.1 l.2 in
  let vCenter := getSum c.1 c.2 in
  let vRight := getSum r.1 r.2 in
  let turn := turnSpeed p * 2.0 in
  a ← (if (vCenter >? vLeft) && (vCenter >? vRight) then mret a
       else if (vCenter <? vLeft) && (vCenter <? vRight) then
         rnd ← Math_random;
         mret (Agent.set_angle a (Agent.angle a + (rnd - 0.5) * 2 * turn))
       else if vLeft >? vRight then mret (Agent.set_angle a (Agent.angle a - turn))
       else if vRight >? vLeft then mret (Agent.set_angle a (Agent.angle a + turn))
       else mret a);
  if vCenter + vLeft + vRight <? 0.01 then
    r1 ← Math_random;
    if r1 <? 0.05 then
      r2 ← Math_random;
      mret (Agent.set_angle a (Agent.angle a + (r2 - 0.5) * Math_PI))
    else mret a
  else mret a.

Definition sense (a : Agent.t) : M Agent.t :=
  if Agent.givingUp a then senseAnyPheromone a
  else
    g ← gets grid;
    let targetType := match Agent.state a with FORAGING => FOOD | RETURNING => HOME end in
    let sensorLeftAngle := Agent.angle a - sensorAngle p in
    let sensorRightAngle := Agent.angle a + sensorAngle p in
    let l := getSensorPos a sensorLeftAngle in
    let c := getSensorPos a (Agent.angle a) in
    let r := getSensorPos a sensorRightAngle in
    let vLeft := getLevel p l.1 l.2 targetType g in
    let vCenter := getLevel p c.1 c.2 targetType g in
    let vRight := getLevel p r.1 r.2 targetType g in
    let turn := turnSpeed p in
    let turn := if (0 <? Agent.excitedLevel a)%Z then turn * excitedTurnSpeedMult p else turn in
    a ← (if (vCenter >? vLeft) && (vCenter >? vRight) then mret a
         else if (vCenter <? vLeft) && (vCenter <? vRight) then
           rnd ← Math_random;
           mret (Agent.set_angle a (Agent.angle a + (rnd - 0.5) * 2 * turn))
         else if vLeft >? vRight then mret (Agent.set_angle a (Agent.angle a - turn))
         else if vRight >? vLeft then mret (Agent.set_angle a (Agent.angle a + turn))
         else mret a);
    if uTurnChance p >? 0 then
      r1 ← Math_random;
      let doUTurn := r1 <? uTurnChance p in
      let forwardPheromone := vCenter + Math_max vLeft vRight in
      doUTurn ← (if forwardPheromone <? 0.05 then
                   r2 ← Math_random;
                   mret (if r2 <? uTurnChance p * 10 then true else doUTurn)
                 else mret doUTurn);
      mret (if (doUTurn : bool) then Agent.set_angle a (Agent.angle a + Math_PI) else a)
    else mret a.

(** The search for the closest nest: [closest] is the reference held by
    [closestNest], [minDist] is [None] while it is [Infinity]. *)
Fixpoint findClosest (a : Agent.t) (ns : list Nest.t) (i closest : nat)
    (minDist : option number) : nat * option number :=
  match ns with
  | [] => (closest, minDist)
  | nest :: rest =>
      let d := Math_hypot (Agent.x a - Nest.x nest) (Agent.y a - Nest.y nest) in
      if match minDist with None => true | Some m => d <? m end
      then findClosest a rest (S i) i (Some d)
      else findClosest a rest (S i) closest minDist
  end.

Definition isOnFood (a : Agent.t) (fs : list FoodSource.t) : bool :=
  existsb (fun f => Math_hypot (Agent.x a - FoodSource.x f) (Agent.y a - FoodSource.y f)
                      <? FoodSource.r f) fs.

Definition weaken (a : Agent.t) : Agent.t :=
  if usePheromoneGradient p
  then Agent.set_pheromoneStrength a (Math_max 0 (Agent.pheromoneStrength a - 0.005))
  else Agent.set_pheromoneStrength a 1.0.

Definition handleStateAndPheromones (a : Agent.t) : M Agent.t :=
  ns ← gets nests;
  let '(closest, minDist) := findClosest a ns 0 0 None in
  let distToNest := minDist in
  closestNest ← getNest closest;
  let nestRadius := Nest.r closestNest in
  fs ← gets foodSources;
  let onFood := isOnFood a fs in
  let atNest := match distToNest with Some d => d <? nestRadius | None => false end in
  match Agent.state a with
  | FORAGING =>
      modify (fun w => set_grid w
                (deposit p (Agent.x a) (Agent.y a) HOME (Agent.pheromoneStrength a) (grid w)));;
      let a := if onFood then
                 Agent.set_excitedLevel
                   (Agent.set_angle
                      (Agent.set_pheromoneStrength (Agent.set_state a RETURNING) 1.0)
                      (Agent.angle a + Math_PI)) 2
               else weaken a in
      let a := if atNest then Agent.set_pheromoneStrength a 1.0 else a in
      mret a
  | RETURNING =>
      modify (fun w => set_grid w
                (deposit p (Agent.x a) (Agent.y a) FOOD (Agent.pheromoneStrength a) (grid w)));;
      a ← (if atNest then
             (if isReturning (Agent.state a) && (Agent.excitedLevel a =? 2)%Z
              then modify (fun w => set_nests w
                             (<[closest := Nest.set_surgeTimer closestNest 600]> (nests w)))
              else mret tt);;
             mret (Agent.set_excitedLevel
                     (Agent.set_angle
                        (Agent.set_pheromoneStrength (Agent.set_state a FORAGING) 1.0)
                        (Agent.angle a + Math_PI)) 0)
           else mret (weaken a));
      let a := if onFood then Agent.set_pheromoneStrength a 1.0 else a in
      mret a
  end.
End AgentMethods.

Section AgentUpdate.
Context {Mth : MathImpl}.
Variable p : SimParams.

(** The propagation loop over [nearbyAgents]; [this] and the elements of
    the array are references into the agent store. *)
Fixpoint propagate (this : nat) (nearbyAgents : list nat) (a : Agent.t) : M Agent.t :=
  match nearbyAgents with
  | [] => mret a
  | o :: rest =>
      if negb (o =? this)%nat then
        other ← getAgent o;
        if (Agent.excitedLevel other =? 2)%Z then
          r ← Math_random;
          if r <? propagationChance p
          then mret (Agent.set_excitedLevel a 1)
          else propagate this rest a
        else propagate this rest a
      else propagate this rest a
  end.

Definition giveUpCheck (a : Agent.t) : M Agent.t :=
  if enableGiveUp p && isForaging (Agent.state a) && (Agent.excitedLevel a =? 0)%Z then
    g ← gets grid;
    let currentHome := getLevel p (Agent.x a) (Agent.y a) HOME g in
    let currentFood := getLevel p (Agent.x a) (Agent.y a) FOOD g in
    if (currentHome >? 0.05) || (currentFood >? 0.05) then
      mret (Agent.set_givingUp (Agent.set_searchTime a 0) false)
    else
      let a := Agent.set_searchTime a (Agent.searchTime a + 1) in
      mret (if (Agent.searchTime a >? 900)%Z then Agent.set_givingUp a true else a)
  else mret a.

Definition currentSpeed (a : Agent.t) (g : PheromoneGrid) : number :=
  let speed := moveSpeed p * (if (0 <? Agent.excitedLevel a)%Z then excitedSpeedMult p else 1.0) in
  if explorationResistance p >? 0 then
    let currentPheromone :=
      Math_max (getLevel p (Agent.x a) (Agent.y a) HOME g)
               (getLevel p (Agent.x a) (Agent.y a) FOOD g) in
    let factor := 1.0 - explorationResistance p * (1.0 - currentPheromone) in
    speed * Math_max 0 factor
  else speed.

(** Lines 313-322: the tentative move, then the obstacle test, then the
    arena edges. *)
Definition moveAndCollide (speed : number) (a : Agent.t) : M Agent.t :=
  let prevX := Agent.x a in
  let prevY := Agent.y a in
  let a := Agent.set_x a (Agent.x a + Math_cos (Agent.angle a) * speed) in
  let a := Agent.set_y a (Agent.y a + Math_sin (Agent.angle a) * speed) in
  a ← handleObstacles prevX prevY a;
  g ← gets grid;
  mret (handleBoundaries g a).

Definition update (this : nat) (nearbyAgents : list nat) : M unit :=
  a ← getAgent this;
  a ← (if (0 <? Agent.excitedLevel a)%Z && (excitedDecayRate p >? 0) then
         r ← Math_random;
         mret (if r <? excitedDecayRate p then Agent.set_excitedLevel a 0 else a)
       else mret a);
  a ← (if (propagationChance p >? 0) && (Agent.excitedLevel a =? 0)%Z
       then propagate this nearbyAgents a else mret a);
  a ← sense p a;
  a ← giveUpCheck a;
  r ← Math_random;
  let wiggle := if (0 <? Agent.excitedLevel a)%Z then 0.05 else 0.2 in
  let a := Agent.set_angle a (Agent.angle a + (r - 0.5) * wiggle) in
  g ← gets grid;
  let speed := currentSpeed a g in
  a ← moveAndCollide speed a;
  a ← handleStateAndPheromones p a;
  putAgent this a.

(** ** The tick driver (main.ts, [loop], lines 673-729)

    The drawing code that follows the updates reads the state and writes
    only to the canvas; it is left out. *)

Definition tickSurgeTimers : M unit :=
  modify (fun w => set_nests w
    (map (fun nest => if (Nest.surgeTimer nest >? 0)%Z
                      then Nest.set_surgeTimer nest (Nest.surgeTimer nest - 1)
                      else nest) (nests w))).

(** [nests[k]] for the number [k]; an absent element is [undefined], and
    the first property read on it throws. *)
Definition pickNest (k : Z) : M Nest.t :=
  if (k <? 0)%Z then throw else getNest (Z.to_nat k).

(** The body of [for (let i = 0; i < spawnCount; i++)], [n] iterations left. *)
Fixpoint spawnLoop (n : nat) : M unit :=
  match n with
  | O => mret tt
  | S n' =>
      ags ← gets agents;
      if (Z.of_nat (length ags) >=? agentCount p)%Z then mret tt
      else
        ns ← gets nests;
        r ← Math_random;
        nest ← pickNest (Math_floor (r * inject_Z (Z.of_nat (length ns))));
        skip ← (if enableSortieRegulation p then
                  if (Nest.surgeTimer nest >? 0)%Z then mret false
                  else r2 ← Math_random; mret (r2 >? 0.01)
                else mret false);
        (if (skip : bool) then mret tt
         else
           a ← newAgent (Nest.x nest) (Nest.y nest);
           modify (fun w => set_agents w (agents w ++ [a])));;
        spawnLoop n'
  end.

Definition spawnPhase : M unit :=
  ags ← gets agents;
  if (Z.of_nat (length ags) <? agentCount p)%Z then
    modify (fun w => set_spawnAccumulator w (spawnAccumulator w + spawnRate p));;
    acc ← gets spawnAccumulator;
    let spawnCount := Math_floor acc in
    modify (fun w => set_spawnAccumulator w (spawnAccumulator w - inject_Z spawnCount));;
    spawnLoop (Z.to_nat spawnCount)
  else mret tt.

Definition cellSize : number := 10.
Definition cols : Z := Qceiling (inject_Z WIDTH / cellSize).

Definition bucketKey (a : Agent.t) : Z :=
  let cx := Math_floor (Agent.x a / cellSize) in
  let cy := Math_floor (Agent.y a / cellSize) in
  (cy * cols + cx)%Z.

Definition addToBucket (m : gmap Z (list nat)) (entry : nat * Agent.t) : gmap Z (list nat) :=
  let key := bucketKey entry.2 in
  let m := match m !! key with Some _ => m | None => <[key := []]> m end in
  <[key := default [] (m !! key) ++ [entry.1]]> m.

Definition buildSpatialMap (ags : list Agent.t) : gmap Z (list nat) :=
  foldl addToBucket ∅ (imap pair ags).

Fixpoint updateAll (spatialMap : gmap Z (list nat)) (refs : list nat) : M unit :=
  match refs with
  | [] => mret tt
  | ref :: rest =>
      agent ← getAgent ref;
      let key := bucketKey agent in
      let neighbors := default [] (spatialMap !! key) in
      update ref neighbors;;
      updateAll spatialMap rest
  end.

Definition loop : M unit :=
  tickSurgeTimers;;
  spawnPhase;;
  modify (fun w => set_grid w (evaporate (evaporationRate p) (grid w)));;
  ags ← gets agents;
  let spatialMap := buildSpatialMap ags in
  updateAll spatialMap (seq 0 (length ags)).

(** [k] calls of [loop]. *)
Fixpoint loops (k : nat) : M unit :=
  match k with
  | O => mret tt
  | S k' => loops k';; loop
  end.
End AgentUpdate.

(** [initAgents()] on a world whose grid, nests, food and obstacles are set up. *)
Definition initAgents (w : World) : World :=
  set_spawnAccumulator (set_agents w []) 0.

(** ** Vocabulary of the statements about the field *)

(** The array of a channel. *)
Definition channel (type : PheromoneType) (g : PheromoneGrid) : Float32Array :=
  match type with HOME => homeGrid g | FOOD => foodGrid g end.

(** A grid as the constructor makes it: both arrays hold [width * height] cells. *)
Definition wfGrid (g : PheromoneGrid) : Prop :=
  (0 <= width g)%Z /\ (0 <= height g)%Z /\
  alength (homeGrid g) = (width g * height g)%Z /\
  alength (foodGrid g) = (width g * height g)%Z.

(** The query point lies in [0,W) x [0,H). *)
Definition inBounds (g : PheromoneGrid) (x y : number) : Prop :=
  (0 <= x /\ x < inject_Z (width g)) /\ (0 <= y /\ y < inject_Z (height g)).

(** Every cell of both channels lies in [0,1]. *)
Definition cellsIn01 (g : PheromoneGrid) : Prop :=
  Forall (fun v => 0 <= v /\ v <= 1) (homeGrid g) /\
  Forall (fun v => 0 <= v /\ v <= 1) (foodGrid g).

(** Every cell of both channels is exactly 0 or at least 0.001. *)
Definition cellsSnapped (g : PheromoneGrid) : Prop :=
  Forall (fun v => v = 0 \/ 0.001 <= v) (homeGrid g) /\
  Forall (fun v => v = 0 \/ 0.001 <= v) (foodGrid g).

(** What one call of [evaporate] does to one cell. *)
Definition decayCell (rate v : number) : number :=
  if v * rate <? 0.001 then 0 else v * rate.

(** The operations of the field, as data. *)
Inductive FieldOp :=
| OpDeposit (x y : number) (type : PheromoneType) (amount : number)
| OpDecay (rate : number)
| OpReset.

Definition runOp (p : SimParams) (g : PheromoneGrid) (op : FieldOp) : PheromoneGrid :=
  match op with
  | OpDeposit x y type amount => deposit p x y type amount g
  | OpDecay rate => evaporate rate g
  | OpReset => reset g
  end.

Definition validOp (op : FieldOp) : Prop :=
  match op with
  | OpDeposit _ _ _ amount => 0 <= amount
  | OpDecay rate => 0 < rate /\ rate <= 1
  | OpReset => True
  end.

Definition runOps (p : SimParams) (ops : list FieldOp) (g : PheromoneGrid) : PheromoneGrid :=
  foldl (runOp p) g ops.

(** The loop body of [evaporate] on one array. *)
Definition stepCell (rate : number) (a : Float32Array) (i : nat) : Float32Array :=
  let a1 := <[i := default 0 (a !! i) * rate]> a in
  if default 0 (a1 !! i) <? 0.001 then <[i := 0]> a1 else a1.

(** Writing the array of a channel. *)
Definition set_channel (type : PheromoneType) (g : PheromoneGrid) (a : Float32Array) :=
  match type with HOME => set_homeGrid g a | FOOD => set_foodGrid g a end.

(** Both arrays have the same number of cells. *)
Definition sameLength (g : PheromoneGrid) : Prop :=
  length (foodGrid g) = length (homeGrid g).

(** ** Vocabulary of the statements about agents *)

(** The point lies in the open rectangle of the obstacle. *)
Definition strictlyInside (x y : number) (obs : Obstacle.t) : Prop :=
  (Obstacle.x obs < x /\ x < Obstacle.x obs + Obstacle.w obs) /\
  (Obstacle.y obs < y /\ y < Obstacle.y obs + Obstacle.h obs).

Definition clearOfObstacles (x y : number) (obss : list Obstacle.t) : Prop :=
  Forall (fun obs => ~ strictlyInside x y obs) obss.

(** The position lies on one of the four lines the boundary clamp writes. *)
Definition onClampLine (g : PheromoneGrid) (x y : number) : Prop :=
  x == 0 \/ x == inject_Z (width g) - 1 \/ y == 0 \/ y == inject_Z (height g) - 1.

Definition crossesX (g : PheromoneGrid) (a : Agent.t) : bool :=
  (Agent.x a <? 0) || (Agent.x a >=? inject_Z (width g)).

Definition crossesY (g : PheromoneGrid) (a : Agent.t) : bool :=
  (Agent.y a <? 0) || (Agent.y a >=? inject_Z (height g)).

(** Every draw of [Math.random] lies in [0,1). *)
Definition validDraws (w : World) : Prop :=
  forall n, 0 <= draws w n /\ draws w n < 1.

(** Total correctness of a computation: it returns, and the result and
    the final world satisfy [Q]. *)
Definition returns {A} (c : M A) (w : World) (Q : A -> World -> Prop) : Prop :=
  exists a w', c w = Some (a, w') /\ Q a w'.

Section AgentVocabulary.
Context {Mth : MathImpl}.

(** The arrival test of [handleStateAndPheromones]: the distance to the
    closest nest is below the radius of that nest. *)
Definition atClosestNest (a : Agent.t) (ns : list Nest.t) : bool :=
  let '(closest, minDist) := findClosest a ns 0 0 None in
  match minDist, ns !! closest with
  | Some d, Some nest => d <? Nest.r nest
  | _, _ => false
  end.
End AgentVocabulary.

(** ** Observations of a run *)

Section Observations.
Context {Mth : MathImpl}.
Variable p : SimParams.

(** The position of the agent [this] after its update. *)
Definition positionAfterUpdate (this : nat) (nearbyAgents : list nat) (w : World)
    : option (number * number) :=
  match update p this nearbyAgents w with
  | Some (_, w') =>
      match agents w' !! this with
      | Some a' => Some (Agent.x a', Agent.y a')
      | None => None
      end
  | None => None
  end.

(** The agent after the state-transition step. *)
Definition agentAfterTransition (a : Agent.t) (w : World) : option Agent.t :=
  match handleStateAndPheromones p a w with
  | Some (a', _) => Some a'
  | None => None
  end.

(** The number of agents after [k] ticks. *)
Definition populationAfter (k : nat) (w : World) : option nat :=
  match loops p k w with
  | Some (_, w') => Some (length (agents w'))
  | None => None
  end.
End Observations.

(** What a step of the agent update may change in the world: the number
    of draws consumed, the cells of the grid and the surge timers, nothing
    else. *)
Definition frame (w w' : World) : Prop :=
  obstacles w' = obstacles w /\ foodSources w' = foodSources w /\
  agents w' = agents w /\ spawnAccumulator w' = spawnAccumulator w /\
  draws w' = draws w /\
  width (grid w') = width (grid w) /\ height (grid w') = height (grid w) /\
  length (nests w') = length (nests w).

(** Steps that keep the position of the agent. *)
Definition keepsPos (a : Agent.t) (w : World) (a' : Agent.t) (w' : World) : Prop :=
  frame w w' /\ Agent.x a' = Agent.x a /\ Agent.y a' = Agent.y a.

(** Every reference held by the spatial index is below [n]. *)
Definition bucketsValid (m : gmap Z (list nat)) (n : nat) : Prop :=
  forall key l, m !! key = Some l -> Forall (fun ref => ref < n)%nat l.

(** What the phases of a tick other than the spawn block keep. *)
Definition keepsPopulation (w w' : World) : Prop :=
  length (agents w') = length (agents w) /\
  spawnAccumulator w' = spawnAccumulator w /\
  draws w' = draws w /\
  length (nests w') = length (nests w).

(** ** Concrete inputs *)

(** The default parameters with one flag changed, as the checkboxes do. *)
Definition withSinglePheromoneMode (p : SimParams) (b : bool) : SimParams :=
  {| agentCount := agentCount p; moveSpeed := moveSpeed p;
     evaporationRate := evaporationRate p; sensorAngle := sensorAngle p;
     sensorDist := sensorDist p; turnSpeed := turnSpeed p;
     nestCount := nestCount p; foodCount := foodCount p;
     singlePheromoneMode := b;
     uTurnChance := uTurnChance p; excitedSpeedMult := excitedSpeedMult p;
     propagationChance := propagationChance p; excitedDecayRate := excitedDecayRate p;
     usePheromoneGradient := usePheromoneGradient p;
     explorationResistance := explorationResistance p;
     excitedTurnSpeedMult := excitedTurnSpeedMult p; spawnRate := spawnRate p;
     enableSortieRegulation := enableSortieRegulation p;
     enableGiveUp := enableGiveUp p |}.

Definition withSortieRegulation (p : SimParams) (b : bool) : SimParams :=
  {| agentCount := agentCount p; moveSpeed := moveSpeed p;
     evaporationRate := evaporationRate p; sensorAngle := sensorAngle p;
     sensorDist := sensorDist p; turnSpeed := turnSpeed p;
     nestCount := nestCount p; foodCount := foodCount p;
     singlePheromoneMode := singlePheromoneMode p;
     uTurnChance := uTurnChance p; excitedSpeedMult := excitedSpeedMult p;
     propagationChance := propagationChance p; excitedDecayRate := excitedDecayRate p;
     usePheromoneGradient := usePheromoneGradient p;
     explorationResistance := explorationResistance p;
     excitedTurnSpeedMult := excitedTurnSpeedMult p; spawnRate := spawnRate p;
     enableSortieRegulation := b;
     enableGiveUp := enableGiveUp p |}.

(** The default parameters of the earlier revision. *)
Definition earlierParams0 : Earlier.SimParams := {|
  Earlier.agentCount := 500;
  Earlier.moveSpeed := 1.5;
  Earlier.evaporationRate := 0.985;
  Earlier.sensorAngle := Math_PI / 4;
  Earlier.sensorDist := 20;
  Earlier.turnSpeed := 0.2;
  Earlier.nestCount := 1;
  Earlier.foodCount := 4;
  Earlier.singlePheromoneMode := false
|}.

(** A 3 x 2 grid with some scent in both channels. *)
Definition smallGrid : PheromoneGrid :=
  {| width := 3; height := 2;
     homeGrid := [0; 0.5; 0; 0.25; 0; 1];
     foodGrid := [0.75; 0; 0; 0; 0.002; 0] |}.

(** The world after [initNests] with one nest (it is put at the centre),
    before any tick; every draw of [Math.random] is 0.5. *)
Definition centralNest : Nest.t := Nest.mk 300 300 20 0.

Definition startWorld : World :=
  {| grid := newGrid WIDTH HEIGHT;
     nests := [centralNest];
     foodSources := [];
     obstacles := [];
     agents := [];
     spawnAccumulator := 0;
     draws := fun _ => 0.5;
     rngPos := 0 |}.

(** The top wall of the maze, and an agent below it. *)
Definition topWall : Obstacle.t := Obstacle.mk 0 0 600 10.

Definition walledWorld : World :=
  {| grid := newGrid WIDTH HEIGHT;
     nests := [centralNest];
     foodSources := [];
     obstacles := [topWall];
     agents := [Agent.mk 300 11 0 FORAGING 1 0 0 false];
     spawnAccumulator := 0;
     draws := fun _ => 0.5;
     rngPos := 0 |}.

(** A thin obstacle over the line x = 599 and an agent to the right of it,
    heading right. *)
Definition thinObstacle : Obstacle.t := Obstacle.mk 598.5 0 1 600.

Definition edgeAgent : Agent.t := Agent.mk 599.75 300 0 FORAGING 1 0 0 false.

Definition edgeWorld : World :=
  {| grid := newGrid WIDTH HEIGHT;
     nests := [centralNest];
     foodSources := [];
     obstacles := [thinObstacle];
     agents := [edgeAgent];
     spawnAccumulator := 0;
     draws := fun _ => 0.5;
     rngPos := 0 |}.

(** A food source whose radius overlaps the radius of the nest, and a
    returning agent standing on the centre of the nest. *)
Definition nearFood : FoodSource.t := FoodSource.mk 310 300 30 0.

Definition overlapWorld : World :=
  {| grid := newGrid WIDTH HEIGHT;
     nests := [centralNest];
     foodSources := [nearFood];
     obstacles := [];
     agents := [];
     spawnAccumulator := 0;
     draws := fun _ => 0.5;
     rngPos := 0 |}.

Definition returningAgent : Agent.t := Agent.mk 300 300 0 RETURNING 0.5 0 0 false.

(** A foraging agent on a food source away from the nest. *)
Definition farFood : FoodSource.t := FoodSource.mk 100 100 30 0.

Definition foodWorld : World :=
  {| grid := newGrid WIDTH HEIGHT;
     nests := [centralNest];
     foodSources := [farFood];
     obstacles := [];
     agents := [];
     spawnAccumulator := 0;
     draws := fun _ => 0.5;
     rngPos := 0 |}.

Definition foragingAgent : Agent.t := Agent.mk 100 100 0 FORAGING 0.5 0 0 false.

(** ** Placement of nests and food, the maze (main.ts, lines 79-167) *)

Definition set_foodSources (w : World) (fs : list FoodSource.t) : World :=
  {| grid := grid w; nests := nests w; foodSources := fs; obstacles := obstacles w;
     agents := agents w; spawnAccumulator := spawnAccumulator w;
     draws := draws w; rngPos := rngPos w |}.

Definition set_obstacles (w : World) (obss : list Obstacle.t) : World :=
  {| grid := grid w; nests := nests w; foodSources := foodSources w; obstacles := obss;
     agents := agents w; spawnAccumulator := spawnAccumulator w;
     draws := draws w; rngPos := rngPos w |}.

(** The test of [isOverlapping] against one obstacle. *)
Definition overlaps (x y r : number) (obs : Obstacle.t) : bool :=
  (x + r >? Obstacle.x obs) && (x - r <? Obstacle.x obs + Obstacle.w obs) &&
  (y + r >? Obstacle.y obs) && (y - r <? Obstacle.y obs + Obstacle.h obs).

Definition isOverlapping (x y r : number) : M bool :=
  obss ← gets obstacles;
  mret (existsb (overlaps x y r) obss).

(** The body of the [do ... while] of [initFoods]; [attempts] is the
    counter before the body, [remaining] bounds the bodies still to run
    (the loop stops at 100 attempts). *)
Fixpoint placeFood (remaining : nat) (attempts : Z) : M FoodSource.t :=
  rx ← Math_random;
  ry ← Math_random;
  let f := FoodSource.mk (rx * (inject_Z WIDTH - 100) + 50)
                         (ry * (inject_Z HEIGHT - 100) + 50) 30 0 in
  let attempts := (attempts + 1)%Z in
  over ← isOverlapping (FoodSource.x f) (FoodSource.y f) (FoodSource.r f);
  if (over : bool) && (attempts <? 100)%Z then
    match remaining with
    | S remaining' => placeFood remaining' attempts
    | O => mret f
    end
  else mret f.

Fixpoint initFoodsLoop (n : nat) : M unit :=
  match n with
  | O => mret tt
  | S n' =>
      f ← placeFood 99 0;
      modify (fun w => set_foodSources w (foodSources w ++ [f]));;
      initFoodsLoop n'
  end.

Definition initFoods (p : SimParams) : M unit :=
  modify (fun w => set_foodSources w []);;
  initFoodsLoop (Z.to_nat (foodCount p)).

(** The body of the [do ... while] of [initNests] for the nest number [i]. *)
Fixpoint placeNest (remaining : nat) (i : nat) (attempts : Z) : M Nest.t :=
  n ← (if (i =? 0)%nat && (attempts =? 0)%Z then
         mret (Nest.mk (inject_Z WIDTH / 2) (inject_Z HEIGHT / 2) 20 0)
       else
         rx ← Math_random;
         ry ← Math_random;
         mret (Nest.mk (rx * (inject_Z WIDTH - 100) + 50)
                       (ry * (inject_Z HEIGHT - 100) + 50) 20 0));
  let attempts := (attempts + 1)%Z in
  over ← isOverlapping (Nest.x n) (Nest.y n) (Nest.r n);
  if (over : bool) && (attempts <? 100)%Z then
    match remaining with
    | S remaining' => placeNest remaining' i attempts
    | O => mret n
    end
  else mret n.

(** The [for] loop of [initNests] from the index [i], [n] nests to go. *)
Fixpoint initNestsLoop (n : nat) (i : nat) : M unit :=
  match n with
  | O => mret tt
  | S n' =>
      nest ← placeNest 99 i 0;
      modify (fun w => set_nests w (nests w ++ [nest]));;
      initNestsLoop n' (S i)
  end.

Definition initNests (p : SimParams) : M unit :=
  modify (fun w => set_nests w []);;
  initNestsLoop (Z.to_nat (nestCount p)) 0.

Definition pushObstacle (obs : Obstacle.t) : M unit :=
  modify (fun w => set_obstacles w (obstacles w ++ [obs])).

Definition mazeCellSize : number := 60.

(** The body of the inner loop of [initMaze] at the grid position [(x, y)]. *)
Definition mazeCell (x y : Z) : M unit :=
  let px := inject_Z x * mazeCellSize in
  let py := inject_Z y * mazeCellSize in
  pushObstacle (Obstacle.mk px py 10 10);;
  r ← Math_random;
  let dir := Math_floor (r * 4) in
  if (dir =? 0)%Z then pushObstacle (Obstacle.mk px (py - mazeCellSize) 10 mazeCellSize)
  else if (dir =? 1)%Z then pushObstacle (Obstacle.mk px py 10 mazeCellSize)
  else if (dir =? 2)%Z then pushObstacle (Obstacle.mk (px - mazeCellSize) py mazeCellSize 10)
  else if (dir =? 3)%Z then pushObstacle (Obstacle.mk px py mazeCellSize 10)
  else mret tt.

(** [for (let i = from; i < bound; i += 2) body(i)], at most [fuel] rounds. *)
Fixpoint forStep2 (fuel : nat) (i bound : Z) (body : Z -> M unit) : M unit :=
  match fuel with
  | O => mret tt
  | S fuel' =>
      if (i <? bound)%Z then body i;; forStep2 fuel' (i + 2)%Z bound body
      else mret tt
  end.

Definition initMaze : M unit :=
  modify (fun w => set_obstacles w []);;
  let cols := Math_floor (inject_Z WIDTH / mazeCellSize) in
  let rows := Math_floor (inject_Z HEIGHT / mazeCellSize) in
  pushObstacle (Obstacle.mk 0 0 (inject_Z WIDTH) 10);;
  pushObstacle (Obstacle.mk 0 (inject_Z HEIGHT - 10) (inject_Z WIDTH) 10);;
  pushObstacle (Obstacle.mk 0 0 10 (inject_Z HEIGHT));;
  pushObstacle (Obstacle.mk (inject_Z WIDTH - 10) 0 10 (inject_Z HEIGHT));;
  forStep2 (Z.to_nat rows) 2 (rows - 1)
    (fun y => forStep2 (Z.to_nat cols) 2 (cols - 1) (fun x => mazeCell x y)).

(** ** The buttons (main.ts, lines 648-669) and the start-up (lines 840-848) *)

Definition resetGrid : M unit := modify (fun w => set_grid w (reset (grid w))).

Definition onMazeClick (p : SimParams) : M unit :=
  initMaze;; resetGrid;; initNests p;; initFoods p;; modify initAgents.

Definition onClearMazeClick (p : SimParams) : M unit :=
  modify (fun w => set_obstacles w []);;
  resetGrid;; initNests p;; initFoods p;; modify initAgents.

Definition onResetClick (p : SimParams) : M unit :=
  resetGrid;; initNests p;; initFoods p;; modify initAgents.

(** The module-level state when the script starts, and the start-up calls
    that precede the first [loop]. *)
Definition bootWorld (rnd : nat -> number) : World :=
  {| grid := newGrid WIDTH HEIGHT; nests := []; foodSources := []; obstacles := [];
     agents := []; spawnAccumulator := 0; draws := rnd; rngPos := 0 |}.

Definition startUp (p : SimParams) : M unit :=
  initNests p;; initFoods p;; modify initAgents.

(** ** The statistics of [loop] (main.ts, lines 816-828) *)

Record Stats := {
  cForaging : nat;
  cReturning : nat;
  cExcited2 : nat;
  cExcited1 : nat
}.

Definition countAgent (s : Stats) (agent : Agent.t) : Stats :=
  let s := if isForaging (Agent.state agent)
           then {| cForaging := S (cForaging s); cReturning := cReturning s;
                   cExcited2 := cExcited2 s; cExcited1 := cExcited1 s |}
           else {| cForaging := cForaging s; cReturning := S (cReturning s);
                   cExcited2 := cExcited2 s; cExcited1 := cExcited1 s |} in
  if (Agent.excitedLevel agent =? 2)%Z
  then {| cForaging := cForaging s; cReturning := cReturning s;
          cExcited2 := S (cExcited2 s); cExcited1 := cExcited1 s |}
  else if (Agent.excitedLevel agent =? 1)%Z
  then {| cForaging := cForaging s; cReturning := cReturning s;
          cExcited2 := cExcited2 s; cExcited1 := S (cExcited1 s) |}
  else s.

Definition statistics (ags : list Agent.t) : Stats :=
  foldl countAgent {| cForaging := 0; cReturning := 0; cExcited2 := 0; cExcited1 := 0 |} ags.

(** ** Vocabulary of the further statements *)

(** The computation only consumed draws of [Math.random]: at most [k]. *)
Definition drawsAtMost (k : nat) (w w' : World) : Prop :=
  (rngPos w <= rngPos w' <= rngPos w + k)%nat /\ w' = set_rngPos w (rngPos w').

(** The agent kept everything but its heading. *)
Definition sameButHeading (a a' : Agent.t) : Prop :=
  a' = Agent.set_angle a (Agent.angle a').

(** The agent kept its position, state and trail strength. *)
Definition sameBody (a a' : Agent.t) : Prop :=
  Agent.x a' = Agent.x a /\ Agent.y a' = Agent.y a /\
  Agent.state a' = Agent.state a /\
  Agent.pheromoneStrength a' = Agent.pheromoneStrength a.

(** The excitation level is one of NONE, CARRIER, SOURCE. *)
Definition validLevel (a : Agent.t) : Prop :=
  (0 <= Agent.excitedLevel a <= 2)%Z.

Definition validStrength (a : Agent.t) : Prop :=
  0 <= Agent.pheromoneStrength a /\ Agent.pheromoneStrength a <= 1.

(** The search counter is not negative, and the giving-up flag is raised
    only once it has passed 900. *)
Definition giveUpOk (a : Agent.t) : Prop :=
  (0 <= Agent.searchTime a)%Z /\
  (Agent.givingUp a = true -> (900 < Agent.searchTime a)%Z).

(** An agent as a tick leaves it: inside the arena, with a trail strength
    in [0,1], a valid excitation level and a consistent giving-up flag. *)
Definition agentOk (g : PheromoneGrid) (a : Agent.t) : Prop :=
  inBounds g (Agent.x a) (Agent.y a) /\ validStrength a /\ validLevel a /\ giveUpOk a.

(** Some neighbour other than [this] is at the SOURCE level. *)
Definition sourceNearby (this : nat) (nearbyAgents : list nat) (ags : list Agent.t) : Prop :=
  exists o other, o ∈ nearbyAgents /\ o <> this /\ ags !! o = Some other /\
                  Agent.excitedLevel other = 2%Z.

(** The channel an agent in the given state lays. *)
Definition laidChannel (s : AgentState) : PheromoneType :=
  match s with FORAGING => HOME | RETURNING => FOOD end.

(** The site lies in the square [50,550) x [50,550). *)
Definition inPlacementSquare (x y : number) : Prop :=
  (50 <= x /\ x < 550) /\ (50 <= y /\ y < 550).

(** The obstacle lies within the arena and is not degenerate. *)
Definition obstacleInArena (obs : Obstacle.t) : Prop :=
  0 <= Obstacle.x obs /\ Obstacle.x obs + Obstacle.w obs <= inject_Z WIDTH /\
  0 <= Obstacle.y obs /\ Obstacle.y obs + Obstacle.h obs <= inject_Z HEIGHT /\
  0 < Obstacle.w obs /\ 0 < Obstacle.h obs.

Section MoreAgentVocabulary.
Context {Mth : MathImpl}.

(** The reference [closestNest] holds after the search loop. *)
Definition closestNestRef (a : Agent.t) (ns : list Nest.t) : nat :=
  (findClosest a ns 0 0 None).1.

(** The distance [handleStateAndPheromones] computes to a nest. *)
Definition distTo (a : Agent.t) (n : Nest.t) : number :=
  Math_hypot (Agent.x a - Nest.x n) (Agent.y a - Nest.y n).

(** [c] refers to a nest of [ns] at distance [m], no nest is closer, and
    every nest before it is farther. *)
Definition isClosest (a : Agent.t) (ns : list Nest.t) (c : nat) (m : number) : Prop :=
  exists nc, ns !! c = Some nc /\ m = distTo a nc /\
    (forall j n, ns !! j = Some n -> m <= distTo a n) /\
    (forall j n, (j < c)%nat -> ns !! j = Some n -> m < distTo a n).

(** The agent after the tentative move of [update] at the given speed. *)
Definition tentativeMove (speed : number) (a : Agent.t) : Agent.t :=
  Agent.set_pos a (Agent.x a + Math_cos (Agent.angle a) * speed)
                  (Agent.y a + Math_sin (Agent.angle a) * speed).
End MoreAgentVocabulary.

(** An agent as [new Agent(nest.x, nest.y)] makes it for a nest of [ns]. *)
Definition spawnedAt (ns : list Nest.t) (a : Agent.t) : Prop :=
  exists nest, nest ∈ ns /\
    Agent.x a = Nest.x nest /\ Agent.y a = Nest.y nest /\
    (0 <= Agent.angle a /\ Agent.angle a < Math_PI * 2) /\
    Agent.state a = FORAGING /\ Agent.pheromoneStrength a = 1 /\
    Agent.excitedLevel a = 0%Z /\ Agent.searchTime a = 0%Z /\ Agent.givingUp a = false.

(** The world changed in its agent store and in the draws consumed only. *)
Definition onlyAgentsAndDraws (w w' : World) : Prop :=
  w' = set_rngPos (set_agents w (agents w')) (rngPos w').

(** What an agent satisfies from its creation on. *)
Definition agentPre (a : Agent.t) : Prop := validStrength a /\ validLevel a /\ giveUpOk a.

(** The field as the simulation keeps it. *)
Definition fieldOk (g : PheromoneGrid) : Prop :=
  wfGrid g /\ cellsIn01 g /\ (1 <= width g)%Z /\ (1 <= height g)%Z.

(** A nest, a food source as the placement loops make them. *)
Definition nestPlaced (n : Nest.t) : Prop :=
  Nest.r n = 20 /\ Nest.surgeTimer n = 0%Z /\ inPlacementSquare (Nest.x n) (Nest.y n).

Definition foodPlaced (f : FoodSource.t) : Prop :=
  FoodSource.r f = 30 /\ FoodSource.surgeTimer f = 0%Z /\
  inPlacementSquare (FoodSource.x f) (FoodSource.y f).

(** The disc lies within the arena. *)
Definition discInArena (x y r : number) : Prop :=
  0 <= x - r /\ x + r <= inject_Z WIDTH /\ 0 <= y - r /\ y + r <= inject_Z HEIGHT.

(** The first nest as [initNests] tries it first. *)
Definition centreNest : Nest.t := Nest.mk (inject_Z WIDTH / 2) (inject_Z HEIGHT / 2) 20 0.

(** No obstacle of the list meets the bounding square of the disc. *)
Definition clearSite (x y r : number) (obss : list Obstacle.t) : Prop :=
  existsb (overlaps x y r) obss = false.

(** An obstacle of the maze: within the arena, and clear of the site that
    [initNests] tries first. *)
Definition mazePiece (obs : Obstacle.t) : Prop :=
  obstacleInArena obs /\
  overlaps (inject_Z WIDTH / 2) (inject_Z HEIGHT / 2) 20 obs = false.

(** The computation appends [2 * k] maze obstacles and consumes [k] draws. *)
Definition mazeStep (k : nat) (c : M unit) : Prop :=
  forall w, validDraws w ->
    returns c w (fun _ w' =>
      exists new,
        obstacles w' = obstacles w ++ new /\ length new = (2 * k)%nat /\
        Forall mazePiece new /\
        w' = set_rngPos (set_obstacles w (obstacles w')) (rngPos w') /\
        rngPos w' = (rngPos w + k)%nat).

(** The nest kept its site; only its surge timer may differ. *)
Definition sameSite (n n' : Nest.t) : Prop :=
  Nest.x n' = Nest.x n /\ Nest.y n' = Nest.y n /\ Nest.r n' = Nest.r n.

(** A surge timer is between 0 and the 600 ticks an arrival sets. *)
Definition timerOk (n : Nest.t) : Prop := (0 <= Nest.surgeTimer n <= 600)%Z.

(** The nests are the same in number and site, and timers in range stay
    in range. *)
Definition nestsKept (ns ns' : list Nest.t) : Prop :=
  length ns' = length ns /\
  forall i n, ns !! i = Some n ->
    exists n', ns' !! i = Some n' /\ sameSite n n' /\ (timerOk n -> timerOk n').

(** The state the simulation keeps between two ticks. *)
Definition worldOk (w : World) : Prop :=
  nests w <> [] /\ validDraws w /\ fieldOk (grid w) /\
  Forall (agentOk (grid w)) (agents w) /\ Forall timerOk (nests w).

(** The point lies in the closed rectangle of the obstacle. *)
Definition inRectangle (px py : number) (obs : Obstacle.t) : Prop :=
  (Obstacle.x obs <= px /\ px <= Obstacle.x obs + Obstacle.w obs) /\
  (Obstacle.y obs <= py /\ py <= Obstacle.y obs + Obstacle.h obs).

(** The point lies in the open disc. *)
Definition inDisc (px py x y r : number) : Prop :=
  (px - x) * (px - x) + (py - y) * (py - y) < r * r.

(** The start-up followed by [k] ticks, under the parameters in force
    during the ticks (the start-up reads [nestCount] and [foodCount]
    only). *)
Definition session {Mth : MathImpl} (p : SimParams) (k : nat) : M unit :=
  startUp p;; loops p k.

(** ** Rounding

    The arithmetic of the language rounds: the result of [+], [-] and [*]
    on numbers is the double nearest to the exact result, and a store in a
    [Float32Array] rounds the double to the nearest single-precision
    number, ties going to the even significand in both cases.  The
    definitions above take every operation as exact; the definitions of
    this section are those of the grid and of the spawn budget with every
    rounding of the source written out.  The statements that are not
    invariant under rounding (closed forms over several operations) are
    made about these.

    A value is still a rational: the rational a double or a single
    denotes.  Overflow to an infinity is outside the model: no quantity
    below comes near [2^128]. *)

(** [floor (log2 q)] for [q > 0]. *)
Definition ilog2 (q : Q) : Z :=
  let e0 := (Z.log2 (Qnum q) - Z.log2 (Zpos (Qden q)))%Z in
  if q <? 2 ^ e0 then (e0 - 1)%Z else e0.

(** The nearest integer, the even one of two nearest. *)
Definition roundHalfEven (q : Q) : Z :=
  let f := Qfloor q in
  let r := q - inject_Z f in
  if r <? 1 # 2 then f
  else if (1 # 2) <? r then (f + 1)%Z
  else if Z.even f then f else (f + 1)%Z.

(** Rounding to nearest, ties to even, in the binary format with [prec]
    bits of significand whose smallest positive number is [2^emin]. *)
Definition roundBinary (prec emin : Z) (q : Q) : Q :=
  if Qeq_bool q 0 then 0 else
  let a := Qabs q in
  let u := Z.max (ilog2 a - prec + 1) emin in
  let r := inject_Z (roundHalfEven (a / 2 ^ u)) * 2 ^ u in
  if q <? 0 then - r else r.

(** The double nearest to [q]: the result of an arithmetic operation whose
    exact result is [q], and the value of a decimal literal. *)
Definition toDouble (q : Q) : number := roundBinary 53 (-1074) q.

(** [Math.fround]: the single nearest to [q], what a store in a
    [Float32Array] keeps. *)
Definition Math_fround (q : Q) : number := roundBinary 24 (-149) q.

(** A bound on the relative error of a double operation followed by a
    store in a [Float32Array]: [2^-23]. *)
Definition storeError : Q := 1 # 8388608.

Module Rounded.

(** [deposit] (main.ts, lines 186-200): the sum is a double addition, the
    store rounds to single. *)
Definition deposit (p : SimParams) (x y : number) (type : PheromoneType)
    (amount : number) (g : PheromoneGrid) : PheromoneGrid :=
  let idx := cellIndex g x y in
  if (0 <=? idx)%Z && (idx <? alength (homeGrid g))%Z then
    match effectiveType p type with
    | HOME => set_homeGrid g (aset (homeGrid g) idx
                (Math_fround (Math_min 1 (toDouble (aget (homeGrid g) idx + amount)))))
    | FOOD => set_foodGrid g (aset (foodGrid g) idx
                (Math_fround (Math_min 1 (toDouble (aget (foodGrid g) idx + amount)))))
    end
  else g.

(** One iteration of the loop of [evaporate] (lines 214-223) at index [i]:
    the product is a double multiplication, the store rounds to single, and
    the stored cell is compared with the double [0.001]. *)
Definition evaporateAt (rate : number) (g : PheromoneGrid) (i : nat) : PheromoneGrid :=
  let i := Z.of_nat i in
  let g := set_homeGrid g (aset (homeGrid g) i
             (Math_fround (toDouble (aget (homeGrid g) i * rate)))) in
  let g := set_foodGrid g (aset (foodGrid g) i
             (Math_fround (toDouble (aget (foodGrid g) i * rate)))) in
  let g := if aget (homeGrid g) i <? toDouble 0.001
           then set_homeGrid g (aset (homeGrid g) i 0) else g in
  let g := if aget (foodGrid g) i <? toDouble 0.001
           then set_foodGrid g (aset (foodGrid g) i 0) else g in
  g.

Definition evaporate (rate : number) (g : PheromoneGrid) : PheromoneGrid :=
  foldl (evaporateAt rate) g (seq 0 (length (homeGrid g))).

(** What one call of [evaporate] does to one cell. *)
Definition decayCell (rate v : number) : number :=
  let v := Math_fround (toDouble (v * rate)) in
  if v <? toDouble 0.001 then 0 else v.

(** What one call of [deposit] does to the cell it hits. *)
Definition depositCell (amount v : number) : number :=
  Math_fround (Math_min 1 (toDouble (v + amount))).

(** The loop body of [evaporate] on one array. *)
Definition stepCell (rate : number) (a : Float32Array) (i : nat) : Float32Array :=
  let a1 := <[i := Math_fround (toDouble (default 0 (a !! i) * rate))]> a in
  if default 0 (a1 !! i) <? toDouble 0.001 then <[i := 0]> a1 else a1.

(** The three assignments of the spawn block of [loop] (lines 681-683):
    [spawnCount] and the accumulator after them. *)
Definition budget (rate : number) (spawnAccumulator : number) : Z * number :=
  let spawnAccumulator := toDouble (spawnAccumulator + rate) in
  let spawnCount := Math_floor spawnAccumulator in
  let spawnAccumulator := toDouble (spawnAccumulator - inject_Z spawnCount) in
  (spawnCount, spawnAccumulator).

(** [k] ticks of the spawn block below the ceiling with sortie regulation
    off: the number of agents spawned so far and the accumulator. *)
Fixpoint budgets (rate : number) (k : nat) : Z * number :=
  match k with
  | O => (0%Z, 0)
  | S k' =>
      let '(spawned, acc) := budgets rate k' in
      let '(spawnCount, acc) := budget rate acc in
      ((spawned + Z.max 0 spawnCount)%Z, acc)
  end.

Section Tick.
Context {Mth : MathImpl}.
Variable p : SimParams.

(** The spawn block of [loop] (lines 680-703): [+=] and [-=] on the
    accumulator are a double addition and a double subtraction. *)
Definition spawnPhase : M unit :=
  ags ← gets agents;
  if (Z.of_nat (length ags) <? agentCount p)%Z then
    modify (fun w => set_spawnAccumulator w (toDouble (spawnAccumulator w + spawnRate p)));;
    acc ← gets spawnAccumulator;
    let spawnCount := Math_floor acc in
    modify (fun w => set_spawnAccumulator w
                       (toDouble (spawnAccumulator w - inject_Z spawnCount)));;
    spawnLoop p (Z.to_nat spawnCount)
  else mret tt.

(** [loop] (lines 673-729) with the roundings of the spawn budget and of
    the decay of the field.  The update of the agents is the one of
    [loop]: it reads neither the accumulator nor the number of agents, and
    writes neither. *)
Definition loop : M unit :=
  tickSurgeTimers;;
  spawnPhase;;
  modify (fun w => set_grid w (evaporate (evaporationRate p) (grid w)));;
  ags ← gets agents;
  let spatialMap := buildSpatialMap ags in
  updateAll p spatialMap (seq 0 (length ags)).

(** [k] calls of [loop]. *)
Fixpoint loops (k : nat) : M unit :=
  match k with
  | O => mret tt
  | S k' => loops k';; loop
  end.

(** The number of agents after [k] ticks. *)
Definition populationAfter (k : nat) (w : World) : option nat :=
  match loops k w with
  | Some (_, w') => Some (length (agents w'))
  | None => None
  end.
End Tick.

End Rounded.

(** A spawn rate whose accumulation is exact in double arithmetic: a
    multiple [j / 2^m] of a power of two with [j + 2^m <= 2^53], so that
    the sum of the rate and of a fraction with the same denominator has a
    numerator of at most 53 bits. *)
Definition exactRate (s : number) : Prop :=
  exists j m : Z, (0 <= j)%Z /\ (0 <= m)%Z /\ (j + 2 ^ m <= 2 ^ 53)%Z /\
                  s == inject_Z j / 2 ^ m.

(** A fraction in [0,1) with the denominator [2^m]: what the accumulator
    carries at such a rate. *)
Definition carried (m : Z) (acc : number) : Prop :=
  exists a : Z, (0 <= a < 2 ^ m)%Z /\ acc == inject_Z a / 2 ^ m.

(** The default parameters with another spawn rate, as the slider sets it. *)
Definition withSpawnRate (p : SimParams) (s : number) : SimParams :=
  {| agentCount := agentCount p; moveSpeed := moveSpeed p;
     evaporationRate := evaporationRate p; sensorAngle := sensorAngle p;
     sensorDist := sensorDist p; turnSpeed := turnSpeed p;
     nestCount := nestCount p; foodCount := foodCount p;
     singlePheromoneMode := singlePheromoneMode p;
     uTurnChance := uTurnChance p; excitedSpeedMult := excitedSpeedMult p;
     propagationChance := propagationChance p; excitedDecayRate := excitedDecayRate p;
     usePheromoneGradient := usePheromoneGradient p;
     explorationResistance := explorationResistance p;
     excitedTurnSpeedMult := excitedTurnSpeedMult p; spawnRate := s;
     enableSortieRegulation := enableSortieRegulation p;
     enableGiveUp := enableGiveUp p |}.

(** A grid of one cell holding 1 on the HOME channel. *)
Definition unitGrid : PheromoneGrid :=
  {| width := 1; height := 1; homeGrid := [1]; foodGrid := [0] |}.

(** * Properties *)

(** ** Comparisons and the exact [Math] functions *)

Lemma Qltb_true (a b : Q) : (a <? b) = true <-> a < b.
Proof.
  unfold Qltb. rewrite negb_true_iff, <- not_true_iff_false, Qle_bool_iff.
  split; [apply Qnot_le_lt | apply Qlt_not_le].
Qed.

Lemma Qltb_false (a b : Q) : (a <? b) = false <-> b <= a.
Proof.
  unfold Qltb. rewrite negb_false_iff. apply Qle_bool_iff.
Qed.

Lemma Qleb_true (a b : Q) : (a <=? b) = true <-> a <= b.
Proof. apply Qle_bool_iff. Qed.

Lemma Qleb_false (a b : Q) : (a <=? b) = false <-> b < a.
Proof.
  unfold Qleb. rewrite <- not_true_iff_false, Qle_bool_iff.
  split; [apply Qnot_le_lt | apply Qlt_not_le].
Qed.

(** Case analysis on every rational comparison of the goal. *)
Ltac cmp_cases :=
  repeat match goal with
  | |- context [Qltb ?a ?b] =>
      let E := fresh "E" in
      destruct (Qltb a b) eqn:E;
      [apply Qltb_true in E | apply Qltb_false in E]
  | |- context [Qleb ?a ?b] =>
      let E := fresh "E" in
      destruct (Qleb a b) eqn:E;
      [apply Qleb_true in E | apply Qleb_false in E]
  end.

Lemma Math_min_le_l (a b : Q) : Math_min a b <= a.
Proof. unfold Math_min. cmp_cases; lra. Qed.

Lemma Math_min_ge (a b c : Q) : c <= a -> c <= b -> c <= Math_min a b.
Proof. unfold Math_min. cmp_cases; lra. Qed.

Lemma Math_floor_nonneg (x : Q) : 0 <= x -> (0 <= Math_floor x)%Z.
Proof.
  intros H. change 0%Z with (Qfloor 0). now apply Qfloor_resp_le.
Qed.

Lemma Math_floor_lt (x : Q) (n : Z) : x < inject_Z n -> (Math_floor x < n)%Z.
Proof.
  intros H. rewrite Zlt_Qlt.
  apply Qle_lt_trans with x; [apply Qfloor_le | exact H].
Qed.

Lemma Math_floor_neg (x : Q) : x < 0 -> (Math_floor x < 0)%Z.
Proof. apply (Math_floor_lt x 0). Qed.

Lemma Math_floor_ge (x : Q) (n : Z) : inject_Z n <= x -> (n <= Math_floor x)%Z.
Proof.
  intros H. rewrite <- (Qfloor_Z n). now apply Qfloor_resp_le.
Qed.

(** ** Typed arrays *)

Lemma aget_nat (a : Float32Array) (i : nat) : aget a (Z.of_nat i) = default 0 (a !! i).
Proof.
  unfold aget. destruct (Z.ltb_spec (Z.of_nat i) 0); [lia |].
  now rewrite Nat2Z.id.
Qed.

Lemma aset_nat (a : Float32Array) (i : nat) (v : number) :
  aset a (Z.of_nat i) v = <[i := v]> a.
Proof.
  unfold aset. destruct (Z.ltb_spec (Z.of_nat i) 0); [lia |].
  now rewrite Nat2Z.id.
Qed.

Lemma aset_length (a : Float32Array) (i : Z) (v : number) :
  length (aset a i v) = length a.
Proof. unfold aset. destruct (i <? 0)%Z; [reflexivity | apply length_insert]. Qed.

Lemma aget_aset_same (a : Float32Array) (i : Z) (v : number) :
  (0 <= i < alength a)%Z -> aget (aset a i v) i = v.
Proof.
  unfold alength. intros H. rewrite <- (Z2Nat.id i) by lia.
  rewrite aset_nat, aget_nat, list_lookup_insert_eq by lia. reflexivity.
Qed.

Lemma aget_lookup (a : Float32Array) (i : Z) :
  (0 <= i < alength a)%Z -> a !! Z.to_nat i = Some (aget a i).
Proof.
  unfold alength, aget. intros H. destruct (Z.ltb_spec i 0); [lia |].
  destruct (lookup_lt_is_Some_2 a (Z.to_nat i)) as [v Hv]; [lia |].
  now rewrite Hv.
Qed.

(** ** The loop of [evaporate], cell by cell *)

Lemma evaporateAt_eq (rate : number) (g : PheromoneGrid) (i : nat) :
  evaporateAt rate g i =
  {| width := width g; height := height g;
     homeGrid := stepCell rate (homeGrid g) i;
     foodGrid := stepCell rate (foodGrid g) i |}.
Proof.
  unfold evaporateAt, stepCell. cbn -[aget aset Qltb].
  rewrite !aget_nat, !aset_nat.
  destruct (default 0 (<[i:=default 0 (homeGrid g !! i) * rate]> (homeGrid g) !! i) <? 0.001);
    cbn -[Qltb]; destruct (_ <? _); reflexivity.
Qed.

Lemma stepCell_length (rate : number) (a : Float32Array) (i : nat) :
  length (stepCell rate a i) = length a.
Proof.
  unfold stepCell. destruct (_ <? _); rewrite ?length_insert; reflexivity.
Qed.

Lemma stepCell_lookup (rate : number) (a : Float32Array) (i j : nat) :
  stepCell rate a i !! j =
  if decide (i = j) then decayCell rate <$> a !! j else a !! j.
Proof.
  unfold stepCell. destruct (decide (i = j)) as [<- | Hne].
  - destruct (a !! i) as [v |] eqn:Hv.
    + assert (i < length a)%nat by (eapply lookup_lt_Some; eauto).
      rewrite list_lookup_insert_eq by assumption. cbn.
      unfold decayCell. destruct (v * rate <? 0.001).
      * rewrite list_lookup_insert_eq by (rewrite length_insert; assumption). reflexivity.
      * rewrite list_lookup_insert_eq by assumption. reflexivity.
    + assert (length a <= i)%nat by (apply lookup_ge_None; assumption).
      rewrite !list_insert_ge by (rewrite ?length_insert; assumption). 
      destruct (_ <? _); rewrite ?list_insert_ge by assumption; rewrite Hv; reflexivity.
  - destruct (_ <? _); rewrite !list_lookup_insert_ne by assumption; reflexivity.
Qed.

Lemma stepCells_lookup (rate : number) (a : Float32Array) (k j : nat) :
  foldl (stepCell rate) a (seq 0 k) !! j =
  if decide (j < k)%nat then decayCell rate <$> a !! j else a !! j.
Proof.
  induction k as [| k IH].
  - reflexivity.
  - rewrite seq_S, foldl_app. cbn. rewrite stepCell_lookup, IH.
    destruct (decide (k = j)) as [-> | Hne].
    + destruct (decide (j < j)%nat); [lia |].
      destruct (decide (j < S j)%nat); [reflexivity | lia].
    + destruct (decide (j < k)%nat), (decide (j < S k)%nat); try lia; reflexivity.
Qed.

Lemma stepCells_all (rate : number) (a : Float32Array) (n : nat) :
  (length a <= n)%nat -> foldl (stepCell rate) a (seq 0 n) = map (decayCell rate) a.
Proof.
  intros Hn. apply list_eq. intros j.
  rewrite stepCells_lookup, list_lookup_fmap.
  destruct (decide (j < n)%nat) as [| Hge]; [reflexivity |].
  rewrite (lookup_ge_None_2 a j) by lia. reflexivity.
Qed.

Lemma foldl_evaporateAt (rate : number) (l : list nat) (g : PheromoneGrid) :
  foldl (evaporateAt rate) g l =
  {| width := width g; height := height g;
     homeGrid := foldl (stepCell rate) (homeGrid g) l;
     foodGrid := foldl (stepCell rate) (foodGrid g) l |}.
Proof.
  revert g. induction l as [| i l IH]; intros g.
  - now destruct g.
  - cbn [foldl]. rewrite IH, evaporateAt_eq. reflexivity.
Qed.

(** On arrays of equal length, [evaporate] maps [decayCell] over both. *)
Lemma evaporate_map (rate : number) (g : PheromoneGrid) :
  length (foodGrid g) = length (homeGrid g) ->
  evaporate rate g =
  {| width := width g; height := height g;
     homeGrid := map (decayCell rate) (homeGrid g);
     foodGrid := map (decayCell rate) (foodGrid g) |}.
Proof.
  intros Hlen. unfold evaporate. rewrite foldl_evaporateAt.
  rewrite !stepCells_all by lia. reflexivity.
Qed.

(** ** Bounds test and cell index *)

Lemma getLevel_test (g : PheromoneGrid) (x y : number) :
  ((x <? 0) || (x >=? inject_Z (width g)) || (y <? 0) || (y >=? inject_Z (height g))) = false
  <-> inBounds g x y.
Proof.
  unfold inBounds. rewrite !orb_false_iff, !Qltb_false, !Qleb_false. tauto.
Qed.

Lemma cellIndex_in_range (g : PheromoneGrid) (x y : number) :
  wfGrid g -> inBounds g x y ->
  (0 <= cellIndex g x y < width g * height g)%Z.
Proof.
  intros (Hw & Hh & _ & _) [[Hx0 Hx1] [Hy0 Hy1]]. unfold cellIndex.
  pose proof (Math_floor_nonneg x Hx0). pose proof (Math_floor_nonneg y Hy0).
  pose proof (Math_floor_lt x _ Hx1). pose proof (Math_floor_lt y _ Hy1).
  nia.
Qed.

Lemma getLevel_outside (p : SimParams) (g : PheromoneGrid) (x y : number) (t : PheromoneType) :
  ~ inBounds g x y -> getLevel p x y t g = -1.
Proof.
  intros Hout. unfold getLevel.
  destruct (_ || _) eqn:E; [reflexivity |].
  apply getLevel_test in E. contradiction.
Qed.

Lemma getLevel_inside (p : SimParams) (g : PheromoneGrid) (x y : number) (t : PheromoneType) :
  inBounds g x y ->
  getLevel p x y t g = aget (channel (effectiveType p t) g) (cellIndex g x y).
Proof.
  intros Hin. unfold getLevel. apply getLevel_test in Hin. rewrite Hin.
  destruct (effectiveType p t); reflexivity.
Qed.

(** ** What [deposit] writes *)

Lemma deposit_guard (p : SimParams) (g : PheromoneGrid) (x y : number)
    (t : PheromoneType) (amount : number) :
  deposit p x y t amount g =
  if (0 <=? cellIndex g x y)%Z && (cellIndex g x y <? alength (homeGrid g))%Z then
    let ch := effectiveType p t in
    set_channel ch g
      (aset (channel ch g) (cellIndex g x y)
         (Math_min 1 (aget (channel ch g) (cellIndex g x y) + amount)))
  else g.
Proof.
  unfold deposit. destruct (_ && _); [| reflexivity].
  destruct (effectiveType p t); reflexivity.
Qed.

Lemma deposit_index_in (p : SimParams) (g : PheromoneGrid) (x y : number)
    (t : PheromoneType) (amount : number) :
  (0 <= cellIndex g x y < alength (homeGrid g))%Z ->
  deposit p x y t amount g =
  set_channel (effectiveType p t) g
    (aset (channel (effectiveType p t) g) (cellIndex g x y)
       (Math_min 1 (aget (channel (effectiveType p t) g) (cellIndex g x y) + amount))).
Proof.
  intros H. rewrite deposit_guard.
  destruct (Z.leb_spec 0 (cellIndex g x y)); [| lia].
  destruct (Z.ltb_spec (cellIndex g x y) (alength (homeGrid g))); [| lia].
  reflexivity.
Qed.

Lemma deposit_index_out (p : SimParams) (g : PheromoneGrid) (x y : number)
    (t : PheromoneType) (amount : number) :
  ~ (0 <= cellIndex g x y < alength (homeGrid g))%Z ->
  deposit p x y t amount g = g.
Proof.
  intros H. rewrite deposit_guard.
  destruct (Z.leb_spec 0 (cellIndex g x y)); [| reflexivity].
  destruct (Z.ltb_spec (cellIndex g x y) (alength (homeGrid g))); [lia | reflexivity].
Qed.

Lemma deposit_inside (p : SimParams) (g : PheromoneGrid) (x y : number)
    (t : PheromoneType) (amount : number) :
  wfGrid g -> inBounds g x y ->
  deposit p x y t amount g =
  set_channel (effectiveType p t) g
    (aset (channel (effectiveType p t) g) (cellIndex g x y)
       (Math_min 1 (aget (channel (effectiveType p t) g) (cellIndex g x y) + amount))).
Proof.
  intros Hwf Hin. apply deposit_index_in.
  pose proof (cellIndex_in_range g x y Hwf Hin) as Hr.
  destruct Hwf as (_ & _ & Hlen & _). lia.
Qed.

Lemma channel_set_channel_same (t : PheromoneType) (g : PheromoneGrid) (a : Float32Array) :
  channel t (set_channel t g a) = a.
Proof. destruct t; reflexivity. Qed.

Lemma channel_set_channel_other (t t' : PheromoneType) (g : PheromoneGrid) (a : Float32Array) :
  t <> t' -> channel t' (set_channel t g a) = channel t' g.
Proof. destruct t, t'; intros H; try reflexivity; contradiction. Qed.

Lemma cellIndex_set_channel (t : PheromoneType) (g : PheromoneGrid) (a : Float32Array)
    (x y : number) :
  cellIndex (set_channel t g a) x y = cellIndex g x y.
Proof. destruct t; reflexivity. Qed.

Lemma inBounds_set_channel (t : PheromoneType) (g : PheromoneGrid) (a : Float32Array)
    (x y : number) :
  inBounds (set_channel t g a) x y <-> inBounds g x y.
Proof. destruct t; reflexivity. Qed.

Lemma deposit_dims (p : SimParams) (g : PheromoneGrid) (x y : number)
    (t : PheromoneType) (amount : number) :
  width (deposit p x y t amount g) = width g /\
  height (deposit p x y t amount g) = height g /\
  length (homeGrid (deposit p x y t amount g)) = length (homeGrid g) /\
  length (foodGrid (deposit p x y t amount g)) = length (foodGrid g).
Proof.
  rewrite deposit_guard. destruct (_ && _); [| tauto].
  cbn zeta. destruct (effectiveType p t); cbn; rewrite aset_length; tauto.
Qed.

Lemma deposit_wf (p : SimParams) (g : PheromoneGrid) (x y : number)
    (t : PheromoneType) (amount : number) :
  wfGrid g -> wfGrid (deposit p x y t amount g).
Proof.
  unfold wfGrid, alength.
  destruct (deposit_dims p g x y t amount) as (-> & -> & -> & ->). tauto.
Qed.

Lemma evaporate_wf (rate : number) (g : PheromoneGrid) :
  wfGrid g -> wfGrid (evaporate rate g).
Proof.
  intros (Hw & Hh & Hhome & Hfood). rewrite evaporate_map.
  - unfold wfGrid, alength in *. cbn. rewrite !length_map. tauto.
  - unfold alength in *. lia.
Qed.

Lemma reset_wf (g : PheromoneGrid) : wfGrid g -> wfGrid (reset g).
Proof.
  unfold wfGrid, alength, reset. cbn. rewrite !length_replicate. tauto.
Qed.

Lemma newGrid_wf (w h : Z) : (0 <= w)%Z -> (0 <= h)%Z -> wfGrid (newGrid w h).
Proof.
  intros Hw Hh. unfold wfGrid, alength, newGrid. cbn.
  rewrite !length_replicate. repeat split; try assumption; nia.
Qed.

(** ** Deposits outside the arena *)

(** C1 (the code departs from it).  The guard of [deposit] tests the flat
    index, not the coordinates: on the 600 x 600 grid the point (-1, 1) is
    outside the arena ([getLevel] answers the sentinel there), its flat
    index is 599, and the deposit is written to the cell (599, 0). *)
Theorem deposit_outside_arena_writes :
  let g := newGrid WIDTH HEIGHT in
  ~ inBounds g (-1) 1 /\
  getLevel params0 (-1) 1 HOME g = -1 /\
  cellIndex g (-1) 1 = 599%Z /\
  homeGrid g !! 599%nat = Some 0 /\
  homeGrid (deposit params0 (-1) 1 HOME 1 g) !! 599%nat = Some 1.
Proof.
  cbn zeta.
  assert (Hout : ~ inBounds (newGrid WIDTH HEIGHT) (-1) 1).
  { intros [[H0 _] _]. revert H0. apply Qlt_not_le. reflexivity. }
  split; [exact Hout |].
  split; [apply getLevel_outside; exact Hout |].
  split; [reflexivity |].
  split; [apply lookup_replicate_2; unfold WIDTH, HEIGHT; lia |].
  rewrite deposit_index_in.
  - cbn [effectiveType params0 singlePheromoneMode set_channel channel set_homeGrid homeGrid].
    change (cellIndex (newGrid WIDTH HEIGHT) (-1) 1) with (Z.of_nat 599).
    rewrite aset_nat, aget_nat.
    rewrite list_lookup_insert_eq.
    + unfold newGrid; cbn [homeGrid].
      rewrite lookup_replicate_2 by (unfold WIDTH, HEIGHT; lia). reflexivity.
    + unfold newGrid; cbn [homeGrid]. rewrite length_replicate. unfold WIDTH, HEIGHT; lia.
  - change (cellIndex (newGrid WIDTH HEIGHT) (-1) 1) with 599%Z.
    unfold alength, newGrid; cbn [homeGrid]. rewrite length_replicate.
    unfold WIDTH, HEIGHT; lia.
Qed.

(** Inside the arena the deposit is as the design document says: only the
    cell of the truncated coordinates changes, in the effective channel. *)
Lemma deposit_inside_cell (p : SimParams) (g : PheromoneGrid) (x y : number)
    (t : PheromoneType) (amount : number) :
  wfGrid g -> inBounds g x y ->
  let g' := deposit p x y t amount g in
  let ch := effectiveType p t in
  let i := Z.to_nat (cellIndex g x y) in
  channel ch g' !! i = Some (Math_min 1 (aget (channel ch g) (cellIndex g x y) + amount)) /\
  (forall j, j <> i -> channel ch g' !! j = channel ch g !! j) /\
  (forall t', t' <> ch -> channel t' g' = channel t' g) /\
  Math_min 1 (aget (channel ch g) (cellIndex g x y) + amount) <= 1.
Proof.
  intros Hwf Hin. cbn zeta.
  pose proof (cellIndex_in_range g x y Hwf Hin) as Hr.
  rewrite (deposit_inside p g x y t amount Hwf Hin).
  rewrite channel_set_channel_same.
  assert (Hlen : alength (channel (effectiveType p t) g) = (width g * height g)%Z).
  { destruct Hwf as (_ & _ & Hh & Hf). destruct (effectiveType p t); assumption. }
  unfold aset. destruct (Z.ltb_spec (cellIndex g x y) 0); [lia |].
  repeat split.
  - apply list_lookup_insert_eq. unfold alength in Hlen. lia.
  - intros j Hj. apply list_lookup_insert_ne. congruence.
  - intros t' Ht'. apply channel_set_channel_other. congruence.
  - apply Math_min_le_l.
Qed.

(** ** Sampling *)

Lemma channel_in01 (t : PheromoneType) (g : PheromoneGrid) :
  cellsIn01 g -> Forall (fun v => 0 <= v /\ v <= 1) (channel t g).
Proof. intros [Hh Hf]. destruct t; assumption. Qed.

Lemma channel_length (t : PheromoneType) (g : PheromoneGrid) :
  wfGrid g -> alength (channel t g) = (width g * height g)%Z.
Proof. intros (_ & _ & Hh & Hf). destruct t; assumption. Qed.

(** C4.  On a well-formed grid whose cells lie in [0,1], [getLevel]
    answers the sentinel -1 exactly for the query points outside
    [0,W) x [0,H); inside, it answers the cell stored at the truncated
    coordinates in the effective channel (the HOME array in single-channel
    mode, the array of the requested channel otherwise), a value of [0,1]. *)
Theorem getLevel_sentinel_iff_outside (p : SimParams) (g : PheromoneGrid)
    (x y : number) (t : PheromoneType) :
  wfGrid g -> cellsIn01 g ->
  (getLevel p x y t g == -1 <-> ~ inBounds g x y) /\
  (inBounds g x y ->
     (0 <= Math_floor x < width g)%Z /\ (0 <= Math_floor y < height g)%Z /\
     channel (if singlePheromoneMode p then HOME else t) g
       !! Z.to_nat (Math_floor y * width g + Math_floor x)
       = Some (getLevel p x y t g) /\
     0 <= getLevel p x y t g /\ getLevel p x y t g <= 1).
Proof.
  intros Hwf H01.
  change (if singlePheromoneMode p then HOME else t) with (effectiveType p t).
  assert (Hin : inBounds g x y ->
     (0 <= Math_floor x < width g)%Z /\ (0 <= Math_floor y < height g)%Z /\
     channel (effectiveType p t) g !! Z.to_nat (Math_floor y * width g + Math_floor x)
       = Some (getLevel p x y t g) /\
     0 <= getLevel p x y t g /\ getLevel p x y t g <= 1).
  { intros Hin. pose proof (cellIndex_in_range g x y Hwf Hin) as Hr.
    rewrite (getLevel_inside p g x y t Hin).
    assert (Hl : channel (effectiveType p t) g !! Z.to_nat (cellIndex g x y)
                 = Some (aget (channel (effectiveType p t) g) (cellIndex g x y))).
    { apply aget_lookup. rewrite channel_length by assumption. exact Hr. }
    destruct Hin as [[Hx0 Hx1] [Hy0 Hy1]].
    split; [split; [apply Math_floor_nonneg | apply Math_floor_lt]; assumption |].
    split; [split; [apply Math_floor_nonneg | apply Math_floor_lt]; assumption |].
    split; [exact Hl |].
    apply (proj1 (Forall_lookup _ _) (channel_in01 (effectiveType p t) g H01) _ _ Hl). }
  split; [| exact Hin].
  split.
  - intros Hm Hb. destruct (Hin Hb) as (_ & _ & _ & H0 & _). lra.
  - intros Hout. rewrite getLevel_outside by assumption. reflexivity.
Qed.

(** ** Channels *)

Lemma getLevel_deposit_same_cell (p : SimParams) (g : PheromoneGrid) (x y : number)
    (t1 t2 : PheromoneType) (amount : number) :
  wfGrid g -> inBounds g x y -> effectiveType p t1 = effectiveType p t2 ->
  getLevel p x y t2 (deposit p x y t1 amount g) = Math_min 1 (getLevel p x y t2 g + amount).
Proof.
  intros Hwf Hin Heff.
  pose proof (cellIndex_in_range g x y Hwf Hin) as Hr.
  rewrite (getLevel_inside p g x y t2 Hin).
  rewrite (deposit_inside p g x y t1 amount Hwf Hin).
  rewrite getLevel_inside by (apply inBounds_set_channel; assumption).
  rewrite cellIndex_set_channel, <- Heff, channel_set_channel_same.
  apply aget_aset_same. rewrite channel_length by assumption. exact Hr.
Qed.

Lemma getLevel_deposit_other_channel (p : SimParams) (g : PheromoneGrid) (x y x' y' : number)
    (t t' : PheromoneType) (amount : number) :
  effectiveType p t <> effectiveType p t' ->
  getLevel p x' y' t' (deposit p x y t amount g) = getLevel p x' y' t' g.
Proof.
  intros Hne. rewrite deposit_guard. destruct (_ && _); [| reflexivity].
  cbn zeta. unfold getLevel.
  destruct (effectiveType p t), (effectiveType p t'); try contradiction; reflexivity.
Qed.

(** C5.  In single-channel mode a deposit requested on either channel at
    an in-bounds point is read back through either channel at that point
    (both go to the home array); with the mode off, a deposit on one
    channel leaves every reading of the other channel unchanged. *)
Theorem channel_isolation (p : SimParams) (g : PheromoneGrid) :
  wfGrid g ->
  (singlePheromoneMode p = true ->
     forall x y amount t1 t2, inBounds g x y ->
       getLevel p x y t2 (deposit p x y t1 amount g)
         = Math_min 1 (getLevel p x y t2 g + amount) /\
       foodGrid (deposit p x y t1 amount g) = foodGrid g) /\
  (singlePheromoneMode p = false ->
     forall x y amount t t' x' y', t <> t' ->
       getLevel p x' y' t' (deposit p x y t amount g) = getLevel p x' y' t' g).
Proof.
  intros Hwf. split; intros Hmode.
  - intros x y amount t1 t2 Hin. split.
    + apply getLevel_deposit_same_cell; try assumption.
      unfold effectiveType. rewrite Hmode. reflexivity.
    + rewrite deposit_guard. destruct (_ && _); [| reflexivity].
      unfold effectiveType. rewrite Hmode. reflexivity.
  - intros x y amount t t' x' y' Hne.
    apply getLevel_deposit_other_channel.
    unfold effectiveType. rewrite Hmode. exact Hne.
Qed.

(** ** The field invariant *)

Lemma aget_Forall (P : number -> Prop) (a : Float32Array) (i : Z) :
  P 0 -> Forall P a -> P (aget a i).
Proof.
  intros H0 Ha. unfold aget. destruct (i <? 0)%Z; [exact H0 |].
  destruct (a !! Z.to_nat i) as [v |] eqn:Hv; [| exact H0].
  cbn. eapply Forall_lookup_1; eauto.
Qed.

Lemma aset_Forall (P : number -> Prop) (a : Float32Array) (i : Z) (v : number) :
  P v -> Forall P a -> Forall P (aset a i v).
Proof.
  intros Hv Ha. unfold aset. destruct (i <? 0)%Z; [exact Ha |].
  now apply Forall_insert.
Qed.

Lemma deposit_cellsIn01 (p : SimParams) (g : PheromoneGrid) (x y : number)
    (t : PheromoneType) (amount : number) :
  0 <= amount -> cellsIn01 g -> cellsIn01 (deposit p x y t amount g).
Proof.
  intros Ha [Hh Hf]. rewrite deposit_guard. destruct (_ && _); [| split; assumption].
  cbn zeta.
  assert (Hnew : forall a, Forall (fun v => 0 <= v /\ v <= 1) a ->
            0 <= Math_min 1 (aget a (cellIndex g x y) + amount) /\
            Math_min 1 (aget a (cellIndex g x y) + amount) <= 1).
  { intros a Hall.
    assert (0 <= aget a (cellIndex g x y) /\ aget a (cellIndex g x y) <= 1) as [H0 _].
    { apply (aget_Forall (fun v => 0 <= v /\ v <= 1)); [lra | exact Hall]. }
    split; [apply Math_min_ge; lra | apply Math_min_le_l]. }
  destruct (effectiveType p t); cbn; split; try assumption;
    apply aset_Forall; auto.
Qed.

Lemma decayCell_in01 (rate v : number) :
  0 < rate /\ rate <= 1 -> 0 <= v /\ v <= 1 ->
  0 <= decayCell rate v /\ decayCell rate v <= 1.
Proof.
  intros [Hr0 Hr1] [Hv0 Hv1]. unfold decayCell. cmp_cases; [lra |].
  split; nra.
Qed.

Lemma decayCell_snapped (rate v : number) :
  decayCell rate v = 0 \/ 0.001 <= decayCell rate v.
Proof. unfold decayCell. cmp_cases; [left; reflexivity | right; assumption]. Qed.

Lemma evaporate_cellsIn01 (rate : number) (g : PheromoneGrid) :
  0 < rate /\ rate <= 1 -> sameLength g -> cellsIn01 g -> cellsIn01 (evaporate rate g).
Proof.
  intros Hr Hlen [Hh Hf]. rewrite evaporate_map by exact Hlen.
  split; cbn; apply Forall_fmap; eapply Forall_impl; eauto;
    intros v Hv; apply decayCell_in01; assumption.
Qed.

Lemma evaporate_cellsSnapped (rate : number) (g : PheromoneGrid) :
  sameLength g -> cellsSnapped (evaporate rate g).
Proof.
  intros Hlen. rewrite evaporate_map by exact Hlen.
  split; cbn; apply Forall_fmap, Forall_forall; intros v _; apply decayCell_snapped.
Qed.

Lemma reset_cellsIn01 (g : PheromoneGrid) : cellsIn01 (reset g).
Proof.
  split; cbn; apply Forall_replicate; lra.
Qed.

Lemma runOp_sameLength (p : SimParams) (op : FieldOp) (g : PheromoneGrid) :
  sameLength g -> sameLength (runOp p g op).
Proof.
  unfold sameLength. intros Hlen. destruct op as [x y t amount | rate |]; cbn.
  - destruct (deposit_dims p g x y t amount) as (_ & _ & -> & ->). exact Hlen.
  - rewrite evaporate_map by exact Hlen. cbn. rewrite !length_map. exact Hlen.
  - rewrite !length_replicate. exact Hlen.
Qed.

Lemma runOp_cellsIn01 (p : SimParams) (op : FieldOp) (g : PheromoneGrid) :
  validOp op -> sameLength g -> cellsIn01 g -> cellsIn01 (runOp p g op).
Proof.
  intros Hop Hlen H01. destruct op as [x y t amount | rate |]; cbn in *.
  - now apply deposit_cellsIn01.
  - now apply evaporate_cellsIn01.
  - apply reset_cellsIn01.
Qed.

Lemma runOps_invariant (p : SimParams) (ops : list FieldOp) (g : PheromoneGrid) :
  Forall validOp ops -> sameLength g -> cellsIn01 g ->
  sameLength (runOps p ops g) /\ cellsIn01 (runOps p ops g).
Proof.
  unfold runOps. revert g. induction ops as [| op ops IH]; intros g Hops Hlen H01.
  - split; assumption.
  - inversion Hops as [| ? ? Hop Hrest]; subst. cbn [foldl].
    apply IH; [assumption | now apply runOp_sameLength | now apply runOp_cellsIn01].
Qed.

Lemma newGrid_invariant (w h : Z) : sameLength (newGrid w h) /\ cellsIn01 (newGrid w h).
Proof.
  split; [reflexivity |]. split; cbn; apply Forall_replicate; lra.
Qed.

(** C3.  After any sequence of deposits of non-negative amounts, decays
    with a rate in (0,1] and resets, started on the all-zero field, every
    cell of both channels lies in [0,1]; and right after a decay every cell
    is either exactly 0 or at least 0.001. *)
Theorem field_cells_stay_in_unit_interval (p : SimParams) (w h : Z) (ops : list FieldOp) :
  Forall validOp ops ->
  cellsIn01 (runOps p ops (newGrid w h)) /\
  (forall ops' rate, ops = ops' ++ [OpDecay rate] ->
     cellsSnapped (runOps p ops (newGrid w h))).
Proof.
  intros Hops. destruct (newGrid_invariant w h) as [Hlen H01].
  split.
  - apply runOps_invariant; assumption.
  - intros ops' rate ->. unfold runOps. rewrite foldl_app. cbn [foldl runOp].
    apply evaporate_cellsSnapped.
    apply Forall_app in Hops as [Hops' _].
    apply (runOps_invariant p ops' _ Hops' Hlen H01).
Qed.

(** ** Powers *)

Lemma Qpower_succ (r : Q) (n : nat) :
  ~ r == 0 -> r ^ Z.of_nat (S n) == r ^ Z.of_nat n * r.
Proof.
  intros Hr. rewrite Nat2Z.inj_succ. unfold Z.succ.
  rewrite Qpower_plus by exact Hr. reflexivity.
Qed.

(** ** The two revisions of PheromoneGrid *)

Lemma earlier_evaporateFrom (rate : number) (n i : nat) (g : PheromoneGrid) :
  Earlier.evaporateFrom rate n (Z.of_nat i) g = foldl (evaporateAt rate) g (seq i n).
Proof.
  revert i g. induction n as [| n IH]; intros i g.
  - reflexivity.
  - cbn [Earlier.evaporateFrom seq foldl].
    replace (Z.of_nat i + 1)%Z with (Z.of_nat (S i)) by lia.
    rewrite IH. reflexivity.
Qed.

(** C10.  The four operations of [PheromoneGrid] in the earlier revision
    and in the current one agree on every grid state and every argument,
    the single-channel flag being the same on both sides: same resulting
    grid, same returned level. *)
Theorem revisions_agree (p : SimParams) (p0 : Earlier.SimParams) (g : PheromoneGrid)
    (x y : number) (t : PheromoneType) (amount rate : number) :
  Earlier.singlePheromoneMode p0 = singlePheromoneMode p ->
  Earlier.deposit p0 x y t amount g = deposit p x y t amount g /\
  Earlier.getLevel p0 x y t g = getLevel p x y t g /\
  Earlier.evaporate rate g = evaporate rate g /\
  Earlier.reset g = reset g.
Proof.
  intros Hmode. repeat split.
  - unfold Earlier.deposit, deposit, cellIndex, effectiveType. rewrite Hmode. reflexivity.
  - unfold Earlier.getLevel, getLevel, cellIndex, effectiveType. rewrite Hmode. reflexivity.
  - unfold Earlier.evaporate, evaporate. apply (earlier_evaporateFrom rate _ 0).
Qed.

(** ** Arena edges *)

Lemma handleBoundaries_spec (g : PheromoneGrid) (a : Agent.t) :
  (1 <= width g)%Z -> (1 <= height g)%Z ->
  let a' := handleBoundaries g a in
  Agent.x a' = (if Agent.x a <? 0 then 0
                else if Agent.x a >=? inject_Z (width g) then inject_Z (width g) - 1
                else Agent.x a) /\
  Agent.y a' = (if Agent.y a <? 0 then 0
                else if Agent.y a >=? inject_Z (height g) then inject_Z (height g) - 1
                else Agent.y a) /\
  inBounds g (Agent.x a') (Agent.y a') /\
  Agent.angle a' =
    (let t := if crossesX g a then Math_PI - Agent.angle a else Agent.angle a in
     if crossesY g a then - t else t) /\
  Agent.state a' = Agent.state a /\
  Agent.pheromoneStrength a' = Agent.pheromoneStrength a /\
  Agent.excitedLevel a' = Agent.excitedLevel a /\
  Agent.searchTime a' = Agent.searchTime a /\
  Agent.givingUp a' = Agent.givingUp a.
Proof.
  intros HW HH.
  assert (HWq : 1 <= inject_Z (width g)) by (rewrite Zle_Qle in HW; exact HW).
  assert (HHq : 1 <= inject_Z (height g)) by (rewrite Zle_Qle in HH; exact HH).
  destruct a as [x y ang st ps el stime gu].
  unfold handleBoundaries, crossesX, crossesY, inBounds. cbn -[Qltb Qleb Math_PI].
  destruct (x <? 0) eqn:Ex0; cbn -[Qltb Qleb Math_PI].
  - assert (Ex1 : (0 >=? inject_Z (width g)) = false) by (apply Qleb_false; lra).
    rewrite Ex1. cbn -[Qltb Qleb Math_PI].
    destruct (y <? 0) eqn:Ey0; cbn -[Qltb Qleb Math_PI].
    + assert (Ey1 : (0 >=? inject_Z (height g)) = false) by (apply Qleb_false; lra).
      rewrite Ey1. cbn -[Qltb Qleb Math_PI]. repeat split; lra.
    + destruct (y >=? inject_Z (height g)) eqn:Ey1; cbn -[Qltb Qleb Math_PI];
        apply Qltb_false in Ey0;
        [apply Qleb_true in Ey1 | apply Qleb_false in Ey1]; repeat split; lra.
  - destruct (x >=? inject_Z (width g)) eqn:Ex1; cbn -[Qltb Qleb Math_PI];
      apply Qltb_false in Ex0;
      [apply Qleb_true in Ex1 | apply Qleb_false in Ex1].
    + destruct (y <? 0) eqn:Ey0; cbn -[Qltb Qleb Math_PI].
      * assert (Ey1 : (0 >=? inject_Z (height g)) = false) by (apply Qleb_false; lra).
        rewrite Ey1. cbn -[Qltb Qleb Math_PI]. repeat split; lra.
      * destruct (y >=? inject_Z (height g)) eqn:Ey1; cbn -[Qltb Qleb Math_PI];
          apply Qltb_false in Ey0;
          [apply Qleb_true in Ey1 | apply Qleb_false in Ey1]; repeat split; lra.
    + destruct (y <? 0) eqn:Ey0; cbn -[Qltb Qleb Math_PI].
      * assert (Ey1 : (0 >=? inject_Z (height g)) = false) by (apply Qleb_false; lra).
        rewrite Ey1. cbn -[Qltb Qleb Math_PI]. repeat split; lra.
      * destruct (y >=? inject_Z (height g)) eqn:Ey1; cbn -[Qltb Qleb Math_PI];
          apply Qltb_false in Ey0;
          [apply Qleb_true in Ey1 | apply Qleb_false in Ey1]; repeat split; lra.
Qed.

(** C9.  On an arena of positive extent, [handleBoundaries] puts [x] to 0
    when it is negative and to [W - 1] when it is [W] or more, and likewise
    [y] with [H]; a coordinate within bounds is kept.  The resulting
    position lies in [0,W) x [0,H).  The heading becomes [PI - angle] when
    an [x] edge was crossed, and is then negated when a [y] edge was
    crossed; nothing else of the agent changes. *)
Theorem handleBoundaries_clamps_and_reflects (g : PheromoneGrid) (a : Agent.t) :
  (1 <= width g)%Z -> (1 <= height g)%Z ->
  let a' := handleBoundaries g a in
  Agent.x a' = (if Agent.x a <? 0 then 0
                else if Agent.x a >=? inject_Z (width g) then inject_Z (width g) - 1
                else Agent.x a) /\
  Agent.y a' = (if Agent.y a <? 0 then 0
                else if Agent.y a >=? inject_Z (height g) then inject_Z (height g) - 1
                else Agent.y a) /\
  inBounds g (Agent.x a') (Agent.y a') /\
  Agent.angle a' =
    (let t := if crossesX g a then Math_PI - Agent.angle a else Agent.angle a in
     if crossesY g a then - t else t) /\
  Agent.state a' = Agent.state a /\
  Agent.pheromoneStrength a' = Agent.pheromoneStrength a /\
  Agent.excitedLevel a' = Agent.excitedLevel a /\
  Agent.searchTime a' = Agent.searchTime a /\
  Agent.givingUp a' = Agent.givingUp a.
Proof. exact (handleBoundaries_spec g a). Qed.

(** ** Reasoning about computations *)

Lemma returns_ret {A} (a : A) (w : World) (Q : A -> World -> Prop) :
  Q a w -> returns (mret a) w Q.
Proof. intros H. exists a, w. split; [reflexivity | exact H]. Qed.

Lemma returns_bind {A B} (c : M A) (k : A -> M B) (w : World) (Q : B -> World -> Prop) :
  returns c w (fun a w' => returns (k a) w' Q) -> returns (c ≫= k) w Q.
Proof.
  intros (a & w' & Hc & b & w'' & Hk & HQ). exists b, w''. split; [| exact HQ].
  unfold mbind, M_bind. rewrite Hc. exact Hk.
Qed.

Lemma returns_mono {A} (c : M A) (w : World) (Q Q' : A -> World -> Prop) :
  returns c w Q -> (forall a w', Q a w' -> Q' a w') -> returns c w Q'.
Proof. intros (a & w' & Hc & HQ) Himp. exists a, w'. split; auto. Qed.

Lemma returns_gets {A} (f : World -> A) (w : World) (Q : A -> World -> Prop) :
  Q (f w) w -> returns (gets f) w Q.
Proof. intros H. exists (f w), w. split; [reflexivity | exact H]. Qed.

Lemma returns_modify (f : World -> World) (w : World) (Q : unit -> World -> Prop) :
  Q tt (f w) -> returns (modify f) w Q.
Proof. intros H. exists tt, (f w). split; [reflexivity | exact H]. Qed.

Lemma returns_random (w : World) (Q : number -> World -> Prop) :
  Q (draws w (rngPos w)) (set_rngPos w (S (rngPos w))) -> returns Math_random w Q.
Proof. intros H. eexists _, _. split; [reflexivity | exact H]. Qed.

Lemma returns_getAgent (ref : nat) (a : Agent.t) (w : World) (Q : Agent.t -> World -> Prop) :
  agents w !! ref = Some a -> Q a w -> returns (getAgent ref) w Q.
Proof.
  intros Hl H. exists a, w. split; [| exact H]. unfold getAgent. now rewrite Hl.
Qed.

Lemma returns_getNest (ref : nat) (n : Nest.t) (w : World) (Q : Nest.t -> World -> Prop) :
  nests w !! ref = Some n -> Q n w -> returns (getNest ref) w Q.
Proof.
  intros Hl H. exists n, w. split; [| exact H]. unfold getNest. now rewrite Hl.
Qed.

Lemma returns_inv {A} (c : M A) (w : World) (Q : A -> World -> Prop) (a : A) (w' : World) :
  returns c w Q -> c w = Some (a, w') -> Q a w'.
Proof. intros (a0 & w0 & Hc & HQ) Heq. rewrite Hc in Heq. now inversion Heq; subst. Qed.

Lemma frame_refl (w : World) : frame w w.
Proof. unfold frame. tauto. Qed.

Lemma frame_trans (w1 w2 w3 : World) : frame w1 w2 -> frame w2 w3 -> frame w1 w3.
Proof.
  unfold frame. intros (-> & -> & -> & -> & -> & -> & -> & ->) H. exact H.
Qed.

Lemma frame_rng (w : World) (n : nat) : frame w (set_rngPos w n).
Proof. unfold frame. cbn. tauto. Qed.

#[local] Hint Resolve frame_refl frame_rng : core.

Ltac split_ifs :=
  repeat match goal with
  | |- context [if ?c then _ else _] => destruct c
  end.

Ltac frame_solve :=
  unfold keepsPos, frame; cbn; repeat split; reflexivity.

Section Steps.
Context {Mth : MathImpl}.
Variable p : SimParams.

Lemma senseAnyPheromone_keepsPos (a : Agent.t) (w : World) :
  returns (senseAnyPheromone p a) w (keepsPos a w).
Proof.
  unfold senseAnyPheromone, returns, keepsPos, mbind, mret, M_bind, M_ret, gets, Math_random.
  cbn zeta. split_ifs; eexists _, _; (split; [reflexivity |]); frame_solve.
Qed.

Lemma sense_keepsPos (a : Agent.t) (w : World) :
  returns (sense p a) w (keepsPos a w).
Proof.
  unfold sense. destruct (Agent.givingUp a); [apply senseAnyPheromone_keepsPos |].
  unfold returns, keepsPos, mbind, mret, M_bind, M_ret, gets, Math_random.
  cbn zeta. split_ifs; eexists _, _; (split; [reflexivity |]); frame_solve.
Qed.

Lemma giveUpCheck_keepsPos (a : Agent.t) (w : World) :
  returns (giveUpCheck p a) w (keepsPos a w).
Proof.
  unfold giveUpCheck, returns, keepsPos, mbind, mret, M_bind, M_ret, gets.
  cbn zeta. split_ifs; eexists _, _; (split; [reflexivity |]); frame_solve.
Qed.

Lemma propagate_keepsPos (this : nat) (nearbyAgents : list nat) (a : Agent.t) (w : World) :
  Forall (fun ref => ref < length (agents w))%nat nearbyAgents ->
  returns (propagate p this nearbyAgents a) w (keepsPos a w).
Proof.
  revert w. induction nearbyAgents as [| o rest IH]; intros w Hrefs.
  - apply returns_ret. frame_solve.
  - inversion Hrefs as [| ? ? Ho Hrest]; subst. cbn [propagate].
    destruct (negb (o =? this)%nat); [| now apply IH].
    destruct (lookup_lt_is_Some_2 (agents w) o Ho) as [other Hother].
    apply returns_bind, (returns_getAgent o other); [exact Hother |].
    destruct (Agent.excitedLevel other =? 2)%Z; [| now apply IH].
    apply returns_bind, returns_random.
    destruct (_ <? _).
    + apply returns_ret. frame_solve.
    + eapply returns_mono; [apply IH; exact Hrest |].
      intros a' w' (Hf & Hx & Hy). split; [| split; assumption].
      eapply frame_trans; [apply frame_rng | exact Hf].
Qed.

Lemma insideObstacle_false (a : Agent.t) (obs : Obstacle.t) :
  insideObstacle a obs = false -> ~ strictlyInside (Agent.x a) (Agent.y a) obs.
Proof.
  unfold insideObstacle, strictlyInside.
  rewrite !andb_false_iff, !Qleb_false. intros H [[? ?] [? ?]].
  destruct H as [[[H | H] | H] | H]; lra.
Qed.

Lemma handleObstaclesLoop_spec (obss : list Obstacle.t) (prevX prevY : number)
    (a : Agent.t) (w : World) :
  returns (handleObstaclesLoop obss prevX prevY a) w (fun a' w' =>
    frame w w' /\
    ((Agent.x a' = Agent.x a /\ Agent.y a' = Agent.y a /\
      clearOfObstacles (Agent.x a) (Agent.y a) obss) \/
     (Agent.x a' = prevX /\ Agent.y a' = prevY))).
Proof.
  induction obss as [| obs rest IH]; cbn [handleObstaclesLoop].
  - apply returns_ret. split; [apply frame_refl |]. left.
    repeat split. constructor.
  - destruct (insideObstacle a obs) eqn:Hin.
    + apply returns_bind, returns_random, returns_ret.
      split; [apply frame_rng |]. right. split; reflexivity.
    + eapply returns_mono; [exact IH |].
      intros a' w' [Hf [(Hx & Hy & Hclear) | Hprev]]; (split; [exact Hf |]).
      * left. repeat split; try assumption.
        constructor; [now apply insideObstacle_false | exact Hclear].
      * right. exact Hprev.
Qed.

(** The tentative move, the obstacle test and the arena edges: the
    resulting position is clear of every obstacle, or the clamp wrote it. *)
Lemma moveAndCollide_spec (speed : number) (a : Agent.t) (w : World) :
  returns (moveAndCollide speed a) w (fun a' w' =>
    frame w w' /\
    ((1 <= width (grid w))%Z -> (1 <= height (grid w))%Z ->
     clearOfObstacles (Agent.x a) (Agent.y a) (obstacles w) ->
     clearOfObstacles (Agent.x a') (Agent.y a') (obstacles w) \/
     onClampLine (grid w) (Agent.x a') (Agent.y a'))).
Proof.
  unfold moveAndCollide, handleObstacles. cbn zeta.
  apply returns_bind, returns_bind, returns_gets.
  eapply returns_mono; [apply handleObstaclesLoop_spec |].
  intros a1 w1 [Hf Hpos]. cbn beta.
  apply returns_bind, returns_gets, returns_ret. split; [exact Hf |].
  intros HW HH Hclear.
  assert (Hg : width (grid w1) = width (grid w) /\ height (grid w1) = height (grid w)).
  { destruct Hf as (_ & _ & _ & _ & _ & Hw & Hh & _). split; assumption. }
  destruct Hg as [HgW HgH].
  assert (Hclear1 : clearOfObstacles (Agent.x a1) (Agent.y a1) (obstacles w)).
  { destruct Hpos as [(Hx & Hy & Hc) | (Hx & Hy)].
    - rewrite Hx, Hy. exact Hc.
    - rewrite Hx, Hy. exact Hclear. }
  destruct (handleBoundaries_spec (grid w1) a1) as (Hx' & Hy' & _);
    [rewrite HgW; exact HW | rewrite HgH; exact HH |].
  cbn zeta in Hx', Hy'. rewrite HgW in Hx'. rewrite HgH in Hy'.
  unfold onClampLine.
  destruct (Agent.x a1 <? 0).
  { right. left. rewrite Hx'. reflexivity. }
  destruct (Agent.x a1 >=? inject_Z (width (grid w))).
  { right. right. left. rewrite Hx'. reflexivity. }
  destruct (Agent.y a1 <? 0).
  { right. right. right. left. rewrite Hy'. reflexivity. }
  destruct (Agent.y a1 >=? inject_Z (height (grid w))).
  { right. right. right. right. rewrite Hy'. reflexivity. }
  left. rewrite Hx', Hy'. exact Hclear1.
Qed.
End Steps.

(** ** State transition and deposit *)

Ltac frame_world :=
  unfold frame; cbn -[deposit Math_PI]; rewrite ?length_insert;
  repeat match goal with
  | |- context [deposit ?p ?x ?y ?t ?am ?g] =>
      let Hw := fresh in let Hh := fresh in
      destruct (deposit_dims p g x y t am) as (Hw & Hh & _ & _);
      rewrite ?Hw, ?Hh; clear Hw Hh
  end;
  repeat split; reflexivity.

Section Transition.
Context {Mth : MathImpl}.
Variable p : SimParams.

Lemma findClosest_index (a : Agent.t) (ns : list Nest.t) (i closest : nat)
    (minDist : option number) :
  (findClosest a ns i closest minDist).1 = closest \/
  (i <= (findClosest a ns i closest minDist).1 < i + length ns)%nat.
Proof.
  revert i closest minDist. induction ns as [| nest rest IH]; intros i closest minDist.
  - left. reflexivity.
  - cbn [findClosest length].
    destruct (match minDist with None => true | Some m => _ end).
    + destruct (IH (S i) i (Some (Math_hypot (Agent.x a - Nest.x nest)
                                             (Agent.y a - Nest.y nest)))) as [-> | H].
      * right. lia.
      * right. lia.
    + destruct (IH (S i) closest minDist) as [-> | H].
      * left. reflexivity.
      * right. lia.
Qed.

Lemma findClosest_valid (a : Agent.t) (ns : list Nest.t) :
  ns <> [] -> ((findClosest a ns 0 0 None).1 < length ns)%nat.
Proof.
  intros Hne. destruct (findClosest_index a ns 0 0 None) as [-> | H]; [| lia].
  destruct ns; [contradiction | cbn; lia].
Qed.

Lemma frame_deposit (w : World) (x y : number) (t : PheromoneType) (amount : number) :
  frame w (set_grid w (deposit p x y t amount (grid w))).
Proof.
  unfold frame. cbn.
  destruct (deposit_dims p (grid w) x y t amount) as (-> & -> & _). tauto.
Qed.

Lemma frame_surge (w : World) (i : nat) (nest : Nest.t) :
  frame w (set_nests w (<[i := nest]> (nests w))).
Proof. unfold frame. cbn. rewrite length_insert. tauto. Qed.

Lemma handleStateAndPheromones_spec (a : Agent.t) (w : World) :
  nests w <> [] ->
  returns (handleStateAndPheromones p a) w (fun a' w' =>
    frame w w' /\ Agent.x a' = Agent.x a /\ Agent.y a' = Agent.y a /\
    (isOnFood a (foodSources w) = true ->
       (Agent.state a = FORAGING ->
          Agent.state a' = RETURNING /\ Agent.pheromoneStrength a' == 1 /\
          Agent.excitedLevel a' = 2%Z /\ Agent.angle a' = Agent.angle a + Math_PI) /\
       (Agent.state a = RETURNING ->
          Agent.pheromoneStrength a' == 1 /\
          (atClosestNest a (nests w) = false ->
             Agent.state a' = RETURNING /\ Agent.angle a' = Agent.angle a /\
             Agent.excitedLevel a' = Agent.excitedLevel a) /\
          (atClosestNest a (nests w) = true ->
             Agent.state a' = FORAGING /\ Agent.angle a' = Agent.angle a + Math_PI /\
             Agent.excitedLevel a' = 0%Z)))).
Proof.
  intros Hne. unfold handleStateAndPheromones, atClosestNest.
  apply returns_bind, returns_gets.
  pose proof (findClosest_valid a (nests w) Hne) as Hvalid.
  destruct (findClosest a (nests w) 0 0 None) as [closest minDist] eqn:Hfc.
  cbn [fst] in Hvalid.
  destruct (lookup_lt_is_Some_2 (nests w) closest Hvalid) as [closestNest Hnest].
  apply returns_bind, (returns_getNest closest closestNest); [exact Hnest |].
  apply returns_bind, returns_gets. rewrite Hnest.
  cbn beta zeta. clear Hfc.
  destruct minDist as [d |]; [destruct (d <? Nest.r closestNest) |].
  all: destruct a as [x y ang st ps el stime gu]; cbn [Agent.state Agent.x Agent.y Agent.angle
         Agent.pheromoneStrength Agent.excitedLevel].
  all: destruct st; cbn [isReturning andb].
  all: apply returns_bind, returns_modify.
  all: destruct (isOnFood _ (foodSources w)) eqn:HonFood.
  all: unfold weaken; destruct (usePheromoneGradient p).
  all: try destruct (el =? 2)%Z.
  all: unfold returns, mbind, mret, M_bind, M_ret, modify; cbn -[frame Math_PI deposit].
  all: eexists _, _; (split; [reflexivity |]).
  all: (split; [frame_world |]).
  all: repeat split; try reflexivity; try discriminate; intros; try discriminate;
         try reflexivity.
Qed.
End Transition.

(** ** The agent update as a whole *)

Lemma frame_nests_nonempty (w w' : World) : frame w w' -> nests w <> [] -> nests w' <> [].
Proof.
  intros (_ & _ & _ & _ & _ & _ & _ & Hlen) Hne Hnil.
  rewrite Hnil in Hlen. destruct (nests w); [contradiction | discriminate].
Qed.

Lemma keepsPos_trans (a a1 a2 : Agent.t) (w w1 w2 : World) :
  keepsPos a w a1 w1 -> keepsPos a1 w1 a2 w2 -> keepsPos a w a2 w2.
Proof.
  intros (Hf1 & Hx1 & Hy1) (Hf2 & Hx2 & Hy2). split; [eapply frame_trans; eauto |].
  split; congruence.
Qed.

Lemma returns_keeps_bind {B} (c : M Agent.t) (k : Agent.t -> M B) (a0 a : Agent.t)
    (w0 w : World) (Q : B -> World -> Prop) :
  keepsPos a0 w0 a w ->
  returns c w (keepsPos a w) ->
  (forall a1 w1, keepsPos a0 w0 a1 w1 -> returns (k a1) w1 Q) ->
  returns (c ≫= k) w Q.
Proof.
  intros H0 Hc Hk. apply returns_bind. eapply returns_mono; [exact Hc |].
  intros a1 w1 H1. apply Hk. eapply keepsPos_trans; eauto.
Qed.

Section Update.
Context {Mth : MathImpl}.
Variable p : SimParams.

Lemma handleStateAndPheromones_keepsPos (a : Agent.t) (w : World) :
  nests w <> [] -> returns (handleStateAndPheromones p a) w (keepsPos a w).
Proof.
  intros Hne. eapply returns_mono; [apply handleStateAndPheromones_spec; exact Hne |].
  intros a' w' (Hf & Hx & Hy & _). split; [exact Hf | split; assumption].
Qed.

(** The update of the agent [this]: it returns, it writes the updated
    agent back, and the new position is clear of every obstacle unless the
    boundary clamp wrote it. *)
Lemma update_spec (this : nat) (nearbyAgents : list nat) (a : Agent.t) (w : World) :
  agents w !! this = Some a ->
  Forall (fun ref => ref < length (agents w))%nat nearbyAgents ->
  nests w <> [] ->
  returns (update p this nearbyAgents) w (fun _ w' =>
    exists a',
      agents w' = <[this := a']> (agents w) /\
      obstacles w' = obstacles w /\ foodSources w' = foodSources w /\
      spawnAccumulator w' = spawnAccumulator w /\ draws w' = draws w /\
      width (grid w') = width (grid w) /\ height (grid w') = height (grid w) /\
      length (nests w') = length (nests w) /\
      ((1 <= width (grid w))%Z -> (1 <= height (grid w))%Z ->
       clearOfObstacles (Agent.x a) (Agent.y a) (obstacles w) ->
       clearOfObstacles (Agent.x a') (Agent.y a') (obstacles w) \/
       onClampLine (grid w) (Agent.x a') (Agent.y a'))).
Proof.
  intros Hthis Hrefs Hnests. unfold update.
  apply returns_bind, (returns_getAgent this a); [exact Hthis |].
  assert (H0 : keepsPos a w a w) by (split; [apply frame_refl | split; reflexivity]).
  (* excitation decay *)
  eapply (returns_keeps_bind _ _ a a w w); [exact H0 | |].
  { destruct (_ && _).
    - apply returns_bind, returns_random, returns_ret.
      destruct (_ <? _); frame_solve.
    - apply returns_ret. frame_solve. }
  intros a1 w1 H1.
  (* propagation *)
  eapply (returns_keeps_bind _ _ a a1 w w1); [exact H1 | |].
  { destruct (_ && _).
    - apply propagate_keepsPos.
      destruct H1 as ((_ & _ & -> & _) & _). exact Hrefs.
    - apply returns_ret. frame_solve. }
  intros a2 w2 H2.
  (* sensing and give-up *)
  eapply (returns_keeps_bind _ _ a a2 w w2); [exact H2 | apply sense_keepsPos |].
  intros a3 w3 H3.
  eapply (returns_keeps_bind _ _ a a3 w w3); [exact H3 | apply giveUpCheck_keepsPos |].
  intros a4 w4 H4.
  (* jitter, speed, move *)
  apply returns_bind, returns_random. cbn zeta.
  apply returns_bind, returns_gets.
  set (a5 := Agent.set_angle a4 _).
  set (w5 := set_rngPos w4 _).
  assert (H5 : keepsPos a w a5 w5).
  { eapply keepsPos_trans; [exact H4 |]. frame_solve. }
  destruct H5 as (Hf5 & Hx5 & Hy5).
  pose proof Hf5 as (Hobs & Hfood & Hags & Hacc & Hdraws & HgW & HgH & Hnlen).
  apply returns_bind.
  eapply returns_mono; [apply moveAndCollide_spec |].
  intros a6 w6 (Hf6 & Hpos6). cbn beta.
  assert (Hf06 : frame w w6) by (eapply frame_trans; eauto).
  apply returns_bind.
  eapply returns_mono.
  { apply handleStateAndPheromones_keepsPos.
    eapply frame_nests_nonempty; eauto. }
  intros a7 w7 (Hf7 & Hx7 & Hy7). cbn beta.
  assert (Hf07 : frame w w7) by (eapply frame_trans; eauto).
  destruct Hf07 as (Hobs7 & Hfood7 & Hags7 & Hacc7 & Hdraws7 & HgW7 & HgH7 & Hnlen7).
  unfold putAgent. apply returns_modify. exists a7. cbn.
  rewrite Hags7. repeat split; try assumption.
  intros HW HH Hclear.
  rewrite Hx7, Hy7, <- Hobs.
  destruct Hpos6 as [Hc | Hl].
  - rewrite HgW. exact HW.
  - rewrite HgH. exact HH.
  - rewrite Hx5, Hy5, Hobs. exact Hclear.
  - left; exact Hc.
  - right. unfold onClampLine in *. rewrite <- HgW, <- HgH. exact Hl.
Qed.

(** C2, as amended.  An agent that starts a tick clear of every obstacle
    (not strictly inside any rectangle) is, after [update], again clear
    of every obstacle, unless the boundary clamp moved it: then it lies
    on one of the lines x = 0, x = W - 1, y = 0, y = H - 1. *)
Theorem update_keeps_agents_out_of_obstacles (this : nat) (nearbyAgents : list nat)
    (a : Agent.t) (w : World) :
  agents w !! this = Some a ->
  Forall (fun ref => ref < length (agents w))%nat nearbyAgents ->
  nests w <> [] ->
  (1 <= width (grid w))%Z -> (1 <= height (grid w))%Z ->
  clearOfObstacles (Agent.x a) (Agent.y a) (obstacles w) ->
  returns (update p this nearbyAgents) w (fun _ w' =>
    exists a',
      agents w' !! this = Some a' /\
      obstacles w' = obstacles w /\
      (clearOfObstacles (Agent.x a') (Agent.y a') (obstacles w') \/
       onClampLine (grid w') (Agent.x a') (Agent.y a'))).
Proof.
  intros Hthis Hrefs Hnests HW HH Hclear.
  eapply returns_mono; [apply (update_spec this nearbyAgents a w); assumption |].
  intros _ w' (a' & Hags & Hobs & _ & _ & _ & HgW & HgH & _ & Hpos).
  exists a'. split; [| split; [exact Hobs |]].
  - rewrite Hags. apply list_lookup_insert_eq. eapply lookup_lt_Some; eauto.
  - rewrite Hobs. unfold onClampLine. rewrite HgW, HgH. apply Hpos; assumption.
Qed.
End Update.

(** ** The spatial index *)

Lemma addToBucket_valid (m : gmap Z (list nat)) (entry : nat * Agent.t) (n : nat) :
  bucketsValid m n -> (entry.1 < n)%nat -> bucketsValid (addToBucket m entry) n.
Proof.
  intros Hm He key l. unfold addToBucket.
  set (k := bucketKey entry.2).
  destruct (decide (k = key)) as [<- | Hne].
  - rewrite lookup_insert_eq. intros [= <-].
    apply Forall_app. split; [| repeat constructor; exact He].
    destruct (m !! k) as [l0 |] eqn:Hl0; cbn.
    + rewrite Hl0. cbn. eapply Hm; eauto.
    + rewrite lookup_insert_eq. cbn. constructor.
  - rewrite lookup_insert_ne by exact Hne.
    destruct (m !! k) as [l0 |] eqn:Hl0.
    + apply Hm.
    + rewrite lookup_insert_ne by exact Hne. apply Hm.
Qed.

Lemma foldl_addToBucket_valid (entries : list (nat * Agent.t)) (m : gmap Z (list nat))
    (n : nat) :
  bucketsValid m n -> Forall (fun e => e.1 < n)%nat entries ->
  bucketsValid (foldl addToBucket m entries) n.
Proof.
  revert m. induction entries as [| e rest IH]; intros m Hm Hes; [exact Hm |].
  inversion Hes; subst. cbn [foldl]. apply IH; [| assumption].
  now apply addToBucket_valid.
Qed.

Lemma buildSpatialMap_valid (ags : list Agent.t) :
  bucketsValid (buildSpatialMap ags) (length ags).
Proof.
  unfold buildSpatialMap. apply foldl_addToBucket_valid.
  - intros key l Hl. rewrite lookup_empty in Hl. discriminate.
  - apply Forall_lookup. intros i e He.
    rewrite list_lookup_imap in He.
    destruct (ags !! i) as [a |] eqn:Ha; [| discriminate].
    cbn in He. injection He as <-. cbn. eapply lookup_lt_Some; eauto.
Qed.

(** ** The spawn block and the tick *)

Lemma keepsPopulation_trans (w1 w2 w3 : World) :
  keepsPopulation w1 w2 -> keepsPopulation w2 w3 -> keepsPopulation w1 w3.
Proof. unfold keepsPopulation. intros (-> & -> & -> & ->) H. exact H. Qed.

Lemma nests_nonempty_length (ns ns' : list Nest.t) :
  length ns' = length ns -> ns <> [] -> ns' <> [].
Proof. intros Hlen Hne ->. destruct ns; [contradiction | discriminate]. Qed.

Lemma Math_floor_unique (q : Q) (n : Z) :
  inject_Z n <= q -> q < inject_Z (n + 1) -> Math_floor q = n.
Proof.
  intros Hle Hlt. pose proof (Math_floor_ge q n Hle). pose proof (Math_floor_lt q _ Hlt). lia.
Qed.

Lemma pickNest_spec (w : World) (r : number) (Q : Nest.t -> World -> Prop) :
  nests w <> [] -> 0 <= r /\ r < 1 ->
  (forall nest, nest ∈ nests w -> Q nest w) ->
  returns (pickNest (Math_floor (r * inject_Z (Z.of_nat (length (nests w)))))) w Q.
Proof.
  intros Hne [Hr0 Hr1] HQ.
  set (L := Z.of_nat (length (nests w))).
  assert (HL : (1 <= L)%Z).
  { unfold L. destruct (nests w); [contradiction | cbn; lia]. }
  assert (HLq : 1 <= inject_Z L) by (rewrite Zle_Qle in HL; exact HL).
  assert (Hk0 : (0 <= Math_floor (r * inject_Z L))%Z) by (apply Math_floor_nonneg; nra).
  assert (Hk1 : (Math_floor (r * inject_Z L) < L)%Z) by (apply Math_floor_lt; nra).
  unfold pickNest. destruct (Z.ltb_spec (Math_floor (r * inject_Z L)) 0); [lia |].
  destruct (lookup_lt_is_Some_2 (nests w) (Z.to_nat (Math_floor (r * inject_Z L))))
    as [nest Hnest]; [unfold L in *; lia |].
  apply (returns_getNest _ nest); [exact Hnest |].
  apply HQ. eapply list_elem_of_lookup_2; eauto.
Qed.

Section Tick.
Context {Mth : MathImpl}.
Variable p : SimParams.

Lemma spawnLoop_spec (n : nat) (w : World) :
  enableSortieRegulation p = false -> nests w <> [] -> validDraws w ->
  returns (spawnLoop p n) w (fun _ w' =>
    (length (agents w) <= length (agents w'))%nat /\
    ((Z.of_nat (length (agents w')) < agentCount p)%Z ->
       length (agents w') = (length (agents w) + n)%nat) /\
    spawnAccumulator w' = spawnAccumulator w /\
    draws w' = draws w /\ nests w' = nests w).
Proof.
  intros Hsortie. revert w. induction n as [| n IH]; intros w Hne Hdraws.
  - apply returns_ret. repeat split; try reflexivity; lia.
  - cbn [spawnLoop]. apply returns_bind, returns_gets.
    destruct (Z.geb_spec (Z.of_nat (length (agents w))) (agentCount p)) as [Hfull | Hroom].
    + apply returns_ret. repeat split; try reflexivity; lia.
    + apply returns_bind, returns_gets, returns_bind, returns_random.
      apply returns_bind.
      apply (pickNest_spec (set_rngPos w (S (rngPos w))) (draws w (rngPos w)));
        [exact Hne | apply Hdraws |].
      intros nest _. rewrite Hsortie.
      apply returns_bind, returns_ret. cbn iota.
      apply returns_bind, returns_bind.
      unfold newAgent. apply returns_bind, returns_random, returns_ret, returns_modify.
      eapply returns_mono.
      { apply IH; [exact Hne | exact Hdraws]. }
      intros _ w' (Hle & Hexact & Hacc & Hdr & Hns). cbn in *.
      rewrite length_app in *. cbn in *.
      repeat split; try assumption; lia.
Qed.

Lemma spawnPhase_spec (w : World) :
  enableSortieRegulation p = false -> nests w <> [] -> validDraws w ->
  0 <= spawnRate p -> 0 <= spawnAccumulator w /\ spawnAccumulator w < 1 ->
  returns (spawnPhase p) w (fun _ w' =>
    (length (agents w) <= length (agents w'))%nat /\
    draws w' = draws w /\ nests w' = nests w /\
    (0 <= spawnAccumulator w' /\ spawnAccumulator w' < 1) /\
    ((Z.of_nat (length (agents w')) < agentCount p)%Z ->
       let acc := spawnAccumulator w + spawnRate p in
       Z.of_nat (length (agents w')) = (Z.of_nat (length (agents w)) + Math_floor acc)%Z /\
       spawnAccumulator w' = acc - inject_Z (Math_floor acc))).
Proof.
  intros Hsortie Hne Hdraws Hrate [Hacc0 Hacc1]. unfold spawnPhase.
  apply returns_bind, returns_gets.
  destruct (Z.ltb_spec (Z.of_nat (length (agents w))) (agentCount p)) as [Hroom | Hfull].
  - apply returns_bind, returns_modify, returns_bind, returns_gets.
    cbn zeta. apply returns_bind, returns_modify.
    eapply returns_mono; [apply spawnLoop_spec; assumption |].
    intros _ w' (Hle & Hexact & Hacc' & Hdr & Hns).
    cbn [agents spawnAccumulator draws nests set_spawnAccumulator] in *.
    set (acc := spawnAccumulator w + spawnRate p) in *.
    pose proof (Qfloor_le acc) as Hfl. pose proof (Qlt_floor acc) as Hfu.
    rewrite inject_Z_plus in Hfu. change (inject_Z 1) with 1 in Hfu.
    fold (Math_floor acc) in Hfl, Hfu.
    repeat split; try assumption.
    + rewrite Hacc'. lra.
    + rewrite Hacc'. lra.
    + specialize (Hexact H).
      assert (0 <= Math_floor acc)%Z by (apply Math_floor_nonneg; unfold acc; lra).
      lia.
  - apply returns_ret. repeat split; try reflexivity; try assumption; lia.
Qed.

Lemma updateAll_spec (spatialMap : gmap Z (list nat)) (refs : list nat) (w : World) :
  bucketsValid spatialMap (length (agents w)) ->
  Forall (fun ref => ref < length (agents w))%nat refs ->
  nests w <> [] ->
  returns (updateAll p spatialMap refs) w (fun _ w' => keepsPopulation w w').
Proof.
  revert w. induction refs as [| ref rest IH]; intros w Hmap Hrefs Hne.
  - apply returns_ret. unfold keepsPopulation. tauto.
  - inversion Hrefs as [| ? ? Href Hrest]; subst. cbn [updateAll].
    destruct (lookup_lt_is_Some_2 (agents w) ref Href) as [agent Hagent].
    apply returns_bind, (returns_getAgent ref agent); [exact Hagent |].
    cbn zeta. apply returns_bind.
    eapply returns_mono.
    { apply (update_spec p ref _ agent w); [exact Hagent | | exact Hne].
      destruct (spatialMap !! bucketKey agent) as [l |] eqn:Hl; cbn.
      - eapply Hmap; eauto.
      - constructor. }
    intros _ w1 (a' & Hags & _ & _ & Hacc & Hdr & _ & _ & Hnl & _). cbn beta.
    assert (Hlen : length (agents w1) = length (agents w))
      by (rewrite Hags; apply length_insert).
    eapply returns_mono.
    { apply IH.
      - rewrite Hlen. exact Hmap.
      - rewrite Hlen. exact Hrest.
      - eapply nests_nonempty_length; eauto. }
    intros _ w2 (H1 & H2 & H3 & H4). unfold keepsPopulation.
    repeat split; congruence.
Qed.

Lemma tickSurgeTimers_spec (w : World) :
  returns tickSurgeTimers w (fun _ w' =>
    agents w' = agents w /\ spawnAccumulator w' = spawnAccumulator w /\
    draws w' = draws w /\ length (nests w') = length (nests w)).
Proof.
  unfold tickSurgeTimers. apply returns_modify. cbn. rewrite length_map. tauto.
Qed.

(** One tick: it returns; the population and the accumulator are those
    the spawn block leaves. *)
Lemma loop_spec (w : World) :
  enableSortieRegulation p = false -> nests w <> [] -> validDraws w ->
  0 <= spawnRate p -> 0 <= spawnAccumulator w /\ spawnAccumulator w < 1 ->
  returns (loop p) w (fun _ w' =>
    (length (agents w) <= length (agents w'))%nat /\
    draws w' = draws w /\ length (nests w') = length (nests w) /\
    (0 <= spawnAccumulator w' /\ spawnAccumulator w' < 1) /\
    ((Z.of_nat (length (agents w')) < agentCount p)%Z ->
       let acc := spawnAccumulator w + spawnRate p in
       Z.of_nat (length (agents w')) = (Z.of_nat (length (agents w)) + Math_floor acc)%Z /\
       spawnAccumulator w' = acc - inject_Z (Math_floor acc))).
Proof.
  intros Hsortie Hne Hdraws Hrate Hacc. unfold loop.
  apply returns_bind. eapply returns_mono; [apply tickSurgeTimers_spec |].
  intros _ w1 (Hags1 & Hacc1 & Hdr1 & Hnl1). cbn beta.
  assert (Hne1 : nests w1 <> []) by (eapply nests_nonempty_length; eauto).
  apply returns_bind. eapply returns_mono.
  { apply spawnPhase_spec; try assumption.
    - unfold validDraws. rewrite Hdr1. exact Hdraws.
    - rewrite Hacc1. exact Hacc. }
  intros _ w2 (Hle2 & Hdr2 & Hns2 & Hacc2 & Hexact2). cbn beta.
  apply returns_bind, returns_modify, returns_bind, returns_gets.
  cbn zeta. cbn [agents set_grid].
  eapply returns_mono.
  { apply updateAll_spec; cbn [agents nests set_grid].
    - apply buildSpatialMap_valid.
    - apply Forall_forall. intros ref Href.
      apply list_elem_of_In, in_seq in Href. lia.
    - rewrite Hns2. exact Hne1. }
  intros _ w3 (Hlen3 & Hacc3 & Hdr3 & Hnl3).
  cbn [agents nests spawnAccumulator draws set_grid] in *.
  rewrite Hlen3, Hacc3, Hdr3, Hnl3, Hdr2, Hns2, Hdr1, Hnl1.
  rewrite <- Hags1, <- Hacc1.
  repeat split; tauto.
Qed.
End Tick.

(** ** Food contact *)

(** C8, as amended.  In the state-transition step, a FORAGING agent inside
    the radius of a food source becomes RETURNING, with trail strength 1,
    excitation level 2 (SOURCE) and its heading increased by [Math.PI]; a
    RETURNING agent inside the radius of a food source and not within the
    radius of its closest nest stays RETURNING with the same heading and
    excitation, its trail strength recharged to 1. *)
Theorem food_contact_transition {Mth : MathImpl} (p : SimParams) (a : Agent.t) (w : World) :
  nests w <> [] -> isOnFood a (foodSources w) = true ->
  returns (handleStateAndPheromones p a) w (fun a' _ =>
    (Agent.state a = FORAGING ->
       Agent.state a' = RETURNING /\ Agent.pheromoneStrength a' == 1 /\
       Agent.excitedLevel a' = 2%Z /\ Agent.angle a' = Agent.angle a + Math_PI) /\
    (Agent.state a = RETURNING -> atClosestNest a (nests w) = false ->
       Agent.state a' = RETURNING /\ Agent.pheromoneStrength a' == 1 /\
       Agent.angle a' = Agent.angle a /\
       Agent.excitedLevel a' = Agent.excitedLevel a)).
Proof.
  intros Hne HonFood.
  eapply returns_mono; [apply handleStateAndPheromones_spec; exact Hne |].
  intros a' w' (_ & _ & _ & Hfood). destruct (Hfood HonFood) as [Hfor Hret].
  split; [exact Hfor |].
  intros Hst Hnest. destruct (Hret Hst) as (Hps & Hstay & _).
  destruct (Hstay Hnest) as (H1 & H2 & H3). tauto.
Qed.

(** C8 as stated fails: a RETURNING agent inside the radius of a food
    source that overlaps the radius of the nest makes the RETURNING to
    FORAGING transition, and its heading is reversed. *)
Lemma returning_agent_at_nest_transitions :
  Agent.state returningAgent = RETURNING /\
  isOnFood (Mth := refMath) returningAgent (foodSources overlapWorld) = true /\
  exists a',
    agentAfterTransition (Mth := refMath) params0 returningAgent overlapWorld = Some a' /\
    Agent.state a' = FORAGING /\
    Agent.angle a' == Agent.angle returningAgent + Math_PI /\
    ~ Agent.angle a' == Agent.angle returningAgent.
Proof.
  split; [reflexivity |]. split; [vm_compute; reflexivity |].
  eexists. split; [vm_compute; reflexivity |].
  split; [reflexivity |]. split; [reflexivity | discriminate].
Qed.

(** ** Obstacles *)

(** C2 as stated fails: the agent starts clear of the obstacle, its move
    passes the right edge of the arena, and the clamp to x = 599 puts it
    strictly inside the obstacle. *)
Lemma clamp_moves_agent_into_obstacle :
  agents edgeWorld !! 0%nat = Some edgeAgent /\
  clearOfObstacles (Agent.x edgeAgent) (Agent.y edgeAgent) (obstacles edgeWorld) /\
  exists x' y',
    positionAfterUpdate (Mth := refMath) params0 0 [0%nat] edgeWorld = Some (x', y') /\
    strictlyInside x' y' thinObstacle.
Proof.
  split; [reflexivity |]. split.
  - repeat constructor. intros [[_ H] _]. revert H. apply Qle_not_lt. discriminate.
  - eexists _, _. split; [vm_compute; reflexivity |].
    repeat split; reflexivity.
Qed.

(** ** Spawning *)

(** C7 as stated fails: with sortie regulation enabled and no surge, the
    integer part of the budget is taken from the accumulator but the
    spawns are skipped; after one tick at rate 5 there is no agent. *)
Lemma sortie_regulation_withholds_spawns :
  agents startWorld = [] /\ spawnAccumulator startWorld = 0 /\
  spawnRate (withSortieRegulation params0 true) = 5 /\
  populationAfter (Mth := refMath) (withSortieRegulation params0 true) 1 startWorld
    = Some 0%nat /\
  (0 < agentCount (withSortieRegulation params0 true))%Z /\
  Math_floor (inject_Z 1 * 5) = 5%Z.
Proof.
  repeat split.
Qed.

(** ** The statements at concrete inputs *)

Lemma smallGrid_wf : wfGrid smallGrid.
Proof. unfold wfGrid, alength. cbn. lia. Defined.

Lemma smallGrid_in01 : cellsIn01 smallGrid.
Proof. split; cbn; repeat constructor; discriminate. Defined.

Lemma startWorld_validDraws : validDraws startWorld.
Proof. intros n. cbn. split; [discriminate | reflexivity]. Defined.

Lemma field_cells_stay_in_unit_interval_witness :
  let ops := [OpDeposit 1 1 HOME 0.7; OpDeposit 1 1 HOME 0.7; OpDecay 0.5; OpReset;
              OpDeposit 0 0 FOOD 0.0005; OpDecay 1] in
  Forall validOp ops /\
  cellsIn01 (runOps params0 ops (newGrid 3 2)) /\
  (forall ops' rate, ops = ops' ++ [OpDecay rate] ->
     cellsSnapped (runOps params0 ops (newGrid 3 2))).
Proof.
  cbn zeta.
  assert (Hops : Forall validOp
            [OpDeposit 1 1 HOME 0.7; OpDeposit 1 1 HOME 0.7; OpDecay 0.5; OpReset;
             OpDeposit 0 0 FOOD 0.0005; OpDecay 1]).
  { repeat constructor; cbn; try discriminate; reflexivity. }
  split; [exact Hops |].
  exact (field_cells_stay_in_unit_interval params0 3 2 _ Hops).
Defined.

Lemma getLevel_sentinel_iff_outside_witness :
  wfGrid smallGrid /\ cellsIn01 smallGrid /\
  singlePheromoneMode params0 = true /\
  singlePheromoneMode (withSinglePheromoneMode params0 false) = false /\
  inBounds smallGrid 1.5 1.2 /\ ~ inBounds smallGrid (-1) 1 /\
  channel HOME smallGrid !! 4%nat = Some (getLevel params0 1.5 1.2 FOOD smallGrid) /\
  channel FOOD smallGrid !! 4%nat
    = Some (getLevel (withSinglePheromoneMode params0 false) 1.5 1.2 FOOD smallGrid) /\
  (0 <= getLevel params0 1.5 1.2 FOOD smallGrid /\
   getLevel params0 1.5 1.2 FOOD smallGrid <= 1) /\
  ~ getLevel params0 1.5 1.2 FOOD smallGrid == -1 /\
  getLevel params0 (-1) 1 FOOD smallGrid == -1.
Proof.
  assert (Hin : inBounds smallGrid 1.5 1.2).
  { unfold inBounds. cbn. repeat split; try discriminate; reflexivity. }
  assert (Hout : ~ inBounds smallGrid (-1) 1).
  { intros [[H0 _] _]. revert H0. apply Qlt_not_le. reflexivity. }
  split; [exact smallGrid_wf |]. split; [exact smallGrid_in01 |].
  split; [reflexivity |]. split; [reflexivity |].
  split; [exact Hin |]. split; [exact Hout |].
  pose proof (getLevel_sentinel_iff_outside params0 smallGrid 1.5 1.2 FOOD
                smallGrid_wf smallGrid_in01) as [Hiff Hcell].
  destruct (Hcell Hin) as (_ & _ & Hhome & Hrange).
  split; [exact Hhome |]. split.
  - exact (proj1 (proj2 (proj2 (proj2 (getLevel_sentinel_iff_outside
             (withSinglePheromoneMode params0 false) smallGrid 1.5 1.2 FOOD
             smallGrid_wf smallGrid_in01) Hin)))).
  - split; [exact Hrange |]. split.
    + intros Hm. exact (proj1 Hiff Hm Hin).
    + exact (proj2 (proj1 (getLevel_sentinel_iff_outside params0 smallGrid (-1) 1 FOOD
                             smallGrid_wf smallGrid_in01)) Hout).
Defined.

Lemma channel_isolation_witness :
  wfGrid smallGrid /\
  singlePheromoneMode params0 = true /\
  inBounds smallGrid 1.5 1.2 /\
  getLevel params0 1.5 1.2 HOME (deposit params0 1.5 1.2 FOOD 0.25 smallGrid)
    = Math_min 1 (getLevel params0 1.5 1.2 HOME smallGrid + 0.25) /\
  singlePheromoneMode (withSinglePheromoneMode params0 false) = false /\
  getLevel (withSinglePheromoneMode params0 false) 0.5 0.5 FOOD
    (deposit (withSinglePheromoneMode params0 false) 0.5 0.5 HOME 0.25 smallGrid)
    = getLevel (withSinglePheromoneMode params0 false) 0.5 0.5 FOOD smallGrid.
Proof.
  assert (Hin : inBounds smallGrid 1.5 1.2).
  { unfold inBounds. cbn. repeat split; try discriminate; reflexivity. }
  split; [exact smallGrid_wf |]. split; [reflexivity |]. split; [exact Hin |].
  split.
  - exact (proj1 (proj1 (channel_isolation params0 smallGrid smallGrid_wf) eq_refl
                    1.5 1.2 0.25 FOOD HOME Hin)).
  - split; [reflexivity |].
    apply (proj2 (channel_isolation (withSinglePheromoneMode params0 false) smallGrid
                    smallGrid_wf) eq_refl).
    discriminate.
Defined.

Lemma revisions_agree_witness :
  Earlier.singlePheromoneMode earlierParams0
    = singlePheromoneMode (withSinglePheromoneMode params0 false) /\
  Earlier.deposit earlierParams0 1.5 1.2 FOOD 0.25 smallGrid
    = deposit (withSinglePheromoneMode params0 false) 1.5 1.2 FOOD 0.25 smallGrid /\
  Earlier.getLevel earlierParams0 1.5 1.2 FOOD smallGrid
    = getLevel (withSinglePheromoneMode params0 false) 1.5 1.2 FOOD smallGrid /\
  Earlier.evaporate 0.985 smallGrid = evaporate 0.985 smallGrid /\
  Earlier.reset smallGrid = reset smallGrid.
Proof.
  split; [reflexivity |].
  exact (revisions_agree (withSinglePheromoneMode params0 false) earlierParams0 smallGrid
           1.5 1.2 FOOD 0.25 0.985 eq_refl).
Defined.

Lemma handleBoundaries_clamps_and_reflects_witness :
  let g := newGrid WIDTH HEIGHT in
  let a := Agent.mk (-2) 605 0.5 FORAGING 1 0 0 false in
  (1 <= width g)%Z /\ (1 <= height g)%Z /\
  Agent.x (handleBoundaries g a) = 0 /\
  Agent.y (handleBoundaries g a) = inject_Z (height g) - 1 /\
  inBounds g (Agent.x (handleBoundaries g a)) (Agent.y (handleBoundaries g a)) /\
  Agent.angle (handleBoundaries g a) = - (Math_PI - 0.5).
Proof.
  cbn zeta.
  assert (HW : (1 <= width (newGrid WIDTH HEIGHT))%Z) by (cbn; unfold WIDTH; lia).
  assert (HH : (1 <= height (newGrid WIDTH HEIGHT))%Z) by (cbn; unfold HEIGHT; lia).
  split; [exact HW |]. split; [exact HH |].
  destruct (handleBoundaries_clamps_and_reflects (newGrid WIDTH HEIGHT)
              (Agent.mk (-2) 605 0.5 FORAGING 1 0 0 false) HW HH)
    as (Hx & Hy & Hin & Hang & _).
  split; [exact Hx |]. split; [exact Hy |]. split; [exact Hin | exact Hang].
Defined.

Lemma food_contact_transition_witness :
  nests foodWorld <> [] /\
  isOnFood (Mth := refMath) foragingAgent (foodSources foodWorld) = true /\
  returns (handleStateAndPheromones (Mth := refMath) params0 foragingAgent) foodWorld
    (fun a' _ =>
       (Agent.state foragingAgent = FORAGING ->
          Agent.state a' = RETURNING /\ Agent.pheromoneStrength a' == 1 /\
          Agent.excitedLevel a' = 2%Z /\
          Agent.angle a' = Agent.angle foragingAgent + Math_PI) /\
       (Agent.state foragingAgent = RETURNING ->
          atClosestNest (Mth := refMath) foragingAgent (nests foodWorld) = false ->
          Agent.state a' = RETURNING /\ Agent.pheromoneStrength a' == 1 /\
          Agent.angle a' = Agent.angle foragingAgent /\
          Agent.excitedLevel a' = Agent.excitedLevel foragingAgent)).
Proof.
  assert (Hne : nests foodWorld <> []) by discriminate.
  assert (Hfood : isOnFood (Mth := refMath) foragingAgent (foodSources foodWorld) = true)
    by (vm_compute; reflexivity).
  split; [exact Hne |]. split; [exact Hfood |].
  exact (food_contact_transition (Mth := refMath) params0 foragingAgent foodWorld Hne Hfood).
Defined.

Lemma update_keeps_agents_out_of_obstacles_witness :
  let a := Agent.mk 300 11 0 FORAGING 1 0 0 false in
  agents walledWorld !! 0%nat = Some a /\
  Forall (fun ref => ref < length (agents walledWorld))%nat [0%nat] /\
  nests walledWorld <> [] /\
  (1 <= width (grid walledWorld))%Z /\ (1 <= height (grid walledWorld))%Z /\
  clearOfObstacles (Agent.x a) (Agent.y a) (obstacles walledWorld) /\
  returns (update (Mth := refMath) params0 0 [0%nat]) walledWorld (fun _ w' =>
    exists a',
      agents w' !! 0%nat = Some a' /\
      obstacles w' = obstacles walledWorld /\
      (clearOfObstacles (Agent.x a') (Agent.y a') (obstacles w') \/
       onClampLine (grid w') (Agent.x a') (Agent.y a'))).
Proof.
  cbn zeta.
  assert (Hrefs : Forall (fun ref => ref < length (agents walledWorld))%nat [0%nat])
    by (repeat constructor).
  assert (Hne : nests walledWorld <> []) by discriminate.
  assert (HW : (1 <= width (grid walledWorld))%Z) by (cbn; unfold WIDTH; lia).
  assert (HH : (1 <= height (grid walledWorld))%Z) by (cbn; unfold HEIGHT; lia).
  assert (Hclear : clearOfObstacles 300 11 (obstacles walledWorld)).
  { repeat constructor. intros [_ [_ H]]. revert H. apply Qle_not_lt. discriminate. }
  split; [reflexivity |]. split; [exact Hrefs |]. split; [exact Hne |].
  split; [exact HW |]. split; [exact HH |]. split; [exact Hclear |].
  exact (update_keeps_agents_out_of_obstacles (Mth := refMath) params0 0 [0%nat] _
           walledWorld eq_refl Hrefs Hne HW HH Hclear).
Defined.

(** * Further properties of the field *)

Lemma evaporate_every_cell_once_aux (rate : number) (g : PheromoneGrid)
    (t : PheromoneType) (i : nat) :
  sameLength g ->
  channel t (evaporate rate g) !! i = decayCell rate <$> channel t g !! i /\
  length (channel t (evaporate rate g)) = length (channel t g) /\
  width (evaporate rate g) = width g /\ height (evaporate rate g) = height g.
Proof.
  intros Hlen. rewrite evaporate_map by exact Hlen.
  destruct t; cbn; rewrite list_lookup_fmap, length_map; repeat split; reflexivity.
Qed.


Lemma aset_commute (a : Float32Array) (i j : Z) (u v : number) :
  i <> j -> aset (aset a i u) j v = aset (aset a j v) i u.
Proof.
  intros Hne. unfold aset.
  destruct (Z.ltb_spec i 0), (Z.ltb_spec j 0); try reflexivity.
  apply list_insert_insert_ne. lia.
Qed.

Lemma aget_aset_other (a : Float32Array) (i j : Z) (v : number) :
  i <> j -> aget (aset a i v) j = aget a j.
Proof.
  intros Hne. unfold aget, aset.
  destruct (Z.ltb_spec j 0); [reflexivity |].
  destruct (Z.ltb_spec i 0); [reflexivity |].
  rewrite list_lookup_insert_ne by lia. reflexivity.
Qed.

Lemma cellIndex_deposit (p : SimParams) (g : PheromoneGrid) (x y x' y' a : number)
    (t : PheromoneType) :
  cellIndex (deposit p x y t a g) x' y' = cellIndex g x' y'.
Proof.
  unfold cellIndex. destruct (deposit_dims p g x y t a) as (-> & _). reflexivity.
Qed.

Lemma alength_home_deposit (p : SimParams) (g : PheromoneGrid) (x y a : number)
    (t : PheromoneType) :
  alength (homeGrid (deposit p x y t a g)) = alength (homeGrid g).
Proof.
  unfold alength. destruct (deposit_dims p g x y t a) as (_ & _ & -> & _). reflexivity.
Qed.

(** X3.  Deposits on different cells, or on different effective channels,
    commute: the grid after both does not depend on their order. *)
Theorem deposits_commute (p : SimParams) (g : PheromoneGrid)
    (x1 y1 a1 x2 y2 a2 : number) (t1 t2 : PheromoneType) :
  cellIndex g x1 y1 <> cellIndex g x2 y2 \/ effectiveType p t1 <> effectiveType p t2 ->
  deposit p x2 y2 t2 a2 (deposit p x1 y1 t1 a1 g)
    = deposit p x1 y1 t1 a1 (deposit p x2 y2 t2 a2 g).
Proof.
  intros Hdiff.
  rewrite (deposit_guard p (deposit p x1 y1 t1 a1 g)), (deposit_guard p (deposit p x2 y2 t2 a2 g)).
  rewrite !cellIndex_deposit, !alength_home_deposit.
  rewrite (deposit_guard p g x1 y1), (deposit_guard p g x2 y2).
  set (i1 := cellIndex g x1 y1) in *. set (i2 := cellIndex g x2 y2) in *.
  destruct ((0 <=? i1)%Z && (i1 <? alength (homeGrid g))%Z);
    destruct ((0 <=? i2)%Z && (i2 <? alength (homeGrid g))%Z); try reflexivity.
  cbn zeta.
  destruct (effectiveType p t1), (effectiveType p t2); cbn;
    try reflexivity.
  - destruct Hdiff as [Hne | Hne]; [| contradiction].
    unfold set_homeGrid; cbn. f_equal.
    rewrite !aget_aset_other by congruence.
    apply aset_commute. exact Hne.
  - destruct Hdiff as [Hne | Hne]; [| contradiction].
    unfold set_foodGrid; cbn. f_equal.
    rewrite !aget_aset_other by congruence.
    apply aset_commute. exact Hne.
Qed.

(** X4.  [reset] brings a well-formed grid back to the state the
    constructor makes: all cells 0, same dimensions; every in-bounds
    reading is then 0. *)
Theorem reset_restores_new_grid (p : SimParams) (g : PheromoneGrid) :
  wfGrid g ->
  reset g = newGrid (width g) (height g) /\
  (forall x y t, inBounds g x y -> getLevel p x y t (reset g) = 0).
Proof.
  intros Hwf.
  assert (Heq : reset g = newGrid (width g) (height g)).
  { destruct Hwf as (_ & _ & Hh & Hf). unfold reset, newGrid, alength in *.
    f_equal; f_equal; lia. }
  split; [exact Heq |].
  intros x y t Hin.
  assert (Hwf' : wfGrid (reset g)) by now apply reset_wf.
  assert (Hin' : inBounds (reset g) x y) by exact Hin.
  pose proof (cellIndex_in_range (reset g) x y Hwf' Hin') as Hr.
  rewrite (getLevel_inside p (reset g) x y t Hin').
  pose proof (aget_lookup (channel (effectiveType p t) (reset g)) (cellIndex (reset g) x y)) as Hl.
  rewrite channel_length in Hl by exact Hwf'. specialize (Hl Hr).
  destruct (effectiveType p t); cbn [channel reset homeGrid foodGrid] in Hl;
    apply lookup_replicate in Hl as [Hz _]; cbn [channel reset homeGrid foodGrid];
    exact Hz.
Qed.

(** X5.  On a well-formed grid a deposit whose [x] is within [0,W) and
    whose [y] is outside [0,H) changes nothing: rows outside the grid are
    rejected by the index guard. *)
Theorem deposit_outside_rows_is_noop (p : SimParams) (g : PheromoneGrid)
    (x y amount : number) (t : PheromoneType) :
  wfGrid g -> 0 <= x /\ x < inject_Z (width g) ->
  y < 0 \/ inject_Z (height g) <= y ->
  deposit p x y t amount g = g.
Proof.
  intros (Hw & Hh & Hlen & _) [Hx0 Hx1] Hy.
  apply deposit_index_out. unfold cellIndex. rewrite Hlen.
  pose proof (Math_floor_nonneg x Hx0). pose proof (Math_floor_lt x _ Hx1).
  destruct Hy as [Hy | Hy].
  - pose proof (Math_floor_neg y Hy). nia.
  - pose proof (Math_floor_ge y _ Hy). nia.
Qed.

Lemma aset_outside (a : Float32Array) (i : Z) (v : number) :
  ~ (0 <= i < alength a)%Z -> aset a i v = a.
Proof.
  unfold aset, alength. intros H. destruct (Z.ltb_spec i 0); [reflexivity |].
  apply list_insert_ge. lia.
Qed.

Lemma aget_deposit_ge (p : SimParams) (g : PheromoneGrid) (x y amount : number)
    (t t' : PheromoneType) (j : Z) :
  0 <= amount -> cellsIn01 g ->
  aget (channel t' g) j <= aget (channel t' (deposit p x y t amount g)) j.
Proof.
  intros Ha H01. rewrite deposit_guard.
  destruct (_ && _) eqn:Hguard; [| lra]. cbn zeta.
  set (ch := effectiveType p t).
  assert (Hdec : ch = t' \/ ch <> t') by (destruct ch, t'; auto; right; discriminate).
  destruct Hdec as [<- | Hne].
  - rewrite channel_set_channel_same.
    destruct (decide (cellIndex g x y = j)) as [<- | Hj];
      [| rewrite aget_aset_other by exact Hj; lra].
    assert (Hold : 0 <= aget (channel ch g) (cellIndex g x y) /\
                   aget (channel ch g) (cellIndex g x y) <= 1).
    { apply (aget_Forall (fun v => 0 <= v /\ v <= 1)); [lra | now apply channel_in01]. }
    destruct (decide (0 <= cellIndex g x y < alength (channel ch g))%Z) as [Hin | Hout].
    + rewrite aget_aset_same by exact Hin. unfold Math_min. cmp_cases; lra.
    + rewrite aset_outside by exact Hout. lra.
  - rewrite channel_set_channel_other by exact Hne. lra.
Qed.

Lemma decayCell_le (rate v : number) :
  0 < rate /\ rate <= 1 -> 0 <= v -> decayCell rate v <= v.
Proof.
  intros [Hr0 Hr1] Hv. unfold decayCell. cmp_cases; nra.
Qed.

Lemma aget_evaporate_le (rate : number) (g : PheromoneGrid) (t : PheromoneType) (j : Z) :
  0 < rate /\ rate <= 1 -> sameLength g -> cellsIn01 g ->
  aget (channel t (evaporate rate g)) j <= aget (channel t g) j.
Proof.
  intros Hr Hlen H01. unfold aget. destruct (Z.ltb_spec j 0); [lra |].
  rewrite (proj1 (evaporate_every_cell_once_aux rate g t (Z.to_nat j) Hlen)).
  destruct (channel t g !! Z.to_nat j) as [v |] eqn:Hv; cbn; [| lra].
  apply decayCell_le; [exact Hr |].
  apply (Forall_lookup_1 _ _ _ _ (channel_in01 t g H01) Hv).
Qed.

Lemma getLevel_as_cell (p : SimParams) (g : PheromoneGrid) (x y : number) (t : PheromoneType) :
  getLevel p x y t g =
  if (x <? 0) || (x >=? inject_Z (width g)) || (y <? 0) || (y >=? inject_Z (height g))
  then -1 else aget (channel (effectiveType p t) g) (cellIndex g x y).
Proof. unfold getLevel. destruct (_ || _); [reflexivity |]. now destruct (effectiveType p t). Qed.

(** X6.  Readings are monotone on a well-formed field whose cells lie in [0,1]: a
    deposit of a non-negative amount lowers no reading, at any point and on
    any channel, and a decay with a rate in (0,1] raises none. *)
Theorem readings_are_monotone (p : SimParams) (g : PheromoneGrid) :
  wfGrid g -> cellsIn01 g ->
  (forall x y t amount x' y' t', 0 <= amount ->
     getLevel p x' y' t' g <= getLevel p x' y' t' (deposit p x y t amount g)) /\
  (forall rate x' y' t', 0 < rate /\ rate <= 1 ->
     getLevel p x' y' t' (evaporate rate g) <= getLevel p x' y' t' g).
Proof.
  intros Hwf H01.
  assert (Hlen : sameLength g).
  { destruct Hwf as (_ & _ & Hh & Hf). unfold sameLength, alength in *. lia. }
  split.
  - intros x y t amount x' y' t' Ha. rewrite !getLevel_as_cell.
    destruct (deposit_dims p g x y t amount) as (-> & -> & _).
    destruct (_ || _); [lra |]. rewrite cellIndex_deposit.
    now apply aget_deposit_ge.
  - intros rate x' y' t' Hr. rewrite !getLevel_as_cell.
    destruct (evaporate_every_cell_once_aux rate g t' 0 Hlen) as (_ & _ & HW & HH).
    rewrite HW, HH. destruct (_ || _); [lra |].
    unfold cellIndex. rewrite HW. now apply aget_evaporate_le.
Qed.

(** * Further properties of the agent update *)

Lemma drawsAtMost_refl (k : nat) (w : World) : drawsAtMost k w w.
Proof. split; [lia |]. now destruct w. Qed.

Lemma drawsAtMost_trans (j k : nat) (w1 w2 w3 : World) :
  drawsAtMost j w1 w2 -> drawsAtMost k w2 w3 -> drawsAtMost (j + k) w1 w3.
Proof.
  intros [H1 E1] [H2 E2]. split; [lia |]. rewrite E2, E1. reflexivity.
Qed.

Lemma drawsAtMost_weaken (j k : nat) (w w' : World) :
  (j <= k)%nat -> drawsAtMost j w w' -> drawsAtMost k w w'.
Proof. intros Hjk [H E]. split; [lia | exact E]. Qed.

Lemma drawsAtMost_frame (k : nat) (w w' : World) : drawsAtMost k w w' -> frame w w'.
Proof. intros [_ ->]. apply frame_rng. Qed.

Ltac draws_solve :=
  unfold drawsAtMost; cbn [rngPos set_rngPos grid nests foodSources obstacles agents
                           spawnAccumulator draws];
  first [ split; [lia | reflexivity]
        | split; [lia |]; match goal with |- ?w = _ => destruct w; reflexivity end ].

Section MoreSteps.
Context {Mth : MathImpl}.
Variable p : SimParams.

Lemma senseAnyPheromone_heading (a : Agent.t) (w : World) :
  returns (senseAnyPheromone p a) w (fun a' w' =>
    sameButHeading a a' /\ drawsAtMost 3 w w').
Proof.
  unfold senseAnyPheromone, returns, mbind, mret, M_bind, M_ret, gets, Math_random.
  cbn zeta. destruct a as [x y ang st ps el stime gu].
  split_ifs; eexists _, _; (split; [reflexivity |]);
    (split; [reflexivity | draws_solve]).
Qed.

Lemma sense_heading (a : Agent.t) (w : World) :
  returns (sense p a) w (fun a' w' =>
    sameButHeading a a' /\ drawsAtMost 3 w w').
Proof.
  unfold sense. destruct (Agent.givingUp a) eqn:Hgu; [apply senseAnyPheromone_heading |].
  unfold returns, mbind, mret, M_bind, M_ret, gets, Math_random.
  cbn zeta. destruct a as [x y ang st ps el stime gu].
  split_ifs; eexists _, _; (split; [reflexivity |]);
    (split; [reflexivity | draws_solve]).
Qed.

(** The give-up evaluation: it touches only the counter and the flag,
    draws nothing and leaves the world as it is. *)
Lemma giveUpCheck_spec (a : Agent.t) (w : World) :
  returns (giveUpCheck p a) w (fun a' w' =>
    w' = w /\
    a' = Agent.set_givingUp (Agent.set_searchTime a (Agent.searchTime a')) (Agent.givingUp a')).
Proof.
  unfold giveUpCheck, returns, mbind, mret, M_bind, M_ret, gets.
  cbn zeta. destruct a as [x y ang st ps el stime gu].
  split_ifs; eexists _, _; (split; [reflexivity |]); split; reflexivity.
Qed.

Lemma giveUpCheck_full (a : Agent.t) (w : World) :
  returns (giveUpCheck p a) w (fun a' w' =>
    w' = w /\
    a' = Agent.set_givingUp (Agent.set_searchTime a (Agent.searchTime a')) (Agent.givingUp a') /\
    (giveUpOk a -> giveUpOk a') /\
    (enableGiveUp p && isForaging (Agent.state a) && (Agent.excitedLevel a =? 0)%Z = false ->
     a' = a) /\
    (enableGiveUp p && isForaging (Agent.state a) && (Agent.excitedLevel a =? 0)%Z = true ->
     if (getLevel p (Agent.x a) (Agent.y a) HOME (grid w) >? 0.05)
        || (getLevel p (Agent.x a) (Agent.y a) FOOD (grid w) >? 0.05)
     then Agent.searchTime a' = 0%Z /\ Agent.givingUp a' = false
     else Agent.searchTime a' = (Agent.searchTime a + 1)%Z /\
          Agent.givingUp a' = (900 <? Agent.searchTime a + 1)%Z || Agent.givingUp a)).
Proof.
  unfold giveUpCheck. destruct (_ && _ && _).
  - apply returns_bind, returns_gets. cbn zeta.
    destruct (_ || _).
    + apply returns_ret. split; [reflexivity |]. split; [destruct a; reflexivity |].
      split; [intros _; split; cbn; [lia | discriminate] |].
      split; [discriminate |]. intros _. split; reflexivity.
    + apply returns_ret. split; [reflexivity |]. cbn [Agent.set_searchTime Agent.searchTime].
      rewrite Z.gtb_ltb.
      destruct (Z.ltb_spec 900 (Agent.searchTime a + 1)) as [Hlt | Hge];
        destruct a as [x y ang st ps el stime gu]; cbn in *.
      * split; [reflexivity |].
        split; [unfold giveUpOk; cbn; intros [H0 _]; split; [lia | intros _; lia] |].
        split; [discriminate |]. intros _. split; reflexivity.
      * split; [reflexivity |].
        split; [unfold giveUpOk; cbn; intros [H0 Hg]; split;
                [lia | intros Ht; specialize (Hg Ht); lia] |].
        split; [discriminate |]. intros _. split; reflexivity.
  - apply returns_ret. split; [reflexivity |]. split; [destruct a; reflexivity |].
    split; [tauto |]. split; [reflexivity | discriminate].
Qed.

Lemma propagate_spec (this : nat) (nearbyAgents : list nat) (a : Agent.t) (w : World) :
  Forall (fun ref => ref < length (agents w))%nat nearbyAgents ->
  returns (propagate p this nearbyAgents a) w (fun a' w' =>
    drawsAtMost (length nearbyAgents) w w' /\
    (a' = a \/ (a' = Agent.set_excitedLevel a 1 /\ sourceNearby this nearbyAgents (agents w))) /\
    (~ sourceNearby this nearbyAgents (agents w) -> a' = a /\ w' = w)).
Proof.
  revert w. induction nearbyAgents as [| o rest IH]; intros w Hrefs.
  - apply returns_ret. split; [apply drawsAtMost_refl |]. split; [left; reflexivity |].
    intros _. split; reflexivity.
  - inversion Hrefs as [| ? ? Ho Hrest]; subst. cbn [propagate length].
    assert (Hmono : forall a' w',
      drawsAtMost (length rest) w w' /\
      (a' = a \/ (a' = Agent.set_excitedLevel a 1 /\ sourceNearby this rest (agents w))) /\
      (~ sourceNearby this rest (agents w) -> a' = a /\ w' = w) ->
      (forall other, o <> this -> agents w !! o = Some other ->
                     Agent.excitedLevel other <> 2%Z) ->
      drawsAtMost (S (length rest)) w w' /\
      (a' = a \/ (a' = Agent.set_excitedLevel a 1 /\
                  sourceNearby this (o :: rest) (agents w))) /\
      (~ sourceNearby this (o :: rest) (agents w) -> a' = a /\ w' = w)).
    { intros a' w' (Hd & Hres & Hnone) Hhead.
      split; [eapply drawsAtMost_weaken; [| exact Hd]; lia |]. split.
      - destruct Hres as [-> | [-> (o' & other & Hin & Hne & Hl & Hlev)]]; [left; reflexivity |].
        right. split; [reflexivity |]. exists o', other.
        split; [now apply list_elem_of_further | tauto].
      - intros Hno. apply Hnone. intros (o' & other & Hin & Hne & Hl & Hlev).
        apply Hno. exists o', other. split; [now apply list_elem_of_further | tauto]. }
    destruct (Nat.eqb_spec o this) as [-> | Hne]; cbn [negb].
    { eapply returns_mono; [apply IH; exact Hrest |].
      intros a' w' H. apply Hmono; [exact H |]. intros other Hc. contradiction. }
    destruct (lookup_lt_is_Some_2 (agents w) o Ho) as [other Hother].
    apply returns_bind, (returns_getAgent o other); [exact Hother |].
    destruct (Z.eqb_spec (Agent.excitedLevel other) 2) as [Hlev | Hlev].
    + assert (Hsrc : sourceNearby this (o :: rest) (agents w)).
      { exists o, other. split; [apply list_elem_of_here | tauto]. }
      apply returns_bind, returns_random.
      destruct (_ <? _).
      * apply returns_ret. split; [draws_solve |]. split; [right; split; [reflexivity | exact Hsrc] |].
        intros Hno. contradiction.
      * eapply returns_mono; [apply IH; exact Hrest |].
        intros a' w' (Hd & Hres & _). cbn [agents set_rngPos] in *.
        split; [| split].
        -- apply (drawsAtMost_trans 1 (length rest) w (set_rngPos w (S (rngPos w))) w');
             [draws_solve | exact Hd].
        -- destruct Hres as [-> | [-> _]]; [left; reflexivity | right; split; [reflexivity | exact Hsrc]].
        -- intros Hno. contradiction.
    + eapply returns_mono; [apply IH; exact Hrest |].
      intros a' w' H. apply Hmono; [exact H |].
      intros other' _ Hl. rewrite Hother in Hl. injection Hl as <-. exact Hlev.
Qed.

(** The obstacle test, exactly: a rollback with one draw when the
    tentative position is in the closed rectangle of some obstacle,
    nothing otherwise. *)
Lemma handleObstacles_spec (prevX prevY : number) (a : Agent.t) (w : World) :
  returns (handleObstacles prevX prevY a) w (fun a' w' =>
    if existsb (insideObstacle a) (obstacles w)
    then a' = Agent.set_angle (Agent.set_pos a prevX prevY)
                (Agent.angle a + (Math_PI + (draws w (rngPos w) - 0.5))) /\
         w' = set_rngPos w (S (rngPos w))
    else a' = a /\ w' = w).
Proof.
  unfold handleObstacles. apply returns_bind, returns_gets.
  induction (obstacles w) as [| obs rest IH]; cbn [handleObstaclesLoop existsb].
  - apply returns_ret. split; reflexivity.
  - destruct (insideObstacle a obs); cbn [orb].
    + apply returns_bind, returns_random, returns_ret. split; reflexivity.
    + exact IH.
Qed.
End MoreSteps.

Lemma Math_max_ge_l (a b : Q) : a <= Math_max a b.
Proof. unfold Math_max. cmp_cases; lra. Qed.

Lemma Math_max_le (a b c : Q) : a <= c -> b <= c -> Math_max a b <= c.
Proof. unfold Math_max. cmp_cases; lra. Qed.

Section MoreTransition.
Context {Mth : MathImpl}.
Variable p : SimParams.

Lemma weaken_strength (a : Agent.t) :
  0 <= Agent.pheromoneStrength (weaken p a) /\
  (Agent.pheromoneStrength a <= 1 -> Agent.pheromoneStrength (weaken p a) <= 1).
Proof.
  unfold weaken. destruct (usePheromoneGradient p); cbn.
  - split; [apply Math_max_ge_l |]. intros H. apply Math_max_le; lra.
  - split; [discriminate |]. intros _. discriminate.
Qed.

(** Everything [handleStateAndPheromones] does, read off its branches. *)
Lemma handleStateAndPheromones_full (a : Agent.t) (w : World) :
  nests w <> [] ->
  returns (handleStateAndPheromones p a) w (fun a' w' =>
    let onFood := isOnFood a (foodSources w) in
    let atNest := atClosestNest a (nests w) in
    (Agent.x a' = Agent.x a /\ Agent.y a' = Agent.y a /\
     Agent.searchTime a' = Agent.searchTime a /\ Agent.givingUp a' = Agent.givingUp a) /\
    (grid w' = deposit p (Agent.x a) (Agent.y a) (laidChannel (Agent.state a))
                 (Agent.pheromoneStrength a) (grid w) /\
     foodSources w' = foodSources w /\ obstacles w' = obstacles w /\
     agents w' = agents w /\ spawnAccumulator w' = spawnAccumulator w /\
     draws w' = draws w /\ rngPos w' = rngPos w) /\
    (exists closestNest,
       nests w !! closestNestRef a (nests w) = Some closestNest /\
       nests w' = if isReturning (Agent.state a) && atNest && (Agent.excitedLevel a =? 2)%Z
                  then <[closestNestRef a (nests w) := Nest.set_surgeTimer closestNest 600]>
                         (nests w)
                  else nests w) /\
    (0 <= Agent.pheromoneStrength a' /\
     (Agent.pheromoneStrength a <= 1 -> Agent.pheromoneStrength a' <= 1) /\
     (onFood || atNest = true -> Agent.pheromoneStrength a' == 1)) /\
    (validLevel a -> validLevel a') /\
    Agent.state a' =
      (match Agent.state a with
       | FORAGING => if onFood then RETURNING else FORAGING
       | RETURNING => if atNest then FORAGING else RETURNING
       end) /\
    (Agent.state a' <> Agent.state a ->
       Agent.angle a' = Agent.angle a + Math_PI /\
       Agent.excitedLevel a' = (if isForaging (Agent.state a) then 2 else 0)%Z) /\
    (Agent.state a' = Agent.state a ->
       Agent.angle a' = Agent.angle a /\ Agent.excitedLevel a' = Agent.excitedLevel a /\
       (onFood || atNest = false -> a' = weaken p a))).
Proof.
  intros Hne. unfold handleStateAndPheromones, atClosestNest, closestNestRef.
  apply returns_bind, returns_gets.
  pose proof (findClosest_valid a (nests w) Hne) as Hvalid.
  destruct (findClosest a (nests w) 0 0 None) as [closest minDist] eqn:Hfc.
  cbn [fst] in Hvalid |- *.
  destruct (lookup_lt_is_Some_2 (nests w) closest Hvalid) as [closestNest Hnest].
  apply returns_bind, (returns_getNest closest closestNest); [exact Hnest |].
  apply returns_bind, returns_gets. rewrite Hnest.
  cbn beta zeta. clear Hfc.
  pose proof (weaken_strength a) as [Hw0 Hw1].
  destruct minDist as [d |]; [destruct (d <? Nest.r closestNest) |].
  all: destruct (isOnFood a (foodSources w)) eqn:HonFood.
  all: destruct a as [x y ang st ps el stime gu];
    cbn [Agent.state Agent.x Agent.y Agent.angle Agent.pheromoneStrength
         Agent.excitedLevel Agent.searchTime Agent.givingUp] in *.
  all: destruct st; cbn [isReturning isForaging andb orb laidChannel].
  all: apply returns_bind, returns_modify.
  all: try destruct (el =? 2)%Z eqn:Hel.
  all: unfold returns, mbind, mret, M_bind, M_ret, modify;
    cbn -[Math_PI deposit weaken Qle Qeq].
  all: eexists _, _; (split; [reflexivity |]).
  all: cbn -[Math_PI deposit weaken Qle Qeq].
  all: unfold validLevel; cbn [Agent.excitedLevel].
  all: repeat match goal with
       | |- _ /\ _ => split
       | |- exists _, _ => exists closestNest
       end.
  all: try reflexivity; try exact Hnest; try exact Hw0; try exact Hw1.
  all: try (intros; try reflexivity; try discriminate; try lia; try congruence; fail).
  all: intros; unfold weaken in *; destruct (usePheromoneGradient p);
    cbv [Agent.set_pheromoneStrength Agent.set_excitedLevel Agent.set_angle Agent.set_state
         Agent.excitedLevel Agent.pheromoneStrength Agent.state Agent.angle Agent.x Agent.y
         Agent.searchTime Agent.givingUp] in *;
    repeat split; try reflexivity; try discriminate; try lia; try congruence; try lra.
Qed.
End MoreTransition.

Lemma returns_bind_eq {A B} (c : M A) (k : A -> M B) (w w1 : World) (a : A)
    (Q : B -> World -> Prop) :
  c w = Some (a, w1) -> returns (k a) w1 Q -> returns (c ≫= k) w Q.
Proof.
  intros Hc Hk. apply returns_bind. exists a, w1. split; [exact Hc | exact Hk].
Qed.

Lemma returns_eq {A} (c : M A) (w : World) (Q : A -> World -> Prop) :
  returns c w Q -> exists a w', c w = Some (a, w') /\ Q a w'.
Proof. intros H. exact H. Qed.

Lemma sameBody_refl (a : Agent.t) : sameBody a a.
Proof. unfold sameBody. tauto. Qed.

Lemma sameBody_trans (a b c : Agent.t) : sameBody a b -> sameBody b c -> sameBody a c.
Proof.
  unfold sameBody. intros (H1 & H2 & H3 & H4) (K1 & K2 & K3 & K4).
  repeat split; congruence.
Qed.

Section Stages.
Context {Mth : MathImpl}.
Variable p : SimParams.

(** The move, the obstacle test and the clamp, exactly. *)
Lemma moveAndCollide_exact (speed : number) (a : Agent.t) (w : World) :
  returns (moveAndCollide speed a) w (fun a' w' =>
    let moved := tentativeMove speed a in
    if existsb (insideObstacle moved) (obstacles w)
    then a' = handleBoundaries (grid w)
                (Agent.set_angle (Agent.set_pos moved (Agent.x a) (Agent.y a))
                   (Agent.angle a + (Math_PI + (draws w (rngPos w) - 0.5)))) /\
         w' = set_rngPos w (S (rngPos w))
    else a' = handleBoundaries (grid w) moved /\ w' = w).
Proof.
  unfold moveAndCollide. cbn zeta. apply returns_bind.
  eapply returns_mono; [apply handleObstacles_spec |].
  intros a1 w1 H. cbn beta. apply returns_bind, returns_gets, returns_ret.
  change (Agent.set_y (Agent.set_x a (Agent.x a + Math_cos (Agent.angle a) * speed))
            (Agent.y (Agent.set_x a (Agent.x a + Math_cos (Agent.angle a) * speed)) +
             Math_sin (Agent.angle (Agent.set_x a (Agent.x a + Math_cos (Agent.angle a) * speed)))
             * speed))
    with (tentativeMove speed a) in H.
  cbn zeta. destruct (existsb _ _).
  - destruct H as [-> ->]. split; reflexivity.
  - destruct H as [-> ->]. split; reflexivity.
Qed.

Lemma moveAndCollide_facts (speed : number) (a : Agent.t) (w : World) :
  returns (moveAndCollide speed a) w (fun a' w' =>
    drawsAtMost 1 w w' /\
    Agent.state a' = Agent.state a /\
    Agent.pheromoneStrength a' = Agent.pheromoneStrength a /\
    Agent.excitedLevel a' = Agent.excitedLevel a /\
    Agent.searchTime a' = Agent.searchTime a /\
    Agent.givingUp a' = Agent.givingUp a /\
    ((1 <= width (grid w))%Z -> (1 <= height (grid w))%Z ->
     inBounds (grid w) (Agent.x a') (Agent.y a'))).
Proof.
  eapply returns_mono; [apply moveAndCollide_exact |].
  intros a' w'. cbn zeta. destruct (existsb _ _); intros [-> ->].
  - split; [draws_solve |].
    repeat split; try (intros HW HH);
      try (now apply (handleBoundaries_spec (grid w) _));
      destruct (Z_le_gt_dec 1 (width (grid w))), (Z_le_gt_dec 1 (height (grid w)));
      try lia.
    all: unfold handleBoundaries; cbn zeta; split_ifs; reflexivity.
  - split; [apply drawsAtMost_refl |].
    repeat split; try (intros HW HH);
      try (now apply (handleBoundaries_spec (grid w) _));
      destruct (Z_le_gt_dec 1 (width (grid w))), (Z_le_gt_dec 1 (height (grid w)));
      try lia.
    all: unfold handleBoundaries; cbn zeta; split_ifs; reflexivity.
Qed.

(** The stages of [update]: the steps before the move keep the position,
    the state and the trail strength and only consume draws; then come the
    move with its collision handling and the state-transition step, whose
    results are written back to the store. *)
Lemma update_stages (this : nat) (nearbyAgents : list nat) (a : Agent.t) (w : World) :
  agents w !! this = Some a ->
  Forall (fun ref => ref < length (agents w))%nat nearbyAgents ->
  nests w <> [] ->
  returns (update p this nearbyAgents) w (fun _ w' =>
    exists a5 w5 a6 w6 a7 w7,
      sameBody a a5 /\ (validLevel a -> validLevel a5) /\
      (giveUpOk a -> giveUpOk a5) /\
      drawsAtMost (length nearbyAgents + 5) w w5 /\
      moveAndCollide (currentSpeed p a5 (grid w5)) a5 w5 = Some (a6, w6) /\
      handleStateAndPheromones p a6 w6 = Some (a7, w7) /\
      w' = set_agents w7 (<[this := a7]> (agents w7))).
Proof.
  intros Hthis Hrefs Hnests. unfold update.
  apply returns_bind, (returns_getAgent this a); [exact Hthis |].
  (* excitation decay *)
  apply returns_bind.
  apply (returns_mono _ _ (fun a1 w1 =>
           (sameBody a a1 /\ (giveUpOk a -> giveUpOk a1)) /\
           (validLevel a -> validLevel a1) /\ drawsAtMost 1 w w1)).
  { destruct (_ && _).
    - apply returns_bind, returns_random, returns_ret.
      destruct (_ <? _); (split; [unfold sameBody, giveUpOk; cbn; tauto |]);
        (split; [| draws_solve]); unfold validLevel; cbn; lia.
    - apply returns_ret. split; [split; [apply sameBody_refl | tauto] |].
      split; [tauto | apply drawsAtMost_refl]. }
  intros a1 w1 ([Hb1 Hg1] & Hl1 & Hd1). cbn beta.
  (* propagation *)
  apply returns_bind.
  apply (returns_mono _ _ (fun a2 w2 =>
           (sameBody a a2 /\ (giveUpOk a -> giveUpOk a2)) /\
           (validLevel a -> validLevel a2) /\
           drawsAtMost (length nearbyAgents + 1) w w2)).
  { destruct (_ && _).
    - eapply returns_mono.
      { apply propagate_spec. destruct Hd1 as [_ ->]. exact Hrefs. }
      intros a2 w2 (Hd2 & Hres & _).
      split; [| split].
      + destruct Hres as [-> | [-> _]]; [split; [exact Hb1 | exact Hg1] |].
        split; [| exact Hg1].
        eapply sameBody_trans; [exact Hb1 |]. unfold sameBody. cbn. tauto.
      + intros Hv. specialize (Hl1 Hv).
        destruct Hres as [-> | [-> _]]; [exact Hl1 |]. unfold validLevel. cbn. lia.
      + replace (length nearbyAgents + 1)%nat with (1 + length nearbyAgents)%nat by lia.
        eapply drawsAtMost_trans; eauto.
    - apply returns_ret. split; [split; [exact Hb1 | exact Hg1] |]. split; [exact Hl1 |].
      eapply drawsAtMost_weaken; [| exact Hd1]. lia. }
  intros a2 w2 ([Hb2 Hg2] & Hl2 & Hd2). cbn beta.
  (* sensing *)
  apply returns_bind. eapply returns_mono; [apply sense_heading |].
  intros a3 w3 (Hh3 & Hd3). cbn beta.
  (* give-up evaluation *)
  apply returns_bind. eapply returns_mono; [apply giveUpCheck_full |].
  intros a4 w4 (-> & Hg4 & Hgu4 & _). cbn beta.
  (* jitter *)
  apply returns_bind, returns_random. cbn zeta.
  apply returns_bind, returns_gets.
  set (a5 := Agent.set_angle a4 _).
  set (w5 := set_rngPos w3 _).
  assert (Hb5 : sameBody a a5).
  { eapply sameBody_trans; [exact Hb2 |]. unfold sameBody, a5.
    rewrite Hg4, Hh3. cbn. tauto. }
  assert (Hl5 : validLevel a -> validLevel a5).
  { intros Hv. specialize (Hl2 Hv). unfold validLevel, a5 in *.
    rewrite Hg4, Hh3. cbn. exact Hl2. }
  assert (Hgu5 : giveUpOk a -> giveUpOk a5).
  { intros Hv. apply Hg2 in Hv.
    assert (Hv3 : giveUpOk a3) by (rewrite Hh3; exact Hv).
    exact (Hgu4 Hv3). }
  assert (Hd5 : drawsAtMost (length nearbyAgents + 5) w w5).
  { replace (length nearbyAgents + 5)%nat with (length nearbyAgents + 1 + (3 + 1))%nat by lia.
    eapply drawsAtMost_trans; [exact Hd2 |].
    eapply drawsAtMost_trans; [exact Hd3 |]. unfold w5. draws_solve. }
  assert (Hne5 : nests w5 <> []).
  { eapply frame_nests_nonempty; [apply (drawsAtMost_frame _ _ _ Hd5) | exact Hnests]. }
  change (grid w3) with (grid w5).
  destruct (returns_eq _ _ _ (moveAndCollide_facts (currentSpeed p a5 (grid w5)) a5 w5))
    as (a6 & w6 & Hmove & Hd6 & _).
  eapply returns_bind_eq; [exact Hmove |].
  assert (Hne6 : nests w6 <> []).
  { eapply frame_nests_nonempty; [apply (drawsAtMost_frame _ _ _ Hd6) | exact Hne5]. }
  destruct (returns_eq _ _ _ (handleStateAndPheromones_full p a6 w6 Hne6))
    as (a7 & w7 & Hstep & _).
  eapply returns_bind_eq; [exact Hstep |].
  unfold putAgent. apply returns_modify.
  exists a5, w5, a6, w6, a7, w7.
  split; [exact Hb5 |]. split; [exact Hl5 |]. split; [exact Hgu5 |]. split; [exact Hd5 |].
  split; [exact Hmove |]. split; [exact Hstep | reflexivity].
Qed.
End Stages.

Lemma inBounds_dims (g g' : PheromoneGrid) (x y : number) :
  width g' = width g -> height g' = height g -> inBounds g' x y <-> inBounds g x y.
Proof. unfold inBounds. intros -> ->. reflexivity. Qed.

Lemma nestsKept_refl (ns : list Nest.t) : nestsKept ns ns.
Proof.
  split; [reflexivity |]. intros i n Hl. exists n.
  split; [exact Hl |]. split; [repeat split | tauto].
Qed.

Lemma nestsKept_trans (ns1 ns2 ns3 : list Nest.t) :
  nestsKept ns1 ns2 -> nestsKept ns2 ns3 -> nestsKept ns1 ns3.
Proof.
  intros [Hl1 H1] [Hl2 H2]. split; [congruence |].
  intros i n Hl. destruct (H1 i n Hl) as (n' & Hl' & (Hx & Hy & Hr) & Ht).
  destruct (H2 i n' Hl') as (n'' & Hl'' & (Hx' & Hy' & Hr') & Ht').
  exists n''. split; [exact Hl'' |].
  split; [repeat split; congruence | tauto].
Qed.

Lemma nestsKept_surge (ns : list Nest.t) (i : nat) (n : Nest.t) :
  ns !! i = Some n -> nestsKept ns (<[i := Nest.set_surgeTimer n 600]> ns).
Proof.
  intros Hi. split; [apply length_insert |].
  intros j m Hj. destruct (decide (j = i)) as [-> | Hne].
  - rewrite Hi in Hj. injection Hj as <-.
    exists (Nest.set_surgeTimer n 600).
    split; [apply list_lookup_insert_eq; eapply lookup_lt_Some; eauto |].
    split; [repeat split |]. intros _. unfold timerOk. cbn. lia.
  - exists m. rewrite list_lookup_insert_ne by congruence.
    split; [exact Hj |]. split; [repeat split | tauto].
Qed.

Lemma nestsKept_timers (ns ns' : list Nest.t) :
  nestsKept ns ns' -> Forall timerOk ns -> Forall timerOk ns'.
Proof.
  intros [Hlen H] Hok. apply Forall_lookup_2. intros i n' Hl'.
  assert (Hi : (i < length ns)%nat) by (rewrite <- Hlen; eapply lookup_lt_Some; eauto).
  destruct (lookup_lt_is_Some_2 ns i Hi) as [n Hl].
  destruct (H i n Hl) as (n'' & Hl'' & _ & Ht).
  rewrite Hl' in Hl''. injection Hl'' as <-.
  apply Ht. eapply Forall_lookup_1; eauto.
Qed.

Section UpdateFull.
Context {Mth : MathImpl}.
Variable p : SimParams.

(** What one [update] leaves: the agent written back in place, inside the
    arena, with its invariants; one deposit, at the new position, of the
    strength and on the channel the agent had when the tick began. *)
Lemma update_full (this : nat) (nearbyAgents : list nat) (a : Agent.t) (w : World) :
  agents w !! this = Some a ->
  Forall (fun ref => ref < length (agents w))%nat nearbyAgents ->
  nests w <> [] ->
  returns (update p this nearbyAgents) w (fun _ w' =>
    exists a',
      agents w' = <[this := a']> (agents w) /\
      ((1 <= width (grid w))%Z -> (1 <= height (grid w))%Z ->
       inBounds (grid w) (Agent.x a') (Agent.y a')) /\
      (validStrength a -> validStrength a') /\
      (validLevel a -> validLevel a') /\
      (giveUpOk a -> giveUpOk a') /\
      grid w' = deposit p (Agent.x a') (Agent.y a') (laidChannel (Agent.state a))
                  (Agent.pheromoneStrength a) (grid w) /\
      obstacles w' = obstacles w /\ foodSources w' = foodSources w /\
      spawnAccumulator w' = spawnAccumulator w /\ draws w' = draws w /\
      length (nests w') = length (nests w) /\
      (rngPos w <= rngPos w' <= rngPos w + (length nearbyAgents + 6))%nat /\
      nestsKept (nests w) (nests w')).
Proof.
  intros Hthis Hrefs Hnests.
  eapply returns_mono; [apply (update_stages p this nearbyAgents a w); assumption |].
  intros _ w' (a5 & w5 & a6 & w6 & a7 & w7 & Hb5 & Hl5 & Hgu5 & Hd5 & Hmove & Hstep & ->).
  pose proof (returns_inv _ _ _ _ _ (moveAndCollide_facts (currentSpeed p a5 (grid w5)) a5 w5) Hmove)
    as (Hd6 & Hst6 & Hps6 & Hel6 & Hse6 & Hgv6 & Hin6).
  assert (Hne6 : nests w6 <> []).
  { eapply frame_nests_nonempty; [apply (drawsAtMost_frame _ _ _ Hd6) |].
    eapply frame_nests_nonempty; [apply (drawsAtMost_frame _ _ _ Hd5) | exact Hnests]. }
  pose proof (returns_inv _ _ _ _ _ (handleStateAndPheromones_full p a6 w6 Hne6) Hstep)
    as ((Hx7 & Hy7 & Hse7 & Hgv7) & (Hgrid & Hfs & Hobs & Hags & Hacc & Hdr & Hrng)
        & (cn & Hcn & Hnests7) & (Hs0 & Hs1 & _) & Hlev7 & _).
  destruct Hb5 as (Hx5 & Hy5 & Hst5 & Hps5).
  destruct Hd5 as [Hr5 E5]. destruct Hd6 as [Hr6 E6].
  assert (Hw6 : w6 = set_rngPos w (rngPos w6)) by (rewrite E6, E5; reflexivity).
  assert (Hg6 : grid w6 = grid w) by (rewrite Hw6; reflexivity).
  assert (Hg5 : grid w5 = grid w) by (rewrite E5; reflexivity).
  exists a7. cbn [agents grid obstacles foodSources spawnAccumulator draws nests rngPos set_agents].
  rewrite Hags, Hgrid, Hobs, Hfs, Hacc, Hdr, Hrng, Hx7, Hy7, Hg6, Hst6, Hps6, Hst5, Hps5.
  split; [rewrite Hw6; reflexivity |].
  split; [rewrite Hg5 in Hin6; exact Hin6 |].
  split.
  { intros [Hv0 Hv1]. split; [exact Hs0 |]. apply Hs1. rewrite Hps6, Hps5. exact Hv1. }
  split.
  { intros Hv. apply Hlev7. unfold validLevel. rewrite Hel6. apply Hl5. exact Hv. }
  split.
  { intros Hv. apply Hgu5 in Hv. unfold giveUpOk in *.
    rewrite Hse7, Hgv7, Hse6, Hgv6. exact Hv. }
  split; [reflexivity |].
  rewrite Hw6. cbn [obstacles foodSources spawnAccumulator draws set_rngPos].
  assert (Hn6 : nests w6 = nests w) by (rewrite Hw6; reflexivity).
  assert (Hkept : nestsKept (nests w) (nests w7)).
  { rewrite Hnests7, Hn6 in *. destruct (_ && _); [| apply nestsKept_refl].
    apply nestsKept_surge. exact Hcn. }
  split; [reflexivity |]. split; [reflexivity |]. split; [reflexivity |].
  split; [reflexivity |]. split; [apply Hkept |].
  split; [cbn [rngPos set_rngPos]; lia | exact Hkept].
Qed.
End UpdateFull.

(** * Further properties of the tick *)

Lemma Math_PI_pos : 0 < Math_PI.
Proof. reflexivity. Qed.

Section SpawnFull.
Variable p : SimParams.

Lemma newAgent_spawned (nest : Nest.t) (w : World) :
  validDraws w -> nest ∈ nests w ->
  returns (newAgent (Nest.x nest) (Nest.y nest)) w (fun a w' =>
    spawnedAt (nests w) a /\ w' = set_rngPos w (S (rngPos w))).
Proof.
  intros Hdraws Hin. unfold newAgent. apply returns_bind, returns_random, returns_ret.
  split; [| reflexivity]. exists nest. cbn.
  destruct (Hdraws (rngPos w)) as [H0 H1]. pose proof Math_PI_pos.
  repeat split; try reflexivity; try assumption; nra.
Qed.

(** The spawn loop in general: it appends agents made at nests, never
    takes the population past the ceiling, and touches nothing but the
    agent store and the draws. *)
Lemma spawnLoop_full (n : nat) (w : World) :
  nests w <> [] -> validDraws w ->
  returns (spawnLoop p n) w (fun _ w' =>
    exists new,
      agents w' = agents w ++ new /\ Forall (spawnedAt (nests w)) new /\
      (Z.of_nat (length (agents w')) <= Z.max (Z.of_nat (length (agents w))) (agentCount p))%Z /\
      (enableSortieRegulation p = false ->
       (Z.of_nat (length (agents w)) <= agentCount p)%Z ->
       Z.of_nat (length (agents w'))
         = Z.min (Z.of_nat (length (agents w)) + Z.of_nat n) (agentCount p)) /\
      onlyAgentsAndDraws w w' /\
      (rngPos w <= rngPos w' <= rngPos w + 3 * n)%nat).
Proof.
  revert w. induction n as [| n IH]; intros w Hne Hdraws.
  - apply returns_ret. exists []. rewrite app_nil_r.
    split; [reflexivity |]. split; [constructor |]. split; [lia |].
    split; [intros; lia |]. split; [now destruct w | lia].
  - cbn [spawnLoop]. apply returns_bind, returns_gets.
    destruct (Z.geb_spec (Z.of_nat (length (agents w))) (agentCount p)) as [Hfull | Hroom].
    { apply returns_ret. exists []. rewrite app_nil_r.
      split; [reflexivity |]. split; [constructor |]. split; [lia |].
      split; [intros; lia |]. split; [now destruct w | lia]. }
    apply returns_bind, returns_gets, returns_bind, returns_random.
    apply returns_bind.
    apply (pickNest_spec (set_rngPos w (S (rngPos w))) (draws w (rngPos w)));
      [exact Hne | apply Hdraws |].
    intros nest Hnest. cbn [nests set_rngPos] in Hnest.
    (* whether this iteration is skipped *)
    apply returns_bind.
    apply (returns_mono _ _ (fun (skip : bool) w1 =>
             (enableSortieRegulation p = false -> skip = false) /\
             exists k, (1 <= k <= 2)%nat /\ w1 = set_rngPos w (rngPos w + k))).
    { destruct (enableSortieRegulation p).
      - destruct (Nest.surgeTimer nest >? 0)%Z.
        + apply returns_ret. split; [discriminate |]. exists 1%nat. split; [lia |].
          cbn. f_equal. lia.
        + apply returns_bind, returns_random, returns_ret. split; [discriminate |].
          exists 2%nat. split; [lia |]. cbn. f_equal. lia.
      - apply returns_ret. split; [reflexivity |]. exists 1%nat. split; [lia |].
        cbn. f_equal. lia. }
    intros skip w1 (Hskip & k & Hk & ->). cbn beta.
    apply returns_bind.
    destruct skip.
    + (* skipped: continue *)
      apply returns_ret.
      eapply returns_mono; [apply IH; [exact Hne | exact Hdraws] |].
      intros _ w' (new & Hags & Hnew & Hceil & Hexact & Honly & Hrng).
      cbn [agents nests rngPos set_rngPos] in *.
      exists new. split; [exact Hags |]. split; [exact Hnew |]. split; [exact Hceil |].
      split; [intros Hoff; specialize (Hskip Hoff); discriminate |].
      split; [| lia].
      unfold onlyAgentsAndDraws in *. rewrite Honly at 1. reflexivity.
    + apply returns_bind.
      eapply returns_mono.
      { apply (newAgent_spawned nest (set_rngPos w (rngPos w + k))); [exact Hdraws | exact Hnest]. }
      intros a w2 (Ha & ->). cbn beta. apply returns_modify.
      eapply returns_mono; [apply IH; [exact Hne | exact Hdraws] |].
      intros _ w' (new & Hags & Hnew & Hceil & Hexact & Honly & Hrng).
      cbn [agents nests rngPos set_rngPos set_agents] in *.
      rewrite length_app in *. cbn [length] in *.
      exists (a :: new). split; [rewrite Hags, <- app_assoc; reflexivity |].
      split; [constructor; assumption |]. split; [lia |].
      split; [intros Hoff Hle; specialize (Hexact Hoff); lia |].
      split; [| lia].
      unfold onlyAgentsAndDraws in *. rewrite Honly at 1. reflexivity.
Qed.
End SpawnFull.

Lemma wfGrid_sameLength (g : PheromoneGrid) : wfGrid g -> sameLength g.
Proof. unfold wfGrid, sameLength, alength. intros (_ & _ & Hh & Hf). lia. Qed.

Lemma fieldOk_deposit (p : SimParams) (g : PheromoneGrid) (x y amount : number)
    (t : PheromoneType) :
  0 <= amount -> fieldOk g -> fieldOk (deposit p x y t amount g).
Proof.
  intros Ha (Hwf & H01 & HW & HH).
  destruct (deposit_dims p g x y t amount) as (Hw & Hh & _).
  split; [now apply deposit_wf |]. split; [now apply deposit_cellsIn01 |].
  rewrite Hw, Hh. split; assumption.
Qed.

Lemma fieldOk_evaporate (rate : number) (g : PheromoneGrid) :
  0 < rate /\ rate <= 1 -> fieldOk g -> fieldOk (evaporate rate g).
Proof.
  intros Hr (Hwf & H01 & HW & HH).
  pose proof (wfGrid_sameLength g Hwf) as Hlen.
  destruct (evaporate_every_cell_once_aux rate g HOME 0 Hlen) as (_ & _ & Hw & Hh).
  split; [now apply evaporate_wf |]. split; [now apply evaporate_cellsIn01 |].
  rewrite Hw, Hh. split; assumption.
Qed.

Lemma agentOk_pre (g : PheromoneGrid) (a : Agent.t) : agentOk g a -> agentPre a.
Proof. intros (_ & H). exact H. Qed.

Lemma spawnedAt_pre (ns : list Nest.t) (a : Agent.t) : spawnedAt ns a -> agentPre a.
Proof.
  intros (nest & _ & _ & _ & _ & _ & Hs & Hl & Hst & Hgu). split; [| split].
  - unfold validStrength. rewrite Hs. split; discriminate.
  - unfold validLevel. rewrite Hl. lia.
  - unfold giveUpOk. rewrite Hst, Hgu. split; [lia | discriminate].
Qed.

Section TickInvariant.
Context {Mth : MathImpl}.
Variable p : SimParams.

Lemma updateAll_inv (spatialMap : gmap Z (list nat)) (refs : list nat) (w : World) :
  bucketsValid spatialMap (length (agents w)) ->
  Forall (fun ref => ref < length (agents w))%nat refs ->
  nests w <> [] -> fieldOk (grid w) -> Forall agentPre (agents w) ->
  returns (updateAll p spatialMap refs) w (fun _ w' =>
    (length (agents w') = length (agents w) /\
     spawnAccumulator w' = spawnAccumulator w /\ draws w' = draws w /\
     length (nests w') = length (nests w) /\
     obstacles w' = obstacles w /\ foodSources w' = foodSources w) /\
    (fieldOk (grid w') /\ width (grid w') = width (grid w) /\
     height (grid w') = height (grid w)) /\
    Forall agentPre (agents w') /\
    (forall i a0, agents w !! i = Some a0 -> agentOk (grid w) a0 ->
       exists a1, agents w' !! i = Some a1 /\ agentOk (grid w) a1) /\
    (forall i, i ∈ refs -> exists a1, agents w' !! i = Some a1 /\ agentOk (grid w) a1) /\
    nestsKept (nests w) (nests w')).
Proof.
  revert w. induction refs as [| ref rest IH]; intros w Hmap Hrefs Hne Hfield Hpre.
  - apply returns_ret.
    split; [repeat split |]. split; [repeat split; apply Hfield |].
    split; [exact Hpre |]. split; [| split; [| apply nestsKept_refl]].
    + intros i a0 Hl Hok. exists a0. split; assumption.
    + intros i Hin. inversion Hin.
  - inversion Hrefs as [| ? ? Href Hrest]; subst. cbn [updateAll].
    destruct (lookup_lt_is_Some_2 (agents w) ref Href) as [agent Hagent].
    apply returns_bind, (returns_getAgent ref agent); [exact Hagent |].
    cbn zeta. apply returns_bind.
    eapply returns_mono.
    { apply (update_full p ref _ agent w); [exact Hagent | | exact Hne].
      destruct (spatialMap !! bucketKey agent) as [l |] eqn:Hl; cbn.
      - eapply Hmap; eauto.
      - constructor. }
    intros _ w1 (a' & Hags & Hin & Hstr & Hlev & Hgu & Hgrid & Hobs & Hfs & Hacc & Hdr & Hnl & _ & Hnk1).
    cbn beta.
    pose proof (Forall_lookup_1 _ _ _ _ Hpre Hagent) as (Hps & Hpl & Hpg).
    destruct Hfield as (Hwf & H01 & HW & HH).
    assert (Hlen : length (agents w1) = length (agents w))
      by (rewrite Hags; apply length_insert).
    assert (Hfield1 : fieldOk (grid w1)).
    { rewrite Hgrid. apply fieldOk_deposit; [apply Hps | exact (conj Hwf (conj H01 (conj HW HH)))]. }
    assert (Hdims1 : width (grid w1) = width (grid w) /\ height (grid w1) = height (grid w)).
    { rewrite Hgrid.
      destruct (deposit_dims p (grid w) (Agent.x a') (Agent.y a')
                  (laidChannel (Agent.state agent)) (Agent.pheromoneStrength agent))
        as (-> & -> & _). split; reflexivity. }
    destruct Hdims1 as [HW1 HH1].
    assert (Hok' : agentOk (grid w) a').
    { split; [apply Hin; assumption |]. split; [apply Hstr; exact Hps |].
      split; [apply Hlev; exact Hpl | apply Hgu; exact Hpg]. }
    assert (Hpre1 : Forall agentPre (agents w1)).
    { rewrite Hags. apply Forall_insert; [exact Hpre |]. eapply agentOk_pre; eauto. }
    eapply returns_mono.
    { apply IH.
      - rewrite Hlen. exact Hmap.
      - rewrite Hlen. exact Hrest.
      - eapply nests_nonempty_length; eauto.
      - exact Hfield1.
      - exact Hpre1. }
    intros _ w2 ((Hl2 & Hacc2 & Hdr2 & Hnl2 & Hobs2 & Hfs2) & (Hf2 & HW2 & HH2) & Hpre2
                 & Hkeep & Hdone & Hnk2).
    assert (Hnk : nestsKept (nests w) (nests w2))
      by (eapply nestsKept_trans; eauto).
    assert (Hok_dims : forall a1, agentOk (grid w1) a1 <-> agentOk (grid w) a1).
    { intros a1. unfold agentOk. rewrite (inBounds_dims (grid w) (grid w1)) by assumption.
      reflexivity. }
    split; [repeat split; congruence |].
    split; [split; [exact Hf2 | split; congruence] |].
    split; [exact Hpre2 |].
    assert (Hkeep' : forall i a0, agents w1 !! i = Some a0 -> agentOk (grid w) a0 ->
                       exists a1, agents w2 !! i = Some a1 /\ agentOk (grid w) a1).
    { intros i a0 Hl Hok. destruct (Hkeep i a0 Hl (proj2 (Hok_dims a0) Hok)) as (a1 & Hl1 & Hok1).
      exists a1. split; [exact Hl1 | apply Hok_dims; exact Hok1]. }
    split; [| split].
    + intros i a0 Hl Hok. destruct (decide (i = ref)) as [-> | Hneq].
      * apply (Hkeep' ref a'); [| exact Hok'].
        rewrite Hags. apply list_lookup_insert_eq. exact Href.
      * apply (Hkeep' i a0); [| exact Hok].
        rewrite Hags, list_lookup_insert_ne by congruence. exact Hl.
    + intros i Hi. inversion Hi as [| ? ? ? Hi2]; subst.
      * apply (Hkeep' ref a'); [| exact Hok'].
        rewrite Hags. apply list_lookup_insert_eq. exact Href.
      * destruct (Hdone i Hi2) as (a1 & Hl1 & Hok1).
        exists a1. split; [exact Hl1 | apply Hok_dims; exact Hok1].
    + exact Hnk.
Qed.
End TickInvariant.

(** * The spawn block and the whole tick *)

Section SpawnBlock.
Variable p : SimParams.

Lemma spawnPhase_full (w : World) :
  nests w <> [] -> validDraws w ->
  returns (spawnPhase p) w (fun _ w' =>
    exists new,
      agents w' = agents w ++ new /\ Forall (spawnedAt (nests w)) new /\
      (Z.of_nat (length (agents w')) <= Z.max (Z.of_nat (length (agents w))) (agentCount p))%Z /\
      (grid w' = grid w /\ nests w' = nests w /\ obstacles w' = obstacles w /\
       foodSources w' = foodSources w /\ draws w' = draws w) /\
      ((agentCount p <= Z.of_nat (length (agents w)))%Z -> w' = w) /\
      ((Z.of_nat (length (agents w)) < agentCount p)%Z ->
       let acc := spawnAccumulator w + spawnRate p in
       spawnAccumulator w' = acc - inject_Z (Math_floor acc) /\
       (enableSortieRegulation p = false ->
        Z.of_nat (length (agents w'))
          = Z.min (Z.of_nat (length (agents w)) + Z.max 0 (Math_floor acc)) (agentCount p)))).
Proof.
  intros Hne Hdraws. unfold spawnPhase.
  apply returns_bind, returns_gets.
  destruct (Z.ltb_spec (Z.of_nat (length (agents w))) (agentCount p)) as [Hroom | Hfull].
  - apply returns_bind, returns_modify, returns_bind, returns_gets.
    cbn zeta. apply returns_bind, returns_modify.
    cbn [spawnAccumulator set_spawnAccumulator].
    set (acc := spawnAccumulator w + spawnRate p).
    set (w2 := set_spawnAccumulator (set_spawnAccumulator w acc) (acc - inject_Z (Math_floor acc))).
    eapply returns_mono.
    { apply (spawnLoop_full p (Z.to_nat (Math_floor acc)) w2); [exact Hne | exact Hdraws]. }
    intros _ w' (new & Hags & Hnew & Hceil & Hexact & Honly & _).
    exists new. unfold onlyAgentsAndDraws in Honly.
    change (agents w2) with (agents w) in *. change (nests w2) with (nests w) in *.
    split; [exact Hags |]. split; [exact Hnew |]. split; [exact Hceil |].
    split; [rewrite Honly; cbn; tauto |].
    split; [intros; lia |]. intros _.
    split; [rewrite Honly; reflexivity |].
    intros Hs. rewrite (Hexact Hs) by lia. rewrite ZifyInst.of_nat_to_nat_eq. reflexivity.
  - apply returns_ret. exists []. rewrite app_nil_r.
    split; [reflexivity |]. split; [constructor |]. split; [lia |].
    split; [tauto |]. split; [reflexivity |]. intros; lia.
Qed.
End SpawnBlock.

Lemma tickSurgeTimers_full (w : World) :
  returns tickSurgeTimers w (fun _ w' =>
    w' = set_nests w (nests w') /\ length (nests w') = length (nests w) /\
    forall i nest, nests w !! i = Some nest ->
      exists nest', nests w' !! i = Some nest' /\
        nest' = Nest.set_surgeTimer nest (Nest.surgeTimer nest') /\
        Nest.surgeTimer nest'
          = (if (0 <? Nest.surgeTimer nest)%Z then Nest.surgeTimer nest - 1
             else Nest.surgeTimer nest)%Z).
Proof.
  unfold tickSurgeTimers. apply returns_modify.
  cbn [nests set_nests]. split; [reflexivity |]. split; [apply length_map |].
  intros i nest Hl. rewrite list_lookup_fmap, Hl. cbn.
  eexists. split; [reflexivity |].
  rewrite Z.gtb_ltb. destruct (0 <? Nest.surgeTimer nest)%Z; destruct nest; cbn; split; reflexivity.
Qed.

Lemma tickSurgeTimers_kept (w : World) :
  returns tickSurgeTimers w (fun _ w' =>
    w' = set_nests w (nests w') /\ nestsKept (nests w) (nests w')).
Proof.
  eapply returns_mono; [apply tickSurgeTimers_full |].
  intros u w' (Hw' & Hlen & Hall). split; [exact Hw' |]. split; [exact Hlen |].
  intros i n Hl. destruct (Hall i n Hl) as (n' & Hl' & Hn' & Ht).
  exists n'. split; [exact Hl' |]. split; [rewrite Hn'; repeat split |].
  unfold timerOk. rewrite Ht. destruct (Z.ltb_spec 0 (Nest.surgeTimer n)); lia.
Qed.

(** The state between two ticks. *)
Section TickInv.
Context {Mth : MathImpl}.
Variable p : SimParams.

Lemma loop_inv (w : World) :
  0 < evaporationRate p /\ evaporationRate p <= 1 ->
  nests w <> [] -> validDraws w -> fieldOk (grid w) -> Forall agentPre (agents w) ->
  returns (loop p) w (fun _ w' =>
    (length (nests w') = length (nests w) /\ draws w' = draws w /\
     obstacles w' = obstacles w /\ foodSources w' = foodSources w) /\
    (fieldOk (grid w') /\ width (grid w') = width (grid w) /\
     height (grid w') = height (grid w)) /\
    Forall (agentOk (grid w')) (agents w') /\
    (length (agents w) <= length (agents w'))%nat /\
    (Z.of_nat (length (agents w')) <= Z.max (Z.of_nat (length (agents w))) (agentCount p))%Z /\
    nestsKept (nests w) (nests w')).
Proof.
  intros Hrate Hne Hdraws Hfield Hpre. unfold loop.
  apply returns_bind. eapply returns_mono; [apply tickSurgeTimers_kept |].
  intros _ w1 (Hw1 & Hnk1). cbn beta.
  assert (Hnl1 : length (nests w1) = length (nests w)) by apply Hnk1.
  assert (Hne1 : nests w1 <> []) by (eapply nests_nonempty_length; eauto).
  apply returns_bind. eapply returns_mono.
  { apply spawnPhase_full; [exact Hne1 |].
    rewrite Hw1. exact Hdraws. }
  intros _ w2 (new & Hags2 & Hnew & Hceil & (Hg2 & Hns2 & Hobs2 & Hfs2 & Hdr2) & _ & _).
  cbn beta.
  apply returns_bind, returns_modify, returns_bind, returns_gets.
  cbn zeta. cbn [agents set_grid].
  assert (Hagents1 : agents w1 = agents w) by (rewrite Hw1; reflexivity).
  assert (Hgrid1 : grid w1 = grid w) by (rewrite Hw1; reflexivity).
  assert (Hfield2 : fieldOk (evaporate (evaporationRate p) (grid w2))).
  { apply fieldOk_evaporate; [exact Hrate |]. rewrite Hg2, Hgrid1. exact Hfield. }
  assert (Hdims2 : width (evaporate (evaporationRate p) (grid w2)) = width (grid w) /\
                   height (evaporate (evaporationRate p) (grid w2)) = height (grid w)).
  { destruct Hfield as (Hwf & _).
    destruct (evaporate_every_cell_once_aux (evaporationRate p) (grid w2) HOME 0)
      as (_ & _ & -> & ->).
    - rewrite Hg2, Hgrid1. apply wfGrid_sameLength. exact Hwf.
    - rewrite Hg2, Hgrid1. split; reflexivity. }
  destruct Hdims2 as [HW2 HH2].
  eapply returns_mono.
  { apply (updateAll_inv p); cbn [agents nests grid set_grid].
    - apply buildSpatialMap_valid.
    - apply Forall_forall. intros ref Href.
      apply list_elem_of_In, in_seq in Href. lia.
    - rewrite Hns2. exact Hne1.
    - exact Hfield2.
    - rewrite Hags2, Hagents1. apply Forall_app. split; [exact Hpre |].
      eapply Forall_impl; [exact Hnew |]. intros a. apply spawnedAt_pre. }
  intros _ w3 ((Hl3 & _ & Hdr3 & Hnl3 & Hobs3 & Hfs3) & (Hf3 & HW3 & HH3) & _ & _ & Hdone
               & Hnk3).
  cbn [agents nests grid draws obstacles foodSources set_grid] in *.
  split.
  { repeat split; try congruence. rewrite Hdr3, Hdr2, Hw1. reflexivity.
    all: rewrite ?Hobs3, ?Hobs2, ?Hfs3, ?Hfs2, Hw1; reflexivity. }
  split; [split; [exact Hf3 | split; congruence] |].
  split.
  - apply Forall_lookup_2. intros i a1 Hl1.
    assert (Hi : (i < length (agents w2))%nat).
    { rewrite <- Hl3. eapply lookup_lt_Some; eauto. }
    destruct (Hdone i) as (a1' & Hl1' & Hok).
    { apply list_elem_of_In, in_seq. lia. }
    rewrite Hl1 in Hl1'. injection Hl1' as <-.
    unfold agentOk in *. rewrite (inBounds_dims (evaporate (evaporationRate p) (grid w2)) (grid w3))
      by congruence. exact Hok.
  - rewrite Hns2 in Hnk3.
    assert (Hnk : nestsKept (nests w) (nests w3)) by (eapply nestsKept_trans; eauto).
    rewrite Hl3, Hags2, Hagents1 in *. rewrite length_app. split; [lia |].
    rewrite length_app in Hceil. split; [exact Hceil | exact Hnk].
Qed.

Lemma loops_inv (k : nat) (w : World) :
  0 < evaporationRate p /\ evaporationRate p <= 1 ->
  nests w <> [] -> validDraws w -> fieldOk (grid w) ->
  Forall (agentOk (grid w)) (agents w) ->
  returns (loops p k) w (fun _ w' =>
    (length (nests w') = length (nests w) /\ draws w' = draws w /\
     obstacles w' = obstacles w /\ foodSources w' = foodSources w) /\
    (fieldOk (grid w') /\ width (grid w') = width (grid w) /\
     height (grid w') = height (grid w)) /\
    Forall (agentOk (grid w')) (agents w') /\
    (length (agents w) <= length (agents w'))%nat /\
    (Z.of_nat (length (agents w')) <= Z.max (Z.of_nat (length (agents w))) (agentCount p))%Z /\
    nestsKept (nests w) (nests w')).
Proof.
  intros Hrate Hne Hdraws Hfield Hok. induction k as [| k IH].
  - apply returns_ret. split; [repeat split |]. split; [repeat split; apply Hfield |].
    split; [exact Hok |]. split; [lia |]. split; [lia | apply nestsKept_refl].
  - cbn [loops]. apply returns_bind. eapply returns_mono; [exact IH |].
    intros _ wk ((Hnl & Hdr & Hobs & Hfs) & (Hf & HW & HH) & Hagk & Hle & Hceil & Hnk).
    cbn beta.
    eapply returns_mono.
    { apply loop_inv; try assumption.
      - eapply nests_nonempty_length; eauto.
      - unfold validDraws. rewrite Hdr. exact Hdraws.
      - eapply Forall_impl; [exact Hagk |]. intros a. apply agentOk_pre. }
    intros _ w' ((Hnl' & Hdr' & Hobs' & Hfs') & (Hf' & HW' & HH') & Hag' & Hle' & Hceil'
                 & Hnk').
    cbn beta.
    split; [repeat split; congruence |].
    split; [split; [exact Hf' | split; congruence] |].
    split; [exact Hag' |]. split; [lia |]. split; [lia |].
    eapply nestsKept_trans; eauto.
Qed.
End TickInv.

(** * Placement of nests and food *)

Lemma random_site (r : number) :
  0 <= r /\ r < 1 ->
  50 <= r * (inject_Z WIDTH - 100) + 50 /\ r * (inject_Z WIDTH - 100) + 50 < 550.
Proof. change (inject_Z WIDTH) with 600. intros [H0 H1]. split; lra. Qed.

Lemma random_site_y (r : number) :
  0 <= r /\ r < 1 ->
  50 <= r * (inject_Z HEIGHT - 100) + 50 /\ r * (inject_Z HEIGHT - 100) + 50 < 550.
Proof. change (inject_Z HEIGHT) with 600. intros [H0 H1]. split; lra. Qed.

Lemma centreNest_placed : nestPlaced centreNest.
Proof.
  unfold nestPlaced, centreNest, inPlacementSquare. cbn.
  split; [reflexivity |]. split; [reflexivity |].
  repeat split; vm_compute; discriminate.
Qed.

Lemma validDraws_rng (w : World) (n : nat) : validDraws w -> validDraws (set_rngPos w n).
Proof. intros H. exact H. Qed.

Lemma drawsAtMost_validDraws (k : nat) (w w' : World) :
  drawsAtMost k w w' -> validDraws w -> validDraws w'.
Proof. intros [_ ->] H. exact H. Qed.

(** The retries after the first body of the loop: every body draws a site. *)
Lemma placeNest_random (remaining i : nat) (attempts : Z) (w : World) :
  (i <> 0%nat \/ attempts <> 0%Z) -> (attempts + Z.of_nat remaining = 99)%Z ->
  (0 <= attempts)%Z -> validDraws w ->
  returns (placeNest remaining i attempts) w (fun n w' =>
    nestPlaced n /\ drawsAtMost (2 * Z.to_nat (100 - attempts)) w w' /\
    (rngPos w + 2 <= rngPos w')%nat /\
    (~ clearSite (Nest.x n) (Nest.y n) (Nest.r n) (obstacles w) ->
     rngPos w' = (rngPos w + 2 * Z.to_nat (100 - attempts))%nat)).
Proof.
  revert attempts w. induction remaining as [| remaining IH]; intros attempts w Hrandom Hsum Hatt Hdraws.
  all: cbn [placeNest].
  all: assert (Hcond : (i =? 0)%nat && (attempts =? 0)%Z = false)
         by (destruct Hrandom as [Hi | Ha];
             [apply Nat.eqb_neq in Hi; rewrite Hi; reflexivity
             | apply Z.eqb_neq in Ha; rewrite Ha; apply andb_false_r]).
  all: rewrite Hcond.
  all: apply returns_bind, returns_bind, returns_random, returns_bind, returns_random,
         returns_ret.
  all: cbn zeta; cbn [Nest.x Nest.y Nest.r rngPos set_rngPos draws].
  all: unfold isOverlapping; apply returns_bind, returns_bind, returns_gets, returns_ret.
  all: cbn [obstacles set_rngPos].
  all: set (n := Nest.mk _ _ _ _).
  all: assert (Hn : nestPlaced n)
         by (split; [reflexivity |]; split; [reflexivity |]; split;
             [apply random_site, Hdraws | apply random_site_y, Hdraws]).
  all: unfold clearSite.
  - replace (attempts + 1 <? 100)%Z with false by (symmetry; apply Z.ltb_ge; lia).
    rewrite andb_false_r. apply returns_ret.
    split; [exact Hn |]. split; [draws_solve |].
    cbn [rngPos set_rngPos obstacles]. split; [lia |]. intros _. lia.
  - destruct (existsb _ (obstacles w)) eqn:Hover; cbn [andb].
    + destruct (Z.ltb_spec (attempts + 1) 100) as [Hlt | Hge].
      * eapply returns_mono.
        { apply (IH (attempts + 1)%Z); [right; lia | lia | lia |].
          apply validDraws_rng, validDraws_rng, Hdraws. }
        intros n' w' (Hn' & [Hb Hw'] & Hlo & Hfull).
        cbn [rngPos set_rngPos obstacles] in *.
        split; [exact Hn' |].
        split; [split; [lia | rewrite Hw' at 1; reflexivity] |].
        split; [lia |]. intros Hnc. rewrite (Hfull Hnc). lia.
      * apply returns_ret. split; [exact Hn |]. split; [draws_solve |].
        cbn [rngPos set_rngPos obstacles]. split; [lia |]. intros _. lia.
    + apply returns_ret. split; [exact Hn |]. split; [draws_solve |].
      cbn [rngPos set_rngPos obstacles]. split; [lia |].
      intros Hnc. exfalso. apply Hnc. exact Hover.
Qed.

(** The whole loop for the nest number [i]. *)
Lemma placeNest_spec (i : nat) (w : World) :
  validDraws w ->
  returns (placeNest 99 i 0) w (fun n w' =>
    nestPlaced n /\ drawsAtMost 200 w w' /\
    (i = 0%nat -> clearSite (inject_Z WIDTH / 2) (inject_Z HEIGHT / 2) 20 (obstacles w) ->
     n = centreNest /\ w' = w) /\
    (~ clearSite (Nest.x n) (Nest.y n) (Nest.r n) (obstacles w) ->
     rngPos w' = (rngPos w + (if (i =? 0)%nat then 198 else 200))%nat)).
Proof.
  intros Hdraws. destruct i as [| i].
  - cbn [placeNest Nat.eqb Z.eqb andb].
    apply returns_bind, returns_ret. cbn zeta. cbn [Nest.x Nest.y Nest.r].
    unfold isOverlapping. apply returns_bind, returns_bind, returns_gets, returns_ret.
    unfold clearSite.
    destruct (existsb _ (obstacles w)) eqn:Hover; cbn [andb Z.add Z.ltb Z.compare Pos.compare Pos.compare_cont].
    + eapply returns_mono.
      { apply (placeNest_random 98 0 1 w); [right; lia | lia | lia | exact Hdraws]. }
      intros n' w' (Hn' & Hd & Hlo & Hfull).
      split; [exact Hn' |]. split; [eapply drawsAtMost_weaken; [| exact Hd]; cbn; lia |].
      split; [intros _ Hc; discriminate |].
      intros Hnc. rewrite (Hfull Hnc). reflexivity.
    + apply returns_ret. split; [exact centreNest_placed |].
      split; [apply drawsAtMost_refl |]. split; [intros; split; reflexivity |].
      intros Hnc. exfalso. apply Hnc. exact Hover.
  - eapply returns_mono.
    { apply (placeNest_random 99 (S i) 0 w); [left; lia | lia | lia | exact Hdraws]. }
    intros n' w' (Hn' & Hd & Hlo & Hfull).
    split; [exact Hn' |]. split; [exact Hd |].
    split; [intros Hi; discriminate |].
    intros Hnc. rewrite (Hfull Hnc). reflexivity.
Qed.

Lemma initNestsLoop_spec (n i : nat) (w : World) :
  validDraws w ->
  returns (initNestsLoop n i) w (fun _ w' =>
    exists new,
      nests w' = nests w ++ new /\ length new = n /\ Forall nestPlaced new /\
      w' = set_rngPos (set_nests w (nests w')) (rngPos w') /\
      (rngPos w <= rngPos w' <= rngPos w + 200 * n)%nat /\
      (i = 0%nat -> (0 < n)%nat ->
       clearSite (inject_Z WIDTH / 2) (inject_Z HEIGHT / 2) 20 (obstacles w) ->
       new !! 0%nat = Some centreNest) /\
      ((rngPos w' < rngPos w + 198)%nat ->
       Forall (fun nest => clearSite (Nest.x nest) (Nest.y nest) (Nest.r nest) (obstacles w)) new)).
Proof.
  revert i w. induction n as [| n IH]; intros i w Hdraws.
  - apply returns_ret. exists []. rewrite app_nil_r.
    split; [reflexivity |]. split; [reflexivity |]. split; [constructor |].
    split; [destruct w; reflexivity |]. split; [lia |].
    split; [intros; lia |]. intros _. constructor.
  - cbn [initNestsLoop]. apply returns_bind.
    eapply returns_mono; [apply placeNest_spec; exact Hdraws |].
    intros nest w1 (Hnest & [Hb1 Hw1] & Hcentre & Hfull1). cbn beta.
    apply returns_bind, returns_modify.
    eapply returns_mono.
    { apply IH. rewrite Hw1. exact Hdraws. }
    intros _ w' (new & Hns & Hlen & Hnew & Hw' & Hb & _ & Hclear).
    cbn [nests set_nests rngPos obstacles] in *.
    assert (Hnests1 : nests w1 = nests w) by (rewrite Hw1; reflexivity).
    assert (Hobs1 : obstacles w1 = obstacles w) by (rewrite Hw1; reflexivity).
    exists (nest :: new).
    split; [rewrite Hns, Hnests1, <- app_assoc; reflexivity |].
    split; [cbn; lia |]. split; [constructor; assumption |].
    split.
    { rewrite Hw' at 1. rewrite Hw1. reflexivity. }
    split; [lia |]. split.
    + intros Hi _ Hc. destruct (Hcentre Hi Hc) as [-> _]. reflexivity.
    + intros Hfew. constructor.
      * destruct (existsb (overlaps (Nest.x nest) (Nest.y nest) (Nest.r nest)) (obstacles w))
          eqn:Hover; [| exact Hover].
        exfalso.
        assert (Hnc : ~ clearSite (Nest.x nest) (Nest.y nest) (Nest.r nest) (obstacles w)).
        { unfold clearSite. rewrite Hover. discriminate. }
        specialize (Hfull1 Hnc). destruct (i =? 0)%nat; lia.
      * rewrite <- Hobs1. apply Hclear. lia.
Qed.

Lemma initNests_spec (p : SimParams) (w : World) :
  validDraws w ->
  returns (initNests p) w (fun _ w' =>
    length (nests w') = Z.to_nat (nestCount p) /\ Forall nestPlaced (nests w') /\
    w' = set_rngPos (set_nests w (nests w')) (rngPos w') /\
    (rngPos w <= rngPos w' <= rngPos w + 200 * Z.to_nat (nestCount p))%nat /\
    ((0 < nestCount p)%Z ->
     clearSite (inject_Z WIDTH / 2) (inject_Z HEIGHT / 2) 20 (obstacles w) ->
     nests w' !! 0%nat = Some centreNest) /\
    ((rngPos w' < rngPos w + 198)%nat ->
     Forall (fun nest => clearSite (Nest.x nest) (Nest.y nest) (Nest.r nest) (obstacles w))
            (nests w'))).
Proof.
  intros Hdraws. unfold initNests. apply returns_bind, returns_modify.
  eapply returns_mono; [apply initNestsLoop_spec; exact Hdraws |].
  intros _ w' (new & Hns & Hlen & Hnew & Hw' & Hb & Hcentre & Hclear).
  cbn [nests set_nests rngPos obstacles app] in *. rewrite Hns.
  split; [exact Hlen |]. split; [exact Hnew |].
  split; [rewrite Hw' at 1; rewrite Hns; reflexivity |].
  split; [exact Hb |]. split; [| exact Hclear].
  intros Hpos Hc. apply Hcentre; [reflexivity | lia | exact Hc].
Qed.

(** The same for the food sources: no centre site, radius 30. *)
Lemma placeFood_spec (remaining : nat) (attempts : Z) (w : World) :
  (attempts + Z.of_nat remaining = 99)%Z -> (0 <= attempts)%Z -> validDraws w ->
  returns (placeFood remaining attempts) w (fun f w' =>
    foodPlaced f /\ drawsAtMost (2 * Z.to_nat (100 - attempts)) w w' /\
    (rngPos w + 2 <= rngPos w')%nat /\
    (~ clearSite (FoodSource.x f) (FoodSource.y f) (FoodSource.r f) (obstacles w) ->
     rngPos w' = (rngPos w + 2 * Z.to_nat (100 - attempts))%nat)).
Proof.
  revert attempts w. induction remaining as [| remaining IH]; intros attempts w Hsum Hatt Hdraws.
  all: cbn [placeFood].
  all: apply returns_bind, returns_random, returns_bind, returns_random.
  all: cbn zeta; cbn [FoodSource.x FoodSource.y FoodSource.r rngPos set_rngPos draws].
  all: unfold isOverlapping; apply returns_bind, returns_bind, returns_gets, returns_ret.
  all: cbn [obstacles set_rngPos].
  all: set (f := FoodSource.mk _ _ _ _).
  all: assert (Hf : foodPlaced f)
         by (split; [reflexivity |]; split; [reflexivity |]; split;
             [apply random_site, Hdraws | apply random_site_y, Hdraws]).
  all: unfold clearSite.
  - replace (attempts + 1 <? 100)%Z with false by (symmetry; apply Z.ltb_ge; lia).
    rewrite andb_false_r. apply returns_ret.
    split; [exact Hf |]. split; [draws_solve |].
    cbn [rngPos set_rngPos obstacles]. split; [lia |]. intros _. lia.
  - destruct (existsb _ (obstacles w)) eqn:Hover; cbn [andb].
    + destruct (Z.ltb_spec (attempts + 1) 100) as [Hlt | Hge].
      * eapply returns_mono.
        { apply (IH (attempts + 1)%Z); [lia | lia |].
          apply validDraws_rng, validDraws_rng, Hdraws. }
        intros f' w' (Hf' & [Hb Hw'] & Hlo & Hfull).
        cbn [rngPos set_rngPos obstacles] in *.
        split; [exact Hf' |].
        split; [split; [lia | rewrite Hw' at 1; reflexivity] |].
        split; [lia |]. intros Hnc. rewrite (Hfull Hnc). lia.
      * apply returns_ret. split; [exact Hf |]. split; [draws_solve |].
        cbn [rngPos set_rngPos obstacles]. split; [lia |]. intros _. lia.
    + apply returns_ret. split; [exact Hf |]. split; [draws_solve |].
      cbn [rngPos set_rngPos obstacles]. split; [lia |].
      intros Hnc. exfalso. apply Hnc. exact Hover.
Qed.

Lemma initFoodsLoop_spec (n : nat) (w : World) :
  validDraws w ->
  returns (initFoodsLoop n) w (fun _ w' =>
    exists new,
      foodSources w' = foodSources w ++ new /\ length new = n /\ Forall foodPlaced new /\
      w' = set_rngPos (set_foodSources w (foodSources w')) (rngPos w') /\
      (rngPos w + 2 * n <= rngPos w' <= rngPos w + 200 * n)%nat /\
      ((rngPos w' < rngPos w + 200)%nat ->
       Forall (fun f => clearSite (FoodSource.x f) (FoodSource.y f) (FoodSource.r f)
                                  (obstacles w)) new)).
Proof.
  revert w. induction n as [| n IH]; intros w Hdraws.
  - apply returns_ret. exists []. rewrite app_nil_r.
    split; [reflexivity |]. split; [reflexivity |]. split; [constructor |].
    split; [destruct w; reflexivity |]. split; [lia |]. intros _. constructor.
  - cbn [initFoodsLoop]. apply returns_bind.
    eapply returns_mono; [apply (placeFood_spec 99 0); [lia | lia | exact Hdraws] |].
    intros f w1 (Hf & [Hb1 Hw1] & Hlo1 & Hfull1). cbn beta.
    apply returns_bind, returns_modify.
    eapply returns_mono.
    { apply IH. rewrite Hw1. exact Hdraws. }
    intros _ w' (new & Hfs & Hlen & Hnew & Hw' & Hb & Hclear).
    cbn [foodSources set_foodSources rngPos obstacles] in *.
    assert (Hfs1 : foodSources w1 = foodSources w) by (rewrite Hw1; reflexivity).
    assert (Hobs1 : obstacles w1 = obstacles w) by (rewrite Hw1; reflexivity).
    change (2 * Z.to_nat (100 - 0))%nat with 200%nat in *.
    exists (f :: new).
    split; [rewrite Hfs, Hfs1, <- app_assoc; reflexivity |].
    split; [cbn; lia |]. split; [constructor; assumption |].
    split.
    { rewrite Hw' at 1. rewrite Hw1. reflexivity. }
    split; [lia |].
    intros Hfew. constructor.
    + destruct (existsb (overlaps (FoodSource.x f) (FoodSource.y f) (FoodSource.r f))
                  (obstacles w)) eqn:Hover; [| exact Hover].
      exfalso.
      assert (Hnc : ~ clearSite (FoodSource.x f) (FoodSource.y f) (FoodSource.r f) (obstacles w)).
      { unfold clearSite. rewrite Hover. discriminate. }
      specialize (Hfull1 Hnc). lia.
    + rewrite <- Hobs1. apply Hclear. lia.
Qed.

Lemma initFoods_spec (p : SimParams) (w : World) :
  validDraws w ->
  returns (initFoods p) w (fun _ w' =>
    length (foodSources w') = Z.to_nat (foodCount p) /\ Forall foodPlaced (foodSources w') /\
    w' = set_rngPos (set_foodSources w (foodSources w')) (rngPos w') /\
    (rngPos w + 2 * Z.to_nat (foodCount p) <= rngPos w'
       <= rngPos w + 200 * Z.to_nat (foodCount p))%nat /\
    ((rngPos w' < rngPos w + 200)%nat ->
     Forall (fun f => clearSite (FoodSource.x f) (FoodSource.y f) (FoodSource.r f)
                                (obstacles w)) (foodSources w'))).
Proof.
  intros Hdraws. unfold initFoods. apply returns_bind, returns_modify.
  eapply returns_mono; [apply initFoodsLoop_spec; exact Hdraws |].
  intros _ w' (new & Hfs & Hlen & Hnew & Hw' & Hb & Hclear).
  cbn [foodSources set_foodSources rngPos obstacles app] in *. rewrite Hfs.
  split; [exact Hlen |]. split; [exact Hnew |].
  split; [rewrite Hw' at 1; rewrite Hfs; reflexivity |].
  split; [exact Hb | exact Hclear].
Qed.

(** * The maze *)

Ltac piece_solve :=
  split; [unfold obstacleInArena; cbn [Obstacle.x Obstacle.y Obstacle.w Obstacle.h];
          repeat split; vm_compute; first [reflexivity | discriminate]
         | vm_compute; reflexivity].

Lemma mazeStep_ret : mazeStep 0 (mret tt).
Proof.
  intros w _. apply returns_ret. exists []. rewrite app_nil_r.
  split; [reflexivity |]. split; [reflexivity |]. split; [constructor |].
  split; [destruct w; reflexivity | lia].
Qed.

Lemma mazeStep_seq (j k : nat) (c d : M unit) :
  mazeStep j c -> mazeStep k d -> mazeStep (j + k) (c;; d).
Proof.
  intros Hc Hd w Hdraws. apply returns_bind.
  eapply returns_mono; [apply Hc; exact Hdraws |].
  intros _ w1 (new1 & Hobs1 & Hlen1 & Hnew1 & Hw1 & Hrng1). cbn beta.
  eapply returns_mono; [apply Hd; rewrite Hw1; exact Hdraws |].
  intros _ w2 (new2 & Hobs2 & Hlen2 & Hnew2 & Hw2 & Hrng2).
  exists (new1 ++ new2).
  split; [rewrite Hobs2, Hobs1, <- app_assoc; reflexivity |].
  split; [rewrite length_app; lia |].
  split; [apply Forall_app; split; assumption |].
  split; [rewrite Hw2 at 1; rewrite Hw1; reflexivity | lia].
Qed.

Lemma mazeCell_step (x y : Z) :
  In x [2; 4; 6; 8]%Z -> In y [2; 4; 6; 8]%Z -> mazeStep 1 (mazeCell x y).
Proof.
  intros Hx Hy w Hdraws. unfold mazeCell, pushObstacle. cbn zeta.
  apply returns_bind, returns_modify, returns_bind, returns_random.
  cbn [draws rngPos set_obstacles set_rngPos obstacles].
  destruct (Hdraws (rngPos w)) as [Hr0 Hr1].
  remember (Math_floor (draws w (rngPos w) * 4)) as dir eqn:Hdir.
  assert (Hcases : dir = 0%Z \/ dir = 1%Z \/ dir = 2%Z \/ dir = 3%Z).
  { assert (0 <= dir)%Z by (subst dir; apply Math_floor_nonneg; lra).
    assert (dir < 4)%Z by (subst dir; apply Math_floor_lt; change (inject_Z 4) with 4; lra).
    lia. }
  clear Hdir.
  cbn in Hx, Hy.
  destruct Hcases as [-> | [-> | [-> | ->]]]; cbn [Z.eqb Pos.eqb];
    apply returns_modify; cbn [obstacles set_obstacles set_rngPos rngPos];
    rewrite <- app_assoc; cbn [app];
    eexists [_; _]; (split; [reflexivity |]); (split; [reflexivity |]);
    (split; [| split; [reflexivity | lia]]);
    destruct Hx as [<- | [<- | [<- | [<- | []]]]];
    destruct Hy as [<- | [<- | [<- | [<- | []]]]];
    (constructor; [piece_solve | constructor; [piece_solve | constructor]]).
Qed.

Lemma mazeRow_step (y : Z) :
  In y [2; 4; 6; 8]%Z ->
  mazeStep 4 (mazeCell 2 y;; mazeCell 4 y;; mazeCell 6 y;; mazeCell 8 y;; mret tt).
Proof.
  intros Hy.
  apply (mazeStep_seq 1 3); [apply mazeCell_step; [cbn; tauto | exact Hy] |].
  apply (mazeStep_seq 1 2); [apply mazeCell_step; [cbn; tauto | exact Hy] |].
  apply (mazeStep_seq 1 1); [apply mazeCell_step; [cbn; tauto | exact Hy] |].
  apply (mazeStep_seq 1 0); [apply mazeCell_step; [cbn; tauto | exact Hy] |].
  apply mazeStep_ret.
Qed.

Lemma mazeWalls_step :
  mazeStep 16
    (forStep2 (Z.to_nat (Math_floor (inject_Z HEIGHT / mazeCellSize))) 2
       (Math_floor (inject_Z HEIGHT / mazeCellSize) - 1)
       (fun y => forStep2 (Z.to_nat (Math_floor (inject_Z WIDTH / mazeCellSize))) 2
                   (Math_floor (inject_Z WIDTH / mazeCellSize) - 1)
                   (fun x => mazeCell x y))).
Proof.
  change (mazeStep 16
    ((mazeCell 2 2;; mazeCell 4 2;; mazeCell 6 2;; mazeCell 8 2;; mret tt);;
     (mazeCell 2 4;; mazeCell 4 4;; mazeCell 6 4;; mazeCell 8 4;; mret tt);;
     (mazeCell 2 6;; mazeCell 4 6;; mazeCell 6 6;; mazeCell 8 6;; mret tt);;
     (mazeCell 2 8;; mazeCell 4 8;; mazeCell 6 8;; mazeCell 8 8;; mret tt);;
     mret tt)).
  apply (mazeStep_seq 4 12); [apply mazeRow_step; cbn; tauto |].
  apply (mazeStep_seq 4 8); [apply mazeRow_step; cbn; tauto |].
  apply (mazeStep_seq 4 4); [apply mazeRow_step; cbn; tauto |].
  apply (mazeStep_seq 4 0); [apply mazeRow_step; cbn; tauto |].
  apply mazeStep_ret.
Qed.

Lemma initMaze_spec (w : World) :
  validDraws w ->
  returns initMaze w (fun _ w' =>
    length (obstacles w') = 36%nat /\ Forall mazePiece (obstacles w') /\
    w' = set_rngPos (set_obstacles w (obstacles w')) (rngPos w') /\
    rngPos w' = (rngPos w + 16)%nat).
Proof.
  intros Hdraws. unfold initMaze, pushObstacle. cbn zeta.
  apply returns_bind, returns_modify, returns_bind, returns_modify, returns_bind,
    returns_modify, returns_bind, returns_modify, returns_bind, returns_modify.
  cbn [obstacles set_obstacles app].
  eapply returns_mono; [apply mazeWalls_step; exact Hdraws |].
  intros _ w' (new & Hobs & Hlen & Hnew & Hw' & Hrng).
  cbn [obstacles set_obstacles rngPos] in *.
  split; [rewrite Hobs, length_app, Hlen; reflexivity |].
  split.
  - rewrite Hobs. apply Forall_app. split; [| exact Hnew].
    constructor; [piece_solve |]. constructor; [piece_solve |].
    constructor; [piece_solve |]. constructor; [piece_solve | constructor].
  - split; [rewrite Hw' at 1; reflexivity | exact Hrng].
Qed.

(** * The buttons and the start-up *)

Lemma mazePieces_clear_centre (obss : list Obstacle.t) :
  Forall mazePiece obss ->
  clearSite (inject_Z WIDTH / 2) (inject_Z HEIGHT / 2) 20 obss.
Proof.
  unfold clearSite. induction 1 as [| obs obss [_ Hobs] _ IH]; [reflexivity |].
  cbn [existsb]. rewrite Hobs, IH. reflexivity.
Qed.

Lemma fieldOk_reset (g : PheromoneGrid) : fieldOk g -> fieldOk (reset g).
Proof.
  intros ((Hw & Hh & Hhome & Hfood) & _ & HW & HH).
  unfold fieldOk, wfGrid, cellsIn01, reset, alength in *.
  cbn [width height homeGrid foodGrid]. rewrite !length_replicate.
  repeat split; try assumption; apply Forall_replicate; split; discriminate.
Qed.

Lemma fieldOk_newGrid : fieldOk (newGrid WIDTH HEIGHT).
Proof.
  split; [apply newGrid_wf; discriminate |].
  split; [apply newGrid_invariant |]. split; discriminate.
Qed.

Lemma returns_conj {A} (c : M A) (w : World) (Q1 Q2 : A -> World -> Prop) :
  returns c w Q1 -> returns c w Q2 -> returns c w (fun a w' => Q1 a w' /\ Q2 a w').
Proof.
  intros (a & w' & Hc & H1) H2. exists a, w'. split; [exact Hc |].
  split; [exact H1 | exact (returns_inv _ _ _ _ _ H2 Hc)].
Qed.

(** With no obstacle every placement succeeds at its first attempt. *)
Lemma placeNest_free (remaining i : nat) (attempts : Z) (w : World) :
  obstacles w = [] ->
  returns (placeNest remaining i attempts) w (fun _ w' =>
    obstacles w' = [] /\ draws w' = draws w /\
    rngPos w' = (rngPos w + (if (i =? 0)%nat && (attempts =? 0)%Z then 0 else 2))%nat).
Proof.
  intros Hobs.
  assert (Hend : forall (n : Nest.t) (k : nat) (cont : M Nest.t),
            returns (over ← isOverlapping (Nest.x n) (Nest.y n) (Nest.r n);
                     if (over : bool) && (attempts + 1 <? 100)%Z then cont else mret n)
                    (set_rngPos w (rngPos w + k))
                    (fun _ w' => obstacles w' = [] /\ draws w' = draws w /\
                                 rngPos w' = (rngPos w + k)%nat)).
  { intros n k cont. unfold isOverlapping.
    apply returns_bind, returns_bind, returns_gets, returns_ret.
    cbn [obstacles set_rngPos]. rewrite Hobs. cbn [existsb andb].
    apply returns_ret. cbn [obstacles draws rngPos set_rngPos].
    split; [exact Hobs |]. split; reflexivity. }
  destruct remaining; cbn [placeNest];
    destruct ((i =? 0)%nat && (attempts =? 0)%Z); apply returns_bind.
  all: try (apply returns_ret; cbn zeta;
            replace w with (set_rngPos w (rngPos w + 0)) at 1
              by (rewrite Nat.add_0_r; destruct w; reflexivity);
            apply Hend).
  all: apply returns_bind, returns_random, returns_bind, returns_random, returns_ret;
    cbn zeta; cbn [rngPos set_rngPos];
    replace (set_rngPos (set_rngPos w (S (rngPos w))) (S (S (rngPos w))))
      with (set_rngPos w (rngPos w + 2))
      by (replace (rngPos w + 2)%nat with (S (S (rngPos w))) by lia; reflexivity);
    apply Hend.
Qed.

Lemma initNestsLoop_free (n i : nat) (w : World) :
  obstacles w = [] ->
  returns (initNestsLoop n i) w (fun _ w' =>
    obstacles w' = [] /\
    rngPos w' = (rngPos w + 2 * n - (if (i =? 0)%nat then Nat.min n 1 * 2 else 0))%nat).
Proof.
  revert i w. induction n as [| n IH]; intros i w Hobs.
  - apply returns_ret. split; [exact Hobs |]. destruct (i =? 0)%nat; cbn; lia.
  - cbn [initNestsLoop]. apply returns_bind.
    eapply returns_mono; [apply placeNest_free; exact Hobs |].
    intros nest w1 (Hobs1 & _ & Hrng1). cbn beta.
    apply returns_bind, returns_modify.
    eapply returns_mono; [apply (IH (S i)); exact Hobs1 |].
    intros u w' [Hobs' Hrng]. cbn [rngPos set_nests Nat.eqb] in Hrng.
    split; [exact Hobs' |].
    rewrite Hrng, Hrng1. cbn [Z.eqb andb]. rewrite andb_true_r.
    destruct (i =? 0)%nat; lia.
Qed.

Lemma placeFood_free (remaining : nat) (attempts : Z) (w : World) :
  obstacles w = [] ->
  returns (placeFood remaining attempts) w (fun _ w' =>
    obstacles w' = [] /\ draws w' = draws w /\ rngPos w' = (rngPos w + 2)%nat).
Proof.
  intros Hobs. destruct remaining; cbn [placeFood];
    apply returns_bind, returns_random, returns_bind, returns_random;
    cbn zeta; unfold isOverlapping;
    apply returns_bind, returns_bind, returns_gets, returns_ret;
    cbn [obstacles set_rngPos]; rewrite Hobs; cbn [existsb andb];
    apply returns_ret; cbn [obstacles draws rngPos set_rngPos];
    (split; [exact Hobs |]); (split; [reflexivity | lia]).
Qed.

Lemma initFoodsLoop_free (n : nat) (w : World) :
  obstacles w = [] ->
  returns (initFoodsLoop n) w (fun _ w' => rngPos w' = (rngPos w + 2 * n)%nat).
Proof.
  revert w. induction n as [| n IH]; intros w Hobs.
  - apply returns_ret. lia.
  - cbn [initFoodsLoop]. apply returns_bind.
    eapply returns_mono; [apply placeFood_free; exact Hobs |].
    intros f w1 (Hobs1 & _ & Hrng1). cbn beta.
    apply returns_bind, returns_modify.
    eapply returns_mono; [apply IH; exact Hobs1 |].
    intros u w' Hrng. cbn [rngPos set_foodSources] in Hrng. lia.
Qed.

(** What the three buttons and the start-up share:
    [grid.reset(); initNests(); initFoods(); initAgents()]. *)
Lemma onResetClick_spec (p : SimParams) (w : World) :
  validDraws w ->
  returns (onResetClick p) w (fun _ w' =>
    (grid w' = reset (grid w) /\ obstacles w' = obstacles w /\ draws w' = draws w) /\
    (agents w' = [] /\ spawnAccumulator w' = 0) /\
    (length (nests w') = Z.to_nat (nestCount p) /\ Forall nestPlaced (nests w')) /\
    (length (foodSources w') = Z.to_nat (foodCount p) /\
     Forall foodPlaced (foodSources w')) /\
    ((0 < nestCount p)%Z ->
     clearSite (inject_Z WIDTH / 2) (inject_Z HEIGHT / 2) 20 (obstacles w) ->
     nests w' !! 0%nat = Some centreNest) /\
    (rngPos w + 2 * Z.to_nat (foodCount p) <= rngPos w'
       <= rngPos w + 200 * (Z.to_nat (nestCount p) + Z.to_nat (foodCount p)))%nat /\
    ((rngPos w' < rngPos w + 198)%nat ->
     Forall (fun nest => clearSite (Nest.x nest) (Nest.y nest) (Nest.r nest) (obstacles w))
            (nests w') /\
     Forall (fun f => clearSite (FoodSource.x f) (FoodSource.y f) (FoodSource.r f)
                                (obstacles w)) (foodSources w'))).
Proof.
  intros Hdraws. unfold onResetClick, resetGrid.
  apply returns_bind, returns_modify, returns_bind.
  eapply returns_mono; [apply initNests_spec; exact Hdraws |].
  intros _ w1 (Hnl & Hnp & Hw1 & Hb1 & Hcentre & Hclear1). cbn beta.
  apply returns_bind.
  eapply returns_mono; [apply initFoods_spec; rewrite Hw1; exact Hdraws |].
  intros _ w2 (Hfl & Hfp & Hw2 & Hb2 & Hclear2). cbn beta.
  apply returns_modify.
  assert (Hobs1 : obstacles w1 = obstacles w) by (rewrite Hw1; reflexivity).
  assert (Hnests2 : nests w2 = nests w1) by (rewrite Hw2; reflexivity).
  cbn [grid nests foodSources obstacles agents spawnAccumulator draws rngPos
       initAgents set_grid set_agents set_spawnAccumulator] in *.
  split; [rewrite Hw2, Hw1; cbn; tauto |].
  split; [tauto |]. rewrite Hnests2.
  split; [tauto |]. split; [tauto |]. split; [exact Hcentre |].
  split; [lia |]. intros Hfew. split.
  - apply Hclear1. lia.
  - rewrite <- Hobs1. apply Hclear2. lia.
Qed.

Lemma onMazeClick_spec (p : SimParams) (w : World) :
  validDraws w ->
  returns (onMazeClick p) w (fun _ w' =>
    (length (obstacles w') = 36%nat /\ Forall mazePiece (obstacles w')) /\
    (grid w' = reset (grid w) /\ draws w' = draws w) /\
    (agents w' = [] /\ spawnAccumulator w' = 0) /\
    (length (nests w') = Z.to_nat (nestCount p) /\ Forall nestPlaced (nests w')) /\
    (length (foodSources w') = Z.to_nat (foodCount p) /\
     Forall foodPlaced (foodSources w')) /\
    ((0 < nestCount p)%Z -> nests w' !! 0%nat = Some centreNest)).
Proof.
  intros Hdraws. change (onMazeClick p) with (initMaze;; onResetClick p).
  apply returns_bind.
  eapply returns_mono; [apply initMaze_spec; exact Hdraws |].
  intros _ w1 (Hlen & Hpieces & Hw1 & _). cbn beta.
  eapply returns_mono; [apply onResetClick_spec; rewrite Hw1; exact Hdraws |].
  intros _ w2 ((Hg & Hobs & Hdr) & Hag & Hn & Hf & Hcentre & _).
  rewrite Hobs. split; [split; assumption |].
  split; [rewrite Hg, Hdr, Hw1; split; reflexivity |].
  split; [exact Hag |]. split; [exact Hn |]. split; [exact Hf |].
  intros Hpos. apply Hcentre; [exact Hpos |].
  apply mazePieces_clear_centre. exact Hpieces.
Qed.

(** With no obstacle the draws consumed are two per site drawn. *)
Lemma onResetClick_free (p : SimParams) (w : World) :
  obstacles w = [] ->
  returns (onResetClick p) w (fun _ w' =>
    rngPos w' = (rngPos w + 2 * (Z.to_nat (nestCount p) - 1)
                          + 2 * Z.to_nat (foodCount p))%nat).
Proof.
  intros Hobs. unfold onResetClick, resetGrid, initNests, initFoods.
  apply returns_bind, returns_modify, returns_bind, returns_bind, returns_modify.
  eapply returns_mono; [apply initNestsLoop_free; exact Hobs |].
  intros u w1 [Hobs1 Hrng1]. cbn beta. cbn [rngPos set_nests set_grid Nat.eqb] in Hrng1.
  apply returns_bind, returns_bind, returns_modify.
  eapply returns_mono; [apply initFoodsLoop_free; exact Hobs1 |].
  intros u' w2 Hrng2. cbn beta. cbn [rngPos set_foodSources] in Hrng2.
  apply returns_modify. cbn [rngPos initAgents set_agents set_spawnAccumulator].
  rewrite Hrng2, Hrng1. lia.
Qed.

Lemma onClearMazeClick_spec (p : SimParams) (w : World) :
  validDraws w ->
  returns (onClearMazeClick p) w (fun _ w' =>
    obstacles w' = [] /\
    (grid w' = reset (grid w) /\ draws w' = draws w) /\
    (agents w' = [] /\ spawnAccumulator w' = 0) /\
    (length (nests w') = Z.to_nat (nestCount p) /\ Forall nestPlaced (nests w')) /\
    (length (foodSources w') = Z.to_nat (foodCount p) /\
     Forall foodPlaced (foodSources w')) /\
    ((0 < nestCount p)%Z -> nests w' !! 0%nat = Some centreNest) /\
    rngPos w' = (rngPos w + 2 * (Z.to_nat (nestCount p) - 1)
                          + 2 * Z.to_nat (foodCount p))%nat).
Proof.
  intros Hdraws.
  change (onClearMazeClick p)
    with (modify (fun w => set_obstacles w []);; onResetClick p).
  apply returns_bind, returns_modify.
  eapply returns_mono.
  { apply returns_conj; [apply onResetClick_spec; exact Hdraws |].
    apply (onResetClick_free p). reflexivity. }
  intros u w2 [((Hg & Hobs & Hdr) & Hag & Hn & Hf & Hcentre & _) Hrng].
  cbn [grid obstacles draws rngPos set_obstacles] in *.
  split; [exact Hobs |]. split; [split; assumption |].
  split; [exact Hag |]. split; [exact Hn |]. split; [exact Hf |].
  split; [intros Hpos; apply Hcentre; [exact Hpos | reflexivity] | exact Hrng].
Qed.

(** The start-up: the three calls that precede the first [loop], on the
    module-level state. *)
Lemma startUp_spec (p : SimParams) (rnd : nat -> number) :
  (forall n, 0 <= rnd n /\ rnd n < 1) ->
  returns (startUp p) (bootWorld rnd) (fun _ w' =>
    (grid w' = newGrid WIDTH HEIGHT /\ obstacles w' = [] /\ draws w' = rnd) /\
    (agents w' = [] /\ spawnAccumulator w' = 0) /\
    (length (nests w') = Z.to_nat (nestCount p) /\ Forall nestPlaced (nests w')) /\
    (length (foodSources w') = Z.to_nat (foodCount p) /\
     Forall foodPlaced (foodSources w')) /\
    ((0 < nestCount p)%Z -> nests w' !! 0%nat = Some centreNest) /\
    rngPos w' = (2 * (Z.to_nat (nestCount p) - 1) + 2 * Z.to_nat (foodCount p))%nat).
Proof.
  intros Hrnd. unfold startUp.
  apply returns_bind.
  eapply returns_mono.
  { apply returns_conj; [apply initNests_spec; exact Hrnd |].
    unfold initNests. apply returns_bind, returns_modify.
    apply initNestsLoop_free. reflexivity. }
  intros u w1 [(Hnl & Hnp & Hw1 & _ & Hcentre & _) [Hobs1 Hrng1]]. cbn beta.
  cbn [rngPos set_nests bootWorld Nat.eqb obstacles] in Hrng1, Hcentre.
  apply returns_bind.
  eapply returns_mono.
  { apply returns_conj; [apply initFoods_spec; rewrite Hw1; exact Hrnd |].
    unfold initFoods. apply returns_bind, returns_modify.
    apply initFoodsLoop_free. exact Hobs1. }
  intros u' w2 [(Hfl & Hfp & Hw2 & _) Hrng2]. cbn beta.
  cbn [rngPos set_foodSources] in Hrng2.
  apply returns_modify.
  assert (Hnests2 : nests w2 = nests w1) by (rewrite Hw2; reflexivity).
  cbn [grid nests foodSources obstacles agents spawnAccumulator draws rngPos
       initAgents set_grid set_agents set_spawnAccumulator].
  split; [rewrite Hw2, Hw1; cbn; tauto |].
  split; [tauto |]. rewrite Hnests2.
  split; [tauto |]. split; [tauto |].
  split; [intros Hpos; apply Hcentre; [exact Hpos | reflexivity] |].
  rewrite Hrng2, Hrng1. lia.
Qed.

(** * The spatial index and the statistics *)

Lemma addToBucket_lookup (m : gmap Z (list nat)) (entry : nat * Agent.t) (k : Z) :
  addToBucket m entry !! k
  = if decide (k = bucketKey entry.2)
    then Some (default [] (m !! k) ++ [entry.1]) else m !! k.
Proof.
  unfold addToBucket. cbn zeta. destruct (decide (k = bucketKey entry.2)) as [-> | Hne].
  - rewrite lookup_insert_eq. destruct (m !! bucketKey entry.2) eqn:Hl.
    + rewrite Hl. reflexivity.
    + rewrite lookup_insert_eq. reflexivity.
  - rewrite lookup_insert_ne by congruence.
    destruct (m !! bucketKey entry.2); [reflexivity |].
    rewrite lookup_insert_ne by congruence. reflexivity.
Qed.

Lemma foldl_addToBucket_members (entries : list (nat * Agent.t)) (m : gmap Z (list nat))
    (i : nat) (k : Z) :
  (exists l, foldl addToBucket m entries !! k = Some l /\ i ∈ l) <->
  (exists l, m !! k = Some l /\ i ∈ l) \/
  (exists a, (i, a) ∈ entries /\ bucketKey a = k).
Proof.
  revert m. induction entries as [| [j b] entries IH]; intros m.
  - cbn. split; [intros H; left; exact H |].
    intros [H | (a & Hin & _)]; [exact H | inversion Hin].
  - cbn [foldl]. rewrite IH. rewrite addToBucket_lookup. cbn [fst snd].
    split.
    + intros [(l & Hl & Hi) | (a & Hin & Hk)].
      * destruct (decide (k = bucketKey b)) as [-> | Hne].
        -- injection Hl as <-. apply elem_of_app in Hi as [Hi | Hi].
           ++ left. destruct (m !! bucketKey b) as [l0 |]; [| inversion Hi].
              exists l0. split; [reflexivity | exact Hi].
           ++ apply list_elem_of_singleton in Hi as ->. right. exists b.
              split; [left | reflexivity].
        -- left. exists l. split; assumption.
      * right. exists a. split; [right; exact Hin | exact Hk].
    + intros [(l & Hl & Hi) | (a & Hin & Hk)].
      * left. destruct (decide (k = bucketKey b)) as [-> | Hne].
        -- rewrite Hl. eexists. split; [reflexivity |]. apply elem_of_app. left. exact Hi.
        -- exists l. split; assumption.
      * inversion Hin as [| ? ? ? Hin']; subst.
        -- left. rewrite decide_True by reflexivity.
           eexists. split; [reflexivity |]. apply elem_of_app. right. left.
        -- right. exists a. split; [exact Hin' | reflexivity].
Qed.

Lemma buildSpatialMap_members (ags : list Agent.t) (i : nat) (k : Z) :
  (exists l, buildSpatialMap ags !! k = Some l /\ i ∈ l) <->
  (exists a, ags !! i = Some a /\ bucketKey a = k).
Proof.
  unfold buildSpatialMap. rewrite foldl_addToBucket_members. split.
  - intros [(l & Hl & _) | (a & Hin & Hk)].
    + rewrite lookup_empty in Hl. discriminate.
    + apply elem_of_lookup_imap in Hin as (j & b & Heq & Hl).
      injection Heq as -> ->. exists b. split; assumption.
  - intros (a & Hl & Hk). right. exists a. split; [| exact Hk].
    apply elem_of_lookup_imap. exists i, a. split; [reflexivity | exact Hl].
Qed.

Lemma statistics_fold (ags : list Agent.t) (s : Stats) :
  let s' := foldl countAgent s ags in
  (cForaging s' + cReturning s' = cForaging s + cReturning s + length ags)%nat /\
  cForaging s'
    = (cForaging s + length (List.filter (fun a => isForaging (Agent.state a)) ags))%nat /\
  cExcited2 s'
    = (cExcited2 s + length (List.filter (fun a => (Agent.excitedLevel a =? 2)%Z) ags))%nat /\
  cExcited1 s'
    = (cExcited1 s + length (List.filter (fun a => (Agent.excitedLevel a =? 1)%Z) ags))%nat.
Proof.
  revert s. induction ags as [| a ags IH]; intros s; cbn zeta.
  - cbn. repeat split; lia.
  - cbn [foldl List.filter]. specialize (IH (countAgent s a)). cbn zeta in IH.
    destruct IH as (H1 & H2 & H3 & H4). rewrite H1, H2, H3, H4.
    unfold countAgent.
    destruct (isForaging (Agent.state a));
      destruct (Z.eqb_spec (Agent.excitedLevel a) 2) as [He2 | He2];
      try rewrite He2; cbn [Z.eqb Pos.eqb];
      try destruct (Z.eqb_spec (Agent.excitedLevel a) 1) as [He1 | He1];
      cbn [cForaging cReturning cExcited2 cExcited1 length];
      repeat split; lia.
Qed.

(** * Properties of the agent update *)

(** X8.  Sensing only turns the agent: [sense] (and [senseAnyPheromone],
    which it calls for an agent that gave up) always returns, changes no
    field of the agent but its heading, consumes at most three draws of
    [Math.random] and changes nothing else in the world. *)
Theorem sense_changes_only_heading {Mth : MathImpl} (p : SimParams) (a : Agent.t)
    (w : World) :
  returns (sense p a) w (fun a' w' => sameButHeading a a' /\ drawsAtMost 3 w w').
Proof. exact (sense_heading p a w). Qed.

(** X9.  The propagation loop of [update] can only raise the excitation
    level to CARRIER (1), and only when some neighbour other than the
    agent itself is at SOURCE (2); with no such neighbour it leaves the
    agent and the world untouched and draws no random number.  It draws
    at most one number per neighbour. *)
Theorem propagation_needs_a_source (p : SimParams) (this : nat) (nearbyAgents : list nat)
    (a : Agent.t) (w : World) :
  Forall (fun ref => ref < length (agents w))%nat nearbyAgents ->
  returns (propagate p this nearbyAgents a) w (fun a' w' =>
    drawsAtMost (length nearbyAgents) w w' /\
    (a' = a \/ (a' = Agent.set_excitedLevel a 1 /\ sourceNearby this nearbyAgents (agents w))) /\
    (~ sourceNearby this nearbyAgents (agents w) -> a' = a /\ w' = w)).
Proof. exact (propagate_spec p this nearbyAgents a w). Qed.

Lemma propagation_needs_a_source_witness :
  Forall (fun ref => ref < length (agents walledWorld))%nat [0%nat] /\
  returns (propagate params0 0 [0%nat] foragingAgent) walledWorld (fun a' w' =>
    drawsAtMost (length [0%nat]) walledWorld w' /\
    (a' = foragingAgent \/
     (a' = Agent.set_excitedLevel foragingAgent 1 /\
      sourceNearby 0 [0%nat] (agents walledWorld))) /\
    (~ sourceNearby 0 [0%nat] (agents walledWorld) ->
     a' = foragingAgent /\ w' = walledWorld)).
Proof.
  assert (Hrefs : Forall (fun ref => ref < length (agents walledWorld))%nat [0%nat])
    by (repeat constructor).
  split; [exact Hrefs |].
  exact (propagation_needs_a_source params0 0 [0%nat] foragingAgent walledWorld Hrefs).
Defined.

(** X10.  [handleObstacles] turns the agent once at most: when the
    tentative point lies in no obstacle rectangle the agent and the world
    are untouched; otherwise the position is put back to the one before
    the move and the heading becomes [angle + (PI + (r - 0.5))] for the
    single draw [r] consumed (the sums taken as exact), a turn by an
    amount in [PI - 0.5, PI + 0.5), whatever the number of rectangles that
    contain the point. *)
Theorem obstacle_hit_rolls_back (prevX prevY : number) (a : Agent.t) (w : World) :
  validDraws w ->
  returns (handleObstacles prevX prevY a) w (fun a' w' =>
    if existsb (insideObstacle a) (obstacles w)
    then a' = Agent.set_angle (Agent.set_pos a prevX prevY)
                (Agent.angle a + (Math_PI + (draws w (rngPos w) - 0.5))) /\
         (Math_PI - 0.5 <= Agent.angle a' - Agent.angle a /\
          Agent.angle a' - Agent.angle a < Math_PI + 0.5) /\
         w' = set_rngPos w (S (rngPos w))
    else a' = a /\ w' = w).
Proof.
  intros Hdraws. eapply returns_mono; [apply handleObstacles_spec |].
  intros a' w'. cbn beta. destruct (existsb _ _); [| tauto].
  intros [-> ->]. destruct (Hdraws (rngPos w)) as [H0 H1].
  split; [reflexivity |]. split; [| reflexivity].
  cbn [Agent.angle Agent.set_angle]. split; lra.
Qed.

Lemma obstacle_hit_rolls_back_witness :
  validDraws walledWorld /\
  existsb (insideObstacle (Agent.mk 300 5 0 FORAGING 1 0 0 false)) (obstacles walledWorld)
    = true /\
  returns (handleObstacles 300 11 (Agent.mk 300 5 0 FORAGING 1 0 0 false)) walledWorld
    (fun a' w' =>
       a' = Agent.mk 300 11 (0 + (Math_PI + (0.5 - 0.5))) FORAGING 1 0 0 false /\
       (Math_PI - 0.5 <= Agent.angle a' - 0 /\ Agent.angle a' - 0 < Math_PI + 0.5) /\
       w' = set_rngPos walledWorld 1).
Proof.
  assert (Hdraws : validDraws walledWorld) by (intros n; split; discriminate || reflexivity).
  split; [exact Hdraws |]. split; [reflexivity |].
  exact (obstacle_hit_rolls_back 300 11 (Agent.mk 300 5 0 FORAGING 1 0 0 false)
           walledWorld Hdraws).
Defined.

(** X11.  The give-up evaluation of [update] touches the search counter
    and the giving-up flag only, draws no number and leaves the world as
    it is.  It is skipped unless give-up is enabled and the agent is
    FORAGING at level NONE; on a trail (a HOME or FOOD reading above 0.05)
    it clears both, off the trail it counts one more tick and raises the
    flag once the counter has passed 900.  So the flag is never raised
    with a counter of 900 or less. *)
Theorem giveUp_flag_follows_search_counter (p : SimParams) (a : Agent.t) (w : World) :
  returns (giveUpCheck p a) w (fun a' w' =>
    w' = w /\
    a' = Agent.set_givingUp (Agent.set_searchTime a (Agent.searchTime a')) (Agent.givingUp a') /\
    (giveUpOk a -> giveUpOk a') /\
    (enableGiveUp p && isForaging (Agent.state a) && (Agent.excitedLevel a =? 0)%Z = false ->
     a' = a) /\
    (enableGiveUp p && isForaging (Agent.state a) && (Agent.excitedLevel a =? 0)%Z = true ->
     if (getLevel p (Agent.x a) (Agent.y a) HOME (grid w) >? 0.05)
        || (getLevel p (Agent.x a) (Agent.y a) FOOD (grid w) >? 0.05)
     then Agent.searchTime a' = 0%Z /\ Agent.givingUp a' = false
     else Agent.searchTime a' = (Agent.searchTime a + 1)%Z /\
          Agent.givingUp a' = (900 <? Agent.searchTime a + 1)%Z || Agent.givingUp a)).
Proof. exact (giveUpCheck_full p a w). Qed.

Lemma getLevel_le_1 (p : SimParams) (g : PheromoneGrid) (x y : number) (t : PheromoneType) :
  cellsIn01 g -> getLevel p x y t g <= 1.
Proof.
  intros H01. rewrite getLevel_as_cell. destruct (_ || _); [discriminate |].
  apply (aget_Forall (fun v => v <= 1)); [discriminate |].
  eapply Forall_impl; [apply (channel_in01 _ g H01) |]. intros v [_ Hv]. exact Hv.
Qed.

(** X12.  The speed of a move is bounded by the base speed: with
    non-negative speed parameters, on a well-formed field with cells in
    [0,1], the speed [update] moves with lies between 0 and
    [moveSpeed] (times [excitedSpeedMult] for an excited agent); it is that
    base speed when exploration resistance is off, and it is 0 when the
    resistance is 1 or more and neither channel has a positive reading
    where the agent stands. *)
Theorem speed_is_bounded (p : SimParams) (a : Agent.t) (g : PheromoneGrid) :
  wfGrid g -> cellsIn01 g -> 0 <= moveSpeed p -> 0 <= excitedSpeedMult p ->
  let base := moveSpeed p * (if (0 <? Agent.excitedLevel a)%Z then excitedSpeedMult p else 1) in
  (0 <= currentSpeed p a g /\ currentSpeed p a g <= base) /\
  (explorationResistance p <= 0 -> currentSpeed p a g == base) /\
  (1 <= explorationResistance p ->
   getLevel p (Agent.x a) (Agent.y a) HOME g <= 0 ->
   getLevel p (Agent.x a) (Agent.y a) FOOD g <= 0 ->
   currentSpeed p a g == 0).
Proof.
  intros _ H01 Hms Hmult. cbn zeta. unfold currentSpeed. cbn zeta.
  pose proof (getLevel_le_1 p g (Agent.x a) (Agent.y a) HOME H01) as Hh.
  pose proof (getLevel_le_1 p g (Agent.x a) (Agent.y a) FOOD H01) as Hf.
  set (h := getLevel p (Agent.x a) (Agent.y a) HOME g) in *.
  set (f := getLevel p (Agent.x a) (Agent.y a) FOOD g) in *.
  set (R := explorationResistance p).
  assert (Hb : 0 <= moveSpeed p * (if (0 <? Agent.excitedLevel a)%Z
                                   then excitedSpeedMult p else 1)).
  { destruct (0 <? Agent.excitedLevel a)%Z; nra. }
  assert (Heq : moveSpeed p * (if (0 <? Agent.excitedLevel a)%Z
                               then excitedSpeedMult p else 1.0)
                == moveSpeed p * (if (0 <? Agent.excitedLevel a)%Z
                                  then excitedSpeedMult p else 1)).
  { destruct (0 <? Agent.excitedLevel a)%Z; [reflexivity |].
    apply Qmult_comp; reflexivity. }
  set (base := moveSpeed p * (if (0 <? Agent.excitedLevel a)%Z
                              then excitedSpeedMult p else 1)) in *.
  set (base' := moveSpeed p * (if (0 <? Agent.excitedLevel a)%Z
                               then excitedSpeedMult p else 1.0)) in *.
  assert (Hm : Math_max h f <= 1) by (unfold Math_max; cmp_cases; lra).
  assert (Hone : 1.0 == 1) by reflexivity.
  destruct (Qltb 0 R) eqn:HR.
  - apply Qltb_true in HR.
    assert (Hfac : 1.0 - R * (1.0 - Math_max h f) <= 1) by (rewrite Hone; nra).
    assert (Hmax : 0 <= Math_max 0 (1.0 - R * (1.0 - Math_max h f)) /\
                   Math_max 0 (1.0 - R * (1.0 - Math_max h f)) <= 1).
    { unfold Math_max at 1 3. cmp_cases; lra. }
    split; [split; nra |]. split; [intros HR0; lra |].
    intros HR1 Hh0 Hf0.
    assert (Hm0 : Math_max h f <= 0) by (unfold Math_max; cmp_cases; lra).
    assert (Hz : Math_max 0 (1.0 - R * (1.0 - Math_max h f)) == 0).
    { assert (1.0 - R * (1.0 - Math_max h f) <= 0) by (rewrite Hone; nra).
      unfold Math_max at 1. cmp_cases; lra. }
    rewrite Hz. ring.
  - apply Qltb_false in HR.
    split; [split; lra |]. split; [intros _; exact Heq |].
    intros HR1. lra.
Qed.

Lemma speed_is_bounded_witness :
  wfGrid smallGrid /\ cellsIn01 smallGrid /\ 0 <= moveSpeed params0 /\
  0 <= excitedSpeedMult params0 /\
  let a := Agent.mk 1 1 0 FORAGING 1 2 0 false in
  let base := moveSpeed params0
              * (if (0 <? Agent.excitedLevel a)%Z then excitedSpeedMult params0 else 1) in
  (0 <= currentSpeed params0 a smallGrid /\ currentSpeed params0 a smallGrid <= base) /\
  (explorationResistance params0 <= 0 -> currentSpeed params0 a smallGrid == base) /\
  (1 <= explorationResistance params0 ->
   getLevel params0 (Agent.x a) (Agent.y a) HOME smallGrid <= 0 ->
   getLevel params0 (Agent.x a) (Agent.y a) FOOD smallGrid <= 0 ->
   currentSpeed params0 a smallGrid == 0).
Proof.
  assert (Hms : 0 <= moveSpeed params0) by discriminate.
  assert (Hmult : 0 <= excitedSpeedMult params0) by discriminate.
  split; [exact smallGrid_wf |]. split; [exact smallGrid_in01 |].
  split; [exact Hms |]. split; [exact Hmult |].
  exact (speed_is_bounded params0 (Agent.mk 1 1 0 FORAGING 1 2 0 false) smallGrid
           smallGrid_wf smallGrid_in01 Hms Hmult).
Defined.

(** X13.  One [update] of an agent of the store returns, and leaves: the
    agent written back in its slot and no other slot changed; the agent
    inside the arena (for an arena of extent at least 1), its trail
    strength still in [0,1], its excitation level still in {0,1,2}, its
    giving-up flag still consistent with its search counter; exactly one
    deposit in the field, made at the agent's new position with the
    strength and on the channel (HOME for FORAGING, FOOD for RETURNING)
    the agent had when the update began; obstacles, food sources, the
    spawn accumulator untouched, the nests the same up to surge timers;
    at most [length nearbyAgents + 6] draws consumed. *)
Theorem update_moves_agent_and_deposits_once {Mth : MathImpl} (p : SimParams)
    (this : nat) (nearbyAgents : list nat) (a : Agent.t) (w : World) :
  agents w !! this = Some a ->
  Forall (fun ref => ref < length (agents w))%nat nearbyAgents ->
  nests w <> [] ->
  returns (update p this nearbyAgents) w (fun _ w' =>
    exists a',
      agents w' = <[this := a']> (agents w) /\
      ((1 <= width (grid w))%Z -> (1 <= height (grid w))%Z ->
       inBounds (grid w) (Agent.x a') (Agent.y a')) /\
      (validStrength a -> validStrength a') /\
      (validLevel a -> validLevel a') /\
      (giveUpOk a -> giveUpOk a') /\
      grid w' = deposit p (Agent.x a') (Agent.y a') (laidChannel (Agent.state a))
                  (Agent.pheromoneStrength a) (grid w) /\
      obstacles w' = obstacles w /\ foodSources w' = foodSources w /\
      spawnAccumulator w' = spawnAccumulator w /\ draws w' = draws w /\
      length (nests w') = length (nests w) /\
      (rngPos w <= rngPos w' <= rngPos w + (length nearbyAgents + 6))%nat /\
      nestsKept (nests w) (nests w')).
Proof. exact (update_full p this nearbyAgents a w). Qed.

Lemma update_moves_agent_and_deposits_once_witness :
  let a := Agent.mk 300 11 0 FORAGING 1 0 0 false in
  agents walledWorld !! 0%nat = Some a /\
  Forall (fun ref => ref < length (agents walledWorld))%nat [0%nat] /\
  nests walledWorld <> [] /\
  returns (update (Mth := refMath) params0 0 [0%nat]) walledWorld (fun _ w' =>
    exists a',
      agents w' = <[0%nat := a']> (agents walledWorld) /\
      ((1 <= width (grid walledWorld))%Z -> (1 <= height (grid walledWorld))%Z ->
       inBounds (grid walledWorld) (Agent.x a') (Agent.y a')) /\
      (validStrength a -> validStrength a') /\
      (validLevel a -> validLevel a') /\
      (giveUpOk a -> giveUpOk a') /\
      grid w' = deposit params0 (Agent.x a') (Agent.y a') (laidChannel (Agent.state a))
                  (Agent.pheromoneStrength a) (grid walledWorld) /\
      obstacles w' = obstacles walledWorld /\ foodSources w' = foodSources walledWorld /\
      spawnAccumulator w' = spawnAccumulator walledWorld /\ draws w' = draws walledWorld /\
      length (nests w') = length (nests walledWorld) /\
      (rngPos walledWorld <= rngPos w' <= rngPos walledWorld + (length [0%nat] + 6))%nat /\
      nestsKept (nests walledWorld) (nests w')).
Proof.
  cbn zeta.
  assert (Hrefs : Forall (fun ref => ref < length (agents walledWorld))%nat [0%nat])
    by (repeat constructor).
  assert (Hne : nests walledWorld <> []) by discriminate.
  split; [reflexivity |]. split; [exact Hrefs |]. split; [exact Hne |].
  exact (update_moves_agent_and_deposits_once (Mth := refMath) params0 0 [0%nat] _
           walledWorld eq_refl Hrefs Hne).
Defined.

(** X14.  Arrival at the nest: a RETURNING agent closer to its closest
    nest than that nest's radius deposits on the FOOD channel at its
    position, becomes FORAGING with its heading reversed by [Math.PI], its
    excitation level back to NONE and its trail strength at 1; if it
    arrived at level SOURCE the surge timer of that nest is set to 600,
    otherwise the nests are untouched. *)
Theorem nest_arrival_transition {Mth : MathImpl} (p : SimParams) (a : Agent.t) (w : World) :
  nests w <> [] -> Agent.state a = RETURNING -> atClosestNest a (nests w) = true ->
  returns (handleStateAndPheromones p a) w (fun a' w' =>
    (Agent.state a' = FORAGING /\ Agent.angle a' = Agent.angle a + Math_PI /\
     Agent.excitedLevel a' = 0%Z /\ Agent.pheromoneStrength a' == 1) /\
    (Agent.x a' = Agent.x a /\ Agent.y a' = Agent.y a) /\
    grid w' = deposit p (Agent.x a) (Agent.y a) FOOD (Agent.pheromoneStrength a) (grid w) /\
    exists closestNest,
      nests w !! closestNestRef a (nests w) = Some closestNest /\
      nests w' = if (Agent.excitedLevel a =? 2)%Z
                 then <[closestNestRef a (nests w) := Nest.set_surgeTimer closestNest 600]>
                        (nests w)
                 else nests w).
Proof.
  intros Hne Hst Hat.
  eapply returns_mono; [apply (handleStateAndPheromones_full p a w Hne) |].
  intros a' w'. cbn zeta. rewrite Hst, Hat. cbn [isReturning isForaging andb].
  intros ((Hx & Hy & _) & (Hgrid & _) & (cn & Hcn & Hnests) & (_ & _ & Hone) & _ & Hstate
          & Hchanged & _).
  destruct Hchanged as [Hang Hlev]; [rewrite Hstate; discriminate |].
  split.
  { split; [exact Hstate |]. split; [exact Hang |]. split; [exact Hlev |].
    apply Hone. apply orb_true_r. }
  split; [split; assumption |]. split; [exact Hgrid |].
  exists cn. split; [exact Hcn | exact Hnests].
Qed.

Lemma nest_arrival_transition_witness :
  nests overlapWorld <> [] /\ Agent.state returningAgent = RETURNING /\
  atClosestNest (Mth := refMath) returningAgent (nests overlapWorld) = true /\
  returns (handleStateAndPheromones (Mth := refMath) params0 returningAgent) overlapWorld
    (fun a' w' =>
      (Agent.state a' = FORAGING /\
       Agent.angle a' = Agent.angle returningAgent + Math_PI /\
       Agent.excitedLevel a' = 0%Z /\ Agent.pheromoneStrength a' == 1) /\
      (Agent.x a' = Agent.x returningAgent /\ Agent.y a' = Agent.y returningAgent) /\
      grid w' = deposit params0 (Agent.x returningAgent) (Agent.y returningAgent) FOOD
                  (Agent.pheromoneStrength returningAgent) (grid overlapWorld) /\
      exists closestNest,
        nests overlapWorld !! closestNestRef (Mth := refMath) returningAgent (nests overlapWorld)
          = Some closestNest /\
        nests w' = if (Agent.excitedLevel returningAgent =? 2)%Z
                   then <[closestNestRef (Mth := refMath) returningAgent (nests overlapWorld)
                          := Nest.set_surgeTimer closestNest 600]> (nests overlapWorld)
                   else nests overlapWorld).
Proof.
  assert (Hne : nests overlapWorld <> []) by discriminate.
  assert (Hat : atClosestNest (Mth := refMath) returningAgent (nests overlapWorld) = true)
    by (vm_compute; reflexivity).
  split; [exact Hne |]. split; [reflexivity |]. split; [exact Hat |].
  exact (nest_arrival_transition (Mth := refMath) params0 returningAgent overlapWorld
           Hne eq_refl Hat).
Defined.

(** X15.  Away from every food source and from its closest nest, the
    state-transition step only lays the trail and fades it: the agent
    deposits at its position on the channel of its state, keeps its state,
    heading and level, and its trail strength becomes
    [max (0, strength - 0.005)] in gradient mode and 1 otherwise; a
    strength in [0,1] stays in [0,1]; the nests are untouched. *)
Theorem trail_strength_fades {Mth : MathImpl} (p : SimParams) (a : Agent.t) (w : World) :
  nests w <> [] -> isOnFood a (foodSources w) = false ->
  atClosestNest a (nests w) = false ->
  returns (handleStateAndPheromones p a) w (fun a' w' =>
    a' = Agent.set_pheromoneStrength a
           (if usePheromoneGradient p
            then Math_max 0 (Agent.pheromoneStrength a - 0.005) else 1.0) /\
    (validStrength a -> validStrength a') /\
    grid w' = deposit p (Agent.x a) (Agent.y a) (laidChannel (Agent.state a))
                (Agent.pheromoneStrength a) (grid w) /\
    nests w' = nests w).
Proof.
  intros Hne Hfood Hat.
  eapply returns_mono; [apply (handleStateAndPheromones_full p a w Hne) |].
  intros a' w'. cbn zeta. rewrite Hfood, Hat. rewrite !andb_false_r. cbn [andb orb].
  intros (_ & (Hgrid & _) & (cn & _ & Hnests) & (Hs0 & Hs1 & _) & _ & Hstate & _ & Hsame).
  assert (Hst : Agent.state a' = Agent.state a)
    by (rewrite Hstate; destruct (Agent.state a); reflexivity).
  destruct (Hsame Hst) as (_ & _ & Hweak). specialize (Hweak eq_refl).
  split.
  { rewrite Hweak. unfold weaken. destruct (usePheromoneGradient p); reflexivity. }
  split; [intros [_ Hv1]; split; [exact Hs0 | apply Hs1; exact Hv1] |].
  split; [exact Hgrid | exact Hnests].
Qed.

Lemma trail_strength_fades_witness :
  let a := Agent.mk 500 500 0 FORAGING 0.5 0 0 false in
  nests foodWorld <> [] /\
  isOnFood (Mth := refMath) a (foodSources foodWorld) = false /\
  atClosestNest (Mth := refMath) a (nests foodWorld) = false /\
  returns (handleStateAndPheromones (Mth := refMath) params0 a) foodWorld (fun a' w' =>
    a' = Agent.set_pheromoneStrength a
           (if usePheromoneGradient params0
            then Math_max 0 (Agent.pheromoneStrength a - 0.005) else 1.0) /\
    (validStrength a -> validStrength a') /\
    grid w' = deposit params0 (Agent.x a) (Agent.y a) (laidChannel (Agent.state a))
                (Agent.pheromoneStrength a) (grid foodWorld) /\
    nests w' = nests foodWorld).
Proof.
  cbn zeta.
  assert (Hne : nests foodWorld <> []) by discriminate.
  assert (Hfood : isOnFood (Mth := refMath) (Agent.mk 500 500 0 FORAGING 0.5 0 0 false)
                    (foodSources foodWorld) = false) by (vm_compute; reflexivity).
  assert (Hat : atClosestNest (Mth := refMath) (Agent.mk 500 500 0 FORAGING 0.5 0 0 false)
                  (nests foodWorld) = false) by (vm_compute; reflexivity).
  split; [exact Hne |]. split; [exact Hfood |]. split; [exact Hat |].
  exact (trail_strength_fades (Mth := refMath) params0 _ foodWorld Hne Hfood Hat).
Defined.

(** * Properties of the tick *)



Lemma loops_worldOk {Mth : MathImpl} (p : SimParams) (k : nat) (w : World) :
  0 < evaporationRate p /\ evaporationRate p <= 1 ->
  worldOk w ->
  returns (loops p k) w (fun _ w' =>
    worldOk w' /\
    (obstacles w' = obstacles w /\ foodSources w' = foodSources w /\ draws w' = draws w) /\
    (width (grid w') = width (grid w) /\ height (grid w') = height (grid w)) /\
    nestsKept (nests w) (nests w') /\
    (length (agents w) <= length (agents w'))%nat /\
    (Z.of_nat (length (agents w')) <= Z.max (Z.of_nat (length (agents w))) (agentCount p))%Z).
Proof.
  intros Hrate (Hne & Hdraws & Hfield & Hags & Htimers).
  eapply returns_mono; [apply (loops_inv p k w); assumption |].
  intros u w' ((Hnl & Hdr & Hobs & Hfs) & (Hf & HW & HH) & Hag & Hle & Hceil & Hnk).
  split.
  { split; [eapply nests_nonempty_length; eauto |].
    split; [unfold validDraws; rewrite Hdr; exact Hdraws |].
    split; [exact Hf |]. split; [exact Hag |].
    eapply nestsKept_timers; eauto. }
  split; [repeat split; assumption |]. split; [split; assumption |].
  split; [exact Hnk |]. split; assumption.
Qed.

(** X17.  The invariant of the simulation.  With an evaporation rate in
    (0,1], from a state with at least one nest, a well-formed field with
    cells in [0,1] and extent at least 1, every agent inside the arena
    with trail strength in [0,1], level in {0,1,2} and a consistent
    giving-up flag, and surge timers in [0,600]: any number of ticks
    returns and leaves a state with the same properties.  Ticks never
    touch obstacles or food sources, never resize the field, never move,
    add or remove a nest, never remove an agent, and never take the
    population past the larger of its start value and [agentCount]. *)
Theorem ticks_keep_the_world_consistent {Mth : MathImpl} (p : SimParams) (k : nat)
    (w : World) :
  0 < evaporationRate p /\ evaporationRate p <= 1 ->
  worldOk w ->
  returns (loops p k) w (fun _ w' =>
    worldOk w' /\
    (obstacles w' = obstacles w /\ foodSources w' = foodSources w /\ draws w' = draws w) /\
    (width (grid w') = width (grid w) /\ height (grid w') = height (grid w)) /\
    nestsKept (nests w) (nests w') /\
    (length (agents w) <= length (agents w'))%nat /\
    (Z.of_nat (length (agents w')) <= Z.max (Z.of_nat (length (agents w))) (agentCount p))%Z).
Proof. exact (loops_worldOk p k w). Qed.

Lemma startWorld_ok : worldOk startWorld.
Proof.
  split; [discriminate |]. split; [exact startWorld_validDraws |].
  split; [exact fieldOk_newGrid |]. split; [constructor |].
  repeat constructor; discriminate.
Qed.

Lemma ticks_keep_the_world_consistent_witness :
  (0 < evaporationRate params0 /\ evaporationRate params0 <= 1) /\
  worldOk startWorld /\
  returns (loops (Mth := refMath) params0 5) startWorld (fun _ w' =>
    worldOk w' /\
    (obstacles w' = obstacles startWorld /\ foodSources w' = foodSources startWorld /\
     draws w' = draws startWorld) /\
    (width (grid w') = width (grid startWorld) /\
     height (grid w') = height (grid startWorld)) /\
    nestsKept (nests startWorld) (nests w') /\
    (length (agents startWorld) <= length (agents w'))%nat /\
    (Z.of_nat (length (agents w'))
     <= Z.max (Z.of_nat (length (agents startWorld))) (agentCount params0))%Z).
Proof.
  assert (Hrate : 0 < evaporationRate params0 /\ evaporationRate params0 <= 1)
    by (split; [reflexivity | discriminate]).
  split; [exact Hrate |]. split; [exact startWorld_ok |].
  exact (ticks_keep_the_world_consistent (Mth := refMath) params0 5 startWorld
           Hrate startWorld_ok).
Defined.

(** X19.  The spatial index of [loop] files every agent under the key of
    its own 10 x 10 cell and nowhere else: the reference [i] occurs in
    the bucket of key [k] exactly when the store holds an agent at [i]
    whose cell key is [k].  So the neighbours handed to [update] are the
    agents that were in the agent's cell when the index was built, the
    agent itself among them. *)
Theorem spatial_index_lists_agents_by_cell (ags : list Agent.t) (i : nat) (k : Z) :
  (exists l, buildSpatialMap ags !! k = Some l /\ i ∈ l) <->
  (exists a, ags !! i = Some a /\ bucketKey a = k).
Proof. exact (buildSpatialMap_members ags i k). Qed.

(** X20.  The statistics of [loop] partition the population: the
    FORAGING and RETURNING counters add up to the number of agents, and
    the counters are the numbers of FORAGING agents, of agents at level
    SOURCE and of agents at level CARRIER. *)
Theorem statistics_partition_population (ags : list Agent.t) :
  (cForaging (statistics ags) + cReturning (statistics ags) = length ags)%nat /\
  cForaging (statistics ags)
    = length (List.filter (fun a => isForaging (Agent.state a)) ags) /\
  cExcited2 (statistics ags)
    = length (List.filter (fun a => (Agent.excitedLevel a =? 2)%Z) ags) /\
  cExcited1 (statistics ags)
    = length (List.filter (fun a => (Agent.excitedLevel a =? 1)%Z) ags).
Proof.
  destruct (statistics_fold ags {| cForaging := 0; cReturning := 0;
                                   cExcited2 := 0; cExcited1 := 0 |})
    as (H1 & H2 & H3 & H4).
  cbn zeta in *. cbn [cForaging cReturning cExcited2 cExcited1] in *.
  unfold statistics. repeat split; lia.
Qed.

(** * Properties of the placement, the maze and the buttons *)

Lemma overlaps_complete (x y r px py : number) (obs : Obstacle.t) :
  0 <= r -> inRectangle px py obs -> inDisc px py x y r -> overlaps x y r obs = true.
Proof.
  intros Hr [[Hx0 Hx1] [Hy0 Hy1]] Hd. unfold inDisc in Hd.
  assert (Habs : forall u v : Q, u * u + v * v < r * r -> - r < u /\ u < r).
  { intros u v Huv.
    assert (Hv : 0 <= v * v) by (destruct (Qlt_le_dec v 0); nra).
    split.
    - destruct (Qlt_le_dec (- r) u) as [Hlt | Hle]; [exact Hlt | exfalso].
      assert (H1 : 0 <= - u - r) by lra. assert (H2 : 0 <= - u + r) by lra.
      pose proof (Qmult_le_0_compat _ _ H1 H2). nra.
    - destruct (Qlt_le_dec u r) as [Hlt | Hle]; [exact Hlt | exfalso].
      assert (H1 : 0 <= u - r) by lra. assert (H2 : 0 <= u + r) by lra.
      pose proof (Qmult_le_0_compat _ _ H1 H2). nra. }
  assert (Hdx : - r < px - x /\ px - x < r) by (apply (Habs _ (py - y)); exact Hd).
  assert (Hdy : - r < py - y /\ py - y < r).
  { apply (Habs _ (px - x)). lra. }
  unfold overlaps. cmp_cases; try reflexivity; lra.
Qed.

(** X21.  [isOverlapping] has no false negative: it reads the obstacles
    only, and when it answers [false] for a disc of radius [r >= 0], no
    point of any obstacle rectangle lies in the open disc.  (It tests the
    bounding square of the disc, so it may answer [true] for a disc that
    misses every obstacle.) *)
Theorem isOverlapping_has_no_false_negative (x y r : number) (w : World) :
  0 <= r ->
  returns (isOverlapping x y r) w (fun over w' =>
    w' = w /\
    (over = false ->
     forall obs px py, obs ∈ obstacles w -> inRectangle px py obs -> ~ inDisc px py x y r)).
Proof.
  intros Hr. unfold isOverlapping. apply returns_bind, returns_gets, returns_ret.
  split; [reflexivity |]. intros Hover obs px py Hin Hrect Hdisc.
  assert (Hex : existsb (overlaps x y r) (obstacles w) = true).
  { apply existsb_exists. exists obs. split; [apply list_elem_of_In; exact Hin |].
    now apply (overlaps_complete x y r px py). }
  congruence.
Qed.

Lemma isOverlapping_has_no_false_negative_witness :
  0 <= 20 /\
  returns (isOverlapping 300 300 20) walledWorld (fun over w' =>
    w' = walledWorld /\
    (over = false ->
     forall obs px py, obs ∈ obstacles walledWorld -> inRectangle px py obs ->
                       ~ inDisc px py 300 300 20)).
Proof.
  assert (Hr : 0 <= 20) by discriminate.
  split; [exact Hr |].
  exact (isOverlapping_has_no_false_negative 300 300 20 walledWorld Hr).
Defined.

(** X22.  [initNests] returns for every sequence of draws in [0,1) and
    replaces the nests by [nestCount] nests of radius 20 with a zero surge
    timer and a centre in [50,550) x [50,550); it changes nothing else but
    the number of draws consumed (at most 200 per nest).  When
    [nestCount > 0] and the centre site is clear of obstacles the first
    nest is at the centre of the arena; and unless a placement used up its
    100 attempts (198 draws or more), every nest passed the obstacle
    test. *)
Theorem initNests_places_nests (p : SimParams) (w : World) :
  validDraws w ->
  returns (initNests p) w (fun _ w' =>
    length (nests w') = Z.to_nat (nestCount p) /\ Forall nestPlaced (nests w') /\
    w' = set_rngPos (set_nests w (nests w')) (rngPos w') /\
    (rngPos w <= rngPos w' <= rngPos w + 200 * Z.to_nat (nestCount p))%nat /\
    ((0 < nestCount p)%Z ->
     clearSite (inject_Z WIDTH / 2) (inject_Z HEIGHT / 2) 20 (obstacles w) ->
     nests w' !! 0%nat = Some centreNest) /\
    ((rngPos w' < rngPos w + 198)%nat ->
     Forall (fun nest => clearSite (Nest.x nest) (Nest.y nest) (Nest.r nest) (obstacles w))
            (nests w'))).
Proof. exact (initNests_spec p w). Qed.

Lemma walledWorld_validDraws : validDraws walledWorld.
Proof. intros n. split; [discriminate | reflexivity]. Qed.

Lemma initNests_places_nests_witness :
  validDraws walledWorld /\
  returns (initNests params0) walledWorld (fun _ w' =>
    length (nests w') = Z.to_nat (nestCount params0) /\ Forall nestPlaced (nests w') /\
    w' = set_rngPos (set_nests walledWorld (nests w')) (rngPos w') /\
    (rngPos walledWorld <= rngPos w'
       <= rngPos walledWorld + 200 * Z.to_nat (nestCount params0))%nat /\
    ((0 < nestCount params0)%Z ->
     clearSite (inject_Z WIDTH / 2) (inject_Z HEIGHT / 2) 20 (obstacles walledWorld) ->
     nests w' !! 0%nat = Some centreNest) /\
    ((rngPos w' < rngPos walledWorld + 198)%nat ->
     Forall (fun nest => clearSite (Nest.x nest) (Nest.y nest) (Nest.r nest)
                                   (obstacles walledWorld))
            (nests w'))).
Proof.
  split; [exact walledWorld_validDraws |].
  exact (initNests_places_nests params0 walledWorld walledWorld_validDraws).
Defined.

(** X23.  [initFoods] returns for every sequence of draws in [0,1) and
    replaces the food sources by [foodCount] sources of radius 30 with a
    centre in [50,550) x [50,550), so that every food disc lies within
    the arena; it changes nothing else but the number of draws consumed
    (two per attempt, at most 200 per source).  Unless a placement used up
    its 100 attempts, every source passed the obstacle test. *)
Theorem initFoods_places_food (p : SimParams) (w : World) :
  validDraws w ->
  returns (initFoods p) w (fun _ w' =>
    length (foodSources w') = Z.to_nat (foodCount p) /\
    Forall (fun f => foodPlaced f /\
                     discInArena (FoodSource.x f) (FoodSource.y f) (FoodSource.r f))
           (foodSources w') /\
    w' = set_rngPos (set_foodSources w (foodSources w')) (rngPos w') /\
    (rngPos w + 2 * Z.to_nat (foodCount p) <= rngPos w'
       <= rngPos w + 200 * Z.to_nat (foodCount p))%nat /\
    ((rngPos w' < rngPos w + 200)%nat ->
     Forall (fun f => clearSite (FoodSource.x f) (FoodSource.y f) (FoodSource.r f)
                                (obstacles w)) (foodSources w'))).
Proof.
  intros Hdraws. eapply returns_mono; [apply (initFoods_spec p w Hdraws) |].
  intros u w' (Hlen & Hfp & Hw' & Hb & Hclear).
  split; [exact Hlen |]. split; [| split; [exact Hw' | split; [exact Hb | exact Hclear]]].
  eapply Forall_impl; [exact Hfp |]. intros f Hf. split; [exact Hf |].
  destruct Hf as (Hr & _ & [Hx0 Hx1] & [Hy0 Hy1]).
  unfold discInArena. rewrite Hr. change (inject_Z WIDTH) with 600.
  change (inject_Z HEIGHT) with 600. repeat split; lra.
Qed.

Lemma initFoods_places_food_witness :
  validDraws walledWorld /\
  returns (initFoods params0) walledWorld (fun _ w' =>
    length (foodSources w') = Z.to_nat (foodCount params0) /\
    Forall (fun f => foodPlaced f /\
                     discInArena (FoodSource.x f) (FoodSource.y f) (FoodSource.r f))
           (foodSources w') /\
    w' = set_rngPos (set_foodSources walledWorld (foodSources w')) (rngPos w') /\
    (rngPos walledWorld + 2 * Z.to_nat (foodCount params0) <= rngPos w'
       <= rngPos walledWorld + 200 * Z.to_nat (foodCount params0))%nat /\
    ((rngPos w' < rngPos walledWorld + 200)%nat ->
     Forall (fun f => clearSite (FoodSource.x f) (FoodSource.y f) (FoodSource.r f)
                                (obstacles walledWorld)) (foodSources w'))).
Proof.
  split; [exact walledWorld_validDraws |].
  exact (initFoods_places_food params0 walledWorld walledWorld_validDraws).
Defined.

(** X24.  [initMaze] returns for every sequence of draws in [0,1) and
    replaces the obstacles by exactly 36 rectangles (the four border walls,
    then a pillar and one wall for each of the 16 inner grid positions),
    consuming 16 draws and changing nothing else.  Every rectangle lies
    within the arena with positive width and height, and none meets the
    bounding square of the centre nest site. *)
Theorem initMaze_builds_36_obstacles (w : World) :
  validDraws w ->
  returns initMaze w (fun _ w' =>
    length (obstacles w') = 36%nat /\ Forall mazePiece (obstacles w') /\
    w' = set_rngPos (set_obstacles w (obstacles w')) (rngPos w') /\
    rngPos w' = (rngPos w + 16)%nat).
Proof. exact (initMaze_spec w). Qed.

Lemma initMaze_builds_36_obstacles_witness :
  validDraws startWorld /\
  returns initMaze startWorld (fun _ w' =>
    length (obstacles w') = 36%nat /\ Forall mazePiece (obstacles w') /\
    w' = set_rngPos (set_obstacles startWorld (obstacles w')) (rngPos w') /\
    rngPos w' = (rngPos startWorld + 16)%nat).
Proof.
  split; [exact startWorld_validDraws |].
  exact (initMaze_builds_36_obstacles startWorld startWorld_validDraws).
Defined.

(** X25.  The Maze button: for every sequence of draws in [0,1) the
    handler returns with the 36 maze obstacles in place, the field reset
    to zero, an empty population and a zero spawn accumulator,
    [nestCount] nests and [foodCount] food sources placed as by
    [initNests] and [initFoods]; and, as no maze obstacle meets the centre
    site, the first nest is at the centre of the arena whenever
    [nestCount > 0]. *)
Theorem maze_button_keeps_first_nest_central (p : SimParams) (w : World) :
  validDraws w ->
  returns (onMazeClick p) w (fun _ w' =>
    (length (obstacles w') = 36%nat /\ Forall mazePiece (obstacles w')) /\
    (grid w' = reset (grid w) /\ draws w' = draws w) /\
    (agents w' = [] /\ spawnAccumulator w' = 0) /\
    (length (nests w') = Z.to_nat (nestCount p) /\ Forall nestPlaced (nests w')) /\
    (length (foodSources w') = Z.to_nat (foodCount p) /\
     Forall foodPlaced (foodSources w')) /\
    ((0 < nestCount p)%Z -> nests w' !! 0%nat = Some centreNest)).
Proof. exact (onMazeClick_spec p w). Qed.

Lemma maze_button_keeps_first_nest_central_witness :
  validDraws startWorld /\
  returns (onMazeClick params0) startWorld (fun _ w' =>
    (length (obstacles w') = 36%nat /\ Forall mazePiece (obstacles w')) /\
    (grid w' = reset (grid startWorld) /\ draws w' = draws startWorld) /\
    (agents w' = [] /\ spawnAccumulator w' = 0) /\
    (length (nests w') = Z.to_nat (nestCount params0) /\ Forall nestPlaced (nests w')) /\
    (length (foodSources w') = Z.to_nat (foodCount params0) /\
     Forall foodPlaced (foodSources w')) /\
    ((0 < nestCount params0)%Z -> nests w' !! 0%nat = Some centreNest)).
Proof.
  split; [exact startWorld_validDraws |].
  exact (maze_button_keeps_first_nest_central params0 startWorld startWorld_validDraws).
Defined.

(** X26.  The Clear-maze button: for every sequence of draws in [0,1)
    the handler returns with no obstacle, the field reset to zero, an
    empty population and a zero accumulator, the nests and food sources
    placed anew with the first nest at the centre; with no obstacle every
    placement succeeds at its first attempt, so exactly two draws are
    consumed per food source and per nest after the first. *)
Theorem clear_maze_button_restarts (p : SimParams) (w : World) :
  validDraws w ->
  returns (onClearMazeClick p) w (fun _ w' =>
    obstacles w' = [] /\
    (grid w' = reset (grid w) /\ draws w' = draws w) /\
    (agents w' = [] /\ spawnAccumulator w' = 0) /\
    (length (nests w') = Z.to_nat (nestCount p) /\ Forall nestPlaced (nests w')) /\
    (length (foodSources w') = Z.to_nat (foodCount p) /\
     Forall foodPlaced (foodSources w')) /\
    ((0 < nestCount p)%Z -> nests w' !! 0%nat = Some centreNest) /\
    rngPos w' = (rngPos w + 2 * (Z.to_nat (nestCount p) - 1)
                          + 2 * Z.to_nat (foodCount p))%nat).
Proof. exact (onClearMazeClick_spec p w). Qed.

Lemma clear_maze_button_restarts_witness :
  validDraws walledWorld /\
  returns (onClearMazeClick params0) walledWorld (fun _ w' =>
    obstacles w' = [] /\
    (grid w' = reset (grid walledWorld) /\ draws w' = draws walledWorld) /\
    (agents w' = [] /\ spawnAccumulator w' = 0) /\
    (length (nests w') = Z.to_nat (nestCount params0) /\ Forall nestPlaced (nests w')) /\
    (length (foodSources w') = Z.to_nat (foodCount params0) /\
     Forall foodPlaced (foodSources w')) /\
    ((0 < nestCount params0)%Z -> nests w' !! 0%nat = Some centreNest) /\
    rngPos w' = (rngPos walledWorld + 2 * (Z.to_nat (nestCount params0) - 1)
                          + 2 * Z.to_nat (foodCount params0))%nat).
Proof.
  split; [exact walledWorld_validDraws |].
  exact (clear_maze_button_restarts params0 walledWorld walledWorld_validDraws).
Defined.

(** X27.  The Reset button: for every sequence of draws in [0,1) the
    handler returns with the obstacles kept, the field reset to zero, an
    empty population and a zero accumulator, and the nests and food
    sources placed anew against the obstacles present; unless a placement
    used up its 100 attempts (198 draws or more in all), every new nest
    and food source passed the obstacle test. *)
Theorem reset_button_restarts (p : SimParams) (w : World) :
  validDraws w ->
  returns (onResetClick p) w (fun _ w' =>
    (grid w' = reset (grid w) /\ obstacles w' = obstacles w /\ draws w' = draws w) /\
    (agents w' = [] /\ spawnAccumulator w' = 0) /\
    (length (nests w') = Z.to_nat (nestCount p) /\ Forall nestPlaced (nests w')) /\
    (length (foodSources w') = Z.to_nat (foodCount p) /\
     Forall foodPlaced (foodSources w')) /\
    ((0 < nestCount p)%Z ->
     clearSite (inject_Z WIDTH / 2) (inject_Z HEIGHT / 2) 20 (obstacles w) ->
     nests w' !! 0%nat = Some centreNest) /\
    (rngPos w + 2 * Z.to_nat (foodCount p) <= rngPos w'
       <= rngPos w + 200 * (Z.to_nat (nestCount p) + Z.to_nat (foodCount p)))%nat /\
    ((rngPos w' < rngPos w + 198)%nat ->
     Forall (fun nest => clearSite (Nest.x nest) (Nest.y nest) (Nest.r nest) (obstacles w))
            (nests w') /\
     Forall (fun f => clearSite (FoodSource.x f) (FoodSource.y f) (FoodSource.r f)
                                (obstacles w)) (foodSources w'))).
Proof. exact (onResetClick_spec p w). Qed.

Lemma reset_button_restarts_witness :
  validDraws walledWorld /\
  returns (onResetClick params0) walledWorld (fun _ w' =>
    (grid w' = reset (grid walledWorld) /\ obstacles w' = obstacles walledWorld /\
     draws w' = draws walledWorld) /\
    (agents w' = [] /\ spawnAccumulator w' = 0) /\
    (length (nests w') = Z.to_nat (nestCount params0) /\ Forall nestPlaced (nests w')) /\
    (length (foodSources w') = Z.to_nat (foodCount params0) /\
     Forall foodPlaced (foodSources w')) /\
    ((0 < nestCount params0)%Z ->
     clearSite (inject_Z WIDTH / 2) (inject_Z HEIGHT / 2) 20 (obstacles walledWorld) ->
     nests w' !! 0%nat = Some centreNest) /\
    (rngPos walledWorld + 2 * Z.to_nat (foodCount params0) <= rngPos w'
       <= rngPos walledWorld
          + 200 * (Z.to_nat (nestCount params0) + Z.to_nat (foodCount params0)))%nat /\
    ((rngPos w' < rngPos walledWorld + 198)%nat ->
     Forall (fun nest => clearSite (Nest.x nest) (Nest.y nest) (Nest.r nest)
                                   (obstacles walledWorld))
            (nests w') /\
     Forall (fun f => clearSite (FoodSource.x f) (FoodSource.y f) (FoodSource.r f)
                                (obstacles walledWorld)) (foodSources w'))).
Proof.
  split; [exact walledWorld_validDraws |].
  exact (reset_button_restarts params0 walledWorld walledWorld_validDraws).
Defined.

(** * The search for the closest nest, and a whole session *)

Section Closest.
Context {Mth : MathImpl}.

Lemma findClosest_inv (a : Agent.t) (ns pre : list Nest.t) (c : nat) (m : number) :
  isClosest a pre c m ->
  exists m', (findClosest a ns (length pre) c (Some m)).2 = Some m' /\
             isClosest a (pre ++ ns) (findClosest a ns (length pre) c (Some m)).1 m'.
Proof.
  revert pre c m. induction ns as [| nest rest IH]; intros pre c m Hc.
  - cbn. exists m. rewrite app_nil_r. split; [reflexivity | exact Hc].
  - cbn [findClosest]. fold (distTo a nest).
    destruct Hc as (nc & Hnc & Hm & Hall & Hbefore).
    assert (Hclt : (c < length pre)%nat) by (eapply lookup_lt_Some; eauto).
    replace (pre ++ nest :: rest) with ((pre ++ [nest]) ++ rest)
      by (rewrite <- app_assoc; reflexivity).
    replace (S (length pre)) with (length (pre ++ [nest]))
      by (rewrite length_app; cbn; lia).
    destruct (Qltb (distTo a nest) m) eqn:Hlt.
    + apply Qltb_true in Hlt. apply IH.
      exists nest. split; [apply list_lookup_middle; reflexivity |].
      split; [reflexivity |]. split.
      * intros j n Hj. apply lookup_app_Some in Hj as [Hj | [Hge Hj]].
        -- specialize (Hall j n Hj). lra.
        -- destruct (j - length pre)%nat; cbn in Hj; [| discriminate].
           injection Hj as <-. lra.
      * intros j n Hjlt Hj. rewrite lookup_app_l in Hj by exact Hjlt.
        specialize (Hall j n Hj). lra.
    + apply Qltb_false in Hlt. apply IH.
      exists nc. split; [rewrite lookup_app_l by exact Hclt; exact Hnc |].
      split; [exact Hm |]. split.
      * intros j n Hj. apply lookup_app_Some in Hj as [Hj | [Hge Hj]].
        -- exact (Hall j n Hj).
        -- destruct (j - length pre)%nat; cbn in Hj; [| discriminate].
           injection Hj as <-. exact Hlt.
      * intros j n Hjlt Hj. rewrite lookup_app_l in Hj by lia.
        exact (Hbefore j n Hjlt Hj).
Qed.

Lemma findClosest_closest (a : Agent.t) (ns : list Nest.t) :
  ns <> [] ->
  exists m, (findClosest a ns 0 0 None).2 = Some m /\
            isClosest a ns (findClosest a ns 0 0 None).1 m.
Proof.
  destruct ns as [| nest rest]; [contradiction |]. intros _.
  cbn [findClosest]. fold (distTo a nest).
  apply (findClosest_inv a rest [nest] 0 (distTo a nest)).
  exists nest. split; [reflexivity |]. split; [reflexivity |]. split.
  - intros [| j] n Hj; cbn in Hj; [| discriminate]. injection Hj as <-. lra.
  - intros j n Hj. lia.
Qed.
End Closest.

(** X28.  The search loop of [handleStateAndPheromones] finds the closest
    nest: for a non-empty list of nests the reference it ends with is
    valid, the distance it ends with is the distance to that nest, no nest
    is closer, and every nest listed before it is strictly farther (of
    several nests at the same smallest distance the first is taken). *)
Theorem closest_nest_is_closest {Mth : MathImpl} (a : Agent.t) (ns : list Nest.t) :
  ns <> [] ->
  exists m, (findClosest a ns 0 0 None).2 = Some m /\
            isClosest a ns (closestNestRef a ns) m.
Proof. exact (findClosest_closest a ns). Qed.

Lemma closest_nest_is_closest_witness :
  [centralNest; Nest.mk 100 100 20 0] <> [] /\
  exists m,
    (findClosest (Mth := refMath) foragingAgent [centralNest; Nest.mk 100 100 20 0]
       0 0 None).2 = Some m /\
    isClosest (Mth := refMath) foragingAgent [centralNest; Nest.mk 100 100 20 0]
      (closestNestRef (Mth := refMath) foragingAgent [centralNest; Nest.mk 100 100 20 0]) m.
Proof.
  assert (Hne : [centralNest; Nest.mk 100 100 20 0] <> []) by discriminate.
  split; [exact Hne |].
  exact (closest_nest_is_closest (Mth := refMath) foragingAgent _ Hne).
Defined.

Section Session.
Context {Mth : MathImpl}.
Variable p : SimParams.

Lemma session_spec (k : nat) (rnd : nat -> number) :
  (forall n, 0 <= rnd n /\ rnd n < 1) -> (0 < nestCount p)%Z ->
  0 < evaporationRate p /\ evaporationRate p <= 1 ->
  returns (session p k) (bootWorld rnd) (fun _ w =>
    worldOk w /\
    (obstacles w = [] /\ width (grid w) = WIDTH /\ height (grid w) = HEIGHT) /\
    (length (nests w) = Z.to_nat (nestCount p) /\
     (forall i n, nests w !! i = Some n ->
        Nest.r n = 20 /\ inPlacementSquare (Nest.x n) (Nest.y n)) /\
     (exists n0, nests w !! 0%nat = Some n0 /\ sameSite centreNest n0)) /\
    (length (foodSources w) = Z.to_nat (foodCount p) /\ Forall foodPlaced (foodSources w)) /\
    (Z.of_nat (length (agents w)) <= Z.max 0 (agentCount p))%Z).
Proof.
  intros Hrnd Hnests Hrate. unfold session. apply returns_bind.
  eapply returns_mono; [apply (startUp_spec p rnd Hrnd) |].
  intros u w1 ((Hg1 & Hobs1 & Hdr1) & (Hag1 & Hacc1) & (Hnl1 & Hnp1) & (Hfl1 & Hfp1)
               & Hcentre1 & _). cbn beta.
  assert (Hok1 : worldOk w1).
  { split.
    { intros Hnil. rewrite Hnil in Hnl1. cbn in Hnl1. lia. }
    split; [unfold validDraws; rewrite Hdr1; exact Hrnd |].
    split; [rewrite Hg1; exact fieldOk_newGrid |].
    split; [rewrite Hag1; constructor |].
    eapply Forall_impl; [exact Hnp1 |]. intros n (_ & Ht & _).
    unfold timerOk. rewrite Ht. lia. }
  eapply returns_mono; [apply (loops_worldOk p k w1 Hrate Hok1) |].
  intros u' w ( Hok & (Hobs & Hfs & _) & (HW & HH) & [Hnlen Hnk] & _ & Hceil).
  split; [exact Hok |].
  split; [rewrite Hobs, HW, HH, Hg1; repeat split; assumption |].
  split.
  { split; [congruence |]. split.
    - intros i n Hi.
      assert (Hi1 : (i < length (nests w1))%nat)
        by (rewrite <- Hnlen; eapply lookup_lt_Some; eauto).
      destruct (lookup_lt_is_Some_2 _ _ Hi1) as [n1 Hn1].
      destruct (Hnk i n1 Hn1) as (n' & Hn' & (Hx & Hy & Hr) & _).
      rewrite Hi in Hn'. injection Hn' as <-.
      destruct (Forall_lookup_1 _ _ _ _ Hnp1 Hn1) as (Hr1 & _ & Hsq).
      rewrite Hx, Hy, Hr. split; assumption.
    - destruct (Hnk 0%nat centreNest (Hcentre1 Hnests)) as (n' & Hn' & Hsite & _).
      exists n'. split; assumption. }
  split; [rewrite Hfs; split; assumption |].
  rewrite Hag1 in Hceil. exact Hceil.
Qed.
End Session.

(** X29.  A whole session is consistent.  For every sequence of draws in
    [0,1), with at least one nest configured and an evaporation rate in
    (0,1], the start-up ([initNests], [initFoods], [initAgents] on the
    initial module state) followed by any number of ticks returns, and
    then: there is a nest, the field is 600 x 600 with every cell in
    [0,1], every agent is inside the arena with trail strength in [0,1],
    level in {0,1,2} and a consistent giving-up flag, every surge timer is
    in [0,600]; there is no obstacle; the nests are [nestCount] in number,
    of radius 20, with centres in [50,550) x [50,550), the first at the
    centre of the arena; the food sources are as placed; and the
    population is at most [max 0 agentCount]. *)
Theorem session_is_consistent {Mth : MathImpl} (p : SimParams) (k : nat)
    (rnd : nat -> number) :
  (forall n, 0 <= rnd n /\ rnd n < 1) -> (0 < nestCount p)%Z ->
  0 < evaporationRate p /\ evaporationRate p <= 1 ->
  returns (session p k) (bootWorld rnd) (fun _ w =>
    worldOk w /\
    (obstacles w = [] /\ width (grid w) = WIDTH /\ height (grid w) = HEIGHT) /\
    (length (nests w) = Z.to_nat (nestCount p) /\
     (forall i n, nests w !! i = Some n ->
        Nest.r n = 20 /\ inPlacementSquare (Nest.x n) (Nest.y n)) /\
     (exists n0, nests w !! 0%nat = Some n0 /\ sameSite centreNest n0)) /\
    (length (foodSources w) = Z.to_nat (foodCount p) /\ Forall foodPlaced (foodSources w)) /\
    (Z.of_nat (length (agents w)) <= Z.max 0 (agentCount p))%Z).
Proof. exact (session_spec p k rnd). Qed.

Lemma session_is_consistent_witness :
  (forall n : nat, 0 <= (fun _ : nat => 0.5) n /\ (fun _ : nat => 0.5) n < 1) /\
  (0 < nestCount params0)%Z /\
  (0 < evaporationRate params0 /\ evaporationRate params0 <= 1) /\
  returns (session (Mth := refMath) params0 4) (bootWorld (fun _ => 0.5)) (fun _ w =>
    worldOk w /\
    (obstacles w = [] /\ width (grid w) = WIDTH /\ height (grid w) = HEIGHT) /\
    (length (nests w) = Z.to_nat (nestCount params0) /\
     (forall i n, nests w !! i = Some n ->
        Nest.r n = 20 /\ inPlacementSquare (Nest.x n) (Nest.y n)) /\
     (exists n0, nests w !! 0%nat = Some n0 /\ sameSite centreNest n0)) /\
    (length (foodSources w) = Z.to_nat (foodCount params0) /\
     Forall foodPlaced (foodSources w)) /\
    (Z.of_nat (length (agents w)) <= Z.max 0 (agentCount params0))%Z).
Proof.
  assert (Hrate : 0 < evaporationRate params0 /\ evaporationRate params0 <= 1)
    by (split; [reflexivity | discriminate]).
  assert (Hn : (0 < nestCount params0)%Z) by reflexivity.
  split; [exact startWorld_validDraws |]. split; [exact Hn |]. split; [exact Hrate |].
  exact (session_is_consistent (Mth := refMath) params0 4 (fun _ => 0.5)
           startWorld_validDraws Hn Hrate).
Defined.

Lemma handleBoundaries_inside (g : PheromoneGrid) (a : Agent.t) :
  inBounds g (Agent.x a) (Agent.y a) -> handleBoundaries g a = a.
Proof.
  intros [[Hx0 Hx1] [Hy0 Hy1]]. unfold handleBoundaries.
  destruct a as [x y ang st ps el stime gu]. cbn in *.
  assert (E1 : (x <? 0) = false) by (apply Qltb_false; exact Hx0).
  assert (E2 : (x >=? inject_Z (width g)) = false) by (apply Qleb_false; exact Hx1).
  assert (E3 : (y <? 0) = false) by (apply Qltb_false; exact Hy0).
  assert (E4 : (y >=? inject_Z (height g)) = false) by (apply Qleb_false; exact Hy1).
  rewrite E1. cbn. rewrite E2. cbn. rewrite E3. cbn. rewrite E4. reflexivity.
Qed.

(** X30.  A move either goes through or bounces on the spot.  For an agent
    inside the arena: when the tentative point lies in an obstacle
    rectangle the agent keeps its position and every field but the
    heading, which turns by an amount in [PI - 0.5, PI + 0.5), and one draw
    is consumed; otherwise no draw is consumed, the world is untouched,
    and if the tentative point is inside the arena the agent is exactly at
    that point with its heading unchanged. *)
Theorem move_goes_through_or_bounces {Mth : MathImpl} (speed : number) (a : Agent.t)
    (w : World) :
  validDraws w -> inBounds (grid w) (Agent.x a) (Agent.y a) ->
  returns (moveAndCollide speed a) w (fun a' w' =>
    let moved := tentativeMove speed a in
    if existsb (insideObstacle moved) (obstacles w)
    then a' = Agent.set_angle a (Agent.angle a') /\
         (Math_PI - 0.5 <= Agent.angle a' - Agent.angle a /\
          Agent.angle a' - Agent.angle a < Math_PI + 0.5) /\
         w' = set_rngPos w (S (rngPos w))
    else w' = w /\
         (inBounds (grid w) (Agent.x moved) (Agent.y moved) -> a' = moved)).
Proof.
  intros Hdraws Hin. eapply returns_mono; [apply moveAndCollide_exact |].
  intros a' w'. cbn zeta. destruct (existsb _ _).
  - intros [-> ->]. destruct (Hdraws (rngPos w)) as [H0 H1].
    rewrite handleBoundaries_inside by (destruct a; exact Hin).
    split; [destruct a; reflexivity |]. split; [| reflexivity].
    destruct a; cbn [Agent.angle Agent.set_angle Agent.set_pos tentativeMove]. split; lra.
  - intros [-> ->]. split; [reflexivity |]. intros Hmoved.
    apply handleBoundaries_inside. exact Hmoved.
Qed.

Lemma move_goes_through_or_bounces_witness :
  let a := Agent.mk 300 11 0 FORAGING 1 0 0 false in
  validDraws walledWorld /\ inBounds (grid walledWorld) (Agent.x a) (Agent.y a) /\
  returns (moveAndCollide (Mth := refMath) 1.5 a) walledWorld (fun a' w' =>
    let moved := tentativeMove (Mth := refMath) 1.5 a in
    if existsb (insideObstacle moved) (obstacles walledWorld)
    then a' = Agent.set_angle a (Agent.angle a') /\
         (Math_PI - 0.5 <= Agent.angle a' - Agent.angle a /\
          Agent.angle a' - Agent.angle a < Math_PI + 0.5) /\
         w' = set_rngPos walledWorld (S (rngPos walledWorld))
    else w' = walledWorld /\
         (inBounds (grid walledWorld) (Agent.x moved) (Agent.y moved) -> a' = moved)).
Proof.
  cbn zeta.
  assert (Hin : inBounds (grid walledWorld) 300 11)
    by (repeat split; vm_compute; first [reflexivity | discriminate]).
  split; [exact walledWorld_validDraws |]. split; [exact Hin |].
  exact (move_goes_through_or_bounces (Mth := refMath) 1.5
           (Agent.mk 300 11 0 FORAGING 1 0 0 false) walledWorld
           walledWorld_validDraws Hin).
Defined.

(** * The properties of the field on a concrete grid *)

Lemma smallGrid_sameLength : sameLength smallGrid.
Proof. reflexivity. Qed.


Lemma smallGrid_centre_inBounds : inBounds smallGrid 1 1.
Proof. repeat split; vm_compute; first [reflexivity | discriminate]. Qed.

Lemma deposits_commute_witness :
  (cellIndex smallGrid 0 0 <> cellIndex smallGrid 1 1 \/
   effectiveType params0 HOME <> effectiveType params0 HOME) /\
  deposit params0 1 1 HOME 0.25 (deposit params0 0 0 HOME 0.5 smallGrid)
    = deposit params0 0 0 HOME 0.5 (deposit params0 1 1 HOME 0.25 smallGrid).
Proof.
  assert (H : cellIndex smallGrid 0 0 <> cellIndex smallGrid 1 1 \/
              effectiveType params0 HOME <> effectiveType params0 HOME)
    by (left; vm_compute; discriminate).
  split; [exact H |].
  exact (deposits_commute params0 smallGrid 0 0 0.5 1 1 0.25 HOME HOME H).
Defined.

Lemma reset_restores_new_grid_witness :
  wfGrid smallGrid /\
  reset smallGrid = newGrid (width smallGrid) (height smallGrid) /\
  (forall x y t, inBounds smallGrid x y -> getLevel params0 x y t (reset smallGrid) = 0).
Proof.
  split; [exact smallGrid_wf |].
  exact (reset_restores_new_grid params0 smallGrid smallGrid_wf).
Defined.

Lemma deposit_outside_rows_is_noop_witness :
  wfGrid smallGrid /\ (0 <= 1 /\ 1 < inject_Z (width smallGrid)) /\
  (5 < 0 \/ inject_Z (height smallGrid) <= 5) /\
  deposit params0 1 5 HOME 1 smallGrid = smallGrid.
Proof.
  assert (Hx : 0 <= 1 /\ 1 < inject_Z (width smallGrid))
    by (split; [discriminate | reflexivity]).
  assert (Hy : 5 < 0 \/ inject_Z (height smallGrid) <= 5) by (right; discriminate).
  split; [exact smallGrid_wf |]. split; [exact Hx |]. split; [exact Hy |].
  exact (deposit_outside_rows_is_noop params0 smallGrid 1 5 1 HOME smallGrid_wf Hx Hy).
Defined.

Lemma readings_are_monotone_witness :
  wfGrid smallGrid /\ cellsIn01 smallGrid /\
  (forall x y t amount x' y' t', 0 <= amount ->
     getLevel params0 x' y' t' smallGrid
     <= getLevel params0 x' y' t' (deposit params0 x y t amount smallGrid)) /\
  (forall rate x' y' t', 0 < rate /\ rate <= 1 ->
     getLevel params0 x' y' t' (evaporate rate smallGrid)
     <= getLevel params0 x' y' t' smallGrid).
Proof.
  split; [exact smallGrid_wf |]. split; [exact smallGrid_in01 |].
  exact (readings_are_monotone params0 smallGrid smallGrid_wf smallGrid_in01).
Defined.

(** * Rounding *)

(** ** Powers of two *)

Lemma pow2_pos (k : Z) : 0 < 2 ^ k.
Proof. apply Qpower_0_lt. reflexivity. Qed.

Lemma pow2_le (j k : Z) : (j <= k)%Z -> 2 ^ j <= 2 ^ k.
Proof. intros H. apply Qpower_le_compat_l; [exact H | discriminate]. Qed.

Lemma pow2_lt (j k : Z) : (j < k)%Z -> 2 ^ j < 2 ^ k.
Proof. intros H. apply Qpower_lt_compat_l; [exact H | reflexivity]. Qed.

Lemma pow2_lt_inv (j k : Z) : 2 ^ j < 2 ^ k -> (j < k)%Z.
Proof. intros H. apply (Qpower_lt_compat_l_inv 2); [exact H | reflexivity]. Qed.

Lemma pow2_plus (j k : Z) : 2 ^ (j + k) == 2 ^ j * 2 ^ k.
Proof. apply Qpower_plus. discriminate. Qed.

Lemma pow2_Z (k : Z) : (0 <= k)%Z -> inject_Z (2 ^ k) == 2 ^ k.
Proof. intros H. now rewrite Zpower_Qpower. Qed.

Lemma pow2_split (j k : Z) : 2 ^ j == 2 ^ (j - k) * 2 ^ k.
Proof. rewrite <- pow2_plus. now replace (j - k + k)%Z with j by lia. Qed.

(** ** The binary logarithm *)

Lemma ilog2_spec (q : Q) : 0 < q -> 2 ^ ilog2 q <= q /\ q < 2 ^ (ilog2 q + 1).
Proof.
  intros Hq. destruct q as [n d]. unfold ilog2. cbn [Qnum Qden].
  assert (Hn : (0 < n)%Z) by (unfold Qlt in Hq; cbn in Hq; lia).
  set (a := Z.log2 n). set (b := Z.log2 (Z.pos d)).
  destruct (Z.log2_spec n Hn) as [Ha0 Ha1]. fold a in Ha0, Ha1.
  destruct (Z.log2_spec (Z.pos d) eq_refl) as [Hb0 Hb1]. fold b in Hb0, Hb1.
  assert (Ha : (0 <= a)%Z) by apply Z.log2_nonneg.
  assert (Hb : (0 <= b)%Z) by apply Z.log2_nonneg.
  assert (Hq' : n # d == inject_Z n / inject_Z (Z.pos d)) by apply Qmake_Qdiv.
  assert (Hd : 0 < inject_Z (Z.pos d)) by reflexivity.
  assert (Hnq0 : 2 ^ a <= inject_Z n).
  { rewrite <- pow2_Z by exact Ha. rewrite <- Zle_Qle. exact Ha0. }
  assert (Hnq1 : inject_Z n < 2 ^ (a + 1)).
  { rewrite <- pow2_Z by lia. rewrite <- Zlt_Qlt. exact Ha1. }
  assert (Hdq0 : 2 ^ b <= inject_Z (Z.pos d)).
  { rewrite <- pow2_Z by exact Hb. rewrite <- Zle_Qle. exact Hb0. }
  assert (Hdq1 : inject_Z (Z.pos d) < 2 ^ (b + 1)).
  { rewrite <- pow2_Z by lia. rewrite <- Zlt_Qlt. exact Hb1. }
  assert (Hup : n # d < 2 ^ (a - b + 1)).
  { rewrite Hq'. apply Qlt_shift_div_r; [exact Hd |].
    pose proof (pow2_split (a + 1) b) as Hs.
    replace (a + 1 - b)%Z with (a - b + 1)%Z in Hs by lia.
    pose proof (pow2_pos (a - b + 1)). nra. }
  assert (Hlo : 2 ^ (a - b - 1) < n # d).
  { rewrite Hq'. apply Qlt_shift_div_l; [exact Hd |].
    pose proof (pow2_split a (b + 1)) as Hs.
    replace (a - (b + 1))%Z with (a - b - 1)%Z in Hs by lia.
    pose proof (pow2_pos (a - b - 1)). nra. }
  destruct (Qltb (n # d) (2 ^ (a - b))) eqn:Hc.
  - apply Qltb_true in Hc. split; [apply Qlt_le_weak; exact Hlo |].
    replace (a - b - 1 + 1)%Z with (a - b)%Z by lia. exact Hc.
  - apply Qltb_false in Hc. split; [exact Hc | exact Hup].
Qed.

Lemma ilog2_lt (q : Q) (k : Z) : 0 < q -> q < 2 ^ k -> (ilog2 q < k)%Z.
Proof.
  intros Hq Hk. destruct (ilog2_spec q Hq) as [H0 _].
  apply pow2_lt_inv. lra.
Qed.

Lemma ilog2_ge (q : Q) (k : Z) : 2 ^ k <= q -> (k <= ilog2 q)%Z.
Proof.
  intros Hk. pose proof (pow2_pos k).
  destruct (ilog2_spec q) as [_ H1]; [lra |].
  assert (k < ilog2 q + 1)%Z by (apply pow2_lt_inv; lra). lia.
Qed.

(** ** The nearest integer *)

Lemma roundHalfEven_floor (q : Q) :
  (roundHalfEven q = Qfloor q /\ q - inject_Z (Qfloor q) <= 1 # 2) \/
  (roundHalfEven q = (Qfloor q + 1)%Z /\ (1 # 2) <= q - inject_Z (Qfloor q)).
Proof.
  unfold roundHalfEven. cbn zeta. cmp_cases.
  - left. split; [reflexivity | lra].
  - right. split; [reflexivity | lra].
  - destruct (Z.even (Qfloor q)); [left | right]; (split; [reflexivity | lra]).
Qed.

Lemma roundHalfEven_error (q : Q) :
  - (1 # 2) <= inject_Z (roundHalfEven q) - q /\ inject_Z (roundHalfEven q) - q <= 1 # 2.
Proof.
  pose proof (Qfloor_le q) as Hf0. pose proof (Qlt_floor q) as Hf1.
  rewrite inject_Z_plus in Hf1. change (inject_Z 1) with 1 in Hf1.
  destruct (roundHalfEven_floor q) as [[-> H] | [-> H]].
  - split; lra.
  - rewrite inject_Z_plus. change (inject_Z 1) with 1. split; lra.
Qed.

Lemma roundHalfEven_le (q : Q) (z : Z) : q <= inject_Z z -> (roundHalfEven q <= z)%Z.
Proof.
  intros Hq. pose proof (Qfloor_le q) as Hf0. pose proof (Qlt_floor q) as Hf1.
  rewrite inject_Z_plus in Hf1. change (inject_Z 1) with 1 in Hf1.
  assert (Hfz : (Qfloor q <= z)%Z) by (rewrite Zle_Qle; lra).
  destruct (roundHalfEven_floor q) as [[-> H] | [-> H]]; [exact Hfz |].
  destruct (Z.eq_dec (Qfloor q) z) as [E | E]; [| lia].
  rewrite E in H. lra.
Qed.

Lemma roundHalfEven_ge (q : Q) (z : Z) : inject_Z z <= q -> (z <= roundHalfEven q)%Z.
Proof.
  intros Hq. pose proof (Qlt_floor q) as Hf1.
  assert (Hfz : (z < Qfloor q + 1)%Z) by (rewrite Zlt_Qlt; lra).
  destruct (roundHalfEven_floor q) as [[-> _] | [-> _]]; lia.
Qed.

Lemma roundHalfEven_Z (q : Q) (z : Z) : q == inject_Z z -> roundHalfEven q = z.
Proof.
  intros Hq. apply Z.le_antisymm.
  - apply roundHalfEven_le. lra.
  - apply roundHalfEven_ge. lra.
Qed.

(** ** Rounding in a binary format *)

Lemma roundBinary_zero (prec emin : Z) (q : Q) : q == 0 -> roundBinary prec emin q = 0.
Proof.
  intros Hq. unfold roundBinary.
  now rewrite (proj2 (Qeq_bool_iff q 0) Hq).
Qed.

Lemma roundBinary_pos (prec emin : Z) (q : Q) :
  0 < q ->
  roundBinary prec emin q
  = inject_Z (roundHalfEven (q / 2 ^ Z.max (ilog2 q - prec + 1) emin))
    * 2 ^ Z.max (ilog2 q - prec + 1) emin.
Proof.
  intros Hq. unfold roundBinary.
  destruct (Qeq_bool q 0) eqn:E; [apply Qeq_bool_iff in E; lra |].
  assert (Hneg : (q <? 0) = false) by (apply Qltb_false; lra).
  rewrite Hneg. cbn zeta.
  assert (Habs : Qabs q = q).
  { destruct q as [[| n | n] d]; try reflexivity.
    unfold Qlt in Hq. cbn in Hq. lia. }
  rewrite Habs. reflexivity.
Qed.

Section Format.
Variables prec emin : Z.
Hypothesis Hprec : (1 <= prec)%Z.

Lemma roundBinary_scaled (q : Q) :
  0 < q ->
  let u := Z.max (ilog2 q - prec + 1) emin in
  q / 2 ^ u * 2 ^ u == q.
Proof.
  intros Hq u. pose proof (pow2_pos u). field. lra.
Qed.

Lemma roundBinary_nonneg (q : Q) : 0 <= q -> 0 <= roundBinary prec emin q.
Proof.
  intros Hq. destruct (Qlt_le_dec 0 q) as [Hpos | Hz].
  - rewrite roundBinary_pos by exact Hpos.
    set (u := Z.max (ilog2 q - prec + 1) emin).
    pose proof (pow2_pos u) as Hu.
    assert (H0 : (0 <= roundHalfEven (q / 2 ^ u))%Z).
    { apply roundHalfEven_ge. change (inject_Z 0) with 0.
      apply Qle_shift_div_l; [exact Hu | lra]. }
    rewrite Zle_Qle in H0. change (inject_Z 0) with 0 in H0. nra.
  - rewrite roundBinary_zero by lra. lra.
Qed.

(** The error is at most half a unit in the last place. *)
Lemma roundBinary_error (q : Q) :
  0 < q ->
  let u := Z.max (ilog2 q - prec + 1) emin in
  - (2 ^ u * (1 # 2)) <= roundBinary prec emin q - q /\
  roundBinary prec emin q - q <= 2 ^ u * (1 # 2).
Proof.
  intros Hq u. rewrite roundBinary_pos by exact Hq. fold u.
  pose proof (pow2_pos u) as Hu.
  pose proof (roundBinary_scaled q Hq) as Hs. cbn zeta in Hs. fold u in Hs.
  destruct (roundHalfEven_error (q / 2 ^ u)) as [H0 H1].
  set (m := q / 2 ^ u) in *. set (r := inject_Z (roundHalfEven m)) in *.
  split; nra.
Qed.

(** In the normal range the relative error is at most [2^-prec]. *)
Lemma roundBinary_relative (q : Q) :
  2 ^ (emin + prec - 1) <= q ->
  - (q * 2 ^ (- prec)) <= roundBinary prec emin q - q /\
  roundBinary prec emin q - q <= q * 2 ^ (- prec).
Proof.
  intros Hn. pose proof (pow2_pos (emin + prec - 1)).
  assert (Hq : 0 < q) by lra.
  pose proof (ilog2_ge q _ Hn) as He.
  destruct (roundBinary_error q Hq) as [H0 H1]. cbn zeta in H0, H1.
  rewrite Z.max_l in H0, H1 by lia.
  destruct (ilog2_spec q Hq) as [Hlo _].
  assert (Hhalf : 2 ^ (ilog2 q - prec + 1) * (1 # 2) == 2 ^ ilog2 q * 2 ^ (- prec)).
  { replace (ilog2 q - prec + 1)%Z with (ilog2 q + - prec + 1)%Z by lia.
    rewrite !pow2_plus. change (2 ^ 1) with 2. ring. }
  rewrite Hhalf in H0, H1. pose proof (pow2_pos (- prec)).
  split; nra.
Qed.

(** Rounding does not cross a power of two of the format. *)
Lemma roundBinary_le_pow2 (q : Q) (k : Z) :
  (emin <= k)%Z -> 0 <= q -> q <= 2 ^ k -> roundBinary prec emin q <= 2 ^ k.
Proof.
  intros Hk Hq0 Hqk. pose proof (pow2_pos k) as Hpk.
  destruct (Qlt_le_dec 0 q) as [Hpos | Hz]; [| rewrite roundBinary_zero by lra; lra].
  rewrite roundBinary_pos by exact Hpos.
  set (u := Z.max (ilog2 q - prec + 1) emin).
  destruct (ilog2_spec q Hpos) as [Hlo _].
  assert (He : (ilog2 q <= k)%Z).
  { assert (ilog2 q < k + 1)%Z; [| lia].
    apply pow2_lt_inv. pose proof (pow2_lt k (k + 1) ltac:(lia)). lra. }
  assert (Hu : (u <= k)%Z) by (unfold u; lia).
  pose proof (pow2_pos u) as Hpu.
  pose proof (pow2_split k u) as Hs.
  assert (Hm : (roundHalfEven (q / 2 ^ u) <= 2 ^ (k - u))%Z).
  { apply roundHalfEven_le. rewrite pow2_Z by lia.
    apply Qle_shift_div_r; [exact Hpu | lra]. }
  rewrite Zle_Qle, pow2_Z in Hm by lia. nra.
Qed.

Lemma roundBinary_ge_pow2 (q : Q) (k : Z) :
  (emin <= k)%Z -> 2 ^ k <= q -> 2 ^ k <= roundBinary prec emin q.
Proof.
  intros Hk Hqk. pose proof (pow2_pos k) as Hpk.
  assert (Hpos : 0 < q) by lra.
  rewrite roundBinary_pos by exact Hpos.
  set (u := Z.max (ilog2 q - prec + 1) emin).
  pose proof (ilog2_ge q k Hqk) as He.
  destruct (ilog2_spec q Hpos) as [Hlo _].
  assert (Hu : (u <= ilog2 q)%Z) by (unfold u; lia).
  pose proof (pow2_pos u) as Hpu.
  pose proof (pow2_split (ilog2 q) u) as Hs.
  pose proof (pow2_le k (ilog2 q) He) as Hke.
  assert (Hm : (2 ^ (ilog2 q - u) <= roundHalfEven (q / 2 ^ u))%Z).
  { apply roundHalfEven_ge. rewrite pow2_Z by lia.
    apply Qle_shift_div_l; [exact Hpu | lra]. }
  rewrite Zle_Qle, pow2_Z in Hm by lia. nra.
Qed.

(** Below 1 the error is at most [2^(-prec-1)]. *)
Lemma roundBinary_error_below_one (q : Q) :
  (emin <= - prec)%Z -> 0 <= q -> q < 1 ->
  - 2 ^ (- prec - 1) <= roundBinary prec emin q - q /\
  roundBinary prec emin q - q <= 2 ^ (- prec - 1).
Proof.
  intros Hemin Hq0 Hq1. pose proof (pow2_pos (- prec - 1)) as Hp.
  destruct (Qlt_le_dec 0 q) as [Hpos | Hz]; [| rewrite roundBinary_zero by lra; split; lra].
  destruct (roundBinary_error q Hpos) as [H0 H1]. cbn zeta in H0, H1.
  set (u := Z.max (ilog2 q - prec + 1) emin) in *.
  assert (He : (ilog2 q < 0)%Z) by (apply ilog2_lt; [exact Hpos | exact Hq1]).
  assert (Hu : (u <= - prec)%Z) by (unfold u; lia).
  pose proof (pow2_le u (- prec) Hu) as Hle.
  assert (Hhalf : 2 ^ (- prec) * (1 # 2) == 2 ^ (- prec - 1)).
  { rewrite (pow2_split (- prec) (- prec - 1)).
    replace (- prec - (- prec - 1))%Z with 1%Z by lia. change (2 ^ 1) with 2. field. }
  pose proof (pow2_pos u). split; lra.
Qed.

(** A multiple of a power of two of the format whose numerator has at most
    [prec] bits is not changed. *)
Lemma roundBinary_exact (q : Q) (j c : Z) :
  (0 <= j)%Z -> (j < 2 ^ prec)%Z -> (emin <= c)%Z -> q == inject_Z j * 2 ^ c ->
  roundBinary prec emin q == q.
Proof.
  intros Hj0 Hj1 Hc Hq. pose proof (pow2_pos c) as Hpc.
  destruct (Z.eq_dec j 0) as [-> | Hj].
  { rewrite roundBinary_zero; rewrite Hq; change (inject_Z 0) with 0; ring. }
  assert (Hjq : 1 <= inject_Z j) by (change 1 with (inject_Z 1); rewrite <- Zle_Qle; lia).
  assert (Hpos : 0 < q) by (rewrite Hq; nra).
  rewrite roundBinary_pos by exact Hpos.
  set (u := Z.max (ilog2 q - prec + 1) emin).
  assert (Hu : (u <= c)%Z).
  { assert (He : (ilog2 q < prec + c)%Z); [| unfold u; lia].
    apply ilog2_lt; [exact Hpos |].
    assert (Hjp : inject_Z j < 2 ^ prec).
    { rewrite <- pow2_Z by lia. rewrite <- Zlt_Qlt. exact Hj1. }
    rewrite Hq, pow2_plus. nra. }
  pose proof (pow2_pos u) as Hpu.
  pose proof (pow2_split c u) as Hs.
  assert (Hm : roundHalfEven (q / 2 ^ u) = (j * 2 ^ (c - u))%Z).
  { apply roundHalfEven_Z. rewrite inject_Z_mult, pow2_Z by lia.
    rewrite Hq, Hs. field. lra. }
  rewrite Hm, inject_Z_mult, pow2_Z by lia. rewrite Hq, Hs. ring.
Qed.
End Format.

(** ** The two formats of the program *)

Ltac format_side := first [assumption | lia | reflexivity].

Lemma toDouble_nonneg (q : Q) : 0 <= q -> 0 <= toDouble q.
Proof. apply roundBinary_nonneg. Qed.

Lemma Math_fround_nonneg (q : Q) : 0 <= q -> 0 <= Math_fround q.
Proof. apply roundBinary_nonneg. Qed.

Lemma toDouble_le_one (q : Q) : 0 <= q -> q <= 1 -> toDouble q <= 1.
Proof.
  intros H0 H1. change (toDouble q <= 2 ^ 0).
  apply roundBinary_le_pow2; format_side.
Qed.

Lemma Math_fround_le_one (q : Q) : 0 <= q -> q <= 1 -> Math_fround q <= 1.
Proof.
  intros H0 H1. change (Math_fround q <= 2 ^ 0).
  apply roundBinary_le_pow2; format_side.
Qed.

Lemma toDouble_ge_one (q : Q) : 1 <= q -> 1 <= toDouble q.
Proof.
  intros H1. change (2 ^ 0 <= toDouble q).
  apply roundBinary_ge_pow2; format_side.
Qed.

Lemma Math_fround_ge_one (q : Q) : 1 <= q -> 1 <= Math_fround q.
Proof.
  intros H1. change (2 ^ 0 <= Math_fround q).
  apply roundBinary_ge_pow2; format_side.
Qed.

Lemma toDouble_exact (q : Q) (j c : Z) :
  (0 <= j)%Z -> (j < 2 ^ 53)%Z -> (-1074 <= c)%Z -> q == inject_Z j * 2 ^ c ->
  toDouble q == q.
Proof. intros. eapply roundBinary_exact; eauto; lia. Qed.

Lemma Math_fround_exact (q : Q) (j c : Z) :
  (0 <= j)%Z -> (j < 2 ^ 24)%Z -> (-149 <= c)%Z -> q == inject_Z j * 2 ^ c ->
  Math_fround q == q.
Proof. intros. eapply roundBinary_exact; eauto; lia. Qed.

Lemma toDouble_error_below_one (q : Q) :
  0 <= q -> q < 1 ->
  - (1 # 18014398509481984) <= toDouble q - q /\ toDouble q - q <= 1 # 18014398509481984.
Proof.
  intros H0 H1.
  assert (Hab := roundBinary_error_below_one 53 (-1074) q).
  destruct Hab as [Ha Hb]; [lia | exact H0 | exact H1 |].
  change (- (1 # 18014398509481984) <= toDouble q - q) in Ha.
  change (toDouble q - q <= 1 # 18014398509481984) in Hb. split; assumption.
Qed.

Lemma Math_fround_error_below_one (q : Q) :
  0 <= q -> q < 1 ->
  - (1 # 33554432) <= Math_fround q - q /\ Math_fround q - q <= 1 # 33554432.
Proof.
  intros H0 H1.
  assert (Hab := roundBinary_error_below_one 24 (-149) q).
  destruct Hab as [Ha Hb]; [lia | exact H0 | exact H1 |].
  change (- (1 # 33554432) <= Math_fround q - q) in Ha.
  change (Math_fround q - q <= 1 # 33554432) in Hb. split; assumption.
Qed.

Lemma toDouble_relative (q : Q) :
  2 ^ (-1022) <= q ->
  q * (1 - 2 ^ (-53)) <= toDouble q /\ toDouble q <= q * (1 + 2 ^ (-53)).
Proof.
  intros H. destruct (roundBinary_relative 53 (-1074) q H) as [H0 H1].
  change (- (q * 2 ^ (-53)) <= toDouble q - q) in H0.
  change (toDouble q - q <= q * 2 ^ (-53)) in H1. split; lra.
Qed.

Lemma Math_fround_relative (q : Q) :
  2 ^ (-126) <= q ->
  q * (1 - 2 ^ (-24)) <= Math_fround q /\ Math_fround q <= q * (1 + 2 ^ (-24)).
Proof.
  intros H. destruct (roundBinary_relative 24 (-149) q H) as [H0 H1].
  change (- (q * 2 ^ (-24)) <= Math_fround q - q) in H0.
  change (Math_fround q - q <= q * 2 ^ (-24)) in H1. split; lra.
Qed.

(** * The field with rounding *)

(** ** The loop of [evaporate], cell by cell *)

Lemma toDouble_threshold : 0.001 <= toDouble 0.001.
Proof. vm_compute. discriminate. Qed.

Lemma rounded_evaporateAt_eq (rate : number) (g : PheromoneGrid) (i : nat) :
  Rounded.evaporateAt rate g i =
  {| width := width g; height := height g;
     homeGrid := Rounded.stepCell rate (homeGrid g) i;
     foodGrid := Rounded.stepCell rate (foodGrid g) i |}.
Proof.
  unfold Rounded.evaporateAt, Rounded.stepCell. cbn -[aget aset Qltb toDouble Math_fround].
  rewrite !aget_nat, !aset_nat.
  destruct (default 0 (<[i:=Math_fround (toDouble (default 0 (homeGrid g !! i) * rate))]>
                         (homeGrid g) !! i) <? toDouble 0.001);
    cbn -[Qltb toDouble Math_fround]; destruct (_ <? _); reflexivity.
Qed.

Lemma rounded_stepCell_lookup (rate : number) (a : Float32Array) (i j : nat) :
  Rounded.stepCell rate a i !! j =
  if decide (i = j) then Rounded.decayCell rate <$> a !! j else a !! j.
Proof.
  unfold Rounded.stepCell. destruct (decide (i = j)) as [<- | Hne].
  - destruct (a !! i) as [v |] eqn:Hv.
    + assert (i < length a)%nat by (eapply lookup_lt_Some; eauto).
      rewrite list_lookup_insert_eq by assumption. cbn -[Qltb toDouble Math_fround].
      unfold Rounded.decayCell. cbn zeta.
      destruct (Math_fround (toDouble (v * rate)) <? toDouble 0.001).
      * rewrite list_lookup_insert_eq by (rewrite length_insert; assumption). reflexivity.
      * rewrite list_lookup_insert_eq by assumption. reflexivity.
    + assert (length a <= i)%nat by (apply lookup_ge_None; assumption).
      rewrite !list_insert_ge by (rewrite ?length_insert; assumption).
      destruct (_ <? _); rewrite ?list_insert_ge by assumption; rewrite Hv; reflexivity.
  - destruct (_ <? _); rewrite !list_lookup_insert_ne by assumption; reflexivity.
Qed.

Lemma rounded_stepCells_lookup (rate : number) (a : Float32Array) (k j : nat) :
  foldl (Rounded.stepCell rate) a (seq 0 k) !! j =
  if decide (j < k)%nat then Rounded.decayCell rate <$> a !! j else a !! j.
Proof.
  induction k as [| k IH].
  - reflexivity.
  - rewrite seq_S, foldl_app. cbn [foldl Nat.add]. rewrite rounded_stepCell_lookup, IH.
    destruct (decide (k = j)) as [-> | Hne].
    + destruct (decide (j < j)%nat); [lia |].
      destruct (decide (j < S j)%nat); [reflexivity | lia].
    + destruct (decide (j < k)%nat), (decide (j < S k)%nat); try lia; reflexivity.
Qed.

Lemma rounded_stepCells_all (rate : number) (a : Float32Array) (n : nat) :
  (length a <= n)%nat ->
  foldl (Rounded.stepCell rate) a (seq 0 n) = map (Rounded.decayCell rate) a.
Proof.
  intros Hn. apply list_eq. intros j.
  rewrite rounded_stepCells_lookup, list_lookup_fmap.
  destruct (decide (j < n)%nat) as [| Hge]; [reflexivity |].
  rewrite (lookup_ge_None_2 a j) by lia. reflexivity.
Qed.

Lemma rounded_foldl_evaporateAt (rate : number) (l : list nat) (g : PheromoneGrid) :
  foldl (Rounded.evaporateAt rate) g l =
  {| width := width g; height := height g;
     homeGrid := foldl (Rounded.stepCell rate) (homeGrid g) l;
     foodGrid := foldl (Rounded.stepCell rate) (foodGrid g) l |}.
Proof.
  revert g. induction l as [| i l IH]; intros g.
  - now destruct g.
  - cbn [foldl]. rewrite IH, rounded_evaporateAt_eq. reflexivity.
Qed.

(** On arrays of equal length, [evaporate] maps [decayCell] over both. *)
Lemma rounded_evaporate_map (rate : number) (g : PheromoneGrid) :
  sameLength g ->
  Rounded.evaporate rate g =
  {| width := width g; height := height g;
     homeGrid := map (Rounded.decayCell rate) (homeGrid g);
     foodGrid := map (Rounded.decayCell rate) (foodGrid g) |}.
Proof.
  unfold sameLength. intros Hlen. unfold Rounded.evaporate.
  rewrite rounded_foldl_evaporateAt.
  rewrite !rounded_stepCells_all by lia. reflexivity.
Qed.

Lemma rounded_evaporate_iter_lookup (rate : number) (g : PheromoneGrid) (t : PheromoneType)
    (n i : nat) :
  sameLength g ->
  sameLength (Nat.iter n (Rounded.evaporate rate) g) /\
  width (Nat.iter n (Rounded.evaporate rate) g) = width g /\
  height (Nat.iter n (Rounded.evaporate rate) g) = height g /\
  channel t (Nat.iter n (Rounded.evaporate rate) g) !! i
    = Nat.iter n (Rounded.decayCell rate) <$> channel t g !! i.
Proof.
  intros Hlen. induction n as [| n (IHlen & IHw & IHh & IH)].
  - split; [exact Hlen |]. split; [reflexivity |]. split; [reflexivity |].
    cbn. now destruct (channel t g !! i).
  - rewrite !Nat.iter_succ. rewrite rounded_evaporate_map by exact IHlen.
    split; [| split; [| split]].
    + unfold sameLength. cbn. rewrite !length_map. exact IHlen.
    + exact IHw.
    + exact IHh.
    + transitivity (Rounded.decayCell rate
                      <$> channel t (Nat.iter n (Rounded.evaporate rate) g) !! i).
      * destruct t; cbn; apply list_lookup_fmap.
      * rewrite IH. now destruct (channel t g !! i).
Qed.

(** ** One cell *)

Lemma pow2_m24 : 2 ^ (-24) == 1 # 16777216.
Proof. reflexivity. Qed.

Lemma pow2_m53 : 2 ^ (-53) == 1 # 9007199254740992.
Proof. reflexivity. Qed.

Lemma small_single : 2 ^ (-126) < 0.001.
Proof. reflexivity. Qed.

Lemma small_double : 2 ^ (-1022) < 2 ^ (-126).
Proof. apply pow2_lt. lia. Qed.

(** A double product stored in a [Float32Array] that is not tiny is within
    [storeError] of the exact product, relatively. *)
Lemma store_relative (q : Q) :
  0 <= q -> 0.001 <= Math_fround (toDouble q) ->
  q * (1 - storeError) <= Math_fround (toDouble q) /\
  Math_fround (toDouble q) <= q * (1 + storeError).
Proof.
  intros Hq Hbig. pose proof small_single as Hs. pose proof small_double as Hd.
  assert (Hd0 : 0 <= toDouble q) by now apply toDouble_nonneg.
  assert (Hnd : 2 ^ (-126) <= toDouble q).
  { destruct (Qlt_le_dec (toDouble q) (2 ^ (-126))) as [Hlt | Hge]; [| exact Hge].
    assert (Math_fround (toDouble q) <= 2 ^ (-126)); [| lra].
    apply roundBinary_le_pow2; [lia | lia | exact Hd0 | lra]. }
  assert (Hnq : 2 ^ (-1022) <= q).
  { destruct (Qlt_le_dec q (2 ^ (-1022))) as [Hlt | Hge]; [| exact Hge].
    assert (toDouble q <= 2 ^ (-1022)); [| lra].
    apply roundBinary_le_pow2; [lia | lia | exact Hq | lra]. }
  destruct (toDouble_relative q Hnq) as [Hq0 Hq1].
  destruct (Math_fround_relative (toDouble q) Hnd) as [Hf0 Hf1].
  rewrite pow2_m53 in Hq0, Hq1. rewrite pow2_m24 in Hf0, Hf1.
  clear Hs Hd Hnd Hnq Hbig. unfold storeError.
  set (d := toDouble q) in *. set (f := Math_fround d) in *.
  assert (Hq' : 0 <= q) by exact Hq.
  split; nra.
Qed.

Lemma rounded_decayCell_zero (rate : number) : Rounded.decayCell rate 0 = 0.
Proof.
  unfold Rounded.decayCell. cbn zeta.
  assert (E : toDouble (0 * rate) = 0) by (apply roundBinary_zero; ring).
  rewrite E. reflexivity.
Qed.

Lemma rounded_decayCell_cases (rate v : number) :
  Rounded.decayCell rate v = 0 \/
  (Rounded.decayCell rate v = Math_fround (toDouble (v * rate)) /\
   toDouble 0.001 <= Rounded.decayCell rate v).
Proof.
  unfold Rounded.decayCell. cbn zeta.
  destruct (Math_fround (toDouble (v * rate)) <? toDouble 0.001) eqn:E.
  - left. reflexivity.
  - right. apply Qltb_false in E. split; [reflexivity | exact E].
Qed.

Lemma rounded_decayCell_bounds (rate v : number) :
  0 <= v -> 0 <= rate ->
  0 <= Rounded.decayCell rate v /\
  Rounded.decayCell rate v <= v * rate * (1 + storeError) /\
  (Rounded.decayCell rate v = 0 \/
   (toDouble 0.001 <= Rounded.decayCell rate v /\
    v * rate * (1 - storeError) <= Rounded.decayCell rate v)).
Proof.
  intros Hv Hr. assert (Hvr : 0 <= v * rate) by nra.
  assert (He : 0 < 1 + storeError) by reflexivity.
  destruct (rounded_decayCell_cases rate v) as [-> | [E Hge]].
  - split; [lra |]. split; [nra | left; reflexivity].
  - pose proof toDouble_threshold as Ht.
    destruct (store_relative (v * rate) Hvr) as [H0 H1]; [rewrite <- E; lra |].
    rewrite <- E in H0, H1.
    split; [lra |]. split; [exact H1 |]. right. split; [exact Hge | exact H0].
Qed.

(** ** One cell over several decays *)

Section Iterates.
Variables rate v : number.
Hypothesis Hv : 0 <= v.
Hypothesis Hrate : 0 < rate.

Lemma rounded_decay_iter_zero (n : nat) : Nat.iter n (Rounded.decayCell rate) 0 = 0.
Proof.
  induction n as [| n IH]; [reflexivity |].
  rewrite Nat.iter_succ, IH. apply rounded_decayCell_zero.
Qed.

Lemma rounded_decay_stays_zero (n m : nat) :
  Nat.iter n (Rounded.decayCell rate) v = 0 ->
  Nat.iter (m + n) (Rounded.decayCell rate) v = 0.
Proof.
  intros Hz. rewrite Nat.iter_add, Hz. apply rounded_decay_iter_zero.
Qed.

Lemma rounded_decay_iter (n : nat) :
  let vn := Nat.iter n (Rounded.decayCell rate) v in
  0 <= vn /\
  vn <= v * rate ^ Z.of_nat n * (1 + storeError) ^ Z.of_nat n /\
  (vn = 0 \/
   (((1 <= n)%nat -> toDouble 0.001 <= vn) /\
    v * rate ^ Z.of_nat n * (1 - storeError) ^ Z.of_nat n <= vn)).
Proof.
  cbn zeta. assert (Hrne : ~ rate == 0) by lra.
  assert (Hup : ~ 1 + storeError == 0) by discriminate.
  assert (Hlo : ~ 1 - storeError == 0) by discriminate.
  assert (Hup0 : 0 < 1 + storeError) by reflexivity.
  assert (Hlo0 : 0 < 1 - storeError) by reflexivity.
  induction n as [| n (IH0 & IH1 & IH2)].
  - change (Nat.iter 0 (Rounded.decayCell rate) v) with v.
    change (Z.of_nat 0) with 0%Z. cbn [Qpower].
    split; [exact Hv |]. split; [lra |]. right. split; [lia | lra].
  - rewrite Nat.iter_succ. set (d := Nat.iter n (Rounded.decayCell rate) v) in *.
    rewrite !Qpower_succ by assumption.
    pose proof (Qpower_0_lt rate (Z.of_nat n) Hrate) as Hp.
    pose proof (Qpower_0_lt _ (Z.of_nat n) Hup0) as Hpu.
    pose proof (Qpower_0_lt _ (Z.of_nat n) Hlo0) as Hpl.
    set (R := rate ^ Z.of_nat n) in *.
    set (U := (1 + storeError) ^ Z.of_nat n) in *.
    set (L := (1 - storeError) ^ Z.of_nat n) in *.
    destruct (rounded_decayCell_bounds rate d IH0 (Qlt_le_weak _ _ Hrate))
      as (Hd0 & Hd1 & Hd2).
    set (d' := Rounded.decayCell rate d) in *.
    split; [exact Hd0 |]. split.
    + apply Qle_trans with (d * rate * (1 + storeError)); [exact Hd1 |].
      assert (H : v * (R * rate) * (U * (1 + storeError))
                  == (v * R * U) * (rate * (1 + storeError))) by ring.
      rewrite H. clear H.
      assert (Hfac : 0 <= rate * (1 + storeError)) by nra.
      assert (H : d * rate * (1 + storeError) == d * (rate * (1 + storeError))) by ring.
      rewrite H. clear H. apply Qmult_le_compat_r; assumption.
    + destruct Hd2 as [Hz | [Hge Hlow]]; [left; exact Hz |].
      destruct IH2 as [Hdz | [_ IHlow]].
      { left. unfold d'. rewrite Hdz. apply rounded_decayCell_zero. }
      right. split; [intros _; exact Hge |].
      apply Qle_trans with (d * rate * (1 - storeError)); [| exact Hlow].
      assert (H : v * (R * rate) * (L * (1 - storeError))
                  == (v * R * L) * (rate * (1 - storeError))) by ring.
      rewrite H. clear H.
      assert (Hfac : 0 <= rate * (1 - storeError)) by nra.
      assert (H : d * rate * (1 - storeError) == d * (rate * (1 - storeError))) by ring.
      rewrite H. clear H. apply Qmult_le_compat_r; assumption.
Qed.

(** Once the upper end of the enclosure is below the threshold the cell is 0. *)
Lemma rounded_decay_snaps (n : nat) :
  (1 <= n)%nat ->
  v * rate ^ Z.of_nat n * (1 + storeError) ^ Z.of_nat n < 0.001 ->
  Nat.iter n (Rounded.decayCell rate) v = 0.
Proof.
  intros Hn Hsmall. destruct (rounded_decay_iter n) as (_ & Hle & [Hz | [Hge _]]).
  - exact Hz.
  - specialize (Hge Hn). pose proof toDouble_threshold. lra.
Qed.
End Iterates.

(** ** Decay over several ticks *)

(** C6 (the code departs from it).  The product is rounded at every call:
    with the default rate, the double 0.985, a cell that holds 1 holds
    8262779 / 2^23 after one call, which is not the rate.  And the
    threshold is tested on the rounded cell: with the rate
    0.000999999999 the product is below 0.001, but the cell stored is
    8589935 / 2^33, which is above the double 0.001, and it is kept. *)
Lemma decay_rounds_each_product :
  0.001 <= 1 * toDouble 0.985 ^ 1 /\
  aget (homeGrid (Rounded.evaporate (toDouble 0.985) unitGrid)) 0 == 8262779 # 8388608 /\
  ~ 8262779 # 8388608 == 1 * toDouble 0.985 ^ 1 /\
  1 * toDouble 0.000999999999 ^ 1 < 0.001 /\
  aget (homeGrid (Rounded.evaporate (toDouble 0.000999999999) unitGrid)) 0
    == 8589935 # 8589934592.
Proof.
  split; [vm_compute; discriminate |].
  split; [vm_compute; reflexivity |].
  split; [vm_compute; discriminate |].
  split; [vm_compute; reflexivity |].
  vm_compute; reflexivity.
Qed.

(** C6, as amended.  A cell that holds [v >= 0], after [n] calls of
    [evaporate] with a rate in (0,1] and no deposit in between, holds the
    [n]-th iterate of the rounded step of one cell.  That value is at most
    [v * rate^n * (1 + 2^-23)^n]; it is either exactly 0 or at least
    [v * rate^n * (1 - 2^-23)^n] (and, after a first call, at least
    0.001); it is exactly 0 once [v * rate^n * (1 + 2^-23)^n < 0.001]
    with [n >= 1]; and once it is 0 it is 0 after every later call. *)
Theorem decay_convergence (g : PheromoneGrid) (t : PheromoneType) (i : nat)
    (v rate : number) (n : nat) :
  sameLength g -> channel t g !! i = Some v -> 0 <= v -> 0 < rate /\ rate <= 1 ->
  exists vn,
    channel t (Nat.iter n (Rounded.evaporate rate) g) !! i = Some vn /\
    vn = Nat.iter n (Rounded.decayCell rate) v /\
    vn <= v * rate ^ Z.of_nat n * (1 + storeError) ^ Z.of_nat n /\
    (vn = 0 \/
     (v * rate ^ Z.of_nat n * (1 - storeError) ^ Z.of_nat n <= vn /\
      ((1 <= n)%nat -> 0.001 <= vn))) /\
    ((1 <= n)%nat ->
     v * rate ^ Z.of_nat n * (1 + storeError) ^ Z.of_nat n < 0.001 -> vn = 0) /\
    (vn = 0 ->
     forall m, (n <= m)%nat ->
       channel t (Nat.iter m (Rounded.evaporate rate) g) !! i = Some 0).
Proof.
  intros Hlen Hv Hv0 [Hr0 Hr1].
  exists (Nat.iter n (Rounded.decayCell rate) v).
  destruct (rounded_decay_iter rate v Hv0 Hr0 n) as (_ & Hup & Hcases).
  cbn zeta in Hup, Hcases.
  split.
  { destruct (rounded_evaporate_iter_lookup rate g t n i Hlen) as (_ & _ & _ & ->).
    rewrite Hv. reflexivity. }
  split; [reflexivity |]. split; [exact Hup |]. split.
  { destruct Hcases as [Hz | [Hge Hlow]]; [left; exact Hz | right].
    split; [exact Hlow |]. intros Hn. pose proof toDouble_threshold.
    specialize (Hge Hn). lra. }
  split; [apply rounded_decay_snaps; assumption |].
  intros Hz m Hm.
  destruct (rounded_evaporate_iter_lookup rate g t m i Hlen) as (_ & _ & _ & ->).
  rewrite Hv. cbn [fmap option_fmap option_map]. f_equal.
  replace m with ((m - n) + n)%nat by lia.
  apply rounded_decay_stays_zero. exact Hz.
Qed.

Lemma decay_convergence_witness :
  sameLength smallGrid /\ channel HOME smallGrid !! 1%nat = Some 0.5 /\
  0 <= 0.5 /\ (0 < 0.5 /\ 0.5 <= 1) /\
  (exists v1,
     channel HOME (Nat.iter 1 (Rounded.evaporate 0.5) smallGrid) !! 1%nat = Some v1 /\
     0.5 * 0.5 ^ Z.of_nat 1 * (1 - storeError) ^ Z.of_nat 1 <= v1 /\
     v1 <= 0.5 * 0.5 ^ Z.of_nat 1 * (1 + storeError) ^ Z.of_nat 1 /\
     0.001 <= v1) /\
  (1 <= 9)%nat /\
  0.5 * 0.5 ^ Z.of_nat 9 * (1 + storeError) ^ Z.of_nat 9 < 0.001 /\
  channel HOME (Nat.iter 9 (Rounded.evaporate 0.5) smallGrid) !! 1%nat = Some 0 /\
  (forall m, (9 <= m)%nat ->
     channel HOME (Nat.iter m (Rounded.evaporate 0.5) smallGrid) !! 1%nat = Some 0).
Proof.
  assert (Hr : 0 < 0.5 /\ 0.5 <= 1) by (split; [reflexivity | discriminate]).
  assert (Hv : 0 <= 0.5) by discriminate.
  assert (Hsmall : 0.5 * 0.5 ^ Z.of_nat 9 * (1 + storeError) ^ Z.of_nat 9 < 0.001)
    by reflexivity.
  split; [reflexivity |]. split; [reflexivity |]. split; [exact Hv |].
  split; [exact Hr |]. split.
  - destruct (decay_convergence smallGrid HOME 1 0.5 0.5 1 eq_refl eq_refl Hv Hr)
      as (v1 & Hl & Hit & Hup & Hcases & _).
    exists v1. split; [exact Hl |].
    destruct Hcases as [Hz | [Hlow Hge]].
    + exfalso. rewrite Hit in Hz. vm_compute in Hz. discriminate Hz.
    + split; [exact Hlow |]. split; [exact Hup |]. apply Hge. lia.
  - split; [lia |]. split; [exact Hsmall |].
    destruct (decay_convergence smallGrid HOME 1 0.5 0.5 9 eq_refl eq_refl Hv Hr)
      as (v9 & Hl & _ & _ & _ & Hsnap & Hstay).
    assert (Hz : v9 = 0) by (apply Hsnap; [lia | exact Hsmall]).
    split; [rewrite Hl, Hz; reflexivity |].
    exact (Hstay Hz).
Defined.

(** X7.  A trail that is not renewed disappears: on a field whose cells
    lie in [0,1], once [rate^n * (1 + 2^-23)^n < 0.001] (with [rate] in
    (0,1] and [n >= 1]), [n] decays leave exactly the all-zero field that
    [reset] makes. *)
Theorem field_dies_out (rate : number) (n : nat) (g : PheromoneGrid) :
  sameLength g -> cellsIn01 g ->
  0 < rate /\ rate <= 1 -> (1 <= n)%nat ->
  rate ^ Z.of_nat n * (1 + storeError) ^ Z.of_nat n < 0.001 ->
  Nat.iter n (Rounded.evaporate rate) g = reset g.
Proof.
  intros Hlen H01 [Hr0 Hr1] Hn Hpow.
  destruct (rounded_evaporate_iter_lookup rate g HOME n 0 Hlen) as (_ & HW & HH & _).
  assert (Hch : forall t, channel t (Nat.iter n (Rounded.evaporate rate) g)
                          = replicate (length (channel t g)) 0).
  { intros t. apply list_eq. intros i.
    destruct (rounded_evaporate_iter_lookup rate g t n i Hlen) as (_ & _ & _ & ->).
    destruct (channel t g !! i) as [v |] eqn:Hv; cbn [fmap option_fmap option_map].
    - pose proof (Forall_lookup_1 _ _ _ _ (channel_in01 t g H01) Hv) as [Hv0 Hv1].
      cbn beta in Hv0, Hv1.
      rewrite (rounded_decay_snaps rate v Hv0 Hr0 n Hn).
      + symmetry. apply lookup_replicate_2. eapply lookup_lt_Some; eauto.
      + pose proof (Qpower_0_lt rate (Z.of_nat n) Hr0) as Hp.
        assert (Hu : 0 < (1 + storeError) ^ Z.of_nat n) by (apply Qpower_0_lt; reflexivity).
        set (R := rate ^ Z.of_nat n) in *. set (U := (1 + storeError) ^ Z.of_nat n) in *.
        assert (0 < R * U) by nra.
        assert (v * R * U == v * (R * U)) as -> by ring. nra.
    - symmetry. apply lookup_replicate_None. apply lookup_ge_None. exact Hv. }
  pose proof (Hch HOME) as Hh. pose proof (Hch FOOD) as Hf. cbn [channel] in Hh, Hf.
  destruct (Nat.iter n (Rounded.evaporate rate) g) as [w' h' hg fg]. cbn in *. subst.
  reflexivity.
Qed.

Lemma field_dies_out_witness :
  sameLength smallGrid /\ cellsIn01 smallGrid /\ (0 < 0.5 /\ 0.5 <= 1) /\
  (1 <= 10)%nat /\ 0.5 ^ Z.of_nat 10 * (1 + storeError) ^ Z.of_nat 10 < 0.001 /\
  Nat.iter 10 (Rounded.evaporate 0.5) smallGrid = reset smallGrid.
Proof.
  assert (Hrate : 0 < 0.5 /\ 0.5 <= 1) by (split; [reflexivity | discriminate]).
  assert (Hn : (1 <= 10)%nat) by lia.
  assert (Hpow : 0.5 ^ Z.of_nat 10 * (1 + storeError) ^ Z.of_nat 10 < 0.001) by reflexivity.
  split; [exact smallGrid_sameLength |]. split; [exact smallGrid_in01 |].
  split; [exact Hrate |]. split; [exact Hn |]. split; [exact Hpow |].
  exact (field_dies_out 0.5 10 smallGrid smallGrid_sameLength smallGrid_in01 Hrate Hn Hpow).
Defined.

(** ** Deposits *)

Lemma rounded_deposit_guard (p : SimParams) (g : PheromoneGrid) (x y : number)
    (t : PheromoneType) (amount : number) :
  Rounded.deposit p x y t amount g =
  if (0 <=? cellIndex g x y)%Z && (cellIndex g x y <? alength (homeGrid g))%Z then
    let ch := effectiveType p t in
    set_channel ch g
      (aset (channel ch g) (cellIndex g x y)
         (Rounded.depositCell amount (aget (channel ch g) (cellIndex g x y))))
  else g.
Proof.
  unfold Rounded.deposit. destruct (_ && _); [| reflexivity].
  destruct (effectiveType p t); reflexivity.
Qed.

Lemma rounded_deposit_wf (p : SimParams) (g : PheromoneGrid) (x y : number)
    (t : PheromoneType) (amount : number) :
  wfGrid g ->
  wfGrid (Rounded.deposit p x y t amount g) /\
  width (Rounded.deposit p x y t amount g) = width g /\
  height (Rounded.deposit p x y t amount g) = height g.
Proof.
  intros Hwf. rewrite rounded_deposit_guard. destruct (_ && _); [| tauto].
  cbn zeta. unfold wfGrid, alength in *.
  destruct (effectiveType p t); cbn; rewrite aset_length; tauto.
Qed.

Lemma rounded_getLevel_deposit (p : SimParams) (g : PheromoneGrid) (x y : number)
    (t : PheromoneType) (amount : number) :
  wfGrid g -> inBounds g x y ->
  getLevel p x y t (Rounded.deposit p x y t amount g)
    = Rounded.depositCell amount (getLevel p x y t g).
Proof.
  intros Hwf Hin.
  pose proof (cellIndex_in_range g x y Hwf Hin) as Hr.
  rewrite (getLevel_inside p g x y t Hin).
  rewrite rounded_deposit_guard.
  assert (Hlen : alength (homeGrid g) = (width g * height g)%Z) by (destruct Hwf; tauto).
  destruct (Z.leb_spec 0 (cellIndex g x y)); [| lia].
  destruct (Z.ltb_spec (cellIndex g x y) (alength (homeGrid g))); [| lia].
  cbn [andb]. cbn zeta.
  rewrite getLevel_inside by (apply inBounds_set_channel; assumption).
  rewrite cellIndex_set_channel, channel_set_channel_same.
  apply aget_aset_same. rewrite channel_length by assumption. exact Hr.
Qed.

Lemma Math_fround_one : Math_fround 1 == 1.
Proof. reflexivity. Qed.

(** One deposit on a cell of [0,1]: the cell stays in [0,1] and is within
    [2^-24] of the capped sum. *)
Lemma depositCell_error (amount v : number) :
  0 <= v -> 0 <= amount ->
  0 <= Rounded.depositCell amount v /\ Rounded.depositCell amount v <= 1 /\
  Math_min 1 (v + amount) - (1 # 16777216) <= Rounded.depositCell amount v /\
  Rounded.depositCell amount v <= Math_min 1 (v + amount) + (1 # 16777216).
Proof.
  intros Hv Ha. unfold Rounded.depositCell.
  assert (Hs0 : 0 <= v + amount) by lra.
  pose proof (toDouble_nonneg _ Hs0) as Hd0.
  set (s := v + amount) in *. set (d := toDouble s) in *.
  destruct (Qlt_le_dec s 1) as [Hs1 | Hs1].
  - destruct (toDouble_error_below_one s Hs0 Hs1) as [He0 He1]. fold d in He0, He1.
    assert (Hd1 : d <= 1) by (apply toDouble_le_one; lra).
    assert (Hmin : Math_min 1 s == s) by (unfold Math_min; cmp_cases; lra).
    rewrite Hmin. unfold Math_min.
    destruct (d <? 1) eqn:E; [apply Qltb_true in E | apply Qltb_false in E].
    + destruct (Math_fround_error_below_one d Hd0 E) as [Hf0 Hf1].
      pose proof (Math_fround_nonneg d Hd0). pose proof (Math_fround_le_one d Hd0 Hd1).
      repeat split; lra.
    + rewrite Math_fround_one. repeat split; lra.
  - assert (Hd1 : 1 <= d) by (apply toDouble_ge_one; exact Hs1).
    assert (Hmin : Math_min 1 s == 1) by (unfold Math_min; cmp_cases; lra).
    rewrite Hmin. unfold Math_min.
    destruct (d <? 1) eqn:E; [apply Qltb_true in E; lra |].
    rewrite Math_fround_one. repeat split; lra.
Qed.

(** X2.  Deposits at one in-bounds point add up and saturate, up to the
    rounding of the stores: on a well-formed field whose cells lie in
    [0,1], after a deposit of [a >= 0] followed by a deposit of [b >= 0]
    on the same requested channel the reading is the rounded cell after
    both, it lies in [0,1], and it is within [2^-23] of
    [min (1, old + a + b)]. *)
Theorem deposits_accumulate (p : SimParams) (g : PheromoneGrid) (x y a b : number)
    (t : PheromoneType) :
  wfGrid g -> cellsIn01 g -> inBounds g x y -> 0 <= a -> 0 <= b ->
  let old := getLevel p x y t g in
  let reading :=
    getLevel p x y t (Rounded.deposit p x y t b (Rounded.deposit p x y t a g)) in
  reading = Rounded.depositCell b (Rounded.depositCell a old) /\
  0 <= reading /\ reading <= 1 /\
  Math_min 1 (old + a + b) - storeError <= reading /\
  reading <= Math_min 1 (old + a + b) + storeError.
Proof.
  intros Hwf H01 Hin Ha Hb. cbn zeta.
  destruct (rounded_deposit_wf p g x y t a Hwf) as (Hwf' & HW & HH).
  assert (Hin' : inBounds (Rounded.deposit p x y t a g) x y).
  { unfold inBounds. rewrite HW, HH. exact Hin. }
  rewrite (rounded_getLevel_deposit p _ x y t b Hwf' Hin').
  rewrite (rounded_getLevel_deposit p g x y t a Hwf Hin).
  assert (Hold : 0 <= getLevel p x y t g /\ getLevel p x y t g <= 1).
  { rewrite (getLevel_inside p g x y t Hin).
    apply (aget_Forall (fun v => 0 <= v /\ v <= 1)); [lra | now apply channel_in01]. }
  destruct Hold as [Ho0 Ho1]. set (old := getLevel p x y t g) in *.
  destruct (depositCell_error a old Ho0 Ha) as (H10 & H11 & H12 & H13).
  set (r1 := Rounded.depositCell a old) in *.
  destruct (depositCell_error b r1 H10 Hb) as (H20 & H21 & H22 & H23).
  set (r2 := Rounded.depositCell b r1) in *.
  split; [reflexivity |]. split; [exact H20 |]. split; [exact H21 |].
  unfold storeError. revert H12 H13 H22 H23. unfold Math_min. cmp_cases; intros; lra.
Qed.

Lemma deposits_accumulate_witness :
  wfGrid smallGrid /\ cellsIn01 smallGrid /\ inBounds smallGrid 1 1 /\
  0 <= 0.3 /\ 0 <= 0.6 /\
  let old := getLevel params0 1 1 HOME smallGrid in
  let reading :=
    getLevel params0 1 1 HOME
      (Rounded.deposit params0 1 1 HOME 0.6 (Rounded.deposit params0 1 1 HOME 0.3 smallGrid)) in
  reading = Rounded.depositCell 0.6 (Rounded.depositCell 0.3 old) /\
  0 <= reading /\ reading <= 1 /\
  Math_min 1 (old + 0.3 + 0.6) - storeError <= reading /\
  reading <= Math_min 1 (old + 0.3 + 0.6) + storeError.
Proof.
  assert (Ha : 0 <= 0.3) by discriminate.
  assert (Hb : 0 <= 0.6) by discriminate.
  split; [exact smallGrid_wf |]. split; [exact smallGrid_in01 |].
  split; [exact smallGrid_centre_inBounds |].
  split; [exact Ha |]. split; [exact Hb |].
  exact (deposits_accumulate params0 smallGrid 1 1 0.3 0.6 HOME
           smallGrid_wf smallGrid_in01 smallGrid_centre_inBounds Ha Hb).
Defined.

(** * The spawn budget with rounding *)

(** ** One tick *)

Section RoundedTick.
Context {Mth : MathImpl}.
Variable p : SimParams.

Lemma rounded_spawnPhase_full (w : World) :
  nests w <> [] -> validDraws w ->
  returns (Rounded.spawnPhase p) w (fun _ w' =>
    (length (agents w) <= length (agents w'))%nat /\
    (grid w' = grid w /\ nests w' = nests w /\ draws w' = draws w) /\
    ((agentCount p <= Z.of_nat (length (agents w)))%Z -> w' = w) /\
    ((Z.of_nat (length (agents w)) < agentCount p)%Z ->
     spawnAccumulator w' = (Rounded.budget (spawnRate p) (spawnAccumulator w)).2 /\
     (enableSortieRegulation p = false ->
      Z.of_nat (length (agents w'))
        = Z.min (Z.of_nat (length (agents w))
                 + Z.max 0 (Rounded.budget (spawnRate p) (spawnAccumulator w)).1)
                (agentCount p)))).
Proof.
  intros Hne Hdraws. unfold Rounded.spawnPhase.
  apply returns_bind, returns_gets.
  destruct (Z.ltb_spec (Z.of_nat (length (agents w))) (agentCount p)) as [Hroom | Hfull].
  - apply returns_bind, returns_modify, returns_bind, returns_gets.
    cbn zeta. apply returns_bind, returns_modify.
    cbn [spawnAccumulator set_spawnAccumulator].
    set (acc := toDouble (spawnAccumulator w + spawnRate p)).
    set (w2 := set_spawnAccumulator (set_spawnAccumulator w acc)
                 (toDouble (acc - inject_Z (Math_floor acc)))).
    eapply returns_mono.
    { apply (spawnLoop_full p (Z.to_nat (Math_floor acc)) w2); [exact Hne | exact Hdraws]. }
    intros u w' (new & Hags & _ & _ & Hexact & Honly & _).
    unfold onlyAgentsAndDraws in Honly.
    change (agents w2) with (agents w) in *. change (nests w2) with (nests w) in *.
    split; [rewrite Hags, length_app; lia |].
    split; [rewrite Honly; cbn; tauto |].
    split; [intros; lia |]. intros _.
    split; [rewrite Honly; reflexivity |].
    intros Hs. rewrite (Hexact Hs) by lia. rewrite ZifyInst.of_nat_to_nat_eq. reflexivity.
  - apply returns_ret. split; [lia |]. split; [tauto |]. split; [reflexivity |]. intros; lia.
Qed.

(** One tick changes the population and the accumulator as the spawn
    block does. *)
Lemma rounded_loop_population (w : World) :
  nests w <> [] -> validDraws w ->
  returns (Rounded.loop p) w (fun _ w' =>
    draws w' = draws w /\ length (nests w') = length (nests w) /\
    ((agentCount p <= Z.of_nat (length (agents w)))%Z ->
     length (agents w') = length (agents w) /\ spawnAccumulator w' = spawnAccumulator w) /\
    ((Z.of_nat (length (agents w)) < agentCount p)%Z ->
     spawnAccumulator w' = (Rounded.budget (spawnRate p) (spawnAccumulator w)).2 /\
     (enableSortieRegulation p = false ->
      Z.of_nat (length (agents w'))
        = Z.min (Z.of_nat (length (agents w))
                 + Z.max 0 (Rounded.budget (spawnRate p) (spawnAccumulator w)).1)
                (agentCount p)))).
Proof.
  intros Hne Hdraws. unfold Rounded.loop.
  apply returns_bind. eapply returns_mono; [apply tickSurgeTimers_full |].
  intros u1 w1 (Hw1 & Hnl1 & _). cbn beta.
  assert (Hne1 : nests w1 <> []) by (eapply nests_nonempty_length; eauto).
  assert (Hagents1 : agents w1 = agents w) by (rewrite Hw1; reflexivity).
  assert (Hacc1 : spawnAccumulator w1 = spawnAccumulator w) by (rewrite Hw1; reflexivity).
  assert (Hdr1 : draws w1 = draws w) by (rewrite Hw1; reflexivity).
  apply returns_bind. eapply returns_mono.
  { apply rounded_spawnPhase_full; [exact Hne1 |]. rewrite Hw1. exact Hdraws. }
  intros u2 w2 (_ & (_ & Hns2 & Hdr2) & Hfull & Hroom).
  cbn beta.
  apply returns_bind, returns_modify, returns_bind, returns_gets.
  cbn zeta. cbn [agents set_grid].
  eapply returns_mono.
  { apply updateAll_spec; cbn [agents nests set_grid].
    - apply buildSpatialMap_valid.
    - apply Forall_forall. intros ref Href.
      apply list_elem_of_In, in_seq in Href. lia.
    - rewrite Hns2. exact Hne1. }
  intros u3 w3 (Hlen3 & Hacc3 & Hdr3 & Hnl3).
  cbn [agents nests spawnAccumulator draws set_grid] in *.
  rewrite Hagents1, Hacc1 in *.
  split; [congruence |]. split; [congruence |]. split.
  - intros Hc. rewrite (Hfull Hc) in *. split; congruence.
  - intros Hc. destruct (Hroom Hc) as [Ha He].
    rewrite Hlen3, Hacc3. split; [exact Ha | exact He].
Qed.
End RoundedTick.

(** ** Rates whose accumulation is exact *)

Section ExactRate.
Variables j m : Z.
Variable s : number.
Hypothesis Hj : (0 <= j)%Z.
Hypothesis Hm : (0 <= m)%Z.
Hypothesis Hjm : (j + 2 ^ m <= 2 ^ 53)%Z.
Hypothesis Hs : s == inject_Z j / 2 ^ m.

Lemma exactRate_nonneg : 0 <= s.
Proof.
  rewrite Hs. pose proof (pow2_pos m).
  apply Qle_shift_div_l; [assumption |].
  assert (0 <= inject_Z j) by (change 0 with (inject_Z 0); rewrite <- Zle_Qle; exact Hj).
  lra.
Qed.

Lemma exactRate_exponent : (m <= 53)%Z.
Proof.
  assert (H : (2 ^ m <= 2 ^ 53)%Z) by lia.
  apply (Z.pow_le_mono_r_iff 2) in H; lia.
Qed.

Lemma carried_bounds (acc : number) : carried m acc -> 0 <= acc /\ acc < 1.
Proof.
  intros (a & [Ha0 Ha1] & ->). pose proof (pow2_pos m) as Hp.
  assert (H0 : 0 <= inject_Z a) by (change 0 with (inject_Z 0); rewrite <- Zle_Qle; exact Ha0).
  assert (H1 : inject_Z a < 2 ^ m) by (rewrite <- pow2_Z by exact Hm; rewrite <- Zlt_Qlt; exact Ha1).
  split.
  - apply Qle_shift_div_l; [assumption | lra].
  - apply Qlt_shift_div_r; [assumption | lra].
Qed.

(** The three assignments of the spawn block lose nothing at such a rate. *)
Lemma budget_exact (acc : number) :
  carried m acc ->
  (Rounded.budget s acc).1 = Math_floor (acc + s) /\
  (Rounded.budget s acc).2 == acc + s - inject_Z (Math_floor (acc + s)) /\
  carried m (Rounded.budget s acc).2.
Proof.
  intros (a & [Ha0 Ha1] & Hacc). pose proof (pow2_pos m) as Hp.
  pose proof exactRate_exponent as Hm53.
  assert (Hinv : 2 ^ (- m) == / 2 ^ m) by (apply Qpower_opp).
  assert (Hsum : acc + s == inject_Z (a + j) * 2 ^ (- m)).
  { rewrite Hacc, Hs, Hinv, inject_Z_plus. field. lra. }
  assert (E1 : toDouble (acc + s) == acc + s).
  { apply (toDouble_exact _ (a + j) (- m)); [lia | lia | lia | exact Hsum]. }
  unfold Rounded.budget. cbn zeta. cbn [fst snd].
  set (A := toDouble (acc + s)) in *.
  assert (EF : Math_floor A = Math_floor (acc + s)).
  { unfold Math_floor. now rewrite E1. }
  rewrite EF. set (F := Math_floor (acc + s)).
  pose proof (Qfloor_le (acc + s)) as Hf0. pose proof (Qlt_floor (acc + s)) as Hf1.
  rewrite inject_Z_plus in Hf1. change (inject_Z 1) with 1 in Hf1.
  fold (Math_floor (acc + s)) in Hf0, Hf1. fold F in Hf0, Hf1.
  assert (Hscaled : (acc + s) * 2 ^ m == inject_Z (a + j)).
  { rewrite Hsum, Hinv. field. lra. }
  assert (HFq : inject_Z (F * 2 ^ m) == inject_Z F * 2 ^ m).
  { rewrite inject_Z_mult, pow2_Z by exact Hm. reflexivity. }
  assert (HFq1 : inject_Z ((F + 1) * 2 ^ m) == (inject_Z F + 1) * 2 ^ m).
  { rewrite inject_Z_mult, inject_Z_plus, pow2_Z by exact Hm. reflexivity. }
  assert (Hlo : (F * 2 ^ m <= a + j)%Z).
  { rewrite Zle_Qle, HFq. nra. }
  assert (Hhi : (a + j < (F + 1) * 2 ^ m)%Z).
  { rewrite Zlt_Qlt, HFq1. nra. }
  assert (Hdiff : A - inject_Z F == inject_Z (a + j - F * 2 ^ m) * 2 ^ (- m)).
  { unfold Z.sub. rewrite (inject_Z_plus (a + j)), inject_Z_opp, HFq.
    rewrite E1, Hsum, Hinv. field. lra. }
  assert (E2 : toDouble (A - inject_Z F) == A - inject_Z F).
  { apply (toDouble_exact _ (a + j - F * 2 ^ m) (- m)); [lia | lia | lia | exact Hdiff]. }
  split; [reflexivity |]. split; [rewrite E2, E1; reflexivity |].
  exists (a + j - F * 2 ^ m)%Z. split; [lia |].
  rewrite E2, Hdiff, Hinv. reflexivity.
Qed.
End ExactRate.

(** ** Whole ticks *)

Section RoundedTicks.
Context {Mth : MathImpl}.
Variable p : SimParams.

(** Any number of ticks returns. *)
Lemma rounded_loops_returns (k : nat) (w : World) :
  nests w <> [] -> validDraws w ->
  returns (Rounded.loops p k) w (fun _ w' =>
    draws w' = draws w /\ length (nests w') = length (nests w)).
Proof.
  intros Hne Hdraws. induction k as [| k IH].
  - apply returns_ret. split; reflexivity.
  - cbn [Rounded.loops]. apply returns_bind. eapply returns_mono; [exact IH |].
    intros u wk (Hdr & Hnl). cbn beta.
    eapply returns_mono.
    { apply rounded_loop_population.
      - eapply nests_nonempty_length; eauto.
      - unfold validDraws. rewrite Hdr. exact Hdraws. }
    intros u' w' (Hdr' & Hnl' & _). split; congruence.
Qed.

(** After [k] ticks at a rate whose accumulation is exact: either the
    population is below the ceiling, and with the carried remainder it is
    [k] times the rate; or it is at the ceiling, which the budget has
    reached. *)
Lemma rounded_loops_population (k : nat) (w : World) :
  enableSortieRegulation p = false -> nests w <> [] -> validDraws w ->
  exactRate (spawnRate p) -> (0 <= agentCount p)%Z ->
  agents w = [] -> spawnAccumulator w == 0 ->
  returns (Rounded.loops p k) w (fun _ w' =>
    draws w' = draws w /\ length (nests w') = length (nests w) /\
    (((Z.of_nat (length (agents w')) < agentCount p)%Z /\
      (0 <= spawnAccumulator w' /\ spawnAccumulator w' < 1) /\
      inject_Z (Z.of_nat (length (agents w'))) + spawnAccumulator w'
        == inject_Z (Z.of_nat k) * spawnRate p) \/
     (Z.of_nat (length (agents w')) = agentCount p /\
      (agentCount p <= Math_floor (inject_Z (Z.of_nat k) * spawnRate p))%Z))).
Proof.
  intros Hsortie Hne Hdraws (j & m & Hj & Hm & Hjm & Hs) Hc0 Hags Hacc.
  pose proof (exactRate_nonneg j m _ Hj Hs) as Hrate.
  assert (Hinv : returns (Rounded.loops p k) w (fun _ w' =>
    draws w' = draws w /\ length (nests w') = length (nests w) /\
    (((Z.of_nat (length (agents w')) < agentCount p)%Z /\
      carried m (spawnAccumulator w') /\
      inject_Z (Z.of_nat (length (agents w'))) + spawnAccumulator w'
        == inject_Z (Z.of_nat k) * spawnRate p) \/
     (Z.of_nat (length (agents w')) = agentCount p /\
      (agentCount p <= Math_floor (inject_Z (Z.of_nat k) * spawnRate p))%Z)))).
  { induction k as [| k IH].
    - apply returns_ret. rewrite Hags. cbn [length].
      split; [reflexivity |]. split; [reflexivity |].
      destruct (Z.eq_dec (agentCount p) 0) as [Hz | Hnz].
      + right. rewrite Hz. split; [reflexivity |]. vm_compute. discriminate.
      + left. split; [cbn; lia |]. split.
        * exists 0%Z. split; [| rewrite Hacc; reflexivity].
          split; [lia |]. apply Z.pow_pos_nonneg; lia.
        * rewrite Hacc. ring.
    - cbn [Rounded.loops]. apply returns_bind. eapply returns_mono; [exact IH |].
      intros u wk (Hdr & Hnl & Hcase). cbn beta.
      eapply returns_mono.
      { apply rounded_loop_population.
        - eapply nests_nonempty_length; eauto.
        - unfold validDraws. rewrite Hdr. exact Hdraws. }
      intros u' w' (Hdr' & Hnl' & Hfull & Hroom). cbn beta.
      split; [congruence |]. split; [congruence |].
      assert (Hk : inject_Z (Z.of_nat (S k)) == inject_Z (Z.of_nat k) + 1).
      { rewrite Nat2Z.inj_succ. unfold Z.succ. rewrite inject_Z_plus. reflexivity. }
      destruct Hcase as [(Hlt & Hcar & Hsum) | (Heq & Hge)].
      + destruct (Hroom Hlt) as [Hacc' Hlen']. specialize (Hlen' Hsortie).
        destruct (budget_exact j m _ Hj Hm Hjm Hs _ Hcar) as (Hb1 & Hb2 & Hb3).
        destruct (carried_bounds m Hm _ Hcar) as [Ha0 Ha1].
        rewrite Hb1 in Hlen'. rewrite <- Hacc' in Hb2, Hb3.
        set (acc := spawnAccumulator wk + spawnRate p) in *.
        pose proof (Qfloor_le acc) as Hfl. fold (Math_floor acc) in Hfl.
        assert (Hf0 : (0 <= Math_floor acc)%Z) by (apply Math_floor_nonneg; unfold acc; lra).
        rewrite Z.max_r in Hlen' by exact Hf0.
        destruct (Z_lt_le_dec (Z.of_nat (length (agents wk)) + Math_floor acc) (agentCount p))
          as [Hbelow | Habove].
        * left. rewrite Z.min_l in Hlen' by lia.
          split; [lia |]. split; [exact Hb3 |].
          rewrite Hb2, Hlen', inject_Z_plus, Hk. unfold acc in *. lra.
        * right. rewrite Z.min_r in Hlen' by lia. split; [exact Hlen' |].
          apply Math_floor_ge. rewrite Hk.
          assert (Hq : inject_Z (agentCount p)
                       <= inject_Z (Z.of_nat (length (agents wk)) + Math_floor acc))
            by (rewrite <- Zle_Qle; exact Habove).
          rewrite inject_Z_plus in Hq. unfold acc in *. lra.
      + destruct Hfull as [Hl' _]; [lia |]. right.
        split; [rewrite Hl'; exact Heq |].
        apply Math_floor_ge. rewrite Hk.
        pose proof (Qfloor_le (inject_Z (Z.of_nat k) * spawnRate p)) as Hfl.
        fold (Math_floor (inject_Z (Z.of_nat k) * spawnRate p)) in Hfl.
        assert (Hq : inject_Z (agentCount p)
                     <= inject_Z (Math_floor (inject_Z (Z.of_nat k) * spawnRate p)))
          by (rewrite <- Zle_Qle; exact Hge).
        lra. }
  eapply returns_mono; [exact Hinv |].
  intros u w' (Hdr & Hnl & [(Hlt & Hcar & Hsum) | Hsat]).
  - split; [exact Hdr |]. split; [exact Hnl |]. left.
    split; [exact Hlt |]. split; [exact (carried_bounds m Hm _ Hcar) | exact Hsum].
  - split; [exact Hdr |]. split; [exact Hnl |]. right. exact Hsat.
Qed.
End RoundedTicks.

(** At a rate that is not such a fraction the accumulator is rounded at
    every tick, and the population can fall behind the budget: with the
    double 0.1 as rate there is no agent after 10 ticks, the accumulator
    holding 1 - 2^-53, although 10 times the rate is above 1.  The budget
    gives its first unit at tick 11. *)
Lemma tenth_rate_falls_behind :
  Rounded.populationAfter (Mth := refMath) (withSpawnRate params0 (toDouble 0.1)) 10 startWorld
    = Some 0%nat /\
  Rounded.budgets (toDouble 0.1) 10 = (0%Z, 9007199254740991 # 9007199254740992) /\
  Math_floor (inject_Z 10 * toDouble 0.1) = 1%Z /\
  (Rounded.budgets (toDouble 0.1) 11).1 = 1%Z.
Proof.
  split; [lazy; reflexivity |].
  split; [vm_compute; reflexivity |].
  split; [vm_compute; reflexivity |].
  vm_compute; reflexivity.
Qed.

(** C7, as amended.  With sortie regulation disabled and a spawn rate [s]
    whose accumulation is exact in double arithmetic (a fraction
    [j / 2^m] with [j + 2^m <= 2^53]), starting from an empty population
    and a zero accumulator: after [k] ticks, as long as the population is
    below the ceiling (which is as long as [floor (k * s)] is), the number
    of agents is [floor (k * s)] and the accumulator holds the fractional
    part of [k * s]. *)
Theorem spawned_count_is_floor_of_budget {Mth : MathImpl} (p : SimParams) (k : nat)
    (w : World) :
  enableSortieRegulation p = false -> nests w <> [] -> validDraws w ->
  exactRate (spawnRate p) -> agents w = [] -> spawnAccumulator w == 0 ->
  returns (Rounded.loops p k) w (fun _ w' =>
    (Z.of_nat (length (agents w')) < agentCount p)%Z \/
    (Math_floor (inject_Z (Z.of_nat k) * spawnRate p) < agentCount p)%Z ->
    Z.of_nat (length (agents w')) = Math_floor (inject_Z (Z.of_nat k) * spawnRate p) /\
    spawnAccumulator w' ==
      inject_Z (Z.of_nat k) * spawnRate p
      - inject_Z (Math_floor (inject_Z (Z.of_nat k) * spawnRate p))).
Proof.
  intros Hsortie Hne Hdraws Hrate Hags Hacc.
  destruct (Z_lt_le_dec (agentCount p) 0) as [Hneg | Hc0].
  { (* a negative ceiling is never above the population or the budget *)
    eapply returns_mono; [apply (rounded_loops_returns p k w); assumption |].
    intros u w' _ Hbelow. exfalso.
    destruct Hrate as (j & m & Hj & _ & _ & Hs).
    pose proof (exactRate_nonneg j m _ Hj Hs) as Hs0.
    assert (Hk0 : 0 <= inject_Z (Z.of_nat k)).
    { change 0 with (inject_Z 0). rewrite <- Zle_Qle. lia. }
    assert (Hf : (0 <= Math_floor (inject_Z (Z.of_nat k) * spawnRate p))%Z).
    { apply Math_floor_nonneg. apply Qmult_le_0_compat; assumption. }
    destruct Hbelow; lia. }
  eapply returns_mono; [apply (rounded_loops_population p k w); assumption |].
  intros u w' (_ & _ & [(Hlt & [Ha0 Ha1] & Hsum) | (Heq & Hge)]) Hbelow.
  - assert (Hfloor : Math_floor (inject_Z (Z.of_nat k) * spawnRate p)
                     = Z.of_nat (length (agents w'))).
    { apply Math_floor_unique.
      - lra.
      - rewrite inject_Z_plus. change (inject_Z 1) with 1. lra. }
    rewrite Hfloor. split; [reflexivity | lra].
  - exfalso. destruct Hbelow; lia.
Qed.

Lemma spawned_count_is_floor_of_budget_witness :
  enableSortieRegulation (withSpawnRate params0 0.25) = false /\ nests startWorld <> [] /\
  validDraws startWorld /\ exactRate (spawnRate (withSpawnRate params0 0.25)) /\
  agents startWorld = [] /\ spawnAccumulator startWorld == 0 /\
  (Math_floor (inject_Z (Z.of_nat 6) * spawnRate (withSpawnRate params0 0.25))
   < agentCount (withSpawnRate params0 0.25))%Z /\
  returns (Rounded.loops (Mth := refMath) (withSpawnRate params0 0.25) 6) startWorld
    (fun _ w' => length (agents w') = 1%nat /\ spawnAccumulator w' == 0.5).
Proof.
  assert (Hne : nests startWorld <> []) by discriminate.
  assert (Hrate : exactRate (spawnRate (withSpawnRate params0 0.25))).
  { exists 1%Z, 2%Z. split; [lia |]. split; [lia |]. split; [lia | reflexivity]. }
  assert (Hacc : spawnAccumulator startWorld == 0) by reflexivity.
  assert (Hbelow : (Math_floor (inject_Z (Z.of_nat 6) * spawnRate (withSpawnRate params0 0.25))
                    < agentCount (withSpawnRate params0 0.25))%Z) by reflexivity.
  split; [reflexivity |]. split; [exact Hne |]. split; [exact startWorld_validDraws |].
  split; [exact Hrate |]. split; [reflexivity |].
  split; [exact Hacc |]. split; [exact Hbelow |].
  eapply returns_mono.
  - exact (spawned_count_is_floor_of_budget (Mth := refMath) (withSpawnRate params0 0.25) 6
             startWorld eq_refl Hne startWorld_validDraws Hrate eq_refl Hacc).
  - intros u w' H. destruct (H (or_intror Hbelow)) as [Hlen Hcarry].
    change (Math_floor (inject_Z (Z.of_nat 6) * spawnRate (withSpawnRate params0 0.25)))
      with 1%Z in Hlen, Hcarry.
    split; [lia |]. rewrite Hcarry. reflexivity.
Defined.

(** X18.  The population saturates at the ceiling.  With sortie
    regulation off, a spawn rate [s] whose accumulation is exact in double
    arithmetic and a ceiling [agentCount >= 0], from an empty population
    and a zero accumulator, the number of agents after [k] ticks is
    [min (floor (k * s), agentCount)]. *)
Theorem population_saturates_at_ceiling {Mth : MathImpl} (p : SimParams) (k : nat)
    (w : World) :
  enableSortieRegulation p = false -> nests w <> [] -> validDraws w ->
  exactRate (spawnRate p) -> (0 <= agentCount p)%Z ->
  agents w = [] -> spawnAccumulator w == 0 ->
  returns (Rounded.loops p k) w (fun _ w' =>
    Z.of_nat (length (agents w'))
    = Z.min (Math_floor (inject_Z (Z.of_nat k) * spawnRate p)) (agentCount p)).
Proof.
  intros Hsortie Hne Hdraws Hrate Hc0 Hags Hacc.
  eapply returns_mono; [apply (rounded_loops_population p k w); assumption |].
  intros u w' (_ & _ & [(Hlt & [Ha0 Ha1] & Hsum) | (Heq & Hge)]).
  - assert (Hfloor : Math_floor (inject_Z (Z.of_nat k) * spawnRate p)
                     = Z.of_nat (length (agents w'))).
    { apply Math_floor_unique.
      - lra.
      - rewrite inject_Z_plus. change (inject_Z 1) with 1. lra. }
    rewrite Hfloor. lia.
  - rewrite Heq. lia.
Qed.

Lemma population_saturates_at_ceiling_witness :
  enableSortieRegulation (withSpawnRate params0 62.5) = false /\ nests startWorld <> [] /\
  validDraws startWorld /\ exactRate (spawnRate (withSpawnRate params0 62.5)) /\
  (0 <= agentCount (withSpawnRate params0 62.5))%Z /\
  agents startWorld = [] /\ spawnAccumulator startWorld == 0 /\
  returns (Rounded.loops (Mth := refMath) (withSpawnRate params0 62.5) 3) startWorld
    (fun _ w' => length (agents w') = 187%nat) /\
  returns (Rounded.loops (Mth := refMath) (withSpawnRate params0 62.5) 9) startWorld
    (fun _ w' => length (agents w') = 500%nat).
Proof.
  assert (Hne : nests startWorld <> []) by discriminate.
  assert (Hrate : exactRate (spawnRate (withSpawnRate params0 62.5))).
  { exists 125%Z, 1%Z. split; [lia |]. split; [lia |]. split; [lia | reflexivity]. }
  assert (Hc0 : (0 <= agentCount (withSpawnRate params0 62.5))%Z) by discriminate.
  assert (Hacc : spawnAccumulator startWorld == 0) by reflexivity.
  split; [reflexivity |]. split; [exact Hne |]. split; [exact startWorld_validDraws |].
  split; [exact Hrate |]. split; [exact Hc0 |]. split; [reflexivity |].
  split; [exact Hacc |]. split.
  - eapply returns_mono.
    + exact (population_saturates_at_ceiling (Mth := refMath) (withSpawnRate params0 62.5) 3
               startWorld eq_refl Hne startWorld_validDraws Hrate Hc0 eq_refl Hacc).
    + intros u w' H. cbv beta in H.
      change (Z.min _ _) with 187%Z in H. lia.
  - eapply returns_mono.
    + exact (population_saturates_at_ceiling (Mth := refMath) (withSpawnRate params0 62.5) 9
               startWorld eq_refl Hne startWorld_validDraws Hrate Hc0 eq_refl Hacc).
    + intros u w' H. cbv beta in H.
      change (Z.min _ _) with 500%Z in H. lia.
Defined.
